(** * podenv: environment inheritance, capability pipeline, validator and
    argument compiler (podenv/env.py)

    A shallow embedding of [podenv/env.py].  Python objects that the code
    mutates in place ([Env], [ExecContext], the caller's [cliArgs]) are
    threaded explicitly: every function returns the objects it may have
    changed.  Exceptions are values of [result].  Everything read from the
    machine the program runs on (process environment, file system, SELinux
    labels) is a field of [Host]. *)

From Stdlib Require Import ZArith Lia Bool Permutation Sorted DecimalString.
From Stdlib Require Import Ascii.
From Stdlib Require String.
From stdpp Require Import base option list strings relations.

Local Open Scope Z_scope.
Local Open Scope stdpp_scope.

(** ** Exceptions *)

Inductive Exception :=
| RuntimeError (msg : string)
| KeyError (key : string)
| IndexError
| FileNotFoundError (path : string)
| OSError (msg : string)
| FormatError (fmt : string).

Inductive result (A : Type) :=
| Ok (a : A)
| Raise (e : Exception).
Arguments Ok {A} a.
Arguments Raise {A} e.

#[global] Instance result_ret : MRet result := @Ok.
#[global] Instance result_bind : MBind result := λ A B f m,
  match m with Ok a => f a | Raise e => Raise e end.

Definition is_Ok {A} (r : result A) : bool :=
  match r with Ok _ => true | Raise _ => false end.

(** ** Python [str] built-ins used by the program

    Strings are byte strings (UTF-8); comparing them byte-wise agrees with
    Python's comparison by code point. *)

Module Str.

Definition eqb (a b : string) : bool := bool_decide (a = b).

(** [s.startswith(p)] *)
Definition startswith (p s : string) : bool := String.prefix p s.

(** [sub in s] *)
Fixpoint contains (sub s : string) : bool :=
  String.prefix sub s ||
  match s with
  | EmptyString => false
  | String _ s' => contains sub s'
  end.

(** [s.split(c)] for a one-character separator: never empty. *)
Fixpoint split (c : Ascii.ascii) (s : string) : list string :=
  match s with
  | EmptyString => [EmptyString]
  | String a s' =>
      if Ascii.eqb a c then EmptyString :: split c s'
      else match split c s' with
           | w :: ws => String a w :: ws
           | [] => [String a EmptyString]
           end
  end.

(** White space: the characters for which [str.isspace] holds, which
    [str.strip()] and [str.split()] remove.  They are U+0009 to U+000D,
    U+001C to U+0020, U+0085, U+00A0, U+1680, U+2000 to U+200A, U+2028,
    U+2029, U+202F, U+205F and U+3000, and are recognised by the bytes that
    encode them.  Those of one byte: *)
Definition is_space (a : Ascii.ascii) : bool :=
  let n := Ascii.N_of_ascii a in
  (N.eqb n 32 || (N.leb 9 n && N.leb n 13) || (N.leb 28 n && N.leb n 31))%N.

(** U+0085 and U+00A0, of two bytes. *)
Definition is_space2 (a b : Ascii.ascii) : bool :=
  let m := Ascii.N_of_ascii a in
  let n := Ascii.N_of_ascii b in
  (N.eqb m 194 && (N.eqb n 133 || N.eqb n 160))%N.

(** U+1680, U+2000 to U+200A, U+2028, U+2029, U+202F, U+205F and U+3000, of
    three bytes. *)
Definition is_space3 (a b c : Ascii.ascii) : bool :=
  let l := Ascii.N_of_ascii a in
  let m := Ascii.N_of_ascii b in
  let n := Ascii.N_of_ascii c in
  ((N.eqb l 225 && N.eqb m 154 && N.eqb n 128)
   || (N.eqb l 226 && N.eqb m 128
       && ((N.leb 128 n && N.leb n 138) || N.eqb n 168 || N.eqb n 169 || N.eqb n 175))
   || (N.eqb l 226 && N.eqb m 129 && N.eqb n 159)
   || (N.eqb l 227 && N.eqb m 128 && N.eqb n 128))%N.

(** The string without the white space at its start.  With [back] the
    string is read from its end: the bytes of a character come last first. *)
Fixpoint strip_front (back : bool) (s : string) : string :=
  match s with
  | String a s1 =>
      if is_space a then strip_front back s1
      else
        match s1 with
        | String b s2 =>
            if (if back then is_space2 b a else is_space2 a b) then strip_front back s2
            else
              match s2 with
              | String c s3 =>
                  if (if back then is_space3 c b a else is_space3 a b c)
                  then strip_front back s3 else s
              | EmptyString => s
              end
        | EmptyString => s
        end
  | EmptyString => EmptyString
  end.

Definition lstrip (s : string) : string := strip_front false s.
Definition rstrip (s : string) : string := String.rev (strip_front true (String.rev s)).

(** [s.strip()] *)
Definition strip (s : string) : string := rstrip (lstrip s).

(** [s.split()]: the maximal runs of characters that are not white space.
    [cur] is the word being read, last byte first. *)
Definition flush (cur : option string) : list string :=
  match cur with Some w => [String.rev w] | None => [] end.

Fixpoint words_aux (cur : option string) (s : string) : list string :=
  match s with
  | EmptyString => flush cur
  | String a s1 =>
      let word := words_aux (Some (String a (default EmptyString cur))) s1 in
      if is_space a then flush cur ++ words_aux None s1
      else
        match s1 with
        | String b s2 =>
            if is_space2 a b then flush cur ++ words_aux None s2
            else
              match s2 with
              | String c s3 =>
                  if is_space3 a b c then flush cur ++ words_aux None s3 else word
              | EmptyString => word
              end
        | EmptyString => word
        end
  end.
Definition words (s : string) : list string := words_aux None s.

(** [s.replace(old, new)] for a non-empty [old]; [skip] counts the
    characters of a match still to be dropped. *)
Fixpoint replace_aux (old new : string) (skip : nat) (s : string) : string :=
  match s with
  | EmptyString => EmptyString
  | String a s' =>
      match skip with
      | S k => replace_aux old new k s'
      | O =>
          if String.prefix old s
          then new +:+ replace_aux old new (String.length old - 1) s'
          else String a (replace_aux old new O s')
      end
  end.
Definition replace (old new s : string) : string := replace_aux old new O s.

(** [sep.join(l)] *)
Definition join (sep : string) (l : list string) : string := String.concat sep l.

(** [s[n:]] *)
Fixpoint drop (n : nat) (s : string) : string :=
  match n, s with
  | S k, String _ s' => drop k s'
  | _, _ => s
  end.

(** [str(z)] for an integer *)
Definition of_Z (z : Z) : string := NilZero.string_of_int (Z.to_int z).

(** [re.sub('([A-Z]+)', r'-\1', name).lower()] *)
Definition is_upper (a : Ascii.ascii) : bool :=
  let n := Ascii.N_of_ascii a in (N.leb 65 n && N.leb n 90)%N.
Definition lower (a : Ascii.ascii) : Ascii.ascii :=
  if is_upper a then Ascii.ascii_of_N (Ascii.N_of_ascii a + 32) else a.
Fixpoint hyphenate (in_run : bool) (s : string) : string :=
  match s with
  | EmptyString => EmptyString
  | String a s' =>
      if is_upper a
      then (if in_run then String (lower a) (hyphenate true s')
            else String "-"%char (String (lower a) (hyphenate true s')))
      else String (lower a) (hyphenate false s')
  end.

(** [repr(s)]: the string between quotes, double quotes when it holds a
    single quote and no double quote, with the quote in use and the
    backslash escaped, tab, newline and carriage return written [\t], [\n]
    and [\r], and the other control characters of ASCII written [\xhh].
    Characters outside ASCII are copied, as [repr] does with those that can
    be printed. *)
Definition hexdigit (n : N) : Ascii.ascii :=
  Ascii.ascii_of_N (if (n <? 10)%N then 48 + n else 87 + n)%N.

Definition repr_char (quote a : Ascii.ascii) : string :=
  let n := Ascii.N_of_ascii a in
  if Ascii.eqb a quote || Ascii.eqb a "\" then String "\" (String a EmptyString)
  else if N.eqb n 9 then "\t"
  else if N.eqb n 10 then "\n"
  else if N.eqb n 13 then "\r"
  else if (n <? 32)%N || N.eqb n 127
  then String "\" (String "x" (String (hexdigit (n / 16)) (String (hexdigit (n mod 16))
         EmptyString)))
  else String a EmptyString.

Fixpoint escape (quote : Ascii.ascii) (s : string) : string :=
  match s with
  | EmptyString => EmptyString
  | String a s' => repr_char quote a +:+ escape quote s'
  end.

Definition repr (s : string) : string :=
  let quote :=
    if contains "'" s && negb (contains (String "034" EmptyString) s)
    then "034"%char else "'"%char in
  String quote (escape quote s) +:+ String quote EmptyString.

(** Every character of the string is in ASCII. *)
Definition is_ascii (s : string) : bool :=
  forallb (λ a, (Ascii.N_of_ascii a <? 128)%N) (String.list_ascii_of_string s).

(** *** Ordering *)

Definition leb (a b : string) : bool := String.leb a b.

End Str.

Example split_eq : Str.split "="%char "excludesfile = ~/.gitignore" = ["excludesfile "; " ~/.gitignore"].
Proof. reflexivity. Qed.
Example strip_ex : Str.strip "  a b	" = "a b".
Proof. reflexivity. Qed.
(** U+00A0 before and U+2003 after the text are white space; the last two
    bytes of U+00E0 are not. *)
Example strip_unicode_ex :
  Str.strip (String "194" (String "160" ("a" +:+ String "195" (String "160"
               (String "226" (String "128" (String "131" EmptyString))))))) =
  "a" +:+ String "195" (String "160" EmptyString).
Proof. reflexivity. Qed.
Example words_ex : Str.words " helper =  store --file ~/.cred " = ["helper"; "="; "store"; "--file"; "~/.cred"].
Proof. reflexivity. Qed.
Example words_unicode_ex :
  Str.words ("a" +:+ String "194" (String "160" "b c")) = ["a"; "b"; "c"].
Proof. reflexivity. Qed.
Example repr_ex :
  Str.repr "a b" = "'a b'" ∧ Str.repr "it's" = String "034" "it's" +:+ String "034" EmptyString ∧
  Str.repr ("a\b" +:+ String "010" (String "027" EmptyString)) = "'a\\b\n\x1b'".
Proof. repeat split; reflexivity. Qed.
Example replace_ex : Str.replace "~/" "" "~/.config/~/x" = ".config/x".
Proof. reflexivity. Qed.
Example of_Z_ex : Str.of_Z (2 ^ 16 - 1001) = "64535".
Proof. reflexivity. Qed.

(** [camelCaseToHyphen] *)
Definition camelCaseToHyphen (name : string) : string := Str.hyphenate false name.

Example camel_ex : camelCaseToHyphen "mountCwd" = "mount-cwd".
Proof. reflexivity. Qed.

(** ** Orderings: Python's rich comparison on [str], [list] and [tuple] *)

Class CmpOrder {A : Type} (cmp : A → A → comparison) : Prop := {
  cmp_eq : ∀ x y, cmp x y = Eq ↔ x = y;
  cmp_antisym : ∀ x y, cmp y x = CompOpp (cmp x y);
  cmp_lt_trans : ∀ x y z, cmp x y = Lt → cmp y z = Lt → cmp x z = Lt
}.
Arguments cmp_eq {A} cmp {_} x y.
Arguments cmp_antisym {A} cmp {_} x y.
Arguments cmp_lt_trans {A} cmp {_} x y z.

Definition cmp_leb {A} (cmp : A → A → comparison) (x y : A) : bool :=
  match cmp x y with Gt => false | _ => true end.

(** Sequences compare lexicographically, a proper prefix first. *)
Fixpoint lex_compare {A} (cmp : A → A → comparison) (l1 l2 : list A) : comparison :=
  match l1, l2 with
  | [], [] => Eq
  | [], _ :: _ => Lt
  | _ :: _, [] => Gt
  | x :: l1', y :: l2' =>
      match cmp x y with
      | Eq => lex_compare cmp l1' l2'
      | c => c
      end
  end.

(** Tuples compare component by component. *)
Definition pair_compare {A B} (ca : A → A → comparison) (cb : B → B → comparison)
    (p q : A * B) : comparison :=
  match ca p.1 q.1 with
  | Eq => cb p.2 q.2
  | c => c
  end.

(** [sorted(l)]: the sort is stable; insertion keeps the first of two equal
    elements first. *)
Section Sorted.
Context {A : Type} (cmp : A → A → comparison).

Fixpoint insert_sorted (x : A) (l : list A) : list A :=
  match l with
  | [] => [x]
  | y :: l' => if cmp_leb cmp x y then x :: l else y :: insert_sorted x l'
  end.

Definition sorted (l : list A) : list A := foldr insert_sorted [] l.
End Sorted.

(** ** [pathlib.PurePosixPath]

    A path is the list of its parts; an absolute path starts with the part
    ["/"] (or ["//"]).  Equality, hashing and ordering of paths are those of
    the parts. *)

Record Path := mkPath { parts : list string }.

#[global] Instance Path_eq_dec : EqDecision Path.
Proof. solve_decision. Defined.

Fixpoint lstrip_sep (s : string) : string :=
  match s with
  | String a s' => if Ascii.eqb a "/" then lstrip_sep s' else s
  | EmptyString => EmptyString
  end.

(** [_PosixFlavour.splitroot] *)
Definition splitroot (part : string) : string * string :=
  if Str.startswith "/" part then
    let stripped := lstrip_sep part in
    if Nat.eqb (String.length part - String.length stripped) 2
    then ("//", stripped) else ("/", stripped)
  else ("", part).

(** [Path(s)] *)
Definition path_of (s : string) : Path :=
  let '(root, rel) := splitroot s in
  let comps := filter (λ x, x ≠ "" ∧ x ≠ ".") (Str.split "/" rel) in
  mkPath (if decide (root = "") then comps else root :: comps).

(** [Path()] *)
Definition path_empty : Path := mkPath [].

Definition is_anchored (p : Path) : bool :=
  match parts p with
  | r :: _ => Str.startswith "/" r
  | [] => false
  end.

(** [p / q] *)
Definition path_join (p q : Path) : Path :=
  if is_anchored q then q else mkPath (parts p ++ parts q).

Notation "p // s" := (path_join p (path_of s)) (at level 40, left associativity).

(** [p.name] *)
Definition path_name (p : Path) : string :=
  match parts p with
  | [] => ""
  | [r] => if is_anchored p then "" else r
  | _ :: l => List.last l ""
  end.

(** [str(p)] *)
Definition path_str (p : Path) : string :=
  let s := match parts p with
           | r :: l => if is_anchored p then r +:+ Str.join "/" l
                       else Str.join "/" (r :: l)
           | [] => ""
           end in
  if decide (s = "") then "." else s.

Definition path_compare (p q : Path) : comparison :=
  lex_compare String.compare (parts p) (parts q).

Example path_of_ex1 : path_of "/tmp/.X11-unix" = mkPath ["/"; "tmp"; ".X11-unix"].
Proof. reflexivity. Qed.
Example path_of_ex2 : path_of "a//b/./c/" = mkPath ["a"; "b"; "c"].
Proof. reflexivity. Qed.
Example path_of_ex3 : path_of "//x" = mkPath ["//"; "x"] ∧ path_of "///x" = mkPath ["/"; "x"].
Proof. split; reflexivity. Qed.
Example path_str_ex : path_str (path_of "/run/user/1000" // "pulse" // "native") = "/run/user/1000/pulse/native".
Proof. reflexivity. Qed.
Example path_str_empty : path_str path_empty = "." ∧ path_of "" = path_empty ∧ path_of "." = path_empty.
Proof. repeat split; reflexivity. Qed.
Example path_name_ex : path_name (path_of "/etc/hostname") = "hostname" ∧ path_name (path_of "/") = "".
Proof. split; reflexivity. Qed.
(** Paths order by parts, which is not the order of their strings. *)
Example path_order_ex :
  cmp_leb path_compare (path_of "/a/b") (path_of "/a-c") = true ∧
  cmp_leb String.compare "/a/b" "/a-c" = false.
Proof. split; reflexivity. Qed.

(** ** [dict]: insertion-ordered, unique keys *)

Section Dict.
Context {K V : Type} `{EqDecision K}.

Definition Dict := list (K * V).

(** [d.get(k)] *)
Fixpoint dict_get (k : K) (d : Dict) : option V :=
  match d with
  | [] => None
  | (k', v) :: d' => if decide (k = k') then Some v else dict_get k d'
  end.

(** [d[k] = v]: an existing key keeps its position. *)
Fixpoint dict_set (k : K) (v : V) (d : Dict) : Dict :=
  match d with
  | [] => [(k, v)]
  | (k', v') :: d' =>
      if decide (k = k') then (k', v) :: d' else (k', v') :: dict_set k v d'
  end.

(** [d.update(other)] *)
Definition dict_update (d other : Dict) : Dict :=
  foldl (λ acc kv, dict_set kv.1 kv.2 acc) d other.

Definition dict_keys (d : Dict) : list K := d.*1.
Definition dict_values (d : Dict) : list V := d.*2.
End Dict.
Arguments Dict : clear implicits.

(** [d[k]] raising [KeyError] *)
Definition dict_index (k : string) {V} (d : Dict string V) : result V :=
  match dict_get k d with
  | Some v => Ok v
  | None => Raise (KeyError k)
  end.

Fixpoint foldM {A S : Type} (f : S → A → result S) (s : S) (l : list A) : result S :=
  match l with
  | [] => Ok s
  | a :: l' => s' ← f s a; foldM f s' l'
  end.

(** ** The machine the program runs on

    What the program reads from the machine.  The queries of the file
    system and of SELinux are given by the values they return: the embedding
    describes the runs in which these calls return.  Only
    [resolve(strict=True)], which the program calls on a path taken from the
    command line, is given with the exception it may raise. *)

Record Host := {
  os_environ : Dict string string;      (* [os.environ] *)
  expanduser_resolve : Path → Path;     (* [p.expanduser().resolve()] *)
  resolve_strict : Path → result Path;  (* [p.expanduser().resolve(strict=True)] *)
  path_exists : Path → bool;            (* [p.exists()] *)
  path_is_file : Path → bool;           (* [p.is_file()] *)
  read_text : Path → string;            (* [p.read_text()] *)
  listdir_dev : list string;            (* [os.listdir("/dev")] *)
  access_R_OK : string → bool;          (* [os.access(p, os.R_OK)] *)
  HAS_SELINUX : bool;                   (* the selinux module could be imported *)
  getfilecon : string → string;         (* [selinux.getfilecon(p)[1]] *)
  (* [str.format] with keyword arguments, left abstract *)
  str_format : string → Dict string string → result string
}.

(** The order in which [set(l)] is iterated.  For strings it depends on the hash
    seed of the process, so it is an input of rendering. *)
Definition SetOrder := list string → list string.

(** An iteration of [set(l)] visits every distinct element of [l] once. *)
Definition set_order_valid (so : SetOrder) : Prop :=
  ∀ l, NoDup (so l) ∧ ∀ x, x ∈ so l ↔ x ∈ l.

Definition ExecArgs := list string.

(** ** [ExecContext] *)

Module ExecContext.

Record t := mk {
  environ : Dict string string;
  mounts : Dict Path Path;
  syscaps : list string;
  execArgs : ExecArgs;
  home : Path;
  cwd : Path;
  xdgDir : Path;
  seLinuxLabel : string;
  seccomp : string;
  networkNamespace : string
}.

(** [ExecContext()] *)
Definition empty : t := mk [] [] [] [] path_empty path_empty path_empty "" "" "".

Definition set_environ v c := mk v (mounts c) (syscaps c) (execArgs c) (home c) (cwd c) (xdgDir c) (seLinuxLabel c) (seccomp c) (networkNamespace c).
Definition set_mounts v c := mk (environ c) v (syscaps c) (execArgs c) (home c) (cwd c) (xdgDir c) (seLinuxLabel c) (seccomp c) (networkNamespace c).
Definition set_syscaps v c := mk (environ c) (mounts c) v (execArgs c) (home c) (cwd c) (xdgDir c) (seLinuxLabel c) (seccomp c) (networkNamespace c).
Definition set_execArgs v c := mk (environ c) (mounts c) (syscaps c) v (home c) (cwd c) (xdgDir c) (seLinuxLabel c) (seccomp c) (networkNamespace c).
Definition set_home v c := mk (environ c) (mounts c) (syscaps c) (execArgs c) v (cwd c) (xdgDir c) (seLinuxLabel c) (seccomp c) (networkNamespace c).
Definition set_cwd v c := mk (environ c) (mounts c) (syscaps c) (execArgs c) (home c) v (xdgDir c) (seLinuxLabel c) (seccomp c) (networkNamespace c).
Definition set_xdgDir v c := mk (environ c) (mounts c) (syscaps c) (execArgs c) (home c) (cwd c) v (seLinuxLabel c) (seccomp c) (networkNamespace c).
Definition set_seLinuxLabel v c := mk (environ c) (mounts c) (syscaps c) (execArgs c) (home c) (cwd c) (xdgDir c) v (seccomp c) (networkNamespace c).
Definition set_seccomp v c := mk (environ c) (mounts c) (syscaps c) (execArgs c) (home c) (cwd c) (xdgDir c) (seLinuxLabel c) v (networkNamespace c).
Definition set_networkNamespace v c := mk (environ c) (mounts c) (syscaps c) (execArgs c) (home c) (cwd c) (xdgDir c) (seLinuxLabel c) (seccomp c) v.

(** [ctx.environ[k] = v] and [ctx.mounts[k] = v] *)
Definition setenv (k v : string) (c : t) : t := set_environ (dict_set k v (environ c)) c.
Definition mount (k v : Path) (c : t) : t := set_mounts (dict_set k v (mounts c)) c.

Definition args (a : list string) (c : t) : t := set_execArgs (execArgs c ++ a) c.

Definition hasNetwork (c : t) : bool :=
  Str.eqb (networkNamespace c) "" || negb (Str.eqb (networkNamespace c) "none").

Definition hasDirectNetwork (c : t) : bool :=
  Str.eqb (networkNamespace c) "" || Str.eqb (networkNamespace c) "host".

(** The pieces of [getArgs], in the order they are emitted. *)
Definition securityArgs (c : t) : ExecArgs :=
  (if Str.eqb (seLinuxLabel c) "" then [] else ["--security-opt"; "label=" +:+ seLinuxLabel c]) ++
  (if Str.eqb (seccomp c) "" then [] else ["--security-opt"; "seccomp=" +:+ seccomp c]).

Definition networkArgs (c : t) : ExecArgs :=
  if Str.eqb (networkNamespace c) "" then [] else ["--network"; networkNamespace c].

Definition workdirArgs (c : t) : ExecArgs := ["--workdir"; path_str (cwd c)].

(** [self.mounts[mount]]: the key comes from the dictionary itself. *)
Definition mountFlag (h : Host) (c : t) (mount : Path) : ExecArgs :=
  match dict_get mount (mounts c) with
  | Some hostPath =>
      ["-v"; path_str (expanduser_resolve h hostPath) +:+ ":" +:+ path_str mount]
  | None => []
  end.

Definition mountArgs (h : Host) (c : t) : ExecArgs :=
  flat_map (mountFlag h c) (sorted path_compare (dict_keys (mounts c))).

Definition capArgs (so : SetOrder) (c : t) : ExecArgs :=
  flat_map (λ cap, ["--cap-add"; cap]) (so (syscaps c)).

Definition environFlag (ev : string * string) : ExecArgs :=
  ["-e"; ev.1 +:+ "=" +:+ ev.2].

Definition environArgs (c : t) : ExecArgs :=
  flat_map environFlag (sorted (pair_compare String.compare String.compare) (environ c)).

(** [getArgs] assigns [self.cwd] when it is the empty path, so the context
    is returned next to the arguments. *)
Definition getArgs (so : SetOrder) (h : Host) (c : t) : t * ExecArgs :=
  let c := if decide (cwd c = path_empty) then set_cwd (home c) c else c in
  (c, securityArgs c ++ networkArgs c ++ workdirArgs c ++ mountArgs h c ++
      capArgs so c ++ environArgs c ++ execArgs c).

End ExecContext.
Abbreviation ExecContext := ExecContext.t.

(** ** [DesktopEntry] and the values of the loosely typed fields *)

Record DesktopEntry := {
  envName : string;
  relPath : Path;
  terminal : bool;
  desktop_name : string;
  icon : string
}.

(** [Union[str, Dict[str, str]]] *)
Inductive StrOrDict :=
| AStr (s : string)
| ADict (d : Dict string string).

Definition Task := Dict string StrOrDict.
Definition Overlay := StrOrDict.

(** A [Runtime] object, of which only the identity matters here. *)
Inductive Runtime := RuntimeObject (id : nat).

(** ** [Env] *)

Module Env.

Record t := mk {
  name : string;
  description : option string;
  parent : string;
  desktop : option DesktopEntry;
  image : string;
  rootfs : string;
  dns : string;
  imageCustomizations : list string;
  imageTasks : list Task;
  packages : list string;
  command : ExecArgs;
  args : ExecArgs;
  environ : Dict string string;
  syscaps : list string;
  mounts : Dict string string;
  capabilities : Dict string bool;
  network : string;
  requires : list string;
  overlays : list Overlay;
  home : string;
  shmsize : string;
  ports : list string;
  (* internal attributes *)
  runtime : option Runtime;
  ctx : ExecContext;
  runDir : option Path;
  overlaysDir : option Path;
  manageImage : bool;
  autoUpdate : bool;
  mountCache : bool;
  configFile : option Path
}.

(** [Env(name=n, configFile=cfg)]: every other field at its default. *)
Definition new (n : string) (cfg : Path) : t :=
  mk n (Some "") "" None "" "" "" [] [] [] [] [] [] [] [] [] "" [] [] "" "" []
     None ExecContext.empty None None true false false (Some cfg).

Definition set_packages v e := mk (name e) (description e) (parent e) (desktop e) (image e) (rootfs e) (dns e) (imageCustomizations e) (imageTasks e) v (command e) (args e) (environ e) (syscaps e) (mounts e) (capabilities e) (network e) (requires e) (overlays e) (home e) (shmsize e) (ports e) (runtime e) (ctx e) (runDir e) (overlaysDir e) (manageImage e) (autoUpdate e) (mountCache e) (configFile e).
Definition set_capabilities v e := mk (name e) (description e) (parent e) (desktop e) (image e) (rootfs e) (dns e) (imageCustomizations e) (imageTasks e) (packages e) (command e) (args e) (environ e) (syscaps e) (mounts e) v (network e) (requires e) (overlays e) (home e) (shmsize e) (ports e) (runtime e) (ctx e) (runDir e) (overlaysDir e) (manageImage e) (autoUpdate e) (mountCache e) (configFile e).
Definition set_ctx v e := mk (name e) (description e) (parent e) (desktop e) (image e) (rootfs e) (dns e) (imageCustomizations e) (imageTasks e) (packages e) (command e) (args e) (environ e) (syscaps e) (mounts e) (capabilities e) (network e) (requires e) (overlays e) (home e) (shmsize e) (ports e) (runtime e) v (runDir e) (overlaysDir e) (manageImage e) (autoUpdate e) (mountCache e) (configFile e).
Definition set_manageImage v e := mk (name e) (description e) (parent e) (desktop e) (image e) (rootfs e) (dns e) (imageCustomizations e) (imageTasks e) (packages e) (command e) (args e) (environ e) (syscaps e) (mounts e) (capabilities e) (network e) (requires e) (overlays e) (home e) (shmsize e) (ports e) (runtime e) (ctx e) (runDir e) (overlaysDir e) v (autoUpdate e) (mountCache e) (configFile e).
Definition set_autoUpdate v e := mk (name e) (description e) (parent e) (desktop e) (image e) (rootfs e) (dns e) (imageCustomizations e) (imageTasks e) (packages e) (command e) (args e) (environ e) (syscaps e) (mounts e) (capabilities e) (network e) (requires e) (overlays e) (home e) (shmsize e) (ports e) (runtime e) (ctx e) (runDir e) (overlaysDir e) (manageImage e) v (mountCache e) (configFile e).
Definition set_mountCache v e := mk (name e) (description e) (parent e) (desktop e) (image e) (rootfs e) (dns e) (imageCustomizations e) (imageTasks e) (packages e) (command e) (args e) (environ e) (syscaps e) (mounts e) (capabilities e) (network e) (requires e) (overlays e) (home e) (shmsize e) (ports e) (runtime e) (ctx e) (runDir e) (overlaysDir e) (manageImage e) (autoUpdate e) v (configFile e).

(** [env.capabilities.get(cap)] used as a condition, and
    [env.capabilities.get(name, False)]. *)
Definition cap (c : string) (e : t) : bool := default false (dict_get c (capabilities e)).

(** *** [applyParent]

    The loop over [fields(Env)] skips [name] and [parent] and treats each
    other attribute by the run-time type of the two values.  [x in (None,
    "", [], {})] holds for the empty value of each type; booleans, paths
    and the context are never equal to one of the four. *)

(** an attribute holding a [str] *)
Definition inheritStr (child parent : string) : string :=
  if decide (child = "") then parent else child.

(** an attribute holding [None] or an object *)
Definition inheritOpt {A} (child parent : option A) : option A :=
  match child with None => parent | Some _ => child end.

(** an attribute holding [None] or a [str] *)
Definition inheritOptStr (child parent : option string) : option string :=
  match child with
  | None | Some EmptyString => parent
  | Some _ => child
  end.

(** an attribute holding a list, other than [command] *)
Definition inheritList {A} (child parent : list A) : list A :=
  match child with [] => parent | _ => child ++ parent end.

(** [command] *)
Definition inheritCommand (child parent : ExecArgs) : ExecArgs :=
  match child with [] => parent | _ => child end.

(** an attribute holding a dict: the pair is the attribute of the child
    and the attribute of the parent after the step.  [mergedDict] is the
    parent's own dictionary, which [update] changes in place and which the
    child then refers to as well. *)
Definition inheritDict {V} (child parent : Dict string V) : Dict string V * Dict string V :=
  match child with
  | [] => (parent, parent)
  | _ => let mergedDict := dict_update parent child in (mergedDict, mergedDict)
  end.

(** [self.applyParent(parentEnv)]: [self] and [parentEnv] after the call. *)
Definition applyParent (self parentEnv : t) : t * t :=
  let environ' := inheritDict (environ self) (environ parentEnv) in
  let mounts' := inheritDict (mounts self) (mounts parentEnv) in
  let capabilities' := inheritDict (capabilities self) (capabilities parentEnv) in
  (mk (name self)
      (inheritOptStr (description self) (description parentEnv))
      (parent self)
      (inheritOpt (desktop self) (desktop parentEnv))
      (inheritStr (image self) (image parentEnv))
      (inheritStr (rootfs self) (rootfs parentEnv))
      (inheritStr (dns self) (dns parentEnv))
      (inheritList (imageCustomizations self) (imageCustomizations parentEnv))
      (inheritList (imageTasks self) (imageTasks parentEnv))
      (inheritList (packages self) (packages parentEnv))
      (inheritCommand (command self) (command parentEnv))
      (inheritList (args self) (args parentEnv))
      environ'.1
      (inheritList (syscaps self) (syscaps parentEnv))
      mounts'.1
      capabilities'.1
      (inheritStr (network self) (network parentEnv))
      (inheritList (requires self) (requires parentEnv))
      (inheritList (overlays self) (overlays parentEnv))
      (inheritStr (home self) (home parentEnv))
      (inheritStr (shmsize self) (shmsize parentEnv))
      (inheritList (ports self) (ports parentEnv))
      (inheritOpt (runtime self) (runtime parentEnv))
      (ctx self)
      (inheritOpt (runDir self) (runDir parentEnv))
      (inheritOpt (overlaysDir self) (overlaysDir parentEnv))
      (manageImage self)
      (autoUpdate self)
      (mountCache self)
      (inheritOpt (configFile self) (configFile parentEnv)),
   mk (name parentEnv) (description parentEnv) (parent parentEnv)
      (desktop parentEnv) (image parentEnv) (rootfs parentEnv) (dns parentEnv)
      (imageCustomizations parentEnv) (imageTasks parentEnv) (packages parentEnv)
      (command parentEnv) (args parentEnv)
      environ'.2
      (syscaps parentEnv)
      mounts'.2
      capabilities'.2
      (network parentEnv) (requires parentEnv) (overlays parentEnv)
      (home parentEnv) (shmsize parentEnv) (ports parentEnv)
      (runtime parentEnv) (ctx parentEnv) (runDir parentEnv)
      (overlaysDir parentEnv) (manageImage parentEnv) (autoUpdate parentEnv)
      (mountCache parentEnv) (configFile parentEnv)).

End Env.
Abbreviation Env := Env.t.

(** ** The inheritance chain *)

(** The configuration errors of the specification are the [RuntimeError]s
    of the program. *)
Definition ConfigurationError : string → Exception := RuntimeError.

(** Modelled from the spec: the resolution of an inheritance chain.  The
    sources hold the merge of one parent ([Env.applyParent]) and not the
    loader that walks the chain of parent names.  Following the
    specification, the merge is applied with every ancestor in turn, and a
    parent name that was met before is a configuration error.  [envs] maps
    the names to the environments of the configuration; [history] holds
    the names met so far.  The result is [None] when [fuel] steps were not
    enough. *)
Fixpoint resolveParents (fuel : nat) (envs : Dict string Env) (history : list string)
    (env : Env) (parent : string) : option (result Env) :=
  if decide (parent = "") then Some (Ok env)
  else if bool_decide (parent ∈ history) then
    Some (Raise (ConfigurationError ("Circular dependencies detected " +:+ parent)))
  else
    match dict_get parent envs with
    | None => Some (Raise (KeyError parent))
    | Some parentEnv =>
        match fuel with
        | O => None
        | S fuel' =>
            resolveParents fuel' envs (parent :: history)
              (Env.applyParent env parentEnv).1 (Env.parent parentEnv)
        end
    end.

(** Modelled from the spec: the environment called [name], with its
    ancestors merged in.  One step for each environment is enough. *)
Definition loadEnv (envs : Dict string Env) (name : string) : option (result Env) :=
  match dict_get name envs with
  | None => Some (Raise (KeyError name))
  | Some env => resolveParents (length envs) envs [name] env (Env.parent env)
  end.

(** ** Capabilities

    A capability receives [env.ctx] and [env] and changes them in place; here
    it returns both.  The caller stores the context back with [call]. *)

Definition Capability := Host → bool → ExecContext → Env → result (ExecContext * Env).

Definition call (c : Capability) (h : Host) (active : bool) (env : Env) : result Env :=
  '(ctx, env') ← c h active (Env.ctx env) env;
  Ok (Env.set_ctx ctx env').

(** The truth value of [d.get(k)] when the values are objects that are
    always true, as paths are. *)
Definition dict_has {K V} `{EqDecision K} (k : K) (d : Dict K V) : bool :=
  match dict_get k d with Some _ => true | None => false end.

Definition rootCap : Capability := λ _ active ctx env,
  let ctx :=
    if active then
      ExecContext.set_xdgDir (path_of "/run/user/0")
        (ExecContext.set_home (path_of "/root") ctx)
    else
      ExecContext.args ["--user"; "1000"]
        (ExecContext.set_xdgDir (path_of "/run/user/1000")
           (ExecContext.set_home (path_of "/home/user") ctx)) in
  let ctx := ExecContext.setenv "XDG_RUNTIME_DIR" (path_str (ExecContext.xdgDir ctx)) ctx in
  let ctx := ExecContext.setenv "HOME" (path_str (ExecContext.home ctx)) ctx in
  Ok (ctx, env).

Definition getUidMap (_ : Env) : ExecArgs :=
  ["--uidmap"; "1000:0:1"; "--uidmap"; "0:1:999";
   "--uidmap"; "1001:1001:" +:+ Str.of_Z (2 ^ 16 - 1001)].

Definition uidmapCap : Capability := λ _ active ctx env,
  if active then Ok (ExecContext.args (getUidMap env) ctx, env) else Ok (ctx, env).

Definition privilegedCap : Capability := λ _ active ctx env,
  if active then Ok (ExecContext.args ["--privileged"] ctx, env) else Ok (ctx, env).

Definition terminalCap : Capability := λ _ active ctx env,
  if active then
    Ok (ExecContext.args ["--detach-keys"; "ctrl-e,e"] (ExecContext.args ["-it"] ctx), env)
  else Ok (ctx, env).

Definition networkCap : Capability := λ _ active ctx env,
  let ctx :=
    if Str.eqb (Env.network env) "" then ctx
    else ExecContext.set_networkNamespace ("container:net-" +:+ Env.network env) ctx in
  let ctx :=
    if negb active && Str.eqb (Env.network env) ""
    then ExecContext.set_networkNamespace "none" ctx else ctx in
  Ok (ctx, env).

Definition manageImageCap : Capability := λ _ active ctx env,
  Ok (ctx, Env.set_manageImage active env).

Definition mountCwdCap : Capability := λ _ active ctx env,
  if active then
    let ctx := ExecContext.set_cwd (path_of "/data") ctx in
    Ok (ExecContext.mount (ExecContext.cwd ctx) path_empty ctx, env)
  else Ok (ctx, env).

Definition mountRunCap : Capability := λ _ active ctx env,
  if active then
    match Env.runDir env with
    | None => Raise (RuntimeError "runDir isn't set")
    | Some runDir =>
        let ctx :=
          if negb (dict_has (ExecContext.home ctx) (ExecContext.mounts ctx))
             && Str.eqb (Env.home env) ""
          then ExecContext.mount (ExecContext.home ctx) (runDir // "home") ctx
          else ctx in
        let ctx :=
          if negb (dict_has (path_of "/tmp") (ExecContext.mounts ctx))
          then ExecContext.mount (path_of "/tmp") (runDir // "tmp") ctx
          else ctx in
        Ok (ctx, env)
    end
  else Ok (ctx, env).

Definition mountCacheCap : Capability := λ _ active ctx env,
  if active then Ok (ctx, Env.set_mountCache true env) else Ok (ctx, env).

Definition ipcCap : Capability := λ _ active ctx env,
  if active then Ok (ExecContext.args ["--ipc=host"] ctx, env) else Ok (ctx, env).

Definition x11Cap : Capability := λ h active ctx env,
  if active then
    let ctx := ExecContext.mount (path_of "/tmp/.X11-unix") (path_of "/tmp/.X11-unix") ctx in
    display ← dict_index "DISPLAY" (os_environ h);
    Ok (ExecContext.setenv "DISPLAY" display ctx, env)
  else Ok (ctx, env).

Definition pulseaudioCap : Capability := λ h active ctx env,
  if active then
    let ctx := ExecContext.mount (path_of "/etc/machine-id:ro") (path_of "/etc/machine-id") ctx in
    xdg ← dict_index "XDG_RUNTIME_DIR" (os_environ h);
    let ctx := ExecContext.mount (ExecContext.xdgDir ctx // "pulse") (path_of xdg // "pulse") ctx in
    Ok (ExecContext.setenv "PULSE_SERVER"
          (path_str (ExecContext.xdgDir ctx // "pulse" // "native")) ctx, env)
  else Ok (ctx, env).

(** One line of [~/.gitconfig]. *)
Definition gitLine (h : Host) (ctx : ExecContext) (line : string) : result ExecContext :=
  let line := Str.strip line in
  if Str.startswith "excludesfile" line then
    match Str.split "=" line !! 1%nat with
    | None => Raise IndexError
    | Some f =>
        let excludeFileName := Str.strip f in
        let excludeFile := expanduser_resolve h (path_of excludeFileName) in
        if path_is_file h excludeFile
        then Ok (ExecContext.mount
                   (ExecContext.home ctx // Str.replace "~/" "" excludeFileName)
                   excludeFile ctx)
        else Ok ctx
    end
  else if Str.contains "store --file" line then
    match List.last (map Some (Str.words line)) None with
    | None => Raise IndexError
    | Some storeFileName =>
        let storeFile := expanduser_resolve h (path_of storeFileName) in
        if path_is_file h storeFile
        then Ok (ExecContext.mount
                   (ExecContext.home ctx // Str.replace "~/" "" storeFileName)
                   storeFile ctx)
        else Ok ctx
    end
  else Ok ctx.

Definition gitCap : Capability := λ h active ctx env,
  if active then
    let gitconfigFile := expanduser_resolve h (path_of "~/.gitconfig") in
    if path_is_file h gitconfigFile then
      let ctx := ExecContext.mount (ExecContext.home ctx // ".gitconfig") gitconfigFile ctx in
      ctx ← foldM (gitLine h) ctx (Str.split "010" (read_text h gitconfigFile));
      Ok (ctx, env)
    else Ok (ctx, env)
  else Ok (ctx, env).

Definition editorCap : Capability := λ h active ctx env,
  if active then
    Ok (ExecContext.setenv "EDITOR" (default "vi" (dict_get "EDITOR" (os_environ h))) ctx,
        Env.set_packages (Env.packages env ++ ["vi"]) env)
  else Ok (ctx, env).

Definition sshCap : Capability := λ h active ctx env,
  if active then
    sock ← dict_index "SSH_AUTH_SOCK" (os_environ h);
    let ctx := ExecContext.setenv "SSH_AUTH_SOCK" sock ctx in
    let sshSockPath := path_of sock in
    let ctx := ExecContext.mount sshSockPath sshSockPath ctx in
    Ok (ExecContext.mount (ExecContext.home ctx // ".ssh") (path_of "~/.ssh") ctx, env)
  else Ok (ctx, env).

Definition gpgCap : Capability := λ h active ctx env,
  if active then
    xdg ← dict_index "XDG_RUNTIME_DIR" (os_environ h);
    let gpgSockDir := path_of xdg // "gnupg" in
    let ctx := ExecContext.mount (ExecContext.xdgDir ctx // "gnupg") gpgSockDir ctx in
    Ok (ExecContext.mount (ExecContext.home ctx // ".gnupg") (path_of "~/.gnupg") ctx, env)
  else Ok (ctx, env).

Definition webcamCap : Capability := λ h active ctx env,
  if active then
    Ok (foldl (λ ctx device, ExecContext.args ["--device"; path_str (path_of "/dev" // device)] ctx)
          ctx (filter (λ x, Str.startswith "video" x = true) (listdir_dev h)), env)
  else Ok (ctx, env).

Definition driCap : Capability := λ _ active ctx env,
  if active then Ok (ExecContext.args ["--device"; "/dev/dri"] ctx, env) else Ok (ctx, env).

Definition kvmCap : Capability := λ _ active ctx env,
  if active then Ok (ExecContext.args ["--device"; "/dev/kvm"] ctx, env) else Ok (ctx, env).

Definition tunCap : Capability := λ _ active ctx env,
  if active then Ok (ExecContext.args ["--device"; "/dev/net/tun"] ctx, env) else Ok (ctx, env).

Definition selinuxCap : Capability := λ _ active ctx env,
  if active then Ok (ctx, env) else Ok (ExecContext.set_seLinuxLabel "disable" ctx, env).

Definition seccompCap : Capability := λ _ active ctx env,
  if active then Ok (ctx, env) else Ok (ExecContext.set_seccomp "unconfined" ctx, env).

Definition ptraceCap : Capability := λ _ active ctx env,
  if active then
    Ok (ExecContext.set_syscaps (ExecContext.syscaps ctx ++ ["SYS_PTRACE"]) ctx, env)
  else Ok (ctx, env).

Definition setuidCap : Capability := λ _ active ctx env,
  if active then
    Ok (foldl (λ ctx cap, ExecContext.set_syscaps (ExecContext.syscaps ctx ++ [cap]) ctx)
          ctx ["SETUID"; "SETGID"], env)
  else Ok (ctx, env).

Definition autoUpdateCap : Capability := λ _ active ctx env,
  if active then Ok (ctx, Env.set_autoUpdate true env) else Ok (ctx, env).

(** The catalogue: the name of an entry is computed from the name of its
    function without the trailing [Cap]. *)
Definition entry (funcName : string) (c : Capability) : string * Capability :=
  (camelCaseToHyphen (String.substring 0 (String.length funcName - 3) funcName), c).

Definition Capabilities : list (string * Capability) :=
  [ entry "manageImageCap" manageImageCap;
    entry "rootCap" rootCap;
    entry "privilegedCap" privilegedCap;
    entry "terminalCap" terminalCap;
    entry "ipcCap" ipcCap;
    entry "x11Cap" x11Cap;
    entry "pulseaudioCap" pulseaudioCap;
    entry "gitCap" gitCap;
    entry "editorCap" editorCap;
    entry "sshCap" sshCap;
    entry "gpgCap" gpgCap;
    entry "webcamCap" webcamCap;
    entry "driCap" driCap;
    entry "kvmCap" kvmCap;
    entry "tunCap" tunCap;
    entry "seccompCap" seccompCap;
    entry "selinuxCap" selinuxCap;
    entry "setuidCap" setuidCap;
    entry "ptraceCap" ptraceCap;
    entry "networkCap" networkCap;
    entry "mountCwdCap" mountCwdCap;
    entry "mountRunCap" mountRunCap;
    entry "mountCacheCap" mountCacheCap;
    entry "autoUpdateCap" autoUpdateCap;
    entry "uidmapCap" uidmapCap ].

Definition ValidCap : list string := Capabilities.*1.

Example ValidCap_names : ValidCap =
  ["manage-image"; "root"; "privileged"; "terminal"; "ipc"; "x11"; "pulseaudio";
   "git"; "editor"; "ssh"; "gpg"; "webcam"; "dri"; "kvm"; "tun"; "seccomp";
   "selinux"; "setuid"; "ptrace"; "network"; "mount-cwd"; "mount-run";
   "mount-cache"; "auto-update"; "uidmap"].
Proof. reflexivity. Qed.

(** ** [validateEnv] *)

(** The messages handed to [warn], which prints them. *)
Inductive Warning :=
| WSocket (cap : string)
| WUidMap (cap : string)
| WNetAdmin
| WLabel (hostPath : Path)
| WUnreadable (hostPath : Path)
| WOverlay
| WPackages
| WImageTasks.

#[global] Instance Warning_eq_dec : EqDecision Warning.
Proof. solve_decision. Defined.

Definition label : string := "container_file_t".

Definition warn_msg (w : Warning) : string :=
  match w with
  | WSocket cap =>
      "SELinux is disabled because capability '" +:+ cap +:+ "' need " +:+
      "extra type enforcement that are not currently supported."
  | WUidMap cap =>
      "UIDMap is required because '" +:+ cap +:+ "' need " +:+
      "DAC access to the host file"
  | WNetAdmin => "NET_ADMIN capability is needed by the tun device"
  | WLabel hostPath =>
      "SELinux is disabled because " +:+ path_str hostPath +:+ " doesn't have " +:+
      "the " +:+ label +:+ " label. To set the label run: " +:+
      "chcon -Rt " +:+ label +:+ " " +:+ path_str hostPath
  | WUnreadable hostPath => path_str hostPath +:+ " is not readable by the current user."
  | WOverlay => "overlay needs a home mount point, mountRun capability is enabled."
  | WPackages => "manage-image capability is required for packages"
  | WImageTasks => "manage-image capability is required for image tasks"
  end.

(** The body of the loop over the capabilities that need a socket. *)
Definition socketStep (h : Host) : Env * list Warning → string → result (Env * list Warning) :=
  λ '(env, ws) cap,
    if Env.cap cap env then
      env ← call selinuxCap h false env;
      Ok (Env.set_capabilities (dict_set "selinux" false (Env.capabilities env)) env,
          ws ++ [WSocket cap])
    else Ok (env, ws).

(** Check if SELinux will block socket access *)
Definition checkSockets (h : Host) (env : Env) : result (Env * list Warning) :=
  if Env.cap "selinux" env then
    foldM (socketStep h) (env, []) ["x11"; "tun"; "pulseaudio"]
  else Ok (env, []).

(** Check for uid permissions: the loop stops at the first capability found. *)
Definition checkUid (h : Host) (env : Env) : result (Env * list Warning) :=
  if negb (Env.cap "root" env) && negb (Env.cap "uidmap" env) then
    match List.find (λ cap, Env.cap cap env) ["x11"; "pulseaudio"; "ssh"; "gpg"] with
    | Some cap => env ← call uidmapCap h true env; Ok (env, [WUidMap cap])
    | None => Ok (env, [])
    end
  else Ok (env, []).

(** Check for system capabilities *)
Definition checkSyscaps (env : Env) : Env * list Warning :=
  if Env.cap "tun" env && negb (bool_decide ("NET_ADMIN" ∈ ExecContext.syscaps (Env.ctx env))) then
    (Env.set_ctx (ExecContext.set_syscaps (ExecContext.syscaps (Env.ctx env) ++ ["NET_ADMIN"])
                    (Env.ctx env)) env,
     [WNetAdmin])
  else (env, []).

(** The body of the loop over the mounted host paths. *)
Definition labelStep (h : Host) : Env * list Warning → Path → result (Env * list Warning) :=
  λ '(env, ws) hostPath,
    let hostPath := expanduser_resolve h hostPath in
    if path_exists h hostPath then
      match Str.split ":" (getfilecon h (path_str hostPath)) !! 2%nat with
      | None => Raise IndexError
      | Some type =>
          if negb (Str.eqb type label) then
            env ← call selinuxCap h false env;
            Ok (env, ws ++ [WLabel hostPath])
          else Ok (env, ws)
      end
    else Ok (env, ws).

(** Check mount points labels *)
Definition checkLabels (h : Host) (env : Env) : result (Env * list Warning) :=
  if Env.cap "selinux" env && HAS_SELINUX h then
    foldM (labelStep h) (env, []) (dict_values (ExecContext.mounts (Env.ctx env)))
  else Ok (env, []).

(** Check mount points permissions *)
Definition checkReadable (h : Host) (env : Env) : list Warning :=
  flat_map (λ hostPath,
              let hostPath := expanduser_resolve h hostPath in
              if path_exists h hostPath && negb (access_R_OK h (path_str hostPath))
              then [WUnreadable hostPath] else [])
           (dict_values (ExecContext.mounts (Env.ctx env))).

(** Check for home mount point *)
Definition checkHome (h : Host) (env : Env) : result (Env * list Warning) :=
  if negb (bool_decide (Env.overlays env = []))
     && negb (dict_has (ExecContext.home (Env.ctx env)) (ExecContext.mounts (Env.ctx env)))
  then env ← call mountRunCap h true env; Ok (env, [WOverlay])
  else Ok (env, []).

(** Check for image management *)
Definition checkImage (h : Host) (env : Env) : result (Env * list Warning) :=
  if negb (Env.manageImage env) then
    '(env, w1) ←
      (if negb (bool_decide (Env.packages env = []))
       then env ← call manageImageCap h true env; Ok (env, [WPackages])
       else Ok (env, []));
    '(env, w2) ←
      (if negb (bool_decide (Env.imageCustomizations env = []))
          || negb (bool_decide (Env.imageTasks env = []))
       then env ← call manageImageCap h true env; Ok (env, [WImageTasks])
       else Ok (env, []));
    Ok (env, w1 ++ w2)
  else Ok (env, []).

(** [validateEnv(env)]: the environment after the call and the warnings
    printed, in order. *)
Definition validateEnv (h : Host) (env : Env) : result (Env * list Warning) :=
  '(env, w1) ← checkSockets h env;
  '(env, w2) ← checkUid h env;
  let '(env, w3) := checkSyscaps env in
  '(env, w4) ← checkLabels h env;
  let w5 := checkReadable h env in
  '(env, w6) ← checkHome h env;
  '(env, w7) ← checkImage h env;
  Ok (env, w1 ++ w2 ++ w3 ++ w4 ++ w5 ++ w6 ++ w7).

(** ** [prepareEnv] *)

Fixpoint mapM {A B : Type} (f : A → result B) (l : list A) : result (list B) :=
  match l with
  | [] => Ok []
  | a :: l' => b ← f a; bs ← mapM f l'; Ok (b :: bs)
  end.

(** The loop over a list of catalogue entries. *)
Definition runCaps (h : Host) (caps : list (string * Capability)) (env : Env) : result Env :=
  foldM (λ env '(name, capability), call capability h (Env.cap name env) env)
        env caps.

(** Apply capabilities *)
Definition applyCapabilities (h : Host) (env : Env) : result Env :=
  runCaps h Capabilities env.

(** Apply extra settings from the environment definition: the first
    runtime arguments and the context filled from the declared fields. *)
Definition applySettings (h : Host) (env : Env) : result (Env * ExecArgs) :=
  let ctx := Env.ctx env in
  let args := ["--hostname"; Env.name env] in
  let args :=
    if negb (Str.eqb (Env.dns env) "") && ExecContext.hasDirectNetwork ctx
    then args ++ ["--dns=" +:+ Env.dns env] else args in
  let args :=
    if negb (Str.eqb (Env.shmsize env) "")
    then args ++ ["--shm-size=" +:+ Env.shmsize env] else args in
  let ctx :=
    if negb (Str.eqb (Env.home env) "")
    then ExecContext.mount (ExecContext.home ctx)
           (expanduser_resolve h (path_of (Env.home env))) ctx
    else ctx in
  ports ← mapM (λ port, str_format h port (Env.environ env)) (Env.ports env);
  let args := args ++ map (λ port, "--publish=" +:+ port) ports in
  let ctx := ExecContext.set_syscaps (ExecContext.syscaps ctx ++ Env.syscaps env) ctx in
  let ctx := ExecContext.set_environ (dict_update (ExecContext.environ ctx) (Env.environ env)) ctx in
  let ctx :=
    foldl (λ ctx '(containerPath, hostPathStr),
             let hostPath := expanduser_resolve h (path_of hostPathStr) in
             if Str.startswith "~/" containerPath
             then ExecContext.mount (ExecContext.home ctx // Str.drop 2 containerPath) hostPath ctx
             else ExecContext.mount (path_of containerPath) hostPath ctx)
          ctx (Env.mounts env) in
  Ok (Env.set_ctx ctx env, args).

(** [repr] of a list of strings, which ["%s" % l] prints. *)
Definition repr_list (l : list string) : string :=
  "[" +:+ Str.join ", " (map Str.repr l) +:+ "]".

(** Look for file argument requirement: the environment, the caller's
    [cliArgs] after [pop], and [fileArg]. *)
Definition fileArgument (h : Host) (env : Env) (cliArgs : list string)
    : result (Env * list string * option Path) :=
  if bool_decide ("$1" ∈ Env.command env) then
    if bool_decide (1 < length cliArgs)%nat then
      Raise (RuntimeError ("Multiple file input " +:+ repr_list cliArgs))
    else
      match List.last (map Some cliArgs) None with
      | None => Ok (env, cliArgs, None)
      | Some arg =>
          fileArg ← resolve_strict h (path_of arg);
          Ok (Env.set_ctx (ExecContext.mount (path_of "/tmp" // path_name fileArg) fileArg
                             (Env.ctx env)) env,
              removelast cliArgs, Some fileArg)
      end
  else Ok (env, cliArgs, None).

(** The command line: each token of the template appends to [commandArgs]. *)
Definition commandLine (env : Env) (cliArgs : list string) (fileArg : option Path) : ExecArgs :=
  let commandArgs :=
    flat_map (λ command,
                if Str.eqb command "$@" && negb (bool_decide (cliArgs = [])) then cliArgs
                else match fileArg with
                     | Some f => if Str.eqb command "$1" then ["/tmp/" +:+ path_name f]
                                 else [command]
                     | None => [command]
                     end)
             (Env.command env) in
  (* Only use cli args when env isn't a shell *)
  if bool_decide (commandArgs = []) || negb (Str.eqb (List.last commandArgs "") "/bin/bash")
  then commandArgs ++ Env.args env ++ cliArgs
  else commandArgs.

(** OCI doesn't let you join a netns without the userns when using uidmap *)
Definition joinUserns (env : Env) : Env :=
  if Env.cap "uidmap" env
     && Str.startswith "container:" (ExecContext.networkNamespace (Env.ctx env))
  then Env.set_ctx (ExecContext.args ["--userns"; ExecContext.networkNamespace (Env.ctx env)]
                      (Env.ctx env)) env
  else env.

(** What [prepareEnv] leaves behind and returns. *)
Record Prepared := {
  env_after : Env;                 (* [env], changed in place *)
  cliArgs_after : list string;     (* the caller's list, changed in place *)
  warnings : list Warning;         (* printed by [validateEnv] *)
  returned : string * ExecArgs * ExecArgs
}.

(** Everything [prepareEnv] does before it renders [env.ctx]. *)
Definition resolveEnv (h : Host) (env : Env) (cliArgs : list string)
    : result (Env * list string * list Warning * ExecArgs * ExecArgs) :=
  env ← applyCapabilities h env;
  '(env, args) ← applySettings h env;
  '(env, cliArgs, fileArg) ← fileArgument h env cliArgs;
  let commandArgs := commandLine env cliArgs fileArg in
  '(env, ws) ← validateEnv h env;
  let env := joinUserns env in
  Ok (env, cliArgs, ws, args, commandArgs).

Definition prepareEnv (so : SetOrder) (h : Host) (env : Env) (cliArgs : list string)
    : result Prepared :=
  '(env, cliArgs, ws, args, commandArgs) ← resolveEnv h env cliArgs;
  let '(ctx, ctxArgs) := ExecContext.getArgs so h (Env.ctx env) in
  Ok {| env_after := Env.set_ctx ctx env;
        cliArgs_after := cliArgs;
        warnings := ws;
        returned := (Env.name env, args ++ ctxArgs, commandArgs) |}.

(** * Properties *)

(** ** Orderings and sorting *)

Section CmpOrderFacts.
Context {A : Type} (cmp : A → A → comparison) `{!CmpOrder cmp}.

Lemma cmp_refl x : cmp x x = Eq.
Proof. by apply (cmp_eq cmp). Qed.

Lemma cmp_gt_lt x y : cmp x y = Gt ↔ cmp y x = Lt.
Proof. rewrite (cmp_antisym cmp x y). destruct (cmp x y); naive_solver. Qed.

Lemma cmp_leb_total x y : cmp_leb cmp x y = false → cmp_leb cmp y x = true.
Proof.
  unfold cmp_leb. rewrite (cmp_antisym cmp x y).
  by destruct (cmp x y).
Qed.

Lemma cmp_leb_antisym x y : cmp_leb cmp x y = true → cmp_leb cmp y x = true → x = y.
Proof.
  unfold cmp_leb. rewrite (cmp_antisym cmp x y).
  destruct (cmp x y) eqn:E; simpl; try done.
  intros _ _. by apply (cmp_eq cmp).
Qed.

Lemma cmp_leb_trans x y z :
  cmp_leb cmp x y = true → cmp_leb cmp y z = true → cmp_leb cmp x z = true.
Proof.
  unfold cmp_leb.
  destruct (cmp x y) eqn:Exy; try done; intros _.
  - apply (cmp_eq cmp) in Exy as ->. done.
  - destruct (cmp y z) eqn:Eyz; try done; intros _.
    + apply (cmp_eq cmp) in Eyz as <-. by rewrite Exy.
    + by rewrite (cmp_lt_trans cmp x y z).
Qed.

Abbreviation le := (λ x y, cmp_leb cmp x y = true).

Lemma insert_sorted_perm x l : Permutation (insert_sorted cmp x l) (x :: l).
Proof.
  induction l as [|y l IH]; simpl; [done|].
  destruct (cmp_leb cmp x y); [done|].
  rewrite IH. apply perm_swap.
Qed.

Lemma sorted_perm l : Permutation (sorted cmp l) l.
Proof.
  induction l as [|x l IH]; simpl; [done|].
  rewrite insert_sorted_perm. by constructor.
Qed.

Lemma insert_sorted_sorted x l :
  StronglySorted le l → StronglySorted le (insert_sorted cmp x l).
Proof.
  induction 1 as [|y l Hs IH Hall]; simpl.
  - repeat constructor.
  - destruct (cmp_leb cmp x y) eqn:E.
    + constructor; [by constructor|].
      constructor; [done|].
      eapply Forall_impl; [exact Hall|].
      intros z Hz. by eapply cmp_leb_trans.
    + constructor; [done|].
      rewrite insert_sorted_perm. constructor; [|done].
      by apply cmp_leb_total.
Qed.

Lemma sorted_sorted l : StronglySorted le (sorted cmp l).
Proof.
  induction l as [|x l IH]; simpl; [constructor|].
  by apply insert_sorted_sorted.
Qed.

Lemma sorted_perm_unique l1 l2 :
  StronglySorted le l1 → StronglySorted le l2 → Permutation l1 l2 → l1 = l2.
Proof.
  intros H1. revert l2.
  induction H1 as [|x l1 Hs1 IH Hall1]; intros l2 H2 Hp.
  - by apply Permutation_nil in Hp.
  - destruct H2 as [|y l2 Hs2 Hall2].
    + symmetry in Hp. by apply Permutation_nil in Hp.
    + assert (x = y) as ->.
      { apply cmp_leb_antisym.
        - assert (Hy : y ∈ x :: l1) by (rewrite Hp; left).
          apply elem_of_cons in Hy as [->|Hy]; [unfold cmp_leb; by rewrite cmp_refl|].
          by eapply (proj1 (Forall_forall _ _) Hall1).
        - assert (Hx : x ∈ y :: l2) by (rewrite <- Hp; left).
          apply elem_of_cons in Hx as [->|Hx]; [unfold cmp_leb; by rewrite cmp_refl|].
          by eapply (proj1 (Forall_forall _ _) Hall2). }
      f_equal. apply IH; [done|].
      by apply Permutation_cons_inv in Hp.
Qed.

(** The result of [sorted] does not depend on the order of its input. *)
Lemma sorted_order_independent l1 l2 :
  Permutation l1 l2 → sorted cmp l1 = sorted cmp l2.
Proof.
  intros Hp. apply sorted_perm_unique; try apply sorted_sorted.
  by rewrite !sorted_perm.
Qed.
End CmpOrderFacts.

#[global] Instance ascii_cmp_order : CmpOrder Ascii.compare.
Proof.
  split.
  - intros x y. split; [apply Ascii.compare_eq_iff|].
    intros ->. apply N.compare_refl.
  - intros x y. apply Ascii.compare_antisym.
  - intros x y z. unfold Ascii.compare. rewrite !N.compare_lt_iff. lia.
Qed.

#[global] Instance string_cmp_order : CmpOrder String.compare.
Proof.
  split.
  - intros x y. split; [apply String.compare_eq_iff|].
    intros ->. induction y as [|a y IH]; simpl; [done|].
    by rewrite (cmp_refl Ascii.compare).
  - intros x y. apply String.compare_antisym.
  - intros x. induction x as [|a x IH]; intros [|b y] [|c z]; simpl; try done.
    destruct (Ascii.compare a b) eqn:Eab; try done.
    + apply (cmp_eq Ascii.compare) in Eab as ->.
      destruct (Ascii.compare b c); try done. apply IH.
    + intros _. destruct (Ascii.compare b c) eqn:Ebc; try done.
      * apply (cmp_eq Ascii.compare) in Ebc as <-. by rewrite Eab.
      * by rewrite (cmp_lt_trans Ascii.compare a b c).
  Qed.

#[global] Instance lex_cmp_order {A} (cmp : A → A → comparison) `{!CmpOrder cmp} :
  CmpOrder (lex_compare cmp).
Proof.
  split.
  - intros x. induction x as [|a x IH]; intros [|b y]; simpl; try done.
    destruct (cmp a b) eqn:E.
    + apply (cmp_eq cmp) in E as ->. rewrite IH.
      split; [by intros ->|by intros [= ->]].
    + split; [done|]. intros [= -> _]. by rewrite (cmp_refl cmp) in E.
    + split; [done|]. intros [= -> _]. by rewrite (cmp_refl cmp) in E.
  - intros x. induction x as [|a x IH]; intros [|b y]; simpl; try done.
    rewrite (cmp_antisym cmp a b). destruct (cmp a b); simpl; auto.
  - intros x. induction x as [|a x IH]; intros [|b y] [|c z]; simpl; try done.
    destruct (cmp a b) eqn:Eab; try done.
    + apply (cmp_eq cmp) in Eab as ->.
      destruct (cmp b c); try done. apply IH.
    + intros _. destruct (cmp b c) eqn:Ebc; try done.
      * apply (cmp_eq cmp) in Ebc as <-. by rewrite Eab.
      * by rewrite (cmp_lt_trans cmp a b c).
Qed.

#[global] Instance pair_cmp_order {A B} (ca : A → A → comparison) (cb : B → B → comparison)
  `{!CmpOrder ca, !CmpOrder cb} : CmpOrder (pair_compare ca cb).
Proof.
  split.
  - intros [a b] [a' b']. unfold pair_compare; simpl.
    destruct (ca a a') eqn:E.
    + apply (cmp_eq ca) in E as ->. rewrite (cmp_eq cb). naive_solver.
    + split; [done|]. intros [= -> _]. by rewrite (cmp_refl ca) in E.
    + split; [done|]. intros [= -> _]. by rewrite (cmp_refl ca) in E.
  - intros [a b] [a' b']. unfold pair_compare; simpl.
    rewrite (cmp_antisym ca a a'). destruct (ca a a'); simpl; auto. apply (cmp_antisym cb).
  - intros [a b] [a' b'] [a'' b'']. unfold pair_compare; simpl.
    destruct (ca a a') eqn:Eab; try done.
    + apply (cmp_eq ca) in Eab as ->.
      destruct (ca a' a''); try done. apply (cmp_lt_trans cb).
    + intros _. destruct (ca a' a'') eqn:Ebc; try done.
      * apply (cmp_eq ca) in Ebc as <-. by rewrite Eab.
      * by rewrite (cmp_lt_trans ca a a' a'').
Qed.

#[global] Instance path_cmp_order : CmpOrder path_compare.
Proof.
  split.
  - intros [x] [y]. unfold path_compare; simpl.
    rewrite (cmp_eq (lex_compare String.compare)). naive_solver.
  - intros [x] [y]. apply (cmp_antisym (lex_compare String.compare)).
  - intros [x] [y] [z]. apply (cmp_lt_trans (lex_compare String.compare)).
Qed.

(** ** Dictionaries *)

Section DictFacts.
Context {K V : Type} `{EqDecision K}.
Implicit Types (d : Dict K V) (k : K) (v : V).

Lemma dict_get_set k' k v d :
  dict_get k' (dict_set k v d) = if decide (k' = k) then Some v else dict_get k' d.
Proof.
  induction d as [|[k0 v0] d IH]; simpl.
  - by destruct (decide (k' = k)).
  - destruct (decide (k = k0)) as [->|Hne]; simpl.
    + by destruct (decide (k' = k0)).
    + destruct (decide (k' = k0)) as [->|?]; [|done].
      by rewrite decide_False.
Qed.

Lemma dict_get_app k d1 d2 :
  dict_get k (d1 ++ d2) =
    match dict_get k d1 with Some v => Some v | None => dict_get k d2 end.
Proof.
  induction d1 as [|[k0 v0] d1 IH]; simpl; [done|].
  by destruct (decide (k = k0)).
Qed.

(** After [d.update(other)] a key of [other] has the value [other] gave it
    last, and every other key keeps its value. *)
Lemma dict_get_update k d other :
  dict_get k (dict_update d other) =
    match dict_get k (reverse other) with Some v => Some v | None => dict_get k d end.
Proof.
  unfold dict_update. revert d.
  induction other as [|[k0 v0] other IH]; intros d; simpl; [done|].
  rewrite IH, reverse_cons, dict_get_app, dict_get_set. simpl.
  destruct (dict_get k (reverse other)); [done|].
  by destruct (decide (k = k0)).
Qed.

Lemma dict_has_elem k d : dict_has k d = true ↔ k ∈ dict_keys d.
Proof.
  unfold dict_has, dict_keys.
  induction d as [|[k0 v0] d IH].
  - split; [done|]. by intros ?%elem_of_nil.
  - rewrite fmap_cons, elem_of_cons. simpl.
    destruct (decide (k = k0)) as [->|Hne]; [by split; [left|]|].
    rewrite IH. split; [by right|]. by intros [?|?].
Qed.

Lemma dict_has_set k' k v d :
  dict_has k' (dict_set k v d) = bool_decide (k' = k) || dict_has k' d.
Proof.
  unfold dict_has. rewrite dict_get_set.
  destruct (decide (k' = k)) as [->|?].
  - by rewrite bool_decide_true.
  - by rewrite bool_decide_false.
Qed.

Lemma dict_values_set_has k v d :
  dict_get k d = Some v → dict_set k v d = d.
Proof.
  induction d as [|[k0 v0] d IH]; simpl; [done|].
  destruct (decide (k = k0)) as [->|?]; [by intros [= ->]|].
  intros ?. f_equal. by apply IH.
Qed.

(** Two dictionaries with the same items, in any order, agree on every key. *)
Lemma dict_get_perm k d1 d2 :
  NoDup (dict_keys d1) → Permutation d1 d2 → dict_get k d1 = dict_get k d2.
Proof.
  intros Hnd Hp. induction Hp as [|[k0 v0] d1 d2 Hp IH|[k0 v0] [k1 v1] d|d1 d2 d3 Hp1 IH1 Hp2 IH2];
    simpl in *.
  - done.
  - apply NoDup_cons in Hnd as [_ Hnd]. rewrite IH; done.
  - destruct (decide (k = k0)) as [E0|?], (decide (k = k1)) as [E1|?]; try done.
    exfalso. subst. apply NoDup_cons in Hnd as [Hin _]. apply Hin. left.
  - rewrite IH1; [|done]. apply IH2.
    unfold dict_keys in *. by rewrite <- Hp1.
Qed.
End DictFacts.

(** ** Inheritance ([applyParent]) *)

(** The fields of [Env] by the type of their value.  [name] and [parent]
    are skipped by the loop; [command] is kept apart from the other lists. *)
Definition strFields : list (Env → string) :=
  [Env.image; Env.rootfs; Env.dns; Env.network; Env.home; Env.shmsize].
Definition pathFields : list (Env → option Path) :=
  [Env.runDir; Env.overlaysDir; Env.configFile].
Definition listFields : list (Env → list string) :=
  [Env.imageCustomizations; Env.packages; Env.args; Env.syscaps; Env.requires; Env.ports].
Definition dictFields : list (Env → Dict string string) :=
  [Env.environ; Env.mounts].

(** A scalar field other than [name] and [parent] that is left unset in [E]
    (empty string or [None]) has the value of [P] in [E']. *)
Definition scalars_inherited (E P E' : Env) : Prop :=
  Forall (λ f, f E = "" → f E' = f P) strFields ∧
  Forall (λ f, f E = None → f E' = f P) pathFields ∧
  (Env.description E = None ∨ Env.description E = Some "" →
   Env.description E' = Env.description P) ∧
  (Env.desktop E = None → Env.desktop E' = Env.desktop P) ∧
  (Env.runtime E = None → Env.runtime E' = Env.runtime P).

(** The list fields of [fs], and the two lists of structured values, are the
    list of [E] followed by the list of [P]. *)
Definition lists_concatenated (fs : list (Env → list string)) (E P E' : Env) : Prop :=
  Forall (λ f, f E' = f E ++ f P) fs ∧
  Env.imageTasks E' = Env.imageTasks E ++ Env.imageTasks P ∧
  Env.overlays E' = Env.overlays E ++ Env.overlays P.

(** A map field is the map of [P] updated with the entries of [E]: a key of
    [E] has the value of [E], any other key the value of [P]. *)
Definition maps_overridden (E P E' : Env) : Prop :=
  Forall (λ f, f E' = dict_update (f P) (f E) ∧
               ∀ k, dict_get k (f E') =
                    match dict_get k (reverse (f E)) with
                    | Some v => Some v
                    | None => dict_get k (f P)
                    end) dictFields ∧
  Env.capabilities E' = dict_update (Env.capabilities P) (Env.capabilities E) ∧
  ∀ k, dict_get k (Env.capabilities E') =
       match dict_get k (reverse (Env.capabilities E)) with
       | Some v => Some v
       | None => dict_get k (Env.capabilities P)
       end.

Lemma inheritList_app {A} (c p : list A) : Env.inheritList c p = c ++ p.
Proof. by destruct c. Qed.

Lemma inheritDict_update {V} (c p : Dict string V) :
  Env.inheritDict c p = (dict_update p c, dict_update p c).
Proof. by destruct c. Qed.

Lemma applyParent_scalars E P : scalars_inherited E P (Env.applyParent E P).1.
Proof.
  unfold scalars_inherited, strFields, pathFields; simpl.
  repeat split; repeat apply Forall_cons_2; try apply Forall_nil_2;
    try (intros ->; done).
  intros [->| ->]; done.
Qed.

Lemma applyParent_lists E P : lists_concatenated listFields E P (Env.applyParent E P).1.
Proof.
  unfold lists_concatenated, listFields; simpl.
  repeat split; repeat apply Forall_cons_2; try apply Forall_nil_2;
    apply inheritList_app.
Qed.

Lemma applyParent_maps E P : maps_overridden E P (Env.applyParent E P).1.
Proof.
  unfold maps_overridden, dictFields; simpl.
  rewrite !inheritDict_update; simpl.
  repeat split; repeat apply Forall_cons_2; try apply Forall_nil_2;
    try split; try done; intros k; apply dict_get_update.
Qed.

(** The two environments of the examples below. *)
Definition child_env : Env :=
  Env.mk "child" (Some "") "base" None "" "" "" [] [] ["git"] ["make"] ["-j4"]
    [("LANG", "C"); ("TERM", "xterm")] [] [("~/src", "/srv/src")] [("terminal", true)]
    "" [] [] "" "" [] None ExecContext.empty None None true false false
    (Some (path_of "/etc/podenv/config.yaml")).

Definition parent_env : Env :=
  Env.mk "base" (Some "base image") "" None "fedora" "" "1.1.1.1" [] [] ["vi"] ["/bin/bash"]
    ["-l"] [("TERM", "dumb"); ("EDITOR", "vi")] ["NET_RAW"] [] [("network", true)]
    "" [] [] "" "" [] None ExecContext.empty None None true false false
    (Some (path_of "/etc/podenv/config.yaml")).

(** C2, as stated: with [command] among the list fields the statement fails,
    since a child that has a command keeps it without the command of the
    parent. *)
Lemma applyParent_command_not_concatenated :
  ¬ (scalars_inherited child_env parent_env (Env.applyParent child_env parent_env).1 ∧
     lists_concatenated (Env.command :: listFields) child_env parent_env
       (Env.applyParent child_env parent_env).1 ∧
     maps_overridden child_env parent_env (Env.applyParent child_env parent_env).1).
Proof.
  intros (_ & (Hl & _) & _).
  apply Forall_cons_1 in Hl as [Hc _]. discriminate Hc.
Qed.

(** The loop skips [name] and [parent]: an environment without a name stays
    without one, whatever the parent is called. *)
Example applyParent_name_kept :
  let E := Env.new "" (path_of "/etc/podenv/config.yaml") in
  Env.name (Env.applyParent E parent_env).1 = "" ∧
  Env.parent (Env.applyParent E parent_env).1 = "" ∧
  Env.name parent_env = "base".
Proof. repeat split. Qed.

(** C2, amended: after [E.applyParent(P)] the fields [name] and [parent] of
    [E] are as they were, set or not; every other scalar field left unset in
    [E] has the value of [P]; every list field other than [command] is the
    list of [E] followed by the list of [P], and [command] is the command of
    [E] unless that is empty, when it is the command of [P]; every map field
    is the map of [P] updated with the entries of [E], the child winning on
    a common key. *)
Theorem applyParent_merge (E P : Env) :
  let E' := (Env.applyParent E P).1 in
  Env.name E' = Env.name E ∧ Env.parent E' = Env.parent E ∧
  scalars_inherited E P E' ∧
  lists_concatenated listFields E P E' ∧
  Env.command E' = (if decide (Env.command E = []) then Env.command P else Env.command E) ∧
  maps_overridden E P E'.
Proof.
  simpl. split_and!.
  - done.
  - done.
  - apply applyParent_scalars.
  - apply applyParent_lists.
  - simpl. by destruct (Env.command E).
  - apply applyParent_maps.
Qed.

Lemma applyParent_merge_witness :
  let E' := (Env.applyParent child_env parent_env).1 in
  Env.name E' = "child" ∧
  Env.image E' = "fedora" ∧ Env.packages E' = ["git"; "vi"] ∧
  dict_get "TERM" (Env.environ E') = Some "xterm" ∧
  dict_get "EDITOR" (Env.environ E') = Some "vi".
Proof.
  destruct (applyParent_merge child_env parent_env)
    as (Hname & _ & (Hstr & _) & (Hlist & _) & _ & (Hdict & _)).
  split; [exact Hname|].
  apply Forall_cons_1 in Hstr as [Himage _].
  apply Forall_cons_1 in Hlist as [_ Hlist]. apply Forall_cons_1 in Hlist as [Hpackages _].
  apply Forall_cons_1 in Hdict as [[_ Henviron] _].
  split_and!.
  - by apply Himage.
  - exact Hpackages.
  - exact (Henviron "TERM").
  - exact (Henviron "EDITOR").
Defined.

Example applyParent_merge_ex :
  let E' := (Env.applyParent child_env parent_env).1 in
  Env.image E' = "fedora" ∧ Env.packages E' = ["git"; "vi"] ∧
  Env.command E' = ["make"] ∧
  Env.environ E' = [("TERM", "xterm"); ("EDITOR", "vi"); ("LANG", "C")].
Proof. repeat split. Qed.

(** C3, as stated: a child whose command is the empty list does not keep
    it, it receives the command of the parent. *)
Lemma applyParent_empty_command_inherited :
  let E := Env.new "child" (path_of "/etc/podenv/config.yaml") in
  Env.command E = [] ∧
  Env.command (Env.applyParent E parent_env).1 ≠ Env.command E.
Proof. split; [reflexivity|discriminate]. Qed.

(** C3, amended: the command of the parent is never appended to the command
    of the child: after the merge the command of [E] is its own when that is
    not empty, and the command of [P] when it is the empty list. *)
Theorem applyParent_command (E P : Env) :
  let E' := (Env.applyParent E P).1 in
  (Env.command E ≠ [] → Env.command E' = Env.command E) ∧
  (Env.command E = [] → Env.command E' = Env.command P) ∧
  (Env.command E ≠ [] → Env.command P ≠ [] →
   Env.command E' ≠ Env.command E ++ Env.command P).
Proof.
  simpl. destruct (Env.command E) as [|c cs] eqn:Hc; simpl.
  - split_and!; done.
  - split_and!; try done.
    intros _ Hp Happ. apply (f_equal length) in Happ.
    simpl in Happ. rewrite length_app in Happ.
    destruct (Env.command P); [done|]. simpl in Happ. lia.
Qed.

Lemma applyParent_command_witness :
  Env.command (Env.applyParent child_env parent_env).1 = ["make"] ∧
  Env.command (Env.applyParent (Env.new "child" (path_of "/etc/podenv/config.yaml"))
                 parent_env).1 = ["/bin/bash"].
Proof.
  split.
  - apply (applyParent_command child_env parent_env). discriminate.
  - apply (applyParent_command (Env.new "child" (path_of "/etc/podenv/config.yaml"))
             parent_env). reflexivity.
Defined.

(** C9: the merge changes the parent.  When the child has entries in a map
    field, [mergedDict] is the dictionary of the parent itself and [update]
    writes the entries of the child into it. *)
Theorem applyParent_mutates_parent :
  let P' := (Env.applyParent child_env parent_env).2 in
  Env.environ parent_env = [("TERM", "dumb"); ("EDITOR", "vi")] ∧
  Env.environ P' = [("TERM", "xterm"); ("EDITOR", "vi"); ("LANG", "C")] ∧
  Env.capabilities P' = [("network", true); ("terminal", true)] ∧
  P' ≠ parent_env.
Proof. repeat split; discriminate. Qed.

(** What the merge does to the parent in general: its map fields become the
    merged maps, every other field is kept. *)
Lemma applyParent_parent_fields (E P : Env) :
  let P' := (Env.applyParent E P).2 in
  Env.environ P' = dict_update (Env.environ P) (Env.environ E) ∧
  Env.mounts P' = dict_update (Env.mounts P) (Env.mounts E) ∧
  Env.capabilities P' = dict_update (Env.capabilities P) (Env.capabilities E) ∧
  Env.set_capabilities [] P' = Env.set_capabilities [] (Env.mk
    (Env.name P) (Env.description P) (Env.parent P) (Env.desktop P) (Env.image P)
    (Env.rootfs P) (Env.dns P) (Env.imageCustomizations P) (Env.imageTasks P)
    (Env.packages P) (Env.command P) (Env.args P) (Env.environ P') (Env.syscaps P)
    (Env.mounts P') (Env.capabilities P) (Env.network P) (Env.requires P)
    (Env.overlays P) (Env.home P) (Env.shmsize P) (Env.ports P) (Env.runtime P)
    (Env.ctx P) (Env.runDir P) (Env.overlaysDir P) (Env.manageImage P)
    (Env.autoUpdate P) (Env.mountCache P) (Env.configFile P)).
Proof. simpl. rewrite !inheritDict_update. done. Qed.


(** ** The error monad *)

Lemma bind_Ok {A B} (m : result A) (f : A → result B) (b : B) :
  m ≫= f = Ok b → ∃ a, m = Ok a ∧ f a = Ok b.
Proof. destruct m as [a|e]; simpl; [eauto|done]. Qed.

Lemma bind_Raise {A B} (m : result A) (f : A → result B) (e : Exception) :
  m = Raise e → m ≫= f = Raise e.
Proof. by intros ->. Qed.

(** Split every successful bind among the hypotheses into its two steps. *)
Ltac inv_bind :=
  repeat match goal with
         | H : _ ≫= _ = Ok _ |- _ =>
             let a := fresh "r" in
             let H1 := fresh "Hr" in
             apply bind_Ok in H as (a & H1 & H)
         | H : Ok _ = Ok _ |- _ => injection H as H; subst
         | H : Raise _ = Ok _ |- _ => discriminate H
         | p : (_ * _)%type |- _ => destruct p
         end.

(** A relation that every step of a loop respects holds across the loop. *)
Lemma foldM_inv {A S} (R : S → S → Prop) (f : S → A → result S) :
  (∀ s, R s s) → (∀ s1 s2 s3, R s1 s2 → R s2 s3 → R s1 s3) →
  ∀ l, Forall (λ a, ∀ s s', f s a = Ok s' → R s s') l →
  ∀ s s', foldM f s l = Ok s' → R s s'.
Proof.
  intros Hrefl Htrans l Hl. induction Hl as [|a l Ha Hl IH]; intros s s' H; simpl in H.
  - injection H as ->. apply Hrefl.
  - apply bind_Ok in H as (s1 & H1 & H). eauto.
Qed.

Lemma foldM_app {A S} (f : S → A → result S) (s : S) (l1 l2 : list A) :
  foldM f s (l1 ++ l2) = foldM f s l1 ≫= λ s', foldM f s' l2.
Proof.
  revert s. induction l1 as [|a l1 IH]; intros s; simpl; [done|].
  destruct (f s a); simpl; [apply IH|done].
Qed.

(** ** What a capability may change *)

(** The part of an environment that is only read while it is prepared: every
    field but the context and the fields that some capability or the
    validator assigns. *)
Definition declared (e : Env) : Env :=
  Env.set_ctx ExecContext.empty
    (Env.set_capabilities []
       (Env.set_packages []
          (Env.set_manageImage true
             (Env.set_autoUpdate false (Env.set_mountCache false e))))).

(** A capability keeps the declared fields and the capabilities map, and
    never assigns [env.ctx]. *)
Definition keeps_env (c : Capability) : Prop :=
  ∀ h active ctx env ctx' env',
    c h active ctx env = Ok (ctx', env') →
    declared env' = declared env ∧
    Env.capabilities env' = Env.capabilities env ∧
    Env.ctx env' = Env.ctx env.

(** A capability keeps the two paths assigned by [rootCap]. *)
Definition keeps_identity (c : Capability) : Prop :=
  ∀ h active ctx env ctx' env',
    c h active ctx env = Ok (ctx', env') →
    ExecContext.home ctx' = ExecContext.home ctx ∧
    ExecContext.xdgDir ctx' = ExecContext.xdgDir ctx.

Lemma gitLine_identity h ctx line ctx' :
  gitLine h ctx line = Ok ctx' →
  ExecContext.home ctx' = ExecContext.home ctx ∧
  ExecContext.xdgDir ctx' = ExecContext.xdgDir ctx.
Proof.
  unfold gitLine. intros H.
  repeat case_match; simplify_eq; done.
Qed.

Lemma gitLines_identity h lines ctx ctx' :
  foldM (gitLine h) ctx lines = Ok ctx' →
  ExecContext.home ctx' = ExecContext.home ctx ∧
  ExecContext.xdgDir ctx' = ExecContext.xdgDir ctx.
Proof.
  apply (foldM_inv (λ c c', ExecContext.home c' = ExecContext.home c ∧
                            ExecContext.xdgDir c' = ExecContext.xdgDir c)).
  - done.
  - intros ??? [-> ->] [-> ->]. done.
  - apply Forall_forall. intros line _ s s'. apply gitLine_identity.
Qed.

Lemma webcam_fold_identity devices ctx :
  let ctx' := foldl (λ ctx device,
                ExecContext.args ["--device"; path_str (path_of "/dev" // device)] ctx)
              ctx devices in
  ExecContext.home ctx' = ExecContext.home ctx ∧
  ExecContext.xdgDir ctx' = ExecContext.xdgDir ctx ∧
  ExecContext.mounts ctx' = ExecContext.mounts ctx ∧
  ExecContext.syscaps ctx' = ExecContext.syscaps ctx.
Proof.
  revert ctx. induction devices as [|d devices IH]; intros ctx; simpl; [done|].
  destruct (IH (ExecContext.args ["--device"; path_str (path_of "/dev" // d)] ctx))
    as (-> & -> & -> & ->). done.
Qed.

Ltac unfold_caps :=
  unfold manageImageCap, rootCap, privilegedCap, terminalCap, ipcCap, x11Cap,
    pulseaudioCap, gitCap, editorCap, sshCap, gpgCap, webcamCap, driCap, kvmCap,
    tunCap, seccompCap, selinuxCap, setuidCap, ptraceCap, networkCap, mountCwdCap,
    mountRunCap, mountCacheCap, autoUpdateCap, uidmapCap in *.

Lemma Capabilities_keep_env : Forall (λ nc, keeps_env nc.2) Capabilities.
Proof.
  unfold Capabilities, entry.
  repeat apply Forall_cons_2; try apply Forall_nil_2; simpl;
    intros h active ctx env ctx' env' H; unfold_caps;
    repeat case_match; inv_bind; simplify_eq; try done;
    destruct env; done.
Qed.

(** Every capability after [rootCap] keeps [home] and [xdgDir]. *)
Lemma Capabilities_keep_identity :
  Forall (λ nc, keeps_identity nc.2) (drop 2 Capabilities).
Proof.
  unfold Capabilities, entry. simpl.
  repeat apply Forall_cons_2; try apply Forall_nil_2; simpl;
    intros h active ctx env ctx' env' H; unfold_caps;
    repeat case_match; inv_bind; simplify_eq; try done.
  - by apply gitLines_identity in Hr.
  - by destruct (webcam_fold_identity (filter (λ x, Str.startswith "video" x = true)
                                         (listdir_dev h)) ctx) as (? & ? & _).
Qed.

(** ** The place of [rootCap] in the catalogue *)

(** [home] and [xdgDir] hold the paths that [rootCap] assigns. *)
Definition identity_set (env : Env) : Prop :=
  ExecContext.home (Env.ctx env) =
    path_of (if Env.cap "root" env then "/root" else "/home/user") ∧
  ExecContext.xdgDir (Env.ctx env) =
    path_of (if Env.cap "root" env then "/run/user/0" else "/run/user/1000").

(** A host for the examples: a desktop session, no SELinux module, every
    path resolving to itself. *)
Definition desktop_host : Host := {|
  os_environ := [("DISPLAY", ":0"); ("XDG_RUNTIME_DIR", "/run/user/1000");
                 ("SSH_AUTH_SOCK", "/run/user/1000/ssh-agent")];
  expanduser_resolve := λ p, p;
  resolve_strict := λ p, Ok p;
  path_exists := λ _, true;
  path_is_file := λ _, false;
  read_text := λ _, "";
  listdir_dev := ["null"; "video0"];
  access_R_OK := λ _, true;
  HAS_SELINUX := false;
  getfilecon := λ _, "system_u:object_r:container_file_t:s0";
  str_format := λ fmt _, Ok fmt
|}.

Definition fresh_env : Env := Env.new "shell" (path_of "/etc/podenv/config.yaml").

Lemma runCaps_frame h caps :
  Forall (λ nc, keeps_env nc.2 ∧ keeps_identity nc.2) caps →
  ∀ env env', runCaps h caps env = Ok env' →
    ExecContext.home (Env.ctx env') = ExecContext.home (Env.ctx env) ∧
    ExecContext.xdgDir (Env.ctx env') = ExecContext.xdgDir (Env.ctx env) ∧
    Env.capabilities env' = Env.capabilities env.
Proof.
  intros Hcaps. unfold runCaps.
  apply (foldM_inv (λ e e', ExecContext.home (Env.ctx e') = ExecContext.home (Env.ctx e) ∧
                            ExecContext.xdgDir (Env.ctx e') = ExecContext.xdgDir (Env.ctx e) ∧
                            Env.capabilities e' = Env.capabilities e)).
  - done.
  - intros ??? (-> & -> & ->) (-> & -> & ->). done.
  - eapply Forall_impl; [exact Hcaps|].
    intros [n c] [Henv Hid] s s' H. unfold call in H. inv_bind.
    destruct (Henv _ _ _ _ _ _ Hr) as (_ & Hc & _).
    destruct (Hid _ _ _ _ _ _ Hr) as (Hh & Hx).
    simpl in *. by rewrite Hh, Hx, <- Hc.
Qed.

(** C4, as stated: the first entry of the catalogue is [manage-image], not
    the capability that sets the identity, and when it runs on a new
    context [home] and [xdgDir] are still the empty path. *)
Lemma rootCap_not_first :
  ValidCap !! 0%nat ≠ Some "root" ∧
  ¬ (∀ pre n c post env1,
       Capabilities = pre ++ (n, c) :: post → n ≠ "root" →
       runCaps desktop_host pre fresh_env = Ok env1 → identity_set env1).
Proof.
  split; [discriminate|].
  intros H.
  destruct (H [] "manage-image" manageImageCap (tail Capabilities) fresh_env)
    as [Hhome _]; [reflexivity|discriminate|reflexivity|].
  discriminate Hhome.
Qed.

(** C4, amended: [rootCap] is the second entry of the catalogue, after
    [manage-image]; when any capability other than these two runs, [home]
    and [xdgDir] hold the paths assigned by [rootCap]. *)
Theorem identity_set_after_rootCap h env pre n c post env1 :
  Capabilities = pre ++ (n, c) :: post →
  n ≠ "manage-image" → n ≠ "root" →
  runCaps h pre env = Ok env1 →
  ValidCap !! 0%nat = Some "manage-image" ∧ ValidCap !! 1%nat = Some "root" ∧
  identity_set env1.
Proof.
  intros Hsplit Hn1 Hn2 Hrun. split_and!; [reflexivity..|].
  assert (Hcaps : Capabilities =
            entry "manageImageCap" manageImageCap :: entry "rootCap" rootCap ::
            drop 2 Capabilities) by reflexivity.
  rewrite Hcaps in Hsplit. unfold entry in Hsplit at 1 2. simpl in Hsplit.
  destruct pre as [|p1 [|p2 pre]]; simpl in Hsplit.
  - injection Hsplit as Hn _ _. by subst.
  - injection Hsplit as _ Hn _ _. by subst.
  - injection Hsplit as <- <- Hrest.
    assert (Hpre : Forall (λ nc, keeps_env nc.2 ∧ keeps_identity nc.2) pre).
    { assert (Hall : Forall (λ nc, keeps_env nc.2 ∧ keeps_identity nc.2)
                       (drop 2 Capabilities)).
      { apply Forall_and. split; [|apply Capabilities_keep_identity].
        apply Forall_drop, Capabilities_keep_env. }
      assert (Hd : drop 2 Capabilities = pre ++ (n, c) :: post)
        by (rewrite <- Hrest; reflexivity).
      rewrite Hd in Hall. by apply Forall_app in Hall as [? _]. }
    unfold runCaps in Hrun. cbn [foldM] in Hrun.
    apply bind_Ok in Hrun as (s1 & Hs1 & Hrun).
    apply bind_Ok in Hrun as (s2 & Hs2 & Hrun).
    destruct (runCaps_frame h pre Hpre _ _ Hrun) as (Hh & Hx & Hc).
    unfold identity_set, Env.cap. rewrite Hh, Hx, Hc.
    unfold call in Hs1, Hs2. simpl in Hs1. injection Hs1 as <-.
    unfold rootCap in Hs2. simpl in Hs2. injection Hs2 as <-. simpl.
    unfold Env.cap. simpl. change (camelCaseToHyphen "root") with "root".
    by destruct (default false (dict_get "root" (Env.capabilities env))).
Qed.

Lemma identity_set_after_rootCap_witness :
  identity_set
    (Env.set_ctx
       (ExecContext.mk [("XDG_RUNTIME_DIR", "/run/user/1000"); ("HOME", "/home/user")]
          [] [] ["--user"; "1000"] (path_of "/home/user") path_empty
          (path_of "/run/user/1000") "" "" "")
       (Env.set_manageImage false fresh_env)).
Proof.
  apply (identity_set_after_rootCap desktop_host fresh_env
           (take 3 Capabilities) "terminal" terminalCap (drop 4 Capabilities));
    [reflexivity|discriminate|discriminate|reflexivity].
Defined.

(** ** Rendering the context ([getArgs]) *)


Lemma flat_map_ext_Forall {A B} (f g : A → list B) (l : list A) :
  Forall (λ x, f x = g x) l → flat_map f l = flat_map g l.
Proof. induction 1 as [|x l Hx _ IH]; simpl; [done|]. by rewrite Hx, IH. Qed.


Lemma getArgs_ctx so h c :
  (ExecContext.getArgs so h c).1 =
    if decide (ExecContext.cwd c = path_empty)
    then ExecContext.set_cwd (ExecContext.home c) c else c.
Proof. unfold ExecContext.getArgs. by destruct (decide _). Qed.

Lemma getArgs_args so h c :
  let c' := (ExecContext.getArgs so h c).1 in
  (ExecContext.getArgs so h c).2 =
    ExecContext.securityArgs c ++ ExecContext.networkArgs c ++
    ExecContext.workdirArgs c' ++ ExecContext.mountArgs h c ++
    ExecContext.capArgs so c ++ ExecContext.environArgs c ++ ExecContext.execArgs c.
Proof.
  unfold ExecContext.getArgs. by destruct (decide _).
Qed.




(** The mounts [{"/x": ..., "/a": ...}] render with [/a] first. *)
Example getArgs_sorted_ex :
  (ExecContext.getArgs remove_dups desktop_host
     (ExecContext.mk [("Z", "1"); ("A", "2")]
        [(path_of "/x", path_of "/vol"); (path_of "/a", path_of "/srv/a")]
        [] [] (path_of "/root") path_empty (path_of "/run/user/0") "" "" "")).2 =
  ["--workdir"; "/root"; "-v"; "/srv/a:/a"; "-v"; "/vol:/x"; "-e"; "A=2"; "-e"; "Z=1"].
Proof. reflexivity. Qed.

(** ** The validator ([validateEnv]) *)

Lemma declared_set_ctx c e : declared (Env.set_ctx c e) = declared e.
Proof. by destruct e. Qed.
Lemma declared_set_capabilities c e : declared (Env.set_capabilities c e) = declared e.
Proof. by destruct e. Qed.
Lemma declared_set_manageImage b e : declared (Env.set_manageImage b e) = declared e.
Proof. by destruct e. Qed.

(** [selinuxCap(False, env.ctx, env)] *)
Definition disable_selinux (e : Env) : Env :=
  Env.set_ctx (ExecContext.set_seLinuxLabel "disable" (Env.ctx e)) e.

Lemma disable_selinux_idem e : disable_selinux (disable_selinux e) = disable_selinux e.
Proof. by destruct e. Qed.

Lemma disable_selinux_disabled e :
  ExecContext.seLinuxLabel (Env.ctx e) = "disable" → disable_selinux e = e.
Proof. destruct e as [? ? ? ? ? ? ? ? ? ? ? ? ? ? ? ? ? ? ? ? ? ? ? []]; simpl. by intros ->. Qed.

(** When each check leaves the environment alone. *)
Definition socket_quiet (e : Env) : bool :=
  negb (Env.cap "selinux" e)
  || negb (Env.cap "x11" e || Env.cap "tun" e || Env.cap "pulseaudio" e).

Definition uid_quiet (e : Env) : bool :=
  Env.cap "root" e || Env.cap "uidmap" e
  || negb (Env.cap "x11" e || Env.cap "pulseaudio" e || Env.cap "ssh" e || Env.cap "gpg" e).

Definition syscaps_quiet (e : Env) : bool :=
  negb (Env.cap "tun" e) || bool_decide ("NET_ADMIN" ∈ ExecContext.syscaps (Env.ctx e)).

Definition home_quiet (e : Env) : bool :=
  bool_decide (Env.overlays e = [])
  || dict_has (ExecContext.home (Env.ctx e)) (ExecContext.mounts (Env.ctx e)).

Definition image_quiet (e : Env) : bool :=
  Env.manageImage e
  || (bool_decide (Env.packages e = []) && bool_decide (Env.imageCustomizations e = [])
      && bool_decide (Env.imageTasks e = [])).

(** The fields a check leaves as they are, listed by what it may write. *)
Record kept (caps others syscaps label mounts execArgs manage : bool) (e e' : Env) : Prop := {
  kept_declared : declared e' = declared e;
  kept_packages : Env.packages e' = Env.packages e;
  kept_home : ExecContext.home (Env.ctx e') = ExecContext.home (Env.ctx e);
  kept_caps : caps = true → Env.capabilities e' = Env.capabilities e;
  kept_others : others = true → ∀ c, c ≠ "selinux" → Env.cap c e' = Env.cap c e;
  kept_syscaps : syscaps = true →
    ExecContext.syscaps (Env.ctx e') = ExecContext.syscaps (Env.ctx e);
  kept_label : label = true →
    ExecContext.seLinuxLabel (Env.ctx e') = ExecContext.seLinuxLabel (Env.ctx e);
  kept_mounts : mounts = true →
    ExecContext.mounts (Env.ctx e') = ExecContext.mounts (Env.ctx e);
  kept_execArgs : execArgs = true →
    ExecContext.execArgs (Env.ctx e') = ExecContext.execArgs (Env.ctx e);
  kept_manage : manage = true → Env.manageImage e' = Env.manageImage e
}.

Lemma kept_refl b1 b2 b3 b4 b5 b6 b7 e : kept b1 b2 b3 b4 b5 b6 b7 e e.
Proof. by split. Qed.

Lemma cap_set_selinux c v e :
  c ≠ "selinux" →
  Env.cap c (Env.set_capabilities (dict_set "selinux" v (Env.capabilities e)) e) = Env.cap c e.
Proof.
  intros Hc. unfold Env.cap. simpl. rewrite dict_get_set. by rewrite decide_False.
Qed.

Arguments path_of : simpl never.

(** The correction of the first check. *)
Definition socket_fix (e : Env) : Env :=
  Env.set_capabilities (dict_set "selinux" false (Env.capabilities e)) (disable_selinux e).

Lemma dict_set_idem {K V} `{EqDecision K} (k : K) (v : V) (d : Dict K V) :
  dict_set k v (dict_set k v d) = dict_set k v d.
Proof.
  induction d as [|[k0 v0] d IH]; simpl.
  - by rewrite decide_True.
  - destruct (decide (k = k0)) as [->|Hne]; simpl.
    + by rewrite decide_True.
    + rewrite decide_False by done. by rewrite IH.
Qed.

Lemma dict_get_set_absent {K V} `{EqDecision K} (k k' : K) (v v' : V) (d : Dict K V) :
  dict_get k d = Some v → dict_has k' d = false → dict_get k (dict_set k' v' d) = Some v.
Proof.
  intros Hk Hk'. rewrite dict_get_set.
  destruct (decide (k = k')) as [->|]; [|done].
  unfold dict_has in Hk'. by rewrite Hk in Hk'.
Qed.

Lemma socket_fix_idem e : socket_fix (socket_fix e) = socket_fix e.
Proof. destruct e. unfold socket_fix. simpl. by rewrite dict_set_idem. Qed.

Lemma cap_socket_fix c e : c ≠ "selinux" → Env.cap c (socket_fix e) = Env.cap c e.
Proof. intros Hc. unfold Env.cap. simpl. rewrite dict_get_set. by rewrite decide_False. Qed.

Lemma cap_selinux_socket_fix e : Env.cap "selinux" (socket_fix e) = false.
Proof. unfold Env.cap. simpl. by rewrite dict_get_set. Qed.

Lemma socket_fold h e l :
  "selinux" ∉ l → ∀ e0 ws0, e0 = e ∨ e0 = socket_fix e →
  foldM (socketStep h) (e0, ws0) l =
    Ok (if existsb (λ c, Env.cap c e) l then socket_fix e else e0,
        ws0 ++ map WSocket (List.filter (λ c, Env.cap c e) l)).
Proof.
  induction l as [|c l IH]; intros Hl e0 ws0 He0; simpl.
  - by rewrite app_nil_r.
  - apply not_elem_of_cons in Hl as [Hc Hl].
    assert (Hcap : Env.cap c e0 = Env.cap c e).
    { destruct He0 as [->| ->]; [done|]. by apply cap_socket_fix. }
    rewrite Hcap.
    destruct (Env.cap c e) eqn:Hce; simpl.
    + change (Env.set_capabilities _ _) with (socket_fix e0).
      assert (Hfix : socket_fix e0 = socket_fix e).
      { destruct He0 as [->| ->]; [done|apply socket_fix_idem]. }
      rewrite Hfix, IH by auto. rewrite <- app_assoc. simpl.
      by destruct (existsb _ l).
    + by rewrite IH.
Qed.

Definition socket_warnings (e : Env) : list Warning :=
  if Env.cap "selinux" e
  then map WSocket (List.filter (λ c, Env.cap c e) ["x11"; "tun"; "pulseaudio"])
  else [].

Lemma checkSockets_spec h e :
  checkSockets h e = Ok (if socket_quiet e then e else socket_fix e, socket_warnings e).
Proof.
  unfold checkSockets, socket_quiet, socket_warnings.
  destruct (Env.cap "selinux" e); [|done].
  rewrite (socket_fold h e); [|by apply (bool_decide_unpack _)|by left].
  simpl. rewrite !orb_false_r. 
  by destruct (Env.cap "x11" e), (Env.cap "tun" e), (Env.cap "pulseaudio" e).
Qed.

Lemma checkSockets_quiet h e : socket_quiet e = true → checkSockets h e = Ok (e, []).
Proof.
  intros Hq. rewrite checkSockets_spec, Hq. f_equal. f_equal.
  unfold socket_quiet, socket_warnings in *.
  destruct (Env.cap "selinux" e); [|done]. simpl in Hq.
  simpl. by destruct (Env.cap "x11" e), (Env.cap "tun" e), (Env.cap "pulseaudio" e).
Qed.

Lemma checkSockets_post h e e' ws :
  checkSockets h e = Ok (e', ws) →
  socket_quiet e' = true ∧ kept false true true false true true true e e'.
Proof.
  rewrite checkSockets_spec. intros [= <- <-].
  destruct (socket_quiet e) eqn:Hq; [split; [done|apply kept_refl]|].
  split.
  - unfold socket_quiet. by rewrite cap_selinux_socket_fix.
  - split; try done. intros _ c Hc. by apply cap_socket_fix.
Qed.

(** [uidmapCap(True, env.ctx, env)] *)
Definition force_uidmap (e : Env) : Env :=
  Env.set_ctx (ExecContext.args (getUidMap e) (Env.ctx e)) e.

Lemma checkUid_quiet h e : uid_quiet e = true → checkUid h e = Ok (e, []).
Proof.
  unfold checkUid, uid_quiet. 
  destruct (Env.cap "root" e), (Env.cap "uidmap" e); simpl; try done.
  by destruct (Env.cap "x11" e), (Env.cap "pulseaudio" e), (Env.cap "ssh" e), (Env.cap "gpg" e).
Qed.

Lemma checkUid_fires h e :
  uid_quiet e = false → ∃ c, checkUid h e = Ok (force_uidmap e, [WUidMap c]).
Proof.
  unfold checkUid, uid_quiet. 
  destruct (Env.cap "root" e), (Env.cap "uidmap" e); simpl; try done.
  destruct (Env.cap "x11" e), (Env.cap "pulseaudio" e), (Env.cap "ssh" e), (Env.cap "gpg" e);
    simpl; try done; eauto.
Qed.

Lemma checkUid_post h e e' ws :
  checkUid h e = Ok (e', ws) → kept true true true true true false true e e'.
Proof.
  destruct (uid_quiet e) eqn:Hq.
  - rewrite checkUid_quiet by done. intros [= <- <-]. apply kept_refl.
  - destruct (checkUid_fires h e Hq) as [c ->]. intros [= <- <-].
    split; done.
Qed.

Lemma checkSyscaps_quiet e : syscaps_quiet e = true → checkSyscaps e = (e, []).
Proof.
  unfold checkSyscaps, syscaps_quiet.
  destruct (Env.cap "tun" e); simpl; [|done]. by intros ->.
Qed.

Lemma checkSyscaps_post e e' ws :
  checkSyscaps e = (e', ws) →
  syscaps_quiet e' = true ∧ kept true true false true true true true e e'.
Proof.
  unfold checkSyscaps, syscaps_quiet.
  destruct (Env.cap "tun" e) eqn:Ht; simpl.
  - destruct (bool_decide _) eqn:Hn; simpl; intros [= <- <-].
    + rewrite Ht, Hn. split; [done|apply kept_refl].
    + split.
      * unfold Env.cap in *. simpl. rewrite Ht. simpl.
        apply bool_decide_eq_true, elem_of_app. right. left.
      * split; done.
  - intros [= <- <-]. rewrite Ht. split; [done|apply kept_refl].
Qed.

(** The warnings of the two inspections of the mounted host paths. *)
Definition inspection (w : Warning) : Prop :=
  match w with
  | WLabel _ | WUnreadable _ => True
  | _ => False
  end.

(** The warnings of the label check alone. *)
Definition labelWarning (h : Host) (ws : list Warning) (hostPath : Path) : result (list Warning) :=
  let hostPath := expanduser_resolve h hostPath in
  if path_exists h hostPath then
    match Str.split ":" (getfilecon h (path_str hostPath)) !! 2%nat with
    | None => Raise IndexError
    | Some type =>
        if negb (Str.eqb type label) then Ok (ws ++ [WLabel hostPath]) else Ok ws
    end
  else Ok ws.

Definition label_fix (ws : list Warning) (e : Env) : Env :=
  match ws with [] => e | _ => disable_selinux e end.

Lemma label_fix_snoc ws w e : label_fix (ws ++ [w]) e = disable_selinux (label_fix ws e).
Proof. destruct ws; simpl; [done|]. by rewrite disable_selinux_idem. Qed.

Lemma labelStep_eq h e ws p :
  labelStep h (label_fix ws e, ws) p =
  labelWarning h ws p ≫= λ ws', Ok (label_fix ws' e, ws').
Proof.
  unfold labelStep, labelWarning.
  destruct (path_exists h (expanduser_resolve h p)); simpl; [|done].
  destruct (Str.split ":" (getfilecon h (path_str (expanduser_resolve h p))) !! 2%nat)
    as [type|]; simpl; [|done].
  destruct (negb (Str.eqb type label)); simpl; [|done].
  by rewrite label_fix_snoc.
Qed.

Lemma label_fold h e l ws :
  foldM (labelStep h) (label_fix ws e, ws) l =
  foldM (labelWarning h) ws l ≫= λ ws', Ok (label_fix ws' e, ws').
Proof.
  revert ws. induction l as [|p l IH]; intros ws; cbn [foldM]; [done|].
  rewrite labelStep_eq.
  destruct (labelWarning h ws p) as [ws1|]; simpl; [apply IH|done].
Qed.

Lemma labelWarning_inspection h l ws ws' :
  foldM (labelWarning h) ws l = Ok ws' → Forall inspection ws → Forall inspection ws'.
Proof.
  revert ws. induction l as [|p l IH]; intros ws H Hws; simpl in H.
  - by injection H as <-.
  - apply bind_Ok in H as (ws1 & H1 & H). apply (IH _ H).
    unfold labelWarning in H1. repeat case_match; simplify_eq; try done.
    apply Forall_app. split; [done|]. by repeat constructor.
Qed.

Lemma checkLabels_spec h e :
  checkLabels h e =
    if Env.cap "selinux" e && HAS_SELINUX h then
      foldM (labelWarning h) [] (dict_values (ExecContext.mounts (Env.ctx e)))
        ≫= λ ws, Ok (label_fix ws e, ws)
    else Ok (e, []).
Proof.
  unfold checkLabels. destruct (_ && _); [|done].
  apply (label_fold h e _ []).
Qed.

Lemma checkLabels_post h e e' ws :
  checkLabels h e = Ok (e', ws) →
  kept true true true false true true true e e' ∧ Forall inspection ws.
Proof.
  rewrite checkLabels_spec. destruct (_ && _).
  - intros H. apply bind_Ok in H as (ws' & Hws & [= <- <-]). split.
    + destruct ws'; simpl; [apply kept_refl|]. by split.
    + by eapply labelWarning_inspection.
  - intros [= <- <-]. split; [apply kept_refl|done].
Qed.

(** The label check gives the same warnings, and changes nothing, on an
    environment that has the capabilities, the mounts and the label which
    an earlier run of the check left. *)
Lemma checkLabels_again h e e' ws g :
  checkLabels h e = Ok (e', ws) →
  Env.capabilities g = Env.capabilities e' →
  ExecContext.mounts (Env.ctx g) = ExecContext.mounts (Env.ctx e') →
  ExecContext.seLinuxLabel (Env.ctx g) = ExecContext.seLinuxLabel (Env.ctx e') →
  checkLabels h g = Ok (g, ws).
Proof.
  intros H Hc Hm Hl. rewrite checkLabels_spec in *.
  assert (Hc' : Env.cap "selinux" g = Env.cap "selinux" e).
  { unfold Env.cap. rewrite Hc.
    destruct (Env.cap "selinux" e && HAS_SELINUX h).
    - apply bind_Ok in H as (ws' & _ & [= <- <-]). by destruct ws'.
    - by injection H as <- <-. }
  rewrite Hc'. destruct (Env.cap "selinux" e && HAS_SELINUX h).
  - apply bind_Ok in H as (ws' & Hws & [= <- <-]).
    assert (Hm' : ExecContext.mounts (Env.ctx g) = ExecContext.mounts (Env.ctx e)).
    { rewrite Hm. by destruct ws'. }
    rewrite Hm', Hws. simpl. do 2 f_equal.
    destruct ws'; simpl in *; [done|].
    by apply disable_selinux_disabled.
  - by injection H as <- <-.
Qed.

Lemma checkReadable_inspection h e : Forall inspection (checkReadable h e).
Proof.
  unfold checkReadable. induction (dict_values _) as [|p l IH]; simpl; [done|].
  apply Forall_app. split; [|done].
  destruct (_ && _); by repeat constructor.
Qed.

Lemma checkHome_quiet h e : home_quiet e = true → checkHome h e = Ok (e, []).
Proof.
  unfold checkHome, home_quiet.
  destruct (bool_decide (Env.overlays e = [])); simpl; [done|]. by intros ->.
Qed.

Lemma checkHome_post h e e' ws :
  checkHome h e = Ok (e', ws) →
  kept true true true true false true true e e' ∧
  (Env.home e = "" → home_quiet e' = true) ∧
  (∀ k v, dict_get k (ExecContext.mounts (Env.ctx e)) = Some v →
          dict_get k (ExecContext.mounts (Env.ctx e')) = Some v).
Proof.
  destruct (home_quiet e) eqn:Hq.
  { rewrite checkHome_quiet by done. intros [= <- <-].
    split; [apply kept_refl|done]. }
  unfold checkHome. unfold home_quiet in Hq.
  apply orb_false_iff in Hq as [Ho Hh]. rewrite Ho, Hh. simpl.
  unfold call, mountRunCap. rewrite Hh.
  destruct (Env.runDir e) as [runDir|]; simpl; [|done].
  intros [= <- <-]. split_and!.
  - split; try done; intros; simpl; repeat case_match; done.
  - intros ->. unfold home_quiet. simpl.
    apply orb_true_iff. right.
    destruct (dict_has (path_of "/tmp") _); simpl; rewrite ?dict_has_set;
      rewrite (bool_decide_true (ExecContext.home (Env.ctx e) = ExecContext.home (Env.ctx e)))
        by done;
      by rewrite ?orb_true_r.
  - intros k v Hk.
    destruct (Str.eqb (Env.home e) ""); simpl.
    + destruct (dict_has (path_of "/tmp") _) eqn:Ht; simpl.
      * by apply dict_get_set_absent.
      * apply dict_get_set_absent; [|done]. by apply dict_get_set_absent.
    + destruct (dict_has (path_of "/tmp") _) eqn:Ht; simpl; [done|].
      by apply dict_get_set_absent.
Qed.

Lemma checkImage_quiet h e : image_quiet e = true → checkImage h e = Ok (e, []).
Proof.
  unfold checkImage, image_quiet.
  destruct (Env.manageImage e); simpl; [done|].
  intros H. apply andb_true_iff in H as [H Ht]. apply andb_true_iff in H as [Hp Hc].
  rewrite Hp. simpl. by rewrite Hc, Ht.
Qed.

Lemma checkImage_post h e e' ws :
  checkImage h e = Ok (e', ws) →
  image_quiet e' = true ∧ kept true true true true true true false e e'.
Proof.
  unfold checkImage, image_quiet, call.
  destruct (Env.manageImage e) eqn:Hm; simpl.
  { intros [= <- <-]. rewrite Hm. split; [done|apply kept_refl]. }
  destruct (bool_decide (Env.packages e = [])) eqn:Hp; simpl;
    destruct (bool_decide (Env.imageCustomizations e = [])) eqn:Hc; simpl;
    destruct (bool_decide (Env.imageTasks e = [])) eqn:Ht; simpl;
    intros [= <- <-]; simpl; rewrite ?Hm, ?Hp, ?Hc, ?Ht; simpl;
    (split; [done|split; try done; by destruct e]).
Qed.

Lemma kept_trans a1 a2 a3 a4 a5 a6 a7 b1 b2 b3 b4 b5 b6 b7 e1 e2 e3 :
  kept a1 a2 a3 a4 a5 a6 a7 e1 e2 → kept b1 b2 b3 b4 b5 b6 b7 e2 e3 →
  kept (a1 && b1) (a2 && b2) (a3 && b3) (a4 && b4) (a5 && b5) (a6 && b6) (a7 && b7) e1 e3.
Proof.
  intros [D1 P1 Hm1 C1 O1 S1 L1 M1 X1 G1] [D2 P2 Hm2 C2 O2 S2 L2 M2 X2 G2].
  split; try congruence; intros [? ?]%andb_true_iff.
  - by rewrite C2, C1.
  - intros c Hc. by rewrite O2, O1.
  - by rewrite S2, S1.
  - by rewrite L2, L1.
  - by rewrite M2, M1.
  - by rewrite X2, X1.
  - by rewrite G2, G1.
Qed.

Lemma kept_caps_others a2 a3 a4 a5 a6 a7 e e' :
  kept true a2 a3 a4 a5 a6 a7 e e' → ∀ c, Env.cap c e' = Env.cap c e.
Proof. intros [_ _ _ Hc _ _ _ _ _ _] c. unfold Env.cap. by rewrite Hc. Qed.

Lemma socket_quiet_ext e e' :
  Env.capabilities e' = Env.capabilities e → socket_quiet e' = socket_quiet e.
Proof. intros H. unfold socket_quiet, Env.cap. by rewrite H. Qed.

Lemma uid_quiet_ext e e' :
  (∀ c, c ≠ "selinux" → Env.cap c e' = Env.cap c e) → uid_quiet e' = uid_quiet e.
Proof. intros H. unfold uid_quiet. by rewrite !H. Qed.

Lemma syscaps_quiet_ext e e' :
  Env.capabilities e' = Env.capabilities e →
  ExecContext.syscaps (Env.ctx e') = ExecContext.syscaps (Env.ctx e) →
  syscaps_quiet e' = syscaps_quiet e.
Proof. intros H1 H2. unfold syscaps_quiet, Env.cap. by rewrite H1, H2. Qed.

Lemma declared_overlays e e' : declared e' = declared e → Env.overlays e' = Env.overlays e.
Proof. intros H. apply (f_equal Env.overlays) in H. exact H. Qed.

Lemma declared_home e e' : declared e' = declared e → Env.home e' = Env.home e.
Proof. intros H. apply (f_equal Env.home) in H. exact H. Qed.

Lemma home_quiet_ext e e' :
  declared e' = declared e →
  ExecContext.home (Env.ctx e') = ExecContext.home (Env.ctx e) →
  ExecContext.mounts (Env.ctx e') = ExecContext.mounts (Env.ctx e) →
  home_quiet e' = home_quiet e.
Proof.
  intros H1 H2 H3. unfold home_quiet. by rewrite (declared_overlays _ _ H1), H2, H3.
Qed.

(** The checks of [validateEnv], one after the other. *)
Lemma validateEnv_steps h e g ws :
  validateEnv h e = Ok (g, ws) ↔
  ∃ a b c d f w1 w2 w3 w4 w6 w7,
    checkSockets h e = Ok (a, w1) ∧ checkUid h a = Ok (b, w2) ∧
    checkSyscaps b = (c, w3) ∧ checkLabels h c = Ok (d, w4) ∧
    checkHome h d = Ok (f, w6) ∧ checkImage h f = Ok (g, w7) ∧
    ws = w1 ++ w2 ++ w3 ++ w4 ++ checkReadable h d ++ w6 ++ w7.
Proof.
  unfold validateEnv. split.
  - intros H.
    apply bind_Ok in H as ([a w1] & H1 & H).
    apply bind_Ok in H as ([b w2] & H2 & H).
    destruct (checkSyscaps b) as [c w3] eqn:H3.
    apply bind_Ok in H as ([d w4] & H4 & H).
    apply bind_Ok in H as ([f w6] & H6 & H).
    apply bind_Ok in H as ([g' w7] & H7 & [= <- <-]).
    by exists a, b, c, d, f, w1, w2, w3, w4, w6, w7.
  - intros (a & b & c & d & f & w1 & w2 & w3 & w4 & w6 & w7 &
            H1 & H2 & H3 & H4 & H6 & H7 & ->).
    rewrite H1; simpl. rewrite H2; simpl. rewrite H3.
    rewrite H4; simpl. rewrite H6; simpl. by rewrite H7.
Qed.

(** The statement of C1 for one host and one environment: a second run on
    what the first run left changes nothing and warns about nothing. *)
Definition reentrant (h : Host) (e : Env) : Prop :=
  match validateEnv h e with
  | Ok (e1, _) => validateEnv h e1 = Ok (e1, [])
  | Raise _ => True
  end.

(** [prepareEnv] up to the call of [validateEnv]. *)
Definition resolved (h : Host) (env : Env) (cliArgs : list string) : result Env :=
  env ← applyCapabilities h env;
  '(env, _) ← applySettings h env;
  '(env, _, _) ← fileArgument h env cliArgs;
  Ok env.

(** An environment that asks for X11 and has neither [root] nor [uidmap]. *)
Definition x11_env : Env := Env.set_capabilities [("x11", true)] fresh_env.

(** An environment that mounts the working directory, on a host where that
    directory cannot be read. *)
Definition cwd_env : Env := Env.set_capabilities [("mount-cwd", true)] fresh_env.
Definition unreadable_host : Host := {|
  os_environ := os_environ desktop_host;
  expanduser_resolve := expanduser_resolve desktop_host;
  resolve_strict := resolve_strict desktop_host;
  path_exists := path_exists desktop_host;
  path_is_file := path_is_file desktop_host;
  read_text := read_text desktop_host;
  listdir_dev := listdir_dev desktop_host;
  access_R_OK := λ _, false;
  HAS_SELINUX := false;
  getfilecon := getfilecon desktop_host;
  str_format := str_format desktop_host
|}.

(** C1, as stated: the second run repeats the warning of the forced uid-map
    and appends the uid-map arguments once more, because the first run does
    not record that it forced them; and it repeats the warning about an
    unreadable mount, which no run corrects. *)
Lemma validateEnv_not_reentrant :
  (∃ e, resolved desktop_host x11_env [] = Ok e ∧ ¬ reentrant desktop_host e) ∧
  (∃ e, resolved unreadable_host cwd_env [] = Ok e ∧ ¬ reentrant unreadable_host e).
Proof.
  split; eexists; (split; [vm_compute; reflexivity|]); vm_compute; discriminate.
Qed.

Example validateEnv_twice_x11 :
  (e ← resolved desktop_host x11_env [];
   '(e1, w1) ← validateEnv desktop_host e;
   '(e2, w2) ← validateEnv desktop_host e1;
   Ok (w1, w2, ExecContext.execArgs (Env.ctx e1), ExecContext.execArgs (Env.ctx e2))) =
  Ok ([WUidMap "x11"], [WUidMap "x11"],
      ["--user"; "1000"; "--uidmap"; "1000:0:1"; "--uidmap"; "0:1:999";
       "--uidmap"; "1001:1001:64535"],
      ["--user"; "1000"; "--uidmap"; "1000:0:1"; "--uidmap"; "0:1:999";
       "--uidmap"; "1001:1001:64535"; "--uidmap"; "1000:0:1"; "--uidmap"; "0:1:999";
       "--uidmap"; "1001:1001:64535"]).
Proof. vm_compute. reflexivity. Qed.

(** C1, amended: when the forced uid-map does not apply (the [root] or the
    [uidmap] capability is set, or none of x11, pulseaudio, ssh and gpg is
    requested) and the forced mount-run does not apply either, or applies
    with [env.home] unset while the second run skips the label check (the
    host has no selinux module, or the selinux capability is off after the
    first run), a second run of the validator on what the first run left
    changes neither the context nor the environment and repeats none of the
    corrections: its only warnings are those of the two inspections of the
    mounted host paths (label and read access), which every run makes
    anew. *)
Theorem validateEnv_reentrant h e e1 w1 :
  validateEnv h e = Ok (e1, w1) →
  uid_quiet e = true →
  home_quiet e = true ∨
  (Env.home e = "" ∧ (HAS_SELINUX h = false ∨ Env.cap "selinux" e1 = false)) →
  ∃ w2, validateEnv h e1 = Ok (e1, w2) ∧ Forall inspection w2.
Proof.
  intros (a & b & c & d & f & ws1 & ws2 & ws3 & ws4 & ws6 & ws7 &
          H1 & H2 & H3 & H4 & H6 & H7 & ->)%validateEnv_steps Huid Hhome.
  destruct (checkSockets_post _ _ _ _ H1) as [Q1 K1].
  assert (Huid_a : uid_quiet a = true).
  { rewrite <- Huid. apply uid_quiet_ext. by apply K1. }
  rewrite (checkUid_quiet _ _ Huid_a) in H2. injection H2 as <- <-.
  destruct (checkSyscaps_post _ _ _ H3) as [Q3 K3].
  destruct (checkLabels_post _ _ _ _ H4) as [K4 I4].
  destruct (checkHome_post _ _ _ _ H6) as (K6 & P6 & _).
  destruct (checkImage_post _ _ _ _ H7) as [Q7 K7].
  pose proof (kept_trans _ _ _ _ _ _ _ _ _ _ _ _ _ _ _ _ _ K6 K7) as K67.
  pose proof (kept_trans _ _ _ _ _ _ _ _ _ _ _ _ _ _ _ _ _ K4 K67) as K47.
  pose proof (kept_trans _ _ _ _ _ _ _ _ _ _ _ _ _ _ _ _ _ K3 K47) as K37.
  pose proof (kept_trans _ _ _ _ _ _ _ _ _ _ _ _ _ _ _ _ _ K1 K3) as K13.
  pose proof (kept_trans _ _ _ _ _ _ _ _ _ _ _ _ _ _ _ _ _ K13 K4) as K14.
  simpl in K67, K47, K37, K13, K14.
  assert (S1 : checkSockets h e1 = Ok (e1, [])).
  { apply checkSockets_quiet. rewrite <- Q1. apply socket_quiet_ext. by apply K37. }
  assert (S2 : checkUid h e1 = Ok (e1, [])).
  { apply checkUid_quiet. rewrite <- Huid_a. apply uid_quiet_ext.
    intros k _. by apply (kept_caps_others _ _ _ _ _ _ _ _ K37). }
  assert (S3 : checkSyscaps e1 = (e1, [])).
  { apply checkSyscaps_quiet. rewrite <- Q3.
    apply syscaps_quiet_ext; by apply K47. }
  assert (Hd : home_quiet d = home_quiet e).
  { apply home_quiet_ext; by apply K14. }
  assert (S46 : ∃ w, checkLabels h e1 = Ok (e1, w) ∧ Forall inspection w ∧
                     checkHome h e1 = Ok (e1, [])).
  { destruct Hhome as [Hq|[Hhome Hsel]].
    - rewrite Hq in Hd. rewrite (checkHome_quiet _ _ Hd) in H6. injection H6 as <- <-.
      exists ws4. split_and!; [|done|].
      + eapply checkLabels_again; [exact H4|by apply K7..].
      + apply checkHome_quiet. rewrite <- Hd. apply home_quiet_ext; by apply K7.
    - exists []. split_and!; [|done|].
      + rewrite checkLabels_spec.
        destruct Hsel as [-> | ->]; by rewrite ?andb_false_r.
      + apply checkHome_quiet. rewrite <- P6.
        * apply home_quiet_ext; by apply K7.
        * rewrite <- Hhome. apply declared_home, K14. }
  destruct S46 as (w & S4 & Iw & S6).
  exists (w ++ checkReadable h e1). split.
  - apply validateEnv_steps.
    exists e1, e1, e1, e1, e1, [], [], [], w, [], []. split_and!; try done.
    + by apply checkImage_quiet.
    + simpl. by rewrite app_nil_r.
  - apply Forall_app. split; [done|apply checkReadable_inspection].
Qed.

(** An environment that needs four of the corrections. *)
Definition busy_env : Env :=
  Env.mk "busy" (Some "") "" None "" "" "" [] [] ["vi"] [] [] [] [] []
    [("selinux", true); ("x11", true); ("uidmap", true); ("tun", true)]
    "" [] [AStr "dotfiles"] "" "" [] None ExecContext.empty
    (Some (path_of "/run/podenv")) None false false false
    (Some (path_of "/etc/podenv/config.yaml")).

Definition busy_env_validated : Env * list Warning :=
  Eval vm_compute in
    match validateEnv desktop_host busy_env with
    | Ok r => r
    | Raise _ => (busy_env, [])
    end.

Example busy_env_warnings :
  busy_env_validated.2 = [WSocket "x11"; WSocket "tun"; WNetAdmin; WOverlay; WPackages] ∧
  validateEnv desktop_host busy_env_validated.1 = Ok (busy_env_validated.1, []).
Proof. split; vm_compute; reflexivity. Qed.

(** The same machine with the selinux module, and an environment with
    overlays and the capabilities it has by default: the first run forces
    mount-run, the second has nothing to add. *)
Definition selinux_host : Host := {|
  os_environ := os_environ desktop_host;
  expanduser_resolve := expanduser_resolve desktop_host;
  resolve_strict := resolve_strict desktop_host;
  path_exists := path_exists desktop_host;
  path_is_file := path_is_file desktop_host;
  read_text := read_text desktop_host;
  listdir_dev := listdir_dev desktop_host;
  access_R_OK := access_R_OK desktop_host;
  HAS_SELINUX := true;
  getfilecon := λ _, "system_u:object_r:user_home_t:s0";
  str_format := str_format desktop_host
|}.

Definition dotfiles_env : Env :=
  Env.mk "dotfiles" (Some "") "" None "" "" "" [] [] [] [] [] [] [] []
    [] "" [] [AStr "dotfiles"] "" "" [] None ExecContext.empty
    (Some (path_of "/run/podenv")) None true false false
    (Some (path_of "/etc/podenv/config.yaml")).

Example dotfiles_env_twice :
  ∃ e e1,
    resolved selinux_host dotfiles_env [] = Ok e ∧
    validateEnv selinux_host e = Ok (e1, [WOverlay]) ∧
    validateEnv selinux_host e1 = Ok (e1, []) ∧
    ExecContext.mounts (Env.ctx e1) =
      [(path_of "/home/user", path_of "/run/podenv/home");
       (path_of "/tmp", path_of "/run/podenv/tmp")].
Proof.
  do 2 eexists. split; [vm_compute; reflexivity|]. split; [vm_compute; reflexivity|].
  split; vm_compute; reflexivity.
Qed.

Lemma validateEnv_reentrant_witness :
  (∃ w2, validateEnv desktop_host busy_env_validated.1 = Ok (busy_env_validated.1, w2) ∧
         Forall inspection w2) ∧
  (∃ e e1 w1 w2,
     resolved selinux_host dotfiles_env [] = Ok e ∧
     validateEnv selinux_host e = Ok (e1, w1) ∧ WOverlay ∈ w1 ∧
     validateEnv selinux_host e1 = Ok (e1, w2) ∧ Forall inspection w2).
Proof.
  split.
  - apply (validateEnv_reentrant desktop_host busy_env _ busy_env_validated.2).
    + vm_compute. reflexivity.
    + reflexivity.
    + right. split; [reflexivity|]. by left.
  - destruct (resolved selinux_host dotfiles_env []) as [e|x] eqn:He;
      [|vm_compute in He; discriminate He].
    destruct (validateEnv selinux_host e) as [[e1 w1]|x] eqn:H1.
    2: { vm_compute in He. injection He as <-. vm_compute in H1. discriminate H1. }
    assert (Hfacts : uid_quiet e = true ∧ Env.home e = "" ∧ Env.cap "selinux" e1 = false ∧
                     WOverlay ∈ w1).
    { vm_compute in He. injection He as <-. vm_compute in H1. injection H1 as <- <-.
      split_and!; try reflexivity. left. }
    destruct Hfacts as (Hu & Hh & Hs & Hw).
    destruct (validateEnv_reentrant selinux_host e e1 w1 H1 Hu) as (w2 & H2 & Hi).
    { right. split; [exact Hh|]. by right. }
    exists e, e1, w1, w2.
    split; [reflexivity|]. split; [exact H1|]. split; [exact Hw|]. split; [exact H2|exact Hi].
Defined.

(** ** Preparing the environment ([prepareEnv]) *)

Lemma runCaps_declared h caps :
  Forall (λ nc, keeps_env nc.2) caps →
  ∀ env env', runCaps h caps env = Ok env' →
    declared env' = declared env ∧ Env.capabilities env' = Env.capabilities env.
Proof.
  intros Hcaps. unfold runCaps.
  apply (foldM_inv (λ e e', declared e' = declared e ∧
                            Env.capabilities e' = Env.capabilities e)).
  - done.
  - intros ??? [-> ->] [-> ->]. done.
  - eapply Forall_impl; [exact Hcaps|].
    intros [n c] Henv s s' H. unfold call in H. inv_bind.
    destruct (Henv _ _ _ _ _ _ Hr) as (Hd & Hc & _).
    rewrite declared_set_ctx. simpl. by rewrite Hd, <- Hc.
Qed.

Lemma applyCapabilities_declared h env env' :
  applyCapabilities h env = Ok env' →
  declared env' = declared env ∧ Env.capabilities env' = Env.capabilities env.
Proof. apply runCaps_declared, Capabilities_keep_env. Qed.

Lemma applySettings_declared h env env' args :
  applySettings h env = Ok (env', args) →
  declared env' = declared env ∧ Env.capabilities env' = Env.capabilities env.
Proof.
  unfold applySettings. intros H. inv_bind. by rewrite declared_set_ctx.
Qed.

Lemma declared_command e e' : declared e' = declared e → Env.command e' = Env.command e.
Proof. intros H. apply (f_equal Env.command) in H. exact H. Qed.

Lemma declared_args e e' : declared e' = declared e → Env.args e' = Env.args e.
Proof. intros H. apply (f_equal Env.args) in H. exact H. Qed.

Lemma declared_name e e' : declared e' = declared e → Env.name e' = Env.name e.
Proof. intros H. apply (f_equal Env.name) in H. exact H. Qed.

(** What [fileArgument] does, case by case. *)
Lemma fileArgument_spec h env cliArgs :
  fileArgument h env cliArgs =
    if bool_decide ("$1" ∈ Env.command env) then
      match cliArgs with
      | [] => Ok (env, [], None)
      | [f] =>
          fileArg ← resolve_strict h (path_of f);
          Ok (Env.set_ctx (ExecContext.mount (path_of "/tmp" // path_name fileArg) fileArg
                             (Env.ctx env)) env, [], Some fileArg)
      | _ => Raise (RuntimeError ("Multiple file input " +:+ repr_list cliArgs))
      end
    else Ok (env, cliArgs, None).
Proof.
  unfold fileArgument. destruct (bool_decide _); [|done].
  destruct cliArgs as [|f [|f' cliArgs]]; done.
Qed.

Lemma fileArgument_post h env cliArgs env' cliArgs' fileArg :
  fileArgument h env cliArgs = Ok (env', cliArgs', fileArg) →
  declared env' = declared env ∧ Env.capabilities env' = Env.capabilities env ∧
  cliArgs' = (if bool_decide ("$1" ∈ Env.command env) then [] else cliArgs).
Proof.
  rewrite fileArgument_spec. destruct (bool_decide _); [|by intros [= <- <- <-]].
  destruct cliArgs as [|f [|f' cliArgs]]; [by intros [= <- <- <-]| |done].
  destruct (resolve_strict h (path_of f)); simpl; [|done].
  intros [= <- <- <-]. by rewrite declared_set_ctx.
Qed.

Lemma validateEnv_post h e g ws :
  validateEnv h e = Ok (g, ws) →
  declared g = declared e ∧
  ExecContext.home (Env.ctx g) = ExecContext.home (Env.ctx e) ∧
  (∀ c, c ≠ "selinux" → Env.cap c g = Env.cap c e) ∧
  (∀ k v, dict_get k (ExecContext.mounts (Env.ctx e)) = Some v →
          dict_get k (ExecContext.mounts (Env.ctx g)) = Some v).
Proof.
  intros (a & b & c & d & f & ws1 & ws2 & ws3 & ws4 & ws6 & ws7 &
          H1 & H2 & H3 & H4 & H6 & H7 & ->)%validateEnv_steps.
  destruct (checkSockets_post _ _ _ _ H1) as [_ K1].
  pose proof (checkUid_post _ _ _ _ H2) as K2.
  destruct (checkSyscaps_post _ _ _ H3) as [_ K3].
  destruct (checkLabels_post _ _ _ _ H4) as [K4 _].
  destruct (checkHome_post _ _ _ _ H6) as (K6 & _ & M6).
  destruct (checkImage_post _ _ _ _ H7) as [_ K7].
  pose proof (kept_trans _ _ _ _ _ _ _ _ _ _ _ _ _ _ _ _ _ K1 K2) as K12.
  pose proof (kept_trans _ _ _ _ _ _ _ _ _ _ _ _ _ _ _ _ _ K12 K3) as K13.
  pose proof (kept_trans _ _ _ _ _ _ _ _ _ _ _ _ _ _ _ _ _ K13 K4) as K14.
  pose proof (kept_trans _ _ _ _ _ _ _ _ _ _ _ _ _ _ _ _ _ K6 K7) as K67.
  pose proof (kept_trans _ _ _ _ _ _ _ _ _ _ _ _ _ _ _ _ _ K14 K67) as K17.
  simpl in *. split_and!.
  - by apply K17.
  - by apply K17.
  - by apply K17.
  - intros k v Hk.
    rewrite (kept_mounts _ _ _ _ _ _ _ _ _ K7) by done.
    apply M6. by rewrite (kept_mounts _ _ _ _ _ _ _ _ _ K14).
Qed.

(** The phases of [resolveEnv], one after the other. *)
Lemma resolveEnv_steps h env cliArgs env' cliArgs' ws args commandArgs :
  resolveEnv h env cliArgs = Ok (env', cliArgs', ws, args, commandArgs) ↔
  ∃ env1 env2 env3 env4 fileArg,
    applyCapabilities h env = Ok env1 ∧
    applySettings h env1 = Ok (env2, args) ∧
    fileArgument h env2 cliArgs = Ok (env3, cliArgs', fileArg) ∧
    commandArgs = commandLine env3 cliArgs' fileArg ∧
    validateEnv h env3 = Ok (env4, ws) ∧
    env' = joinUserns env4.
Proof.
  unfold resolveEnv. split.
  - intros H.
    apply bind_Ok in H as (env1 & H1 & H).
    apply bind_Ok in H as ([env2 args2] & H2 & H).
    apply bind_Ok in H as ([[env3 cli3] fileArg] & H3 & H).
    apply bind_Ok in H as ([env4 ws4] & H4 & [= <- <- <- <- <-]).
    by exists env1, env2, env3, env4, fileArg.
  - intros (env1 & env2 & env3 & env4 & fileArg & H1 & H2 & H3 & -> & H4 & ->).
    rewrite H1; simpl. rewrite H2; simpl. rewrite H3; simpl. by rewrite H4.
Qed.

Lemma prepareEnv_resolveEnv so h env cliArgs r :
  prepareEnv so h env cliArgs = Ok r ↔
  ∃ env' cliArgs' ws args commandArgs,
    resolveEnv h env cliArgs = Ok (env', cliArgs', ws, args, commandArgs) ∧
    r = {| env_after := Env.set_ctx (ExecContext.getArgs so h (Env.ctx env')).1 env';
           cliArgs_after := cliArgs';
           warnings := ws;
           returned := (Env.name env',
                        args ++ (ExecContext.getArgs so h (Env.ctx env')).2,
                        commandArgs) |}.
Proof.
  unfold prepareEnv. split.
  - intros H. apply bind_Ok in H as ([[[[env' cli'] ws] args] cmd] & H1 & H).
    destruct (ExecContext.getArgs so h (Env.ctx env')) as [ctx ctxArgs] eqn:Hg.
    injection H as <-. exists env', cli', ws, args, cmd. by rewrite Hg.
  - intros (env' & cli' & ws & args & cmd & -> & ->). simpl.
    by destruct (ExecContext.getArgs so h (Env.ctx env')).
Qed.

Lemma joinUserns_post e :
  declared (joinUserns e) = declared e ∧
  ExecContext.mounts (Env.ctx (joinUserns e)) = ExecContext.mounts (Env.ctx e) ∧
  ExecContext.syscaps (Env.ctx (joinUserns e)) = ExecContext.syscaps (Env.ctx e).
Proof. unfold joinUserns. destruct (_ && _); [|done]. by rewrite declared_set_ctx. Qed.

Lemma resolveEnv_post h env cliArgs env' cliArgs' ws args commandArgs :
  resolveEnv h env cliArgs = Ok (env', cliArgs', ws, args, commandArgs) →
  declared env' = declared env ∧
  cliArgs' = (if bool_decide ("$1" ∈ Env.command env) then [] else cliArgs).
Proof.
  intros (env1 & env2 & env3 & env4 & fileArg & H1 & H2 & H3 & _ & H4 & ->)%resolveEnv_steps.
  destruct (applyCapabilities_declared _ _ _ H1) as [D1 _].
  destruct (applySettings_declared _ _ _ _ H2) as [D2 _].
  destruct (fileArgument_post _ _ _ _ _ _ H3) as (D3 & _ & ->).
  destruct (validateEnv_post _ _ _ _ H4) as (D4 & _).
  destruct (joinUserns_post env4) as (D5 & _).
  split.
  - by rewrite D5, D4, D3, D2, D1.
  - by rewrite (declared_command env2 env) by (by rewrite D2, D1).
Qed.

(** An environment whose command takes one file. *)
Definition viewer_env : Env :=
  Env.mk "viewer" (Some "") "" None "" "" "" [] [] [] ["cat"; "$1"] ["-n"] [] [] []
    [("root", true)] "" [] [] "" "" [] None ExecContext.empty None None true false false
    (Some (path_of "/etc/podenv/config.yaml")).

(** C10, as stated: [prepareEnv] pops the file argument from the list of the
    caller and fills the context; and rendering alone, on a context that is
    resolved, assigns [cwd]. *)
Lemma prepareEnv_not_pure :
  (∃ r, prepareEnv remove_dups desktop_host viewer_env ["/etc/hostname"] = Ok r ∧
        cliArgs_after r ≠ ["/etc/hostname"] ∧
        Env.ctx (env_after r) ≠ Env.ctx viewer_env) ∧
  (∃ env' cliArgs' ws args commandArgs,
     resolveEnv desktop_host viewer_env ["/etc/hostname"] =
       Ok (env', cliArgs', ws, args, commandArgs) ∧
     ExecContext.cwd (Env.ctx env') = path_empty ∧
     ExecContext.cwd (ExecContext.getArgs remove_dups desktop_host (Env.ctx env')).1 =
       path_of "/root").
Proof.
  split.
  - eexists. split; [vm_compute; reflexivity|]. split; discriminate.
  - do 5 eexists. split; [vm_compute; reflexivity|]. split; reflexivity.
Qed.

(** C10, amended: [prepareEnv] is not pure, it works on the objects that it
    is given.  It leaves the declared fields of the environment as they
    were; it leaves the list of the caller as it was unless the command
    holds [$1], when the list is empty afterwards; and the rendering of the
    resolved context changes no field of it but [cwd], to which it assigns
    [home] when [cwd] is the empty path. *)
Theorem prepareEnv_changes so h env cliArgs r :
  prepareEnv so h env cliArgs = Ok r →
  declared (env_after r) = declared env ∧
  cliArgs_after r = (if bool_decide ("$1" ∈ Env.command env) then [] else cliArgs) ∧
  ∃ env' args commandArgs,
    resolveEnv h env cliArgs = Ok (env', cliArgs_after r, warnings r, args, commandArgs) ∧
    env_after r =
      Env.set_ctx
        (if decide (ExecContext.cwd (Env.ctx env') = path_empty)
         then ExecContext.set_cwd (ExecContext.home (Env.ctx env')) (Env.ctx env')
         else Env.ctx env') env'.
Proof.
  intros (env' & cli' & ws & args & cmd & Hres & ->)%prepareEnv_resolveEnv.
  cbn [env_after cliArgs_after warnings returned].
  destruct (resolveEnv_post _ _ _ _ _ _ _ _ Hres) as [Hd Hcli].
  split_and!.
  - by rewrite declared_set_ctx.
  - done.
  - exists env', args, cmd. split; [done|]. by rewrite getArgs_ctx.
Qed.

Lemma prepareEnv_changes_witness :
  ∃ r, prepareEnv remove_dups desktop_host viewer_env ["/etc/hostname"] = Ok r ∧
       declared (env_after r) = declared viewer_env ∧ cliArgs_after r = [].
Proof.
  eexists. split; [vm_compute; reflexivity|].
  split; eapply (prepareEnv_changes remove_dups desktop_host viewer_env ["/etc/hostname"]);
    vm_compute; reflexivity.
Defined.

(** ** The file argument *)

Lemma flat_map_map_ext {A B} (f : A → list B) (g : A → B) (l : list A) :
  (∀ x, f x = [g x]) → flat_map f l = map g l.
Proof. intros H. induction l as [|x l IH]; simpl; [done|]. by rewrite H, IH. Qed.

(** The command line when the only argument was taken as the file. *)
Lemma commandLine_file e f :
  commandLine e [] (Some f) =
    let commandArgs :=
      map (λ c, if decide (c = "$1") then "/tmp/" +:+ path_name f else c) (Env.command e) in
    if bool_decide (commandArgs = []) || negb (Str.eqb (List.last commandArgs "") "/bin/bash")
    then commandArgs ++ Env.args e else commandArgs.
Proof.
  unfold commandLine.
  erewrite (flat_map_map_ext _
              (λ c, if decide (c = "$1") then "/tmp/" +:+ path_name f else c)).
  - cbv zeta. by rewrite !app_nil_r.
  - intros c. unfold Str.eqb. rewrite andb_false_r.
    by destruct (decide (c = "$1")) as [->|Hc];
      [rewrite bool_decide_true|rewrite bool_decide_false].
Qed.

(** The name of an absolute path is its last part after the root. *)
Lemma path_name_anchored p :
  is_anchored p = true → path_name p = List.last (tail (parts p)) "".
Proof. destruct p as [[|r [|x l]]]; unfold path_name, is_anchored; simpl; [done| |done]. by intros ->. Qed.

(** A host on which [/etc/localtime] is a symbolic link. *)
Definition symlink_host : Host := {|
  os_environ := os_environ desktop_host;
  expanduser_resolve := expanduser_resolve desktop_host;
  resolve_strict := λ p, if decide (p = path_of "/etc/localtime")
                         then Ok (path_of "/usr/share/zoneinfo/UTC") else Ok p;
  path_exists := path_exists desktop_host;
  path_is_file := path_is_file desktop_host;
  read_text := read_text desktop_host;
  listdir_dev := listdir_dev desktop_host;
  access_R_OK := access_R_OK desktop_host;
  HAS_SELINUX := HAS_SELINUX desktop_host;
  getfilecon := getfilecon desktop_host;
  str_format := str_format desktop_host
|}.

(** What C7 says of one argument [f]: [f] is mounted at [/tmp/<basename of
    f>], and that path is among the command arguments. *)
Definition mounted_by_name (f : string) (r : Prepared) : Prop :=
  dict_get (path_of "/tmp" // path_name (path_of f))
    (ExecContext.mounts (Env.ctx (env_after r))) = Some (path_of f) ∧
  "/tmp/" +:+ path_name (path_of f) ∈ (returned r).2.

(** C7, as stated: the argument is resolved before it is mounted, and both
    the mount point and the command take the name of the resolved path.  An
    argument that is a symbolic link is mounted under the name of its
    target. *)
Lemma prepareEnv_file_argument_resolved :
  ∃ r, prepareEnv remove_dups symlink_host viewer_env ["/etc/localtime"] = Ok r ∧
       ¬ mounted_by_name "/etc/localtime" r ∧
       ExecContext.mounts (Env.ctx (env_after r)) =
         [(path_of "/tmp/UTC", path_of "/usr/share/zoneinfo/UTC")] ∧
       (returned r).2 = ["cat"; "/tmp/UTC"; "-n"].
Proof.
  eexists. split; [vm_compute; reflexivity|]. split; [|split; reflexivity].
  intros [Hm _]. vm_compute in Hm. discriminate Hm.
Qed.

(** C7, amended: when the command holds [$1], more than one argument makes
    [prepareEnv] raise and no arguments are returned: once the capabilities
    and the settings have been applied the error is the [RuntimeError]
    "Multiple file input" followed by the list of the arguments.  One
    argument [f] is expanded and resolved to an existing path, which
    [fileArgument] mounts at [/tmp/<name of the resolved path>], its last
    part, and does nothing else; the mount is still there in the end, the
    token [$1] of the command is replaced by that path, and the list of the
    caller is left empty. *)
Theorem prepareEnv_file_argument so h env :
  "$1" ∈ Env.command env →
  (∀ cliArgs, (1 < length cliArgs)%nat →
     ∃ e, prepareEnv so h env cliArgs = Raise e ∧
          ∀ env1 env2 args,
            applyCapabilities h env = Ok env1 → applySettings h env1 = Ok (env2, args) →
            ∃ msg, e = RuntimeError msg ∧
                   Str.startswith "Multiple file input " msg = true ∧
                   (forallb Str.is_ascii cliArgs = true →
                    msg = "Multiple file input " +:+ repr_list cliArgs)) ∧
  (∀ f r, prepareEnv so h env [f] = Ok r →
     ∃ env1 env2 args fileArg,
       applyCapabilities h env = Ok env1 ∧ applySettings h env1 = Ok (env2, args) ∧
       resolve_strict h (path_of f) = Ok fileArg ∧
       (is_anchored fileArg = true →
        path_name fileArg = List.last (tail (parts fileArg)) "") ∧
       fileArgument h env2 [f] =
         Ok (Env.set_ctx (ExecContext.mount (path_of "/tmp" // path_name fileArg) fileArg
                            (Env.ctx env2)) env2, [], Some fileArg) ∧
       dict_get (path_of "/tmp" // path_name fileArg)
         (ExecContext.mounts (Env.ctx (env_after r))) = Some fileArg ∧
       (let commandArgs :=
          map (λ c, if decide (c = "$1") then "/tmp/" +:+ path_name fileArg else c)
              (Env.command env) in
        (returned r).2 =
          if Str.eqb (List.last commandArgs "") "/bin/bash"
          then commandArgs else commandArgs ++ Env.args env) ∧
       cliArgs_after r = []).
Proof.
  intros Hcmd. split.
  - intros cliArgs Hlen. unfold prepareEnv, resolveEnv.
    destruct (applyCapabilities h env) as [env1|e1] eqn:H1; simpl;
      [|eexists; split; [done|]; intros; congruence].
    destruct (applySettings h env1) as [[env2 args]|e2] eqn:H2; simpl;
      [|eexists; split; [done|]; intros; congruence].
    destruct (applyCapabilities_declared _ _ _ H1) as [D1 _].
    destruct (applySettings_declared _ _ _ _ H2) as [D2 _].
    rewrite fileArgument_spec.
    rewrite (declared_command env env2) by (by rewrite D2, D1).
    rewrite bool_decide_true by done.
    destruct cliArgs as [|f [|f' cliArgs]]; simpl in Hlen; [lia..|]. simpl.
    eexists. split; [done|]. intros _ _ _ _ _.
    eexists. split; [done|]. split; [reflexivity|done].
  - intros f r (env' & cli' & ws & args & cmd & Hres & ->)%prepareEnv_resolveEnv.
    apply resolveEnv_steps in Hres
      as (env1 & env2 & env3 & env4 & fileArg & H1 & H2 & H3 & -> & H4 & ->).
    destruct (applyCapabilities_declared _ _ _ H1) as [D1 _].
    destruct (applySettings_declared _ _ _ _ H2) as [D2 _].
    assert (Dc : Env.command env2 = Env.command env)
      by (apply declared_command; by rewrite D2, D1).
    assert (Da : Env.args env2 = Env.args env)
      by (apply declared_args; by rewrite D2, D1).
    pose proof H3 as H3'. rewrite fileArgument_spec, Dc in H3.
    rewrite bool_decide_true in H3 by done.
    destruct (resolve_strict h (path_of f)) as [file|x] eqn:Hf; simpl in H3; [|done].
    injection H3 as <- <- <-.
    exists env1, env2, args, file. split_and!; try done.
    + apply path_name_anchored.
    + cbn [env_after]. rewrite getArgs_ctx.
      destruct (joinUserns_post env4) as (_ & Hm & _).
      destruct (validateEnv_post _ _ _ _ H4) as (_ & _ & _ & Hmono).
      assert (Hget : dict_get (path_of "/tmp" // path_name file)
                       (ExecContext.mounts (Env.ctx (joinUserns env4))) = Some file).
      { rewrite Hm. apply Hmono. simpl. rewrite dict_get_set. by rewrite decide_True. }
      by destruct (decide _).
    + simpl. rewrite commandLine_file. simpl. rewrite Dc, Da.
      assert (Hne : map (λ c, if decide (c = "$1") then "/tmp/" +:+ path_name file else c)
                      (Env.command env) ≠ []).
      { intros Hnil%fmap_nil_inv. rewrite Hnil in Hcmd. by apply elem_of_nil in Hcmd. }
      rewrite bool_decide_false by done. simpl.
      by destruct (Str.eqb _ "/bin/bash").
Qed.

Lemma prepareEnv_file_argument_witness :
  (∃ msg, prepareEnv remove_dups desktop_host viewer_env ["/a"; "it's"] =
            Raise (RuntimeError msg) ∧
          msg = "Multiple file input ['/a', " +:+ String "034" "it's" +:+ String "034" "]") ∧
  (∃ r, prepareEnv remove_dups symlink_host viewer_env ["/etc/localtime"] = Ok r ∧
        (returned r).2 = ["cat"; "/tmp/UTC"; "-n"] ∧
        dict_get (path_of "/tmp/UTC") (ExecContext.mounts (Env.ctx (env_after r))) =
          Some (path_of "/usr/share/zoneinfo/UTC")).
Proof.
  assert (Hcmd : "$1" ∈ Env.command viewer_env) by (right; left).
  split.
  - destruct (prepareEnv_file_argument remove_dups desktop_host viewer_env Hcmd) as [Hmany _].
    destruct (Hmany ["/a"; "it's"]) as (e & He & Hmsg); [simpl; lia|].
    set (env1 := match applyCapabilities desktop_host viewer_env with
                 | Ok e1 => e1
                 | Raise _ => viewer_env
                 end).
    set (r2 := match applySettings desktop_host env1 with
               | Ok r => r
               | Raise _ => (viewer_env, [])
               end).
    destruct (Hmsg env1 r2.1 r2.2) as (msg & -> & _ & Heq); [vm_compute; reflexivity..|].
    exists msg. split; [exact He|]. rewrite (Heq eq_refl). reflexivity.
  - destruct (prepareEnv_file_argument remove_dups symlink_host viewer_env Hcmd) as [_ Hone].
    destruct (prepareEnv remove_dups symlink_host viewer_env ["/etc/localtime"])
      as [r|e] eqn:Hr; [|vm_compute in Hr; discriminate Hr].
    exists r. split; [reflexivity|].
    destruct (Hone "/etc/localtime" r Hr)
      as (env1 & env2 & args & fileArg & _ & _ & Hf & _ & _ & Hm & Hc & _).
    injection Hf as <-. split; [exact Hc|exact Hm].
Defined.

(** The example of the specification: the command [["$1"]]. *)
Example prepareEnv_file_argument_ex :
  let env := Env.mk "cat" (Some "") "" None "" "" "" [] [] [] ["$1"] [] [] [] []
               [] "" [] [] "" "" [] None ExecContext.empty None None true false false
               (Some (path_of "/etc/podenv/config.yaml")) in
  (r ← prepareEnv remove_dups desktop_host env ["/etc/hostname"];
   Ok (ExecContext.mounts (Env.ctx (env_after r)), (returned r).2)) =
    Ok ([(path_of "/tmp/hostname", path_of "/etc/hostname")], ["/tmp/hostname"]) ∧
  prepareEnv remove_dups desktop_host env ["/a"; "/b"] =
    Raise (RuntimeError "Multiple file input ['/a', '/b']").
Proof. split; vm_compute; reflexivity. Qed.

(** ** Two runs of [prepareEnv] *)

Lemma remove_dups_valid : set_order_valid remove_dups.
Proof. intros l. split; [apply NoDup_remove_dups|intros x; apply elem_of_remove_dups]. Qed.

Lemma reverse_remove_dups_valid : set_order_valid (λ l, reverse (remove_dups l)).
Proof.
  intros l. split.
  - rewrite reverse_Permutation. apply NoDup_remove_dups.
  - intros x. rewrite elem_of_reverse. apply elem_of_remove_dups.
Qed.

(** An environment with the [setuid] capability, which adds two system
    capabilities. *)
Definition setuid_env : Env := Env.set_capabilities [("setuid", true)] fresh_env.

(** C5: two runs on the same input do not always return the same
    arguments.  [getArgs] renders the mounts and the environment in sorted
    order, but it iterates [set(self.syscaps)] as it comes, and that order
    changes with the hash seed of the process: for an environment with the
    [setuid] capability, two runs that differ only in this order return the
    same name and the same command, and runtime arguments whose [--cap-add]
    flags are swapped. *)
Theorem prepareEnv_cap_order_differs :
  set_order_valid remove_dups ∧ set_order_valid (λ l, reverse (remove_dups l)) ∧
  ∃ r1 r2,
    prepareEnv remove_dups desktop_host setuid_env [] = Ok r1 ∧
    prepareEnv (λ l, reverse (remove_dups l)) desktop_host setuid_env [] = Ok r2 ∧
    returned r1 ≠ returned r2 ∧
    (returned r1).1.1 = (returned r2).1.1 ∧ (returned r1).2 = (returned r2).2 ∧
    ∃ pre post,
      (returned r1).1.2 = pre ++ ["--cap-add"; "SETUID"; "--cap-add"; "SETGID"] ++ post ∧
      (returned r2).1.2 = pre ++ ["--cap-add"; "SETGID"; "--cap-add"; "SETUID"] ++ post.
Proof.
  split; [apply remove_dups_valid|]. split; [apply reverse_remove_dups_valid|].
  do 2 eexists. split; [vm_compute; reflexivity|]. split; [vm_compute; reflexivity|].
  split; [discriminate|]. split; [reflexivity|]. split; [reflexivity|].
  exists ["--hostname"; "shell"; "--security-opt"; "label=disable";
          "--security-opt"; "seccomp=unconfined"; "--network"; "none";
          "--workdir"; "/home/user"],
         ["-e"; "HOME=/home/user"; "-e"; "XDG_RUNTIME_DIR=/run/user/1000";
          "--user"; "1000"].
  split; reflexivity.
Qed.

Example prepareEnv_cap_order_ex :
  (r1 ← prepareEnv remove_dups desktop_host setuid_env [];
   r2 ← prepareEnv (λ l, reverse (remove_dups l)) desktop_host setuid_env [];
   Ok ((returned r1).1.2, (returned r2).1.2)) =
  Ok (["--hostname"; "shell"; "--security-opt"; "label=disable";
       "--security-opt"; "seccomp=unconfined"; "--network"; "none";
       "--workdir"; "/home/user"; "--cap-add"; "SETUID"; "--cap-add"; "SETGID";
       "-e"; "HOME=/home/user"; "-e"; "XDG_RUNTIME_DIR=/run/user/1000";
       "--user"; "1000"],
      ["--hostname"; "shell"; "--security-opt"; "label=disable";
       "--security-opt"; "seccomp=unconfined"; "--network"; "none";
       "--workdir"; "/home/user"; "--cap-add"; "SETGID"; "--cap-add"; "SETUID";
       "-e"; "HOME=/home/user"; "-e"; "XDG_RUNTIME_DIR=/run/user/1000";
       "--user"; "1000"]).
Proof. vm_compute. reflexivity. Qed.

(** A second call on the same [Env] object starts from the context that the
    first call filled, and returns other arguments. *)
Example prepareEnv_again :
  (r1 ← prepareEnv remove_dups desktop_host fresh_env [];
   r2 ← prepareEnv remove_dups desktop_host (env_after r1) (cliArgs_after r1);
   Ok (ExecContext.execArgs (Env.ctx (env_after r1)),
       ExecContext.execArgs (Env.ctx (env_after r2)))) =
  Ok (["--user"; "1000"], ["--user"; "1000"; "--user"; "1000"]).
Proof. vm_compute. reflexivity. Qed.

(** The order of that iteration is all that two runs can differ in.  On the
    same environment, the same arguments and the same host they both raise
    the same error or both return; they then leave the same objects, print
    the same warnings and return the same name and the same command
    arguments, and their runtime arguments are the same around the block of
    the [--cap-add] flags, which holds one flag for each distinct system
    capability in both runs: the two blocks are permutations of each other,
    and the runs agree altogether when the two iterations do. *)
Lemma prepareEnv_set_order so1 so2 h env cliArgs :
  set_order_valid so1 → set_order_valid so2 →
  match prepareEnv so1 h env cliArgs, prepareEnv so2 h env cliArgs with
  | Ok r1, Ok r2 =>
      env_after r1 = env_after r2 ∧
      cliArgs_after r1 = cliArgs_after r2 ∧
      warnings r1 = warnings r2 ∧
      (returned r1).1.1 = (returned r2).1.1 ∧
      (returned r1).2 = (returned r2).2 ∧
      (∃ pre post caps1 caps2,
         (returned r1).1.2 = pre ++ flat_map (λ cap, ["--cap-add"; cap]) caps1 ++ post ∧
         (returned r2).1.2 = pre ++ flat_map (λ cap, ["--cap-add"; cap]) caps2 ++ post ∧
         caps1 ≡ₚ caps2 ∧ NoDup caps1 ∧
         ∀ cap, cap ∈ caps1 ↔ cap ∈ ExecContext.syscaps (Env.ctx (env_after r1))) ∧
      (so1 (ExecContext.syscaps (Env.ctx (env_after r1))) =
         so2 (ExecContext.syscaps (Env.ctx (env_after r1))) → r1 = r2)
  | Raise e1, Raise e2 => e1 = e2
  | _, _ => False
  end.
Proof.
  intros V1 V2. unfold prepareEnv.
  destruct (resolveEnv h env cliArgs) as [[[[[env' cli'] ws] args] cmd]|e]; simpl; [|done].
  set (c := Env.ctx env').
  set (c' := if decide (ExecContext.cwd c = path_empty)
             then ExecContext.set_cwd (ExecContext.home c) c else c).
  assert (Hs : ExecContext.syscaps c' = ExecContext.syscaps c)
    by (unfold c'; by destruct (decide _)).
  split_and!; try done.
  - exists (args ++ ExecContext.securityArgs c' ++ ExecContext.networkArgs c' ++
            ExecContext.workdirArgs c' ++ ExecContext.mountArgs h c'),
           (ExecContext.environArgs c' ++ ExecContext.execArgs c'),
           (so1 (ExecContext.syscaps c')), (so2 (ExecContext.syscaps c')).
    destruct (V1 (ExecContext.syscaps c')) as [N1 E1].
    destruct (V2 (ExecContext.syscaps c')) as [N2 E2].
    unfold ExecContext.capArgs. simpl. rewrite <- !app_assoc. split_and!; try done.
    apply NoDup_Permutation; [done..|]. intros x. by rewrite E1, E2.
  - unfold ExecContext.capArgs. simpl. by intros ->.
Qed.

(** An environment with one system capability. *)
Definition ptrace_env : Env := Env.set_capabilities [("ptrace", true)] fresh_env.

(** With a single system capability the two iteration orders of the
    example agree, and so do the two runs. *)
Example prepareEnv_set_order_ex :
  prepareEnv remove_dups desktop_host ptrace_env [] =
  prepareEnv (λ l, reverse (remove_dups l)) desktop_host ptrace_env [].
Proof. vm_compute. reflexivity. Qed.

(** ** The inheritance chain: cycles *)

(** [b] is the parent that the environment called [a] names. *)
Definition parent_of (envs : Dict string Env) (a b : string) : Prop :=
  ∃ e, dict_get a envs = Some e ∧ Env.parent e = b ∧ b ≠ "".

Section Chain.
Variable envs : Dict string Env.
Abbreviation R := (parent_of envs).

Lemma parent_of_det a b c : R a b → R a c → b = c.
Proof. intros (e & He & <- & _) (e' & He' & <- & _). congruence. Qed.

Lemma parent_of_key a b : R a b → a ∈ dict_keys envs.
Proof.
  intros (e & He & _). apply dict_has_elem. unfold dict_has. by rewrite He.
Qed.

(** Every name reachable from [p] names a parent. *)
Definition endless (p : string) : Prop := ∀ q, rtc R p q → ∃ q', R q q'.

Lemma endless_step p q : endless p → R p q → endless q.
Proof. intros Hp Hpq r Hr. apply Hp. by eapply rtc_l. Qed.

Lemma cycle_closed m q : tc R m m → rtc R m q → tc R q q.
Proof.
  intros Hm Hq. induction Hq as [|x y z Hxy Hyz IH]; [done|].
  apply IH. apply tc_rtc_l with x; [|by apply tc_once].
  inversion Hm as [? ? Hxx|? y' ? Hxy' Hy'x]; subst.
  - rewrite (parent_of_det _ _ _ Hxy Hxx). apply rtc_refl.
  - rewrite (parent_of_det _ _ _ Hxy Hxy'). by apply tc_rtc.
Qed.

Lemma chain_linear n m q : rtc R n m → rtc R n q → rtc R q m ∨ rtc R m q.
Proof.
  intros Hm. revert q. induction Hm as [|x y z Hxy Hyz IH]; intros q Hq; [by right|].
  inversion Hq as [|? y' ? Hxy' Hy'q]; subst.
  - left. by eapply rtc_l.
  - rewrite <- (parent_of_det _ _ _ Hxy Hxy') in Hy'q. by apply IH.
Qed.

Lemma tc_has_step q : tc R q q → ∃ q', R q q'.
Proof. inversion 1; eauto. Qed.

(** A chain that runs into a cycle never ends. *)
Lemma cycle_endless n m : rtc R n m → tc R m m → endless n.
Proof.
  intros Hnm Hm q Hq.
  destruct (chain_linear _ _ _ Hnm Hq) as [Hqm|Hmq].
  - inversion Hqm; subst; [by apply tc_has_step|eauto].
  - by apply tc_has_step, (cycle_closed m).
Qed.

Lemma history_bound history p :
  NoDup history → history ⊆ dict_keys envs → p ∈ dict_keys envs → p ∉ history →
  (S (length history) ≤ length envs)%nat.
Proof.
  intros Hnd Hsub Hp Hnp.
  assert (Hle : (length (p :: history) ≤ length (dict_keys envs))%nat).
  { apply submseteq_length, NoDup_submseteq; [by constructor|].
    intros x [->|Hx]%elem_of_cons; auto. }
  unfold dict_keys in Hle. by rewrite length_fmap in Hle.
Qed.

Lemma resolveParents_unfold fuel history env p :
  resolveParents fuel envs history env p =
    if decide (p = "") then Some (Ok env)
    else if bool_decide (p ∈ history) then
      Some (Raise (ConfigurationError ("Circular dependencies detected " +:+ p)))
    else
      match dict_get p envs with
      | None => Some (Raise (KeyError p))
      | Some parentEnv =>
          match fuel with
          | O => None
          | S fuel' =>
              resolveParents fuel' envs (p :: history)
                (Env.applyParent env parentEnv).1 (Env.parent parentEnv)
          end
      end.
Proof. by destruct fuel. Qed.

(** With one step for each name that is not yet in the history, the
    resolution returns. *)
Lemma resolveParents_total fuel history env p :
  NoDup history → history ⊆ dict_keys envs →
  (length envs ≤ fuel + length history)%nat →
  is_Some (resolveParents fuel envs history env p).
Proof.
  revert history env p. induction fuel as [|fuel IH]; intros history env p Hnd Hsub Hlen;
    rewrite resolveParents_unfold;
    (destruct (decide (p = "")); [done|]);
    (destruct (bool_decide (p ∈ history)) eqn:Hin; [done|]);
    apply bool_decide_eq_false in Hin;
    (destruct (dict_get p envs) as [pe|] eqn:Hp; [|done]);
    assert (Hkey : p ∈ dict_keys envs)
      by (apply dict_has_elem; unfold dict_has; by rewrite Hp);
    pose proof (history_bound _ _ Hnd Hsub Hkey Hin).
  - lia.
  - apply IH.
    + by constructor.
    + intros x [->|Hx]%elem_of_cons; auto.
    + simpl. lia.
Qed.

(** On a chain that never ends the resolution stops at a name it met
    before. *)
Lemma resolveParents_endless fuel history env p :
  p ≠ "" → endless p →
  NoDup history → history ⊆ dict_keys envs →
  (length envs ≤ fuel + length history)%nat →
  ∃ msg, resolveParents fuel envs history env p = Some (Raise (ConfigurationError msg)).
Proof.
  revert history env p. induction fuel as [|fuel IH];
    intros history env p Hne Hend Hnd Hsub Hlen;
    rewrite resolveParents_unfold, decide_False by done;
    (destruct (bool_decide (p ∈ history)) eqn:Hin; [by eexists|]);
    apply bool_decide_eq_false in Hin;
    destruct (Hend p (rtc_refl _ _)) as (q & Hpq);
    pose proof (history_bound _ _ Hnd Hsub (parent_of_key _ _ Hpq) Hin);
    pose proof (endless_step _ _ Hend Hpq) as Hq;
    destruct Hpq as (pe & Hp & <- & Hqne); rewrite Hp.
  - lia.
  - apply IH; try done.
    + by constructor.
    + intros x [->|Hx]%elem_of_cons; auto.
      apply dict_has_elem. unfold dict_has. by rewrite Hp.
    + simpl. lia.
Qed.
End Chain.

(** The resolution of any name returns, with an environment or an error. *)
Lemma loadEnv_total envs name : is_Some (loadEnv envs name).
Proof.
  unfold loadEnv. destruct (dict_get name envs) as [env|] eqn:Hname; [|done].
  apply resolveParents_total.
  - apply NoDup_singleton.
  - intros x ->%list_elem_of_singleton.
    apply dict_has_elem. unfold dict_has. by rewrite Hname.
  - simpl. lia.
Qed.

(** C8: when the chain of parents that starts at [name] reaches an
    environment [m] that is its own ancestor, the resolution returns, and
    what it returns is a configuration error. *)
Theorem loadEnv_cycle envs name m :
  rtc (parent_of envs) name m → tc (parent_of envs) m m →
  ∃ msg, loadEnv envs name = Some (Raise (ConfigurationError msg)).
Proof.
  intros Hnm Hm.
  pose proof (cycle_endless envs _ _ Hnm Hm) as Hend.
  destruct (Hend name (rtc_refl _ _)) as (p & Hp).
  pose proof (endless_step envs _ _ Hend Hp) as Hendp.
  pose proof (parent_of_key envs _ _ Hp) as Hkey.
  destruct Hp as (env & Hname & <- & Hne).
  unfold loadEnv. rewrite Hname.
  apply resolveParents_endless; try done.
  - apply NoDup_singleton.
  - by intros x ->%list_elem_of_singleton.
  - simpl. lia.
Qed.

(** The chain [A parent=B parent=A]. *)
Definition cyclic_envs : Dict string Env :=
  [("A", Env.mk "A" (Some "") "B" None "" "" "" [] [] [] [] [] [] [] [] [] "" [] [] "" "" []
           None ExecContext.empty None None true false false (Some (path_of "/c.yaml")));
   ("B", Env.mk "B" (Some "") "A" None "" "" "" [] [] [] [] [] [] [] [] [] "" [] [] "" "" []
           None ExecContext.empty None None true false false (Some (path_of "/c.yaml")))].

Lemma loadEnv_cycle_witness :
  ∃ msg, loadEnv cyclic_envs "A" = Some (Raise (ConfigurationError msg)).
Proof.
  apply (loadEnv_cycle cyclic_envs "A" "A").
  - apply rtc_refl.
  - apply tc_l with "B"; [|apply tc_once]; eexists; (split; [reflexivity|]); split;
      [reflexivity|discriminate|reflexivity|discriminate].
Defined.

Example loadEnv_cycle_ex :
  loadEnv cyclic_envs "A" =
    Some (Raise (ConfigurationError "Circular dependencies detected A")).
Proof. reflexivity. Qed.

Example loadEnv_chain_ex :
  (λ r, match r with Some (Ok e) => Some (Env.image e, Env.command e) | _ => None end)
    (loadEnv [("child", child_env); ("base", parent_env)] "child") =
  Some ("fedora", ["make"]).
Proof. reflexivity. Qed.

(** * Further properties of the validator *)

Lemma socket_warnings_nil e : socket_warnings e = [] → socket_quiet e = true.
Proof.
  unfold socket_warnings, socket_quiet.
  destruct (Env.cap "selinux" e); [|done]. simpl.
  by destruct (Env.cap "x11" e), (Env.cap "tun" e), (Env.cap "pulseaudio" e).
Qed.

Lemma checkSyscaps_spec e :
  checkSyscaps e =
    if syscaps_quiet e then (e, [])
    else (Env.set_ctx (ExecContext.set_syscaps
                         (ExecContext.syscaps (Env.ctx e) ++ ["NET_ADMIN"]) (Env.ctx e)) e,
          [WNetAdmin]).
Proof.
  unfold checkSyscaps, syscaps_quiet.
  destruct (Env.cap "tun" e); simpl; [|done]. by destruct (bool_decide _).
Qed.

Lemma checkHome_fires h e :
  home_quiet e = false →
  checkHome h e = (e' ← call mountRunCap h true e; Ok (e', [WOverlay])).
Proof.
  unfold checkHome, home_quiet. intros [Ho Hh]%orb_false_iff. by rewrite Ho, Hh.
Qed.

Lemma checkImage_spec h e :
  checkImage h e =
    Ok (if image_quiet e then e else Env.set_manageImage true e,
        if Env.manageImage e then []
        else (if bool_decide (Env.packages e = []) then [] else [WPackages]) ++
             (if bool_decide (Env.imageCustomizations e = [])
                 && bool_decide (Env.imageTasks e = []) then [] else [WImageTasks])).
Proof.
  unfold checkImage, image_quiet, call.
  destruct (Env.manageImage e) eqn:Hm; simpl; [done|].
  destruct (bool_decide (Env.packages e = [])) eqn:Hp; simpl;
    destruct (bool_decide (Env.imageCustomizations e = [])) eqn:Hc; simpl;
    destruct (bool_decide (Env.imageTasks e = [])) eqn:Ht; simpl;
    rewrite ?Hm; try done; by destruct e.
Qed.

(** X1: a run of the validator that prints no warning has changed nothing:
    every correction comes with its warning. *)
Theorem validateEnv_silent h e e' :
  validateEnv h e = Ok (e', []) → e' = e.
Proof.
  intros (a & b & c & d & f & w1 & w2 & w3 & w4 & w6 & w7 &
          H1 & H2 & H3 & H4 & H6 & H7 & Hws)%validateEnv_steps.
  symmetry in Hws.
  apply app_eq_nil in Hws as [-> Hws]. apply app_eq_nil in Hws as [-> Hws].
  apply app_eq_nil in Hws as [-> Hws]. apply app_eq_nil in Hws as [-> Hws].
  apply app_eq_nil in Hws as [_ Hws]. apply app_eq_nil in Hws as [-> ->].
  rewrite checkSockets_spec in H1. injection H1 as <- Hw1.
  rewrite (socket_warnings_nil _ Hw1) in *.
  destruct (uid_quiet e) eqn:Hu.
  2: { destruct (checkUid_fires h e Hu) as [k Hk]. rewrite Hk in H2. discriminate H2. }
  rewrite (checkUid_quiet _ _ Hu) in H2. injection H2 as <-.
  rewrite checkSyscaps_spec in H3. destruct (syscaps_quiet e); [|discriminate H3].
  injection H3 as <-.
  rewrite checkLabels_spec in H4.
  assert (d = e) as ->.
  { destruct (_ && _); [|by injection H4 as <-].
    apply bind_Ok in H4 as (ws & _ & H4). by injection H4 as <- ->. }
  destruct (home_quiet e) eqn:Hh.
  2: { rewrite (checkHome_fires _ _ Hh) in H6.
       apply bind_Ok in H6 as (? & _ & H6). discriminate H6. }
  rewrite (checkHome_quiet _ _ Hh) in H6. injection H6 as <-.
  rewrite checkImage_spec in H7. injection H7 as <- Hw7.
  destruct (image_quiet e) eqn:Hi; [done|].
  unfold image_quiet in Hi. apply orb_false_iff in Hi as [Hm Hi]. rewrite Hm in Hw7.
  destruct (bool_decide (Env.packages e = [])); [|done].
  simpl in Hi. rewrite Hi in Hw7. discriminate Hw7.
Qed.

Lemma validateEnv_silent_witness :
  ∃ e', validateEnv desktop_host viewer_env = Ok (e', []) ∧ e' = viewer_env.
Proof.
  destruct (validateEnv desktop_host viewer_env) as [[e' ws]|x] eqn:Hv;
    [|vm_compute in Hv; discriminate Hv].
  assert (Hws : ws = []).
  { pose proof Hv as Hv'. vm_compute in Hv'. by injection Hv' as _ ->. }
  subst ws. exists e'. split; [reflexivity|].
  exact (validateEnv_silent desktop_host viewer_env e' Hv).
Defined.

(** The warnings of each check, by kind. *)
Lemma socket_warnings_kind e w : w ∈ socket_warnings e → ∃ c, w = WSocket c.
Proof.
  unfold socket_warnings. destruct (Env.cap "selinux" e); [|by intros ?%elem_of_nil].
  intros (c & -> & _)%list_elem_of_fmap. by exists c.
Qed.

Lemma checkUid_kind h e e' ws w : checkUid h e = Ok (e', ws) → w ∈ ws → ∃ c, w = WUidMap c.
Proof.
  destruct (uid_quiet e) eqn:Hq.
  - rewrite checkUid_quiet by done. intros [= <- <-]. by intros ?%elem_of_nil.
  - destruct (checkUid_fires h e Hq) as [c ->]. intros [= <- <-].
    intros ->%list_elem_of_singleton. by exists c.
Qed.

Lemma checkHome_kind h e e' ws w : checkHome h e = Ok (e', ws) → w ∈ ws → w = WOverlay.
Proof.
  destruct (home_quiet e) eqn:Hq.
  - rewrite checkHome_quiet by done. intros [= <- <-]. by intros ?%elem_of_nil.
  - rewrite checkHome_fires by done. intros H. apply bind_Ok in H as (e1 & _ & [= <- <-]).
    by intros ->%list_elem_of_singleton.
Qed.

Lemma checkImage_kind h e e' ws w :
  checkImage h e = Ok (e', ws) → w ∈ ws → w = WPackages ∨ w = WImageTasks.
Proof.
  rewrite checkImage_spec. intros [= <- <-].
  destruct (Env.manageImage e); [by intros ?%elem_of_nil|].
  intros [H|H]%elem_of_app.
  - destruct (bool_decide _); [by apply elem_of_nil in H|].
    apply list_elem_of_singleton in H. by left.
  - destruct (_ && _); [by apply elem_of_nil in H|].
    apply list_elem_of_singleton in H. by right.
Qed.

Lemma inspection_elem ws w : Forall inspection ws → w ∈ ws → inspection w.
Proof. intros H Hw. by apply (proj1 (Forall_forall _ _) H). Qed.

(** X2: when SELinux is requested together with a capability that needs a
    socket of the host ([x11], [tun] or [pulseaudio]), a successful validation
    turns the [selinux] capability off, disables the label of the container
    and warns about that capability. *)
Theorem validateEnv_socket_disables_selinux h e e' ws c :
  validateEnv h e = Ok (e', ws) →
  Env.cap "selinux" e = true →
  c ∈ ["x11"; "tun"; "pulseaudio"] → Env.cap c e = true →
  Env.capabilities e' = dict_set "selinux" false (Env.capabilities e) ∧
  Env.cap "selinux" e' = false ∧
  ExecContext.seLinuxLabel (Env.ctx e') = "disable" ∧
  WSocket c ∈ ws.
Proof.
  intros (a & b & c0 & d & f & w1 & w2 & w3 & w4 & w6 & w7 &
          H1 & H2 & H3 & H4 & H6 & H7 & ->)%validateEnv_steps Hse Hc Hcap.
  rewrite checkSockets_spec in H1. injection H1 as <- <-.
  assert (Hq : socket_quiet e = false).
  { unfold socket_quiet. rewrite Hse. simpl.
    apply negb_false_iff, orb_true_iff. rewrite orb_true_iff.
    rewrite !elem_of_cons in Hc. destruct Hc as [->|[->|[->|Hc]]];
      [by left; left|by left; right|by right|by apply elem_of_nil in Hc]. }
  rewrite Hq in *.
  pose proof (checkUid_post _ _ _ _ H2) as K2.
  destruct (checkSyscaps_post _ _ _ H3) as [_ K3].
  destruct (checkLabels_post _ _ _ _ H4) as [K4 _].
  destruct (checkHome_post _ _ _ _ H6) as (K6 & _).
  destruct (checkImage_post _ _ _ _ H7) as [_ K7].
  pose proof (kept_trans _ _ _ _ _ _ _ _ _ _ _ _ _ _ _ _ _ K2 K3) as K23.
  pose proof (kept_trans _ _ _ _ _ _ _ _ _ _ _ _ _ _ _ _ _ K6 K7) as K67.
  assert (Hcaps : Env.capabilities e' = Env.capabilities (socket_fix e)).
  { rewrite (kept_caps _ _ _ _ _ _ _ _ _ K67 eq_refl), (kept_caps _ _ _ _ _ _ _ _ _ K4 eq_refl).
    apply (kept_caps _ _ _ _ _ _ _ _ _ K23 eq_refl). }
  split; [exact Hcaps|]. split.
  { unfold Env.cap. rewrite Hcaps. apply cap_selinux_socket_fix. }
  split.
  - rewrite (kept_label _ _ _ _ _ _ _ _ _ K67 eq_refl).
    assert (Hl : ExecContext.seLinuxLabel (Env.ctx c0) = "disable")
      by (by rewrite (kept_label _ _ _ _ _ _ _ _ _ K23 eq_refl)).
    rewrite checkLabels_spec in H4. destruct (_ && _); [|by injection H4 as <- <-].
    apply bind_Ok in H4 as (ws' & _ & [= <- <-]). by destruct ws'.
  - apply elem_of_app. left. unfold socket_warnings. rewrite Hse.
    apply list_elem_of_fmap. exists c. split; [done|].
    apply list_elem_of_In, filter_In. split; [by apply list_elem_of_In|done].
Qed.

Lemma validateEnv_socket_disables_selinux_witness :
  Env.capabilities busy_env_validated.1 = dict_set "selinux" false (Env.capabilities busy_env) ∧
  Env.cap "selinux" busy_env_validated.1 = false ∧
  ExecContext.seLinuxLabel (Env.ctx busy_env_validated.1) = "disable" ∧
  WSocket "tun" ∈ busy_env_validated.2.
Proof.
  apply (validateEnv_socket_disables_selinux desktop_host busy_env).
  - vm_compute. reflexivity.
  - reflexivity.
  - apply (bool_decide_unpack _). reflexivity.
  - reflexivity.
Defined.

(** X3: the validator adds [NET_ADMIN] to the system capabilities exactly
    when the [tun] capability is on and it is missing, at the end of the
    list, and warns exactly then; no other check touches the list. *)
Theorem validateEnv_net_admin h e e' ws :
  validateEnv h e = Ok (e', ws) →
  ExecContext.syscaps (Env.ctx e') =
    ExecContext.syscaps (Env.ctx e) ++
    (if syscaps_quiet e then [] else ["NET_ADMIN"]) ∧
  (Env.cap "tun" e = true → "NET_ADMIN" ∈ ExecContext.syscaps (Env.ctx e')) ∧
  (WNetAdmin ∈ ws ↔ syscaps_quiet e = false).
Proof.
  intros (a & b & c0 & d & f & w1 & w2 & w3 & w4 & w6 & w7 &
          H1 & H2 & H3 & H4 & H6 & H7 & ->)%validateEnv_steps.
  destruct (checkSockets_post _ _ _ _ H1) as [_ K1].
  pose proof (checkUid_post _ _ _ _ H2) as K2.
  destruct (checkLabels_post _ _ _ _ H4) as [K4 I4].
  destruct (checkHome_post _ _ _ _ H6) as (K6 & _).
  destruct (checkImage_post _ _ _ _ H7) as [_ K7].
  pose proof (kept_trans _ _ _ _ _ _ _ _ _ _ _ _ _ _ _ _ _ K1 K2) as K12.
  pose proof (kept_trans _ _ _ _ _ _ _ _ _ _ _ _ _ _ _ _ _ K6 K7) as K67.
  pose proof (kept_trans _ _ _ _ _ _ _ _ _ _ _ _ _ _ _ _ _ K4 K67) as K47.
  assert (Hq : syscaps_quiet b = syscaps_quiet e).
  { unfold syscaps_quiet.
    rewrite (kept_others _ _ _ _ _ _ _ _ _ K12 eq_refl) by done.
    by rewrite (kept_syscaps _ _ _ _ _ _ _ _ _ K12 eq_refl). }
  rewrite checkSyscaps_spec, Hq in H3.
  assert (Hs : ExecContext.syscaps (Env.ctx e') =
               ExecContext.syscaps (Env.ctx e) ++ (if syscaps_quiet e then [] else ["NET_ADMIN"])).
  { rewrite (kept_syscaps _ _ _ _ _ _ _ _ _ K47 eq_refl).
    destruct (syscaps_quiet e); injection H3 as <- <-; simpl.
    - rewrite app_nil_r. apply (kept_syscaps _ _ _ _ _ _ _ _ _ K12 eq_refl).
    - f_equal. apply (kept_syscaps _ _ _ _ _ _ _ _ _ K12 eq_refl). }
  split; [exact Hs|]. split.
  - intros Ht. rewrite Hs. unfold syscaps_quiet. rewrite Ht. simpl.
    destruct (bool_decide _) eqn:Hn.
    + rewrite app_nil_r. by apply bool_decide_eq_true in Hn.
    + apply elem_of_app. right. by apply list_elem_of_singleton.
  - split.
    + rewrite !elem_of_app. intros [Hw|[Hw|[Hw|[Hw|[Hw|[Hw|Hw]]]]]].
      * rewrite checkSockets_spec in H1. injection H1 as _ <-.
        by destruct (socket_warnings_kind _ _ Hw).
      * by destruct (checkUid_kind _ _ _ _ _ H2 Hw).
      * destruct (syscaps_quiet e); [|done]. injection H3 as _ <-. by apply elem_of_nil in Hw.
      * by destruct (inspection_elem _ _ I4 Hw).
      * by destruct (inspection_elem _ _ (checkReadable_inspection h d) Hw).
      * by pose proof (checkHome_kind _ _ _ _ _ H6 Hw).
      * by destruct (checkImage_kind _ _ _ _ _ H7 Hw).
    + intros Hf. rewrite Hf in H3. injection H3 as _ <-.
      rewrite !elem_of_app. right. right. left. by apply list_elem_of_singleton.
Qed.

Lemma validateEnv_net_admin_witness :
  ExecContext.syscaps (Env.ctx busy_env_validated.1) =
    ExecContext.syscaps (Env.ctx busy_env) ++
    (if syscaps_quiet busy_env then [] else ["NET_ADMIN"]) ∧
  (Env.cap "tun" busy_env = true →
   "NET_ADMIN" ∈ ExecContext.syscaps (Env.ctx busy_env_validated.1)) ∧
  (WNetAdmin ∈ busy_env_validated.2 ↔ syscaps_quiet busy_env = false).
Proof.
  apply (validateEnv_net_admin desktop_host busy_env). vm_compute. reflexivity.
Defined.

(** A mounted host path whose security context has fewer than three
    fields: [getfilecon(...)[1].split(':')[2]] fails on it. *)
Definition bad_label (h : Host) (hostPath : Path) : bool :=
  let p := expanduser_resolve h hostPath in
  path_exists h p && bool_decide (Str.split ":" (getfilecon h (path_str p)) !! 2%nat = None).

(** The label check is reached with SELinux still requested, and meets such
    a path. *)
Definition labels_raise (h : Host) (e : Env) : bool :=
  Env.cap "selinux" e && socket_quiet e && HAS_SELINUX h
  && existsb (bad_label h) (dict_values (ExecContext.mounts (Env.ctx e))).

Lemma labelWarning_raise h l ws :
  if existsb (bad_label h) l then foldM (labelWarning h) ws l = Raise IndexError
  else ∃ ws', foldM (labelWarning h) ws l = Ok ws'.
Proof.
  revert ws. induction l as [|p l IH]; intros ws; cbn [foldM existsb]; [by exists ws|].
  assert (H : if bad_label h p then labelWarning h ws p = Raise IndexError
              else ∃ ws1, labelWarning h ws p = Ok ws1).
  { unfold bad_label, labelWarning. cbv zeta.
    destruct (path_exists h (expanduser_resolve h p)); simpl; [|eauto].
    destruct (Str.split ":" (getfilecon h (path_str (expanduser_resolve h p))) !! 2%nat)
      as [type|]; simpl; [|done].
    destruct (negb (Str.eqb type label)); eauto. }
  destruct (bad_label h p); simpl.
  - by rewrite H.
  - destruct H as [ws1 ->]. simpl. apply IH.
Qed.

Lemma declared_runDir e e' : declared e' = declared e → Env.runDir e' = Env.runDir e.
Proof. intros H. apply (f_equal Env.runDir) in H. exact H. Qed.

Lemma checkLabels_raise h e :
  if Env.cap "selinux" e && HAS_SELINUX h
     && existsb (bad_label h) (dict_values (ExecContext.mounts (Env.ctx e)))
  then checkLabels h e = Raise IndexError
  else ∃ e' ws, checkLabels h e = Ok (e', ws).
Proof.
  rewrite checkLabels_spec. destruct (Env.cap "selinux" e && HAS_SELINUX h); simpl; [|eauto].
  pose proof (labelWarning_raise h (dict_values (ExecContext.mounts (Env.ctx e))) []) as H.
  destruct (existsb _ _).
  - by rewrite H.
  - destruct H as [ws' ->]. simpl. eauto.
Qed.

Lemma checkHome_raise h e :
  if negb (home_quiet e) && bool_decide (Env.runDir e = None)
  then checkHome h e = Raise (RuntimeError "runDir isn't set")
  else ∃ e' ws, checkHome h e = Ok (e', ws).
Proof.
  destruct (home_quiet e) eqn:Hq; simpl.
  { rewrite checkHome_quiet by done. eauto. }
  rewrite checkHome_fires by done. unfold call, mountRunCap.
  destruct (Env.runDir e) as [d|]; simpl; eauto.
Qed.

(** The failures of the validator on a host whose queries return:
    [IndexError] when the label check runs (SELinux requested, no capability
    that needs a socket, the selinux module present) and a mounted host path
    that exists has a security context of fewer than three fields; otherwise
    [RuntimeError("runDir isn't set")] when overlays are declared, the home
    directory is not mounted and [runDir] is [None]. *)
Lemma validateEnv_raise_cases h e x :
  validateEnv h e = Raise x ↔
  (labels_raise h e = true ∧ x = IndexError) ∨
  (labels_raise h e = false ∧ home_quiet e = false ∧ Env.runDir e = None ∧
   x = RuntimeError "runDir isn't set").
Proof.
  unfold validateEnv.
  destruct (checkSockets h e) as [[a w1]|] eqn:H1;
    [|by rewrite checkSockets_spec in H1].
  destruct (checkSockets_post _ _ _ _ H1) as [_ K1].
  rewrite checkSockets_spec in H1. injection H1 as Ha _. simpl.
  destruct (checkUid h a) as [[b w2]|] eqn:H2.
  2: { destruct (uid_quiet a) eqn:Hq.
       - by rewrite checkUid_quiet in H2.
       - destruct (checkUid_fires h a Hq) as [c Hc]. by rewrite Hc in H2. }
  pose proof (checkUid_post _ _ _ _ H2) as K2. simpl.
  destruct (checkSyscaps b) as [c w3] eqn:H3.
  destruct (checkSyscaps_post _ _ _ H3) as [_ K3].
  pose proof (kept_trans _ _ _ _ _ _ _ _ _ _ _ _ _ _ _ _ _ K2 K3) as K23.
  pose proof (kept_trans _ _ _ _ _ _ _ _ _ _ _ _ _ _ _ _ _ K1 K23) as K13.
  assert (Hsel : Env.cap "selinux" c = Env.cap "selinux" e && socket_quiet e).
  { rewrite (kept_caps_others _ _ _ _ _ _ _ _ K23), <- Ha.
    destruct (socket_quiet e) eqn:Hq; [by rewrite andb_true_r|].
    by rewrite cap_selinux_socket_fix, andb_false_r. }
  assert (Hlab : Env.cap "selinux" c && HAS_SELINUX h
                 && existsb (bad_label h) (dict_values (ExecContext.mounts (Env.ctx c)))
                 = labels_raise h e).
  { unfold labels_raise. by rewrite Hsel, (kept_mounts _ _ _ _ _ _ _ _ _ K13 eq_refl). }
  pose proof (checkLabels_raise h c) as H4. rewrite Hlab in H4.
  destruct (labels_raise h e).
  { rewrite H4. simpl. split.
    - intros [= <-]. by left.
    - by intros [[_ ->]|[? _]]. }
  destruct H4 as (d & w4 & H4). rewrite H4. simpl.
  destruct (checkLabels_post _ _ _ _ H4) as [K4 _].
  pose proof (kept_trans _ _ _ _ _ _ _ _ _ _ _ _ _ _ _ _ _ K13 K4) as K14.
  assert (Hh : home_quiet d = home_quiet e).
  { apply home_quiet_ext.
    - apply (kept_declared _ _ _ _ _ _ _ _ _ K14).
    - apply (kept_home _ _ _ _ _ _ _ _ _ K14).
    - apply (kept_mounts _ _ _ _ _ _ _ _ _ K14 eq_refl). }
  pose proof (checkHome_raise h d) as H6.
  rewrite Hh, (declared_runDir _ _ (kept_declared _ _ _ _ _ _ _ _ _ K14)) in H6.
  destruct (home_quiet e); simpl in H6.
  { destruct H6 as (f & w6 & ->). simpl. rewrite checkImage_spec. simpl.
    split; [done|]. by intros [[? _]|(_ & ? & _)]. }
  destruct (Env.runDir e) as [rd|]; simpl in H6.
  { destruct H6 as (f & w6 & ->). simpl. rewrite checkImage_spec. simpl.
    split; [done|]. by intros [[? _]|(_ & _ & ? & _)]. }
  rewrite H6. simpl. split.
  - intros [= <-]. by right.
  - by intros [[? _]|(_ & _ & _ & ->)].
Qed.

(** X4: what the validator needs to return.  When [validateEnv] returns
    and the label check ran (SELinux requested, no capability that needs a
    socket, the selinux module present), the security context of every
    mounted host path that exists has a third field, since
    [getfilecon(...)[1].split(':')[2]] ends the call with [IndexError]
    otherwise; and when overlays are declared and the home directory is not
    mounted, [runDir] is set, since the forced [mountRunCap] raises
    [RuntimeError] without it. *)
Theorem validateEnv_returns h e e' ws :
  validateEnv h e = Ok (e', ws) →
  (Env.cap "selinux" e = true → socket_quiet e = true → HAS_SELINUX h = true →
   ∀ hostPath, hostPath ∈ dict_values (ExecContext.mounts (Env.ctx e)) →
     path_exists h (expanduser_resolve h hostPath) = true →
     ∃ type, Str.split ":" (getfilecon h (path_str (expanduser_resolve h hostPath)))
               !! 2%nat = Some type) ∧
  (Env.overlays e ≠ [] →
   dict_has (ExecContext.home (Env.ctx e)) (ExecContext.mounts (Env.ctx e)) = false →
   ∃ runDir, Env.runDir e = Some runDir).
Proof.
  intros H.
  assert (Hl : labels_raise h e = false).
  { destruct (labels_raise h e) eqn:Hl; [|done].
    assert (Hx : validateEnv h e = Raise IndexError)
      by (apply validateEnv_raise_cases; by left).
    congruence. }
  split.
  - intros Hsel Hq Hmod hostPath Hin Hex.
    destruct (Str.split ":" (getfilecon h (path_str (expanduser_resolve h hostPath)))
                !! 2%nat) as [type|] eqn:Hty; [by exists type|].
    assert (Hbad : labels_raise h e = true); [|congruence].
    unfold labels_raise. rewrite Hsel, Hq, Hmod. simpl.
    apply existsb_exists. exists hostPath. split; [by apply list_elem_of_In|].
    unfold bad_label. cbv zeta. rewrite Hex, Hty. by rewrite bool_decide_true.
  - intros Ho Hh. destruct (Env.runDir e) as [runDir|] eqn:Hr; [by exists runDir|].
    assert (Hx : validateEnv h e = Raise (RuntimeError "runDir isn't set")); [|congruence].
    apply validateEnv_raise_cases. right. split_and!; try done.
    unfold home_quiet. by rewrite bool_decide_false, Hh.
Qed.

Lemma validateEnv_returns_witness :
  Env.overlays busy_env ≠ [] ∧ ∃ runDir, Env.runDir busy_env = Some runDir.
Proof.
  split; [discriminate|].
  apply (validateEnv_returns desktop_host busy_env busy_env_validated.1 busy_env_validated.2).
  - vm_compute. reflexivity.
  - discriminate.
  - reflexivity.
Defined.

Lemma declared_imageCustomizations e e' :
  declared e' = declared e → Env.imageCustomizations e' = Env.imageCustomizations e.
Proof. intros H. apply (f_equal Env.imageCustomizations) in H. exact H. Qed.

Lemma declared_imageTasks e e' :
  declared e' = declared e → Env.imageTasks e' = Env.imageTasks e.
Proof. intros H. apply (f_equal Env.imageTasks) in H. exact H. Qed.

(** X5: after a successful validation the image is managed whenever
    packages, image customizations or image tasks are declared; the flag is
    otherwise left as it was, and the two warnings are printed exactly for
    what was declared without the flag. *)
Theorem validateEnv_manageImage h e e' ws :
  validateEnv h e = Ok (e', ws) →
  Env.manageImage e' =
    Env.manageImage e
    || negb (bool_decide (Env.packages e = [])
             && bool_decide (Env.imageCustomizations e = [])
             && bool_decide (Env.imageTasks e = [])) ∧
  (WPackages ∈ ws ↔ Env.manageImage e = false ∧ Env.packages e ≠ []) ∧
  (WImageTasks ∈ ws ↔
     Env.manageImage e = false ∧
     (Env.imageCustomizations e ≠ [] ∨ Env.imageTasks e ≠ [])).
Proof.
  intros (a & b & c0 & d & f & w1 & w2 & w3 & w4 & w6 & w7 &
          H1 & H2 & H3 & H4 & H6 & H7 & ->)%validateEnv_steps.
  destruct (checkSockets_post _ _ _ _ H1) as [_ K1].
  pose proof (checkUid_post _ _ _ _ H2) as K2.
  destruct (checkSyscaps_post _ _ _ H3) as [_ K3].
  destruct (checkLabels_post _ _ _ _ H4) as [K4 I4].
  destruct (checkHome_post _ _ _ _ H6) as (K6 & _).
  pose proof (kept_trans _ _ _ _ _ _ _ _ _ _ _ _ _ _ _ _ _ K1 K2) as K12.
  pose proof (kept_trans _ _ _ _ _ _ _ _ _ _ _ _ _ _ _ _ _ K3 K4) as K34.
  pose proof (kept_trans _ _ _ _ _ _ _ _ _ _ _ _ _ _ _ _ _ K12 K34) as K14.
  pose proof (kept_trans _ _ _ _ _ _ _ _ _ _ _ _ _ _ _ _ _ K14 K6) as K.
  pose proof (kept_manage _ _ _ _ _ _ _ _ _ K eq_refl) as Hm.
  pose proof (kept_packages _ _ _ _ _ _ _ _ _ K) as Hp.
  pose proof (declared_imageCustomizations _ _ (kept_declared _ _ _ _ _ _ _ _ _ K)) as Hc.
  pose proof (declared_imageTasks _ _ (kept_declared _ _ _ _ _ _ _ _ _ K)) as Ht.
  rewrite checkImage_spec in H7. unfold image_quiet in H7.
  rewrite Hm, Hp, Hc, Ht in H7. injection H7 as <- <-.
  assert (Hothers : ∀ w, (w = WPackages ∨ w = WImageTasks) →
            w ∉ w1 ++ w2 ++ w3 ++ w4 ++ checkReadable h d ++ w6).
  { intros w Hw. rewrite !elem_of_app. intros [Hi|[Hi|[Hi|[Hi|[Hi|Hi]]]]].
    - rewrite checkSockets_spec in H1. injection H1 as _ <-.
      destruct (socket_warnings_kind _ _ Hi) as [? ->]. by destruct Hw.
    - destruct (checkUid_kind _ _ _ _ _ H2 Hi) as [? ->]. by destruct Hw.
    - rewrite checkSyscaps_spec in H3. destruct (syscaps_quiet b); injection H3 as _ <-.
      + by apply elem_of_nil in Hi.
      + apply list_elem_of_singleton in Hi as ->. by destruct Hw.
    - pose proof (inspection_elem _ _ I4 Hi). by destruct Hw as [-> | ->].
    - pose proof (inspection_elem _ _ (checkReadable_inspection h d) Hi).
      by destruct Hw as [-> | ->].
    - pose proof (checkHome_kind _ _ _ _ _ H6 Hi) as ->. by destruct Hw. }
  assert (Hin : ∀ w, (w = WPackages ∨ w = WImageTasks) → ∀ l,
            w ∈ w1 ++ w2 ++ w3 ++ w4 ++ checkReadable h d ++ w6 ++ l ↔ w ∈ l).
  { intros w Hw l. rewrite !app_assoc, elem_of_app, <- !app_assoc. split; [|by right].
    intros [Hi|Hi]; [|done]. by destruct (Hothers w Hw). }
  split; [|split].
  - destruct (Env.manageImage e) eqn:Hme; simpl; [done|].
    destruct (bool_decide (Env.packages e = []) && _ && _); simpl; [|done]. by rewrite Hm.
  - rewrite Hin by (by left).
    destruct (Env.manageImage e); [split; [by intros ?%elem_of_nil|by intros [? _]]|].
    rewrite elem_of_app.
    destruct (bool_decide (Env.packages e = [])) eqn:Hpe.
    + apply bool_decide_eq_true in Hpe. split; [|by intros [_ ?]].
      intros [Hi|Hi]; [by apply elem_of_nil in Hi|].
      destruct (bool_decide (Env.imageCustomizations e = []) && _);
        [by apply elem_of_nil in Hi|].
      by apply list_elem_of_singleton in Hi.
    + apply bool_decide_eq_false in Hpe. split; [done|]. intros _. left.
      by apply list_elem_of_singleton.
  - rewrite Hin by (by right).
    destruct (Env.manageImage e); [split; [by intros ?%elem_of_nil|by intros [? _]]|].
    rewrite elem_of_app.
    destruct (bool_decide (Env.imageCustomizations e = [])) eqn:Hce;
      destruct (bool_decide (Env.imageTasks e = [])) eqn:Hte; simpl.
    1: { apply bool_decide_eq_true in Hce, Hte. split; [|by intros [_ [?|?]]].
         intros [Hi|Hi]; [|by apply elem_of_nil in Hi].
         destruct (bool_decide (Env.packages e = [])); [by apply elem_of_nil in Hi|].
         by apply list_elem_of_singleton in Hi. }
    all: split; [intros _; split; [done|]|intros _; right; by apply list_elem_of_singleton].
    + right. by apply bool_decide_eq_false in Hte.
    + left. by apply bool_decide_eq_false in Hce.
    + left. by apply bool_decide_eq_false in Hce.
Qed.

Lemma validateEnv_manageImage_witness :
  Env.manageImage busy_env_validated.1 =
    Env.manageImage busy_env
    || negb (bool_decide (Env.packages busy_env = [])
             && bool_decide (Env.imageCustomizations busy_env = [])
             && bool_decide (Env.imageTasks busy_env = [])) ∧
  (WPackages ∈ busy_env_validated.2 ↔
     Env.manageImage busy_env = false ∧ Env.packages busy_env ≠ []) ∧
  (WImageTasks ∈ busy_env_validated.2 ↔
     Env.manageImage busy_env = false ∧
     (Env.imageCustomizations busy_env ≠ [] ∨ Env.imageTasks busy_env ≠ [])).
Proof.
  apply (validateEnv_manageImage desktop_host busy_env). vm_compute. reflexivity.
Defined.

(** * What the preparation adds to the context *)

(** Nothing is taken away: the runtime arguments and the system
    capabilities only get longer, and the keys of the mounts and of the
    environment stay. *)
Definition grows (c c' : ExecContext) : Prop :=
  ExecContext.execArgs c `prefix_of` ExecContext.execArgs c' ∧
  ExecContext.syscaps c `prefix_of` ExecContext.syscaps c' ∧
  (∀ k, dict_has k (ExecContext.mounts c) = true → dict_has k (ExecContext.mounts c') = true) ∧
  (∀ k, dict_has k (ExecContext.environ c) = true → dict_has k (ExecContext.environ c') = true).

Lemma grows_same c c' :
  ExecContext.execArgs c' = ExecContext.execArgs c →
  ExecContext.syscaps c' = ExecContext.syscaps c →
  ExecContext.mounts c' = ExecContext.mounts c →
  ExecContext.environ c' = ExecContext.environ c →
  grows c c'.
Proof. intros H1 H2 H3 H4. unfold grows. by rewrite H1, H2, H3, H4. Qed.

Lemma grows_refl c : grows c c.
Proof. by apply grows_same. Qed.

Lemma grows_trans c1 c2 c3 : grows c1 c2 → grows c2 c3 → grows c1 c3.
Proof.
  intros (A1 & S1 & M1 & E1) (A2 & S2 & M2 & E2).
  split_and!; [by etrans|by etrans|auto..].
Qed.

Lemma grows_args a c : grows c (ExecContext.args a c).
Proof. split_and!; try done. by apply prefix_app_r. Qed.

Lemma grows_syscaps l c :
  grows c (ExecContext.set_syscaps (ExecContext.syscaps c ++ l) c).
Proof. split_and!; try done. by apply prefix_app_r. Qed.

Lemma grows_mount k v c : grows c (ExecContext.mount k v c).
Proof.
  split_and!; try done. intros k' Hk. simpl. rewrite dict_has_set, Hk. apply orb_true_r.
Qed.

Lemma grows_setenv k v c : grows c (ExecContext.setenv k v c).
Proof.
  split_and!; try done. intros k' Hk. simpl. rewrite dict_has_set, Hk. apply orb_true_r.
Qed.

Lemma grows_set_home v c : grows c (ExecContext.set_home v c).
Proof. by apply grows_same. Qed.
Lemma grows_set_cwd v c : grows c (ExecContext.set_cwd v c).
Proof. by apply grows_same. Qed.
Lemma grows_set_xdgDir v c : grows c (ExecContext.set_xdgDir v c).
Proof. by apply grows_same. Qed.
Lemma grows_set_seLinuxLabel v c : grows c (ExecContext.set_seLinuxLabel v c).
Proof. by apply grows_same. Qed.
Lemma grows_set_seccomp v c : grows c (ExecContext.set_seccomp v c).
Proof. by apply grows_same. Qed.
Lemma grows_set_networkNamespace v c : grows c (ExecContext.set_networkNamespace v c).
Proof. by apply grows_same. Qed.

(** Peel the assignments of a context one by one. *)
Ltac grows_step :=
  first [ apply grows_refl
        | eapply grows_trans;
          [|first [ apply grows_args | apply grows_syscaps | apply grows_mount
                  | apply grows_setenv | apply grows_set_home | apply grows_set_cwd
                  | apply grows_set_xdgDir | apply grows_set_seLinuxLabel
                  | apply grows_set_seccomp | apply grows_set_networkNamespace ]] ].

Lemma gitLines_grows h lines ctx ctx' :
  foldM (gitLine h) ctx lines = Ok ctx' → grows ctx ctx'.
Proof.
  apply (foldM_inv grows); [apply grows_refl|apply grows_trans|].
  apply Forall_forall. intros line _ s s'. unfold gitLine. intros H.
  repeat case_match; simplify_eq; repeat grows_step.
Qed.

Lemma webcam_fold_grows devices ctx :
  grows ctx (foldl (λ ctx device,
                      ExecContext.args ["--device"; path_str (path_of "/dev" // device)] ctx)
               ctx devices).
Proof.
  revert ctx. induction devices as [|d devices IH]; intros ctx; simpl; [apply grows_refl|].
  eapply grows_trans; [|apply IH]. apply grows_args.
Qed.

(** A property of the context before and after one capability. *)
Definition cap_frame (P : ExecContext → ExecContext → Prop) (c : Capability) : Prop :=
  ∀ h active ctx env ctx' env', c h active ctx env = Ok (ctx', env') → P ctx ctx'.

Lemma runCaps_ctx (P : ExecContext → ExecContext → Prop) h caps :
  (∀ c, P c c) → (∀ c1 c2 c3, P c1 c2 → P c2 c3 → P c1 c3) →
  Forall (λ nc, cap_frame P nc.2) caps →
  ∀ env env', runCaps h caps env = Ok env' → P (Env.ctx env) (Env.ctx env').
Proof.
  intros Hrefl Htrans Hcaps. unfold runCaps.
  apply (foldM_inv (λ e e', P (Env.ctx e) (Env.ctx e'))); [done|eauto|].
  eapply Forall_impl; [exact Hcaps|].
  intros [n c] Hc s s' H. unfold call in H. inv_bind.
  simpl. by eapply Hc.
Qed.

Lemma Capabilities_grow : Forall (λ nc, cap_frame grows nc.2) Capabilities.
Proof.
  unfold Capabilities, entry.
  repeat apply Forall_cons_2; try apply Forall_nil_2; simpl;
    intros h active ctx env ctx' env' H; unfold_caps;
    repeat case_match; inv_bind; simplify_eq; try (by repeat grows_step).
  - eapply grows_trans; [|by eapply gitLines_grows]. apply grows_mount.
  - apply webcam_fold_grows.
Qed.

Lemma applyCapabilities_grows h env env' :
  applyCapabilities h env = Ok env' → grows (Env.ctx env) (Env.ctx env').
Proof.
  apply (runCaps_ctx grows); [apply grows_refl|apply grows_trans|apply Capabilities_grow].
Qed.

Lemma mounts_fold_grows h (l : list (string * string)) ctx :
  grows ctx
    (foldl (λ ctx '(containerPath, hostPathStr),
              let hostPath := expanduser_resolve h (path_of hostPathStr) in
              if Str.startswith "~/" containerPath
              then ExecContext.mount (ExecContext.home ctx // Str.drop 2 containerPath)
                     hostPath ctx
              else ExecContext.mount (path_of containerPath) hostPath ctx)
       ctx l).
Proof.
  revert ctx. induction l as [|[cp hp] l IH]; intros ctx; cbn [foldl]; [apply grows_refl|].
  eapply grows_trans; [|apply IH]. cbv zeta.
  destruct (Str.startswith "~/" cp); apply grows_mount.
Qed.

Lemma dict_has_update {K V} `{EqDecision K} (k : K) (d other : Dict K V) :
  dict_has k d = true → dict_has k (dict_update d other) = true.
Proof.
  unfold dict_has. rewrite dict_get_update.
  by destruct (dict_get k (reverse other)).
Qed.

Lemma grows_environ_update d other c :
  d = ExecContext.environ c →
  grows c (ExecContext.set_environ (dict_update d other) c).
Proof. intros ->. split_and!; try done. intros k Hk. by apply dict_has_update. Qed.

Lemma applySettings_grows h env env' args :
  applySettings h env = Ok (env', args) → grows (Env.ctx env) (Env.ctx env').
Proof.
  unfold applySettings. intros H. inv_bind. cbn [Env.ctx Env.set_ctx].
  eapply grows_trans; [|apply mounts_fold_grows].
  eapply grows_trans; [|by apply grows_environ_update].
  eapply grows_trans; [|apply grows_syscaps].
  destruct (negb (Str.eqb (Env.home env) "")); repeat grows_step.
Qed.

Lemma fileArgument_grows h env cliArgs env' cliArgs' fileArg :
  fileArgument h env cliArgs = Ok (env', cliArgs', fileArg) →
  grows (Env.ctx env) (Env.ctx env').
Proof.
  rewrite fileArgument_spec. intros H.
  repeat case_match; inv_bind; simplify_eq; try apply grows_refl. apply grows_mount.
Qed.

Lemma fileArgument_set_ctx h env cliArgs env' cliArgs' fileArg :
  fileArgument h env cliArgs = Ok (env', cliArgs', fileArg) →
  ∃ c, env' = Env.set_ctx c env.
Proof.
  rewrite fileArgument_spec.
  destruct (bool_decide ("$1" ∈ Env.command env));
    [|intros [= <- _ _]; exists (Env.ctx env); by destruct env].
  destruct cliArgs as [|f [|f' cliArgs]];
    [intros [= <- _ _]; exists (Env.ctx env); by destruct env| |done].
  destruct (resolve_strict h (path_of f)); simpl; [|done]. intros [= <- _ _]. by eexists.
Qed.

(** The validator and what follows leave most of the context alone. *)
Record settled (c c' : ExecContext) : Prop := {
  settled_environ : ExecContext.environ c' = ExecContext.environ c;
  settled_network : ExecContext.networkNamespace c' = ExecContext.networkNamespace c;
  settled_cwd : ExecContext.cwd c' = ExecContext.cwd c;
  settled_seccomp : ExecContext.seccomp c' = ExecContext.seccomp c;
  settled_grows : grows c c'
}.

Lemma settled_refl c : settled c c.
Proof. split; [done..|apply grows_refl]. Qed.

Lemma settled_trans c1 c2 c3 : settled c1 c2 → settled c2 c3 → settled c1 c3.
Proof.
  intros [E1 N1 W1 S1 G1] [E2 N2 W2 S2 G2].
  split; [congruence..|by eapply grows_trans].
Qed.

Lemma validateEnv_settled h e e' ws :
  validateEnv h e = Ok (e', ws) → settled (Env.ctx e) (Env.ctx e').
Proof.
  intros (a & b & c & d & f & w1 & w2 & w3 & w4 & w6 & w7 &
          H1 & H2 & H3 & H4 & H6 & H7 & _)%validateEnv_steps.
  assert (S1 : settled (Env.ctx e) (Env.ctx a)).
  { rewrite checkSockets_spec in H1. injection H1 as <- _.
    destruct (socket_quiet e); [apply settled_refl|]. split; try done; apply grows_set_seLinuxLabel. }
  assert (S2 : settled (Env.ctx a) (Env.ctx b)).
  { destruct (uid_quiet a) eqn:Hq.
    - rewrite checkUid_quiet in H2 by done. injection H2 as <- _. apply settled_refl.
    - destruct (checkUid_fires h a Hq) as [cap Hc]. rewrite Hc in H2. injection H2 as <- _.
      split; try done; apply grows_args. }
  assert (S3 : settled (Env.ctx b) (Env.ctx c)).
  { rewrite checkSyscaps_spec in H3. destruct (syscaps_quiet b); injection H3 as <- _.
    - apply settled_refl.
    - split; try done; apply grows_syscaps. }
  assert (S4 : settled (Env.ctx c) (Env.ctx d)).
  { rewrite checkLabels_spec in H4. destruct (_ && _).
    - apply bind_Ok in H4 as (ws' & _ & [= <- _]).
      destruct ws'; [apply settled_refl|]. split; try done; apply grows_set_seLinuxLabel.
    - injection H4 as <- _. apply settled_refl. }
  assert (S6 : settled (Env.ctx d) (Env.ctx f)).
  { destruct (home_quiet d) eqn:Hq.
    - rewrite checkHome_quiet in H6 by done. injection H6 as <- _. apply settled_refl.
    - rewrite checkHome_fires in H6 by done.
      apply bind_Ok in H6 as (f' & Hf & [= <- _]).
      unfold call, mountRunCap in Hf. destruct (Env.runDir d); [|done].
      simpl in Hf. injection Hf as <-. cbn [Env.ctx Env.set_ctx].
      repeat case_match; (split; try done); repeat grows_step. }
  assert (S7 : settled (Env.ctx f) (Env.ctx e')).
  { rewrite checkImage_spec in H7. injection H7 as <- _.
    destruct (image_quiet f); apply settled_refl. }
  eapply settled_trans; [exact S1|]. eapply settled_trans; [exact S2|].
  eapply settled_trans; [exact S3|]. eapply settled_trans; [exact S4|].
  eapply settled_trans; [exact S6|exact S7].
Qed.

Lemma joinUserns_settled e : settled (Env.ctx e) (Env.ctx (joinUserns e)).
Proof.
  unfold joinUserns. destruct (_ && _); [|apply settled_refl].
  split; try done; apply grows_args.
Qed.

Lemma getArgs_keeps so h c :
  ExecContext.environ (ExecContext.getArgs so h c).1 = ExecContext.environ c ∧
  ExecContext.networkNamespace (ExecContext.getArgs so h c).1 = ExecContext.networkNamespace c ∧
  grows c (ExecContext.getArgs so h c).1.
Proof.
  rewrite getArgs_ctx. destruct (decide _); [|by split_and!; [..|apply grows_refl]].
  split_and!; [done..|apply grows_set_cwd].
Qed.

(** X6: preparing an environment takes nothing away from its context: the
    runtime arguments and the system capabilities it held are a prefix of
    those it holds afterwards, and every mounted container path and every
    environment variable is still there. *)
Theorem prepareEnv_grows so h env cliArgs r :
  prepareEnv so h env cliArgs = Ok r →
  grows (Env.ctx env) (Env.ctx (env_after r)).
Proof.
  intros (env' & cliArgs' & ws & args & commandArgs & Hres & ->)%prepareEnv_resolveEnv.
  apply resolveEnv_steps in Hres as (env1 & env2 & env3 & env4 & fileArg &
                                      H1 & H2 & H3 & _ & H4 & ->).
  cbn [env_after Env.ctx Env.set_ctx].
  eapply grows_trans; [|apply getArgs_keeps].
  eapply grows_trans; [|apply joinUserns_settled].
  eapply grows_trans; [|apply (settled_grows _ _ (validateEnv_settled _ _ _ _ H4))].
  eapply grows_trans; [|apply (fileArgument_grows _ _ _ _ _ _ H3)].
  eapply grows_trans; [|apply (applySettings_grows _ _ _ _ H2)].
  apply (applyCapabilities_grows _ _ _ H1).
Qed.

Lemma prepareEnv_grows_witness :
  ∃ r, prepareEnv remove_dups desktop_host (joinUserns busy_env_validated.1) [] = Ok r ∧
       grows (Env.ctx (joinUserns busy_env_validated.1)) (Env.ctx (env_after r)).
Proof.
  destruct (prepareEnv remove_dups desktop_host (joinUserns busy_env_validated.1) [])
    as [r|x] eqn:Hr; [|vm_compute in Hr; discriminate Hr].
  exists r. split; [reflexivity|].
  exact (prepareEnv_grows remove_dups desktop_host _ [] r Hr).
Defined.

(** ** Steps that write mounts only *)

Record only_mounts (c c' : ExecContext) : Prop := {
  om_environ : ExecContext.environ c' = ExecContext.environ c;
  om_syscaps : ExecContext.syscaps c' = ExecContext.syscaps c;
  om_execArgs : ExecContext.execArgs c' = ExecContext.execArgs c;
  om_home : ExecContext.home c' = ExecContext.home c;
  om_cwd : ExecContext.cwd c' = ExecContext.cwd c;
  om_xdgDir : ExecContext.xdgDir c' = ExecContext.xdgDir c;
  om_seLinuxLabel : ExecContext.seLinuxLabel c' = ExecContext.seLinuxLabel c;
  om_seccomp : ExecContext.seccomp c' = ExecContext.seccomp c;
  om_network : ExecContext.networkNamespace c' = ExecContext.networkNamespace c
}.

Lemma only_mounts_refl c : only_mounts c c.
Proof. by split. Qed.

Lemma only_mounts_trans c1 c2 c3 : only_mounts c1 c2 → only_mounts c2 c3 → only_mounts c1 c3.
Proof. intros [] []. split; congruence. Qed.

Lemma only_mounts_mount k v c : only_mounts c (ExecContext.mount k v c).
Proof. by split. Qed.

Lemma gitLines_only_mounts h lines ctx ctx' :
  foldM (gitLine h) ctx lines = Ok ctx' → only_mounts ctx ctx'.
Proof.
  apply (foldM_inv only_mounts); [apply only_mounts_refl|apply only_mounts_trans|].
  apply Forall_forall. intros line _ s s'. unfold gitLine. intros H.
  repeat case_match; simplify_eq; first [apply only_mounts_refl|apply only_mounts_mount].
Qed.

Lemma mounts_fold_only_mounts h (l : list (string * string)) ctx :
  only_mounts ctx
    (foldl (λ ctx '(containerPath, hostPathStr),
              let hostPath := expanduser_resolve h (path_of hostPathStr) in
              if Str.startswith "~/" containerPath
              then ExecContext.mount (ExecContext.home ctx // Str.drop 2 containerPath)
                     hostPath ctx
              else ExecContext.mount (path_of containerPath) hostPath ctx)
       ctx l).
Proof.
  revert ctx. induction l as [|[cp hp] l IH]; intros ctx; cbn [foldl]; [apply only_mounts_refl|].
  eapply only_mounts_trans; [|apply IH]. cbv zeta.
  destruct (Str.startswith "~/" cp); apply only_mounts_mount.
Qed.

Lemma fileArgument_only_mounts h env cliArgs env' cliArgs' fileArg :
  fileArgument h env cliArgs = Ok (env', cliArgs', fileArg) →
  only_mounts (Env.ctx env) (Env.ctx env').
Proof.
  rewrite fileArgument_spec. intros H.
  repeat case_match; inv_bind; simplify_eq; try apply only_mounts_refl.
  apply only_mounts_mount.
Qed.

(** ** The network namespace *)

Definition keeps_network (c c' : ExecContext) : Prop :=
  ExecContext.networkNamespace c' = ExecContext.networkNamespace c.

Lemma webcam_fold_network devices ctx :
  keeps_network ctx
    (foldl (λ ctx device,
              ExecContext.args ["--device"; path_str (path_of "/dev" // device)] ctx)
       ctx devices).
Proof.
  revert ctx. induction devices as [|d devices IH]; intros ctx; simpl; [done|].
  unfold keeps_network in *. by rewrite IH.
Qed.

Ltac each_capability :=
  repeat apply Forall_cons_2; try apply Forall_nil_2; simpl;
  intros h active ctx env ctx' env' H; unfold_caps;
  repeat case_match; inv_bind; simplify_eq; try done.

(** Every capability but [networkCap] keeps the namespace. *)
Lemma Capabilities_keep_network :
  Forall (λ nc, cap_frame keeps_network nc.2) (take 19 Capabilities ++ drop 20 Capabilities).
Proof.
  unfold Capabilities, entry. cbn [take drop app].
  each_capability.
  - unfold keeps_network. by rewrite (om_network _ _ (gitLines_only_mounts _ _ _ _ Hr)).
  - apply webcam_fold_network.
Qed.

(** The namespace chosen by [networkCap]. *)
Definition chosen_network (env : Env) : string :=
  if Str.eqb (Env.network env) "" then
    if Env.cap "network" env then ExecContext.networkNamespace (Env.ctx env) else "none"
  else "container:net-" +:+ Env.network env.

Lemma runCaps_capabilities h caps env env' :
  Forall (λ nc, keeps_env nc.2) caps → runCaps h caps env = Ok env' →
  declared env' = declared env ∧ ∀ c, Env.cap c env' = Env.cap c env.
Proof.
  intros Hcaps H. destruct (runCaps_declared h caps Hcaps _ _ H) as [Hd Hc].
  split; [done|]. intros c. unfold Env.cap. by rewrite Hc.
Qed.

Lemma declared_network e e' : declared e' = declared e → Env.network e' = Env.network e.
Proof. intros H. apply (f_equal Env.network) in H. exact H. Qed.

Lemma Capabilities_split n :
  Capabilities = take n Capabilities ++ drop n Capabilities.
Proof. by rewrite take_drop. Qed.

Lemma keep_env_take n : Forall (λ nc, keeps_env nc.2) (take n Capabilities).
Proof. apply Forall_take, Capabilities_keep_env. Qed.

Lemma keep_env_drop n : Forall (λ nc, keeps_env nc.2) (drop n Capabilities).
Proof. apply Forall_drop, Capabilities_keep_env. Qed.

Lemma applyCapabilities_network h env env' :
  applyCapabilities h env = Ok env' →
  ExecContext.networkNamespace (Env.ctx env') = chosen_network env.
Proof.
  unfold applyCapabilities. rewrite (Capabilities_split 19). unfold runCaps.
  rewrite foldM_app. intros H. apply bind_Ok in H as (env1 & H1 & H).
  change (drop 19 Capabilities) with (entry "networkCap" networkCap :: drop 20 Capabilities) in H.
  cbn [foldM] in H. apply bind_Ok in H as (env2 & H2 & H3).
  pose proof (Capabilities_keep_network) as Hk. apply Forall_app in Hk as [Hk1 Hk2].
  pose proof (runCaps_ctx keeps_network h _ (λ _, eq_refl)
                (λ c1 c2 c3 (A : keeps_network c1 c2) (B : keeps_network c2 c3),
                   eq_trans B A) Hk1 _ _ H1) as N1.
  pose proof (runCaps_ctx keeps_network h _ (λ _, eq_refl)
                (λ c1 c2 c3 (A : keeps_network c1 c2) (B : keeps_network c2 c3),
                   eq_trans B A) Hk2 _ _ H3) as N3.
  destruct (runCaps_capabilities h _ _ _ (keep_env_take 19) H1) as [D1 C1].
  unfold keeps_network in N1, N3. rewrite N3.
  unfold entry in H2. cbn [fst snd] in H2. unfold call, networkCap in H2.
  simpl in H2. injection H2 as <-. cbn [Env.ctx Env.set_ctx].
  change (camelCaseToHyphen "network") with "network". rewrite C1.
  unfold chosen_network. rewrite (declared_network _ _ D1).
  destruct (Str.eqb (Env.network env) ""); simpl.
  - destruct (Env.cap "network" env); simpl; [exact N1|done].
  - by rewrite andb_false_r.
Qed.

Lemma applySettings_ctx h env env' args :
  applySettings h env = Ok (env', args) →
  ExecContext.networkNamespace (Env.ctx env') = ExecContext.networkNamespace (Env.ctx env) ∧
  ExecContext.execArgs (Env.ctx env') = ExecContext.execArgs (Env.ctx env) ∧
  ExecContext.home (Env.ctx env') = ExecContext.home (Env.ctx env) ∧
  ExecContext.syscaps (Env.ctx env') = ExecContext.syscaps (Env.ctx env) ++ Env.syscaps env ∧
  ExecContext.environ (Env.ctx env') =
    dict_update (ExecContext.environ (Env.ctx env)) (Env.environ env).
Proof.
  unfold applySettings. intros H. inv_bind. cbn [Env.ctx Env.set_ctx].
  match goal with
  | |- context [foldl ?f ?c ?l] =>
      assert (Hom : only_mounts c (foldl f c l)) by apply mounts_fold_only_mounts;
      destruct Hom as [E S A Hm _ _ _ _ N]
  end.
  rewrite N, A, Hm, S, E. by destruct (negb (Str.eqb (Env.home env) "")).
Qed.

(** The steps of [prepareEnv] after the capabilities keep the namespace. *)
Lemma resolveEnv_network h env cliArgs env' cliArgs' ws args commandArgs :
  resolveEnv h env cliArgs = Ok (env', cliArgs', ws, args, commandArgs) →
  ExecContext.networkNamespace (Env.ctx env') = chosen_network env.
Proof.
  intros (env1 & env2 & env3 & env4 & fileArg & H1 & H2 & H3 & _ & H4 & ->)%resolveEnv_steps.
  rewrite (settled_network _ _ (joinUserns_settled env4)).
  rewrite (settled_network _ _ (validateEnv_settled _ _ _ _ H4)).
  rewrite (om_network _ _ (fileArgument_only_mounts _ _ _ _ _ _ H3)).
  destruct (applySettings_ctx _ _ _ _ H2) as [-> _].
  by apply (applyCapabilities_network h).
Qed.

(** X7: the network namespace of the container after [prepareEnv].  A
    shared network ([env.network]) always wins and gives
    [container:net-NAME]; without it the namespace is [none] unless the
    [network] capability is on, in which case the context keeps the
    namespace it had.  The rendered arguments carry [--network] with this
    namespace whenever it is not empty, and when the [uidmap] capability is
    on with a shared network they end with [--userns] and the same
    namespace. *)
Theorem prepareEnv_network so h env cliArgs r :
  prepareEnv so h env cliArgs = Ok r →
  let ns := ExecContext.networkNamespace (Env.ctx (env_after r)) in
  ns = (if Str.eqb (Env.network env) "" then
          if Env.cap "network" env then ExecContext.networkNamespace (Env.ctx env)
          else "none"
        else "container:net-" +:+ Env.network env) ∧
  (ns ≠ "" → ∃ a b, (returned r).1.2 = a ++ ["--network"; ns] ++ b) ∧
  (Env.network env ≠ "" → Env.cap "uidmap" env = true →
   ["--userns"; ns] `suffix_of` (returned r).1.2).
Proof.
  intros (env' & cliArgs' & ws & args & commandArgs & Hres & ->)%prepareEnv_resolveEnv.
  cbn [env_after returned Env.ctx Env.set_ctx fst snd].
  destruct (getArgs_keeps so h (Env.ctx env')) as (_ & -> & _).
  pose proof (resolveEnv_network _ _ _ _ _ _ _ _ Hres) as Hns.
  split; [exact Hns|]. split.
  - intros Hne. pose proof (getArgs_args so h (Env.ctx env')) as Ha. cbv zeta in Ha.
    rewrite Ha. unfold ExecContext.networkArgs at 1.
    unfold Str.eqb. rewrite bool_decide_false by done.
    exists (args ++ ExecContext.securityArgs (Env.ctx env')). eexists.
    rewrite <- !app_assoc. reflexivity.
  - intros Hnet Hu.
    pose proof (getArgs_args so h (Env.ctx env')) as Ha. cbv zeta in Ha. rewrite Ha.
    rewrite !app_assoc. apply suffix_app_r.
    apply resolveEnv_steps in Hres as (env1 & env2 & env3 & env4 & fileArg &
                                        H1 & H2 & H3 & _ & H4 & Hj).
    assert (Hu4 : Env.cap "uidmap" env4 = true).
    { destruct (applyCapabilities_declared _ _ _ H1) as [_ C1].
      destruct (applySettings_declared _ _ _ _ H2) as [_ C2].
      destruct (fileArgument_post _ _ _ _ _ _ H3) as (_ & C3 & _).
      destruct (validateEnv_post _ _ _ _ H4) as (_ & _ & C4 & _).
      rewrite C4 by done. unfold Env.cap in *. by rewrite C3, C2, C1. }
    assert (Hn4 : ExecContext.networkNamespace (Env.ctx env4) = chosen_network env).
    { rewrite <- Hns, Hj. symmetry. apply (settled_network _ _ (joinUserns_settled env4)). }
    assert (Hc : chosen_network env = "container:net-" +:+ Env.network env).
    { unfold chosen_network, Str.eqb. by rewrite bool_decide_false. }
    rewrite Hns. subst env'. unfold joinUserns. rewrite Hu4, Hn4, Hc.
    change (Str.startswith "container:" ("container:net-" +:+ Env.network env)) with true.
    cbn [andb Env.ctx Env.set_ctx ExecContext.execArgs ExecContext.args
           ExecContext.set_execArgs].
    by apply suffix_app_r.
Qed.

(** An environment that joins the network of another container, with a
    user-namespace mapping. *)
Definition shared_env : Env :=
  Env.mk "browser" (Some "") "" None "" "" "9.9.9.9" [] [] [] ["firefox"] [] [] [] []
    [("uidmap", true); ("network", true)] "vpn" [] [] "" "64m" ["8080:80"] None
    ExecContext.empty None None true false false (Some (path_of "/etc/podenv/config.yaml")).

Lemma prepareEnv_network_witness :
  ∃ r, prepareEnv remove_dups desktop_host shared_env [] = Ok r ∧
       ExecContext.networkNamespace (Env.ctx (env_after r)) = "container:net-vpn" ∧
       ["--userns"; ExecContext.networkNamespace (Env.ctx (env_after r))]
         `suffix_of` (returned r).1.2.
Proof.
  destruct (prepareEnv remove_dups desktop_host shared_env []) as [r|x] eqn:Hr;
    [|vm_compute in Hr; discriminate Hr].
  exists r. split; [reflexivity|].
  pose proof (prepareEnv_network remove_dups desktop_host shared_env [] r Hr) as H.
  cbv zeta in H. destruct H as (H1 & _ & H3).
  split; [exact H1|]. apply H3; [discriminate|reflexivity].
Defined.

Lemma declared_dns e e' : declared e' = declared e → Env.dns e' = Env.dns e.
Proof. intros H. apply (f_equal Env.dns) in H. exact H. Qed.
Lemma declared_shmsize e e' : declared e' = declared e → Env.shmsize e' = Env.shmsize e.
Proof. intros H. apply (f_equal Env.shmsize) in H. exact H. Qed.
Lemma declared_ports e e' : declared e' = declared e → Env.ports e' = Env.ports e.
Proof. intros H. apply (f_equal Env.ports) in H. exact H. Qed.
Lemma declared_environ e e' : declared e' = declared e → Env.environ e' = Env.environ e.
Proof. intros H. apply (f_equal Env.environ) in H. exact H. Qed.
Lemma declared_syscaps e e' : declared e' = declared e → Env.syscaps e' = Env.syscaps e.
Proof. intros H. apply (f_equal Env.syscaps) in H. exact H. Qed.
Lemma declared_mounts e e' : declared e' = declared e → Env.mounts e' = Env.mounts e.
Proof. intros H. apply (f_equal Env.mounts) in H. exact H. Qed.

(** The container reaches the network of the host directly. *)
Definition direct_network (env : Env) : bool :=
  Str.eqb (Env.network env) "" && Env.cap "network" env
  && ExecContext.hasDirectNetwork (Env.ctx env).

Lemma chosen_network_direct env c :
  ExecContext.networkNamespace c = chosen_network env →
  ExecContext.hasDirectNetwork c = direct_network env.
Proof.
  unfold ExecContext.hasDirectNetwork, direct_network, chosen_network. intros ->.
  destruct (Str.eqb (Env.network env) "") eqn:Hn; simpl.
  - by destruct (Env.cap "network" env).
  - unfold Str.eqb. by rewrite !bool_decide_false.
Qed.

(** X8: the first runtime arguments returned by [prepareEnv], in terms of
    the declaration: the host name is the name of the environment; the
    declared DNS server is passed only when the container reaches the
    network directly (no shared network, the [network] capability on, and a
    context whose namespace is empty or [host]) and is dropped without a
    word otherwise; then the shared-memory size and the published ports,
    formatted with the declared environment. *)
Theorem prepareEnv_settings so h env cliArgs r :
  prepareEnv so h env cliArgs = Ok r →
  (returned r).1.1 = Env.name env ∧
  ∃ ports,
    mapM (λ port, str_format h port (Env.environ env)) (Env.ports env) = Ok ports ∧
    (["--hostname"; Env.name env] ++
     (if negb (Str.eqb (Env.dns env) "") && direct_network env
      then ["--dns=" +:+ Env.dns env] else []) ++
     (if negb (Str.eqb (Env.shmsize env) "")
      then ["--shm-size=" +:+ Env.shmsize env] else []) ++
     map (λ port, "--publish=" +:+ port) ports)
    `prefix_of` (returned r).1.2.
Proof.
  intros (env' & cliArgs' & ws & args & commandArgs & Hres & ->)%prepareEnv_resolveEnv.
  cbn [returned fst snd].
  destruct (resolveEnv_post _ _ _ _ _ _ _ _ Hres) as [D _].
  split; [by apply declared_name|].
  apply resolveEnv_steps in Hres as (env1 & env2 & env3 & env4 & fileArg &
                                      H1 & H2 & H3 & _ & H4 & Hj).
  destruct (applyCapabilities_declared _ _ _ H1) as [D1 _].
  pose proof (applyCapabilities_network _ _ _ H1) as N1.
  unfold applySettings in H2. apply bind_Ok in H2 as (ports & Hp & H2).
  injection H2 as _ <-.
  rewrite (declared_environ _ _ D1), (declared_ports _ _ D1) in Hp.
  exists ports. split; [exact Hp|].
  rewrite (declared_name _ _ D1), (declared_dns _ _ D1), (declared_shmsize _ _ D1).
  rewrite (chosen_network_direct env _ N1).
  apply prefix_app_r.
  by destruct (negb (Str.eqb (Env.dns env) "") && direct_network env),
       (negb (Str.eqb (Env.shmsize env) "")); rewrite <- ?app_assoc.
Qed.

Lemma prepareEnv_settings_witness :
  ∃ r, prepareEnv remove_dups desktop_host shared_env [] = Ok r ∧
       (returned r).1.1 = "browser" ∧
       ["--hostname"; "browser"; "--shm-size=64m"; "--publish=8080:80"]
         `prefix_of` (returned r).1.2.
Proof.
  destruct (prepareEnv remove_dups desktop_host shared_env []) as [r|x] eqn:Hr;
    [|vm_compute in Hr; discriminate Hr].
  exists r. split; [reflexivity|].
  destruct (prepareEnv_settings remove_dups desktop_host shared_env [] r Hr)
    as (Hn & ports & Hp & Hpre).
  split; [exact Hn|]. vm_compute in Hp. injection Hp as <-. exact Hpre.
Defined.

(** ** The environment variables of the container *)

(** The variables that some capability other than [rootCap] sets. *)
Definition capVars : list string := ["DISPLAY"; "PULSE_SERVER"; "EDITOR"; "SSH_AUTH_SOCK"].

Definition keeps_vars (c c' : ExecContext) : Prop :=
  ∀ k, k ∉ capVars → dict_get k (ExecContext.environ c') = dict_get k (ExecContext.environ c).

Lemma keeps_vars_refl c : keeps_vars c c.
Proof. by intros k _. Qed.

Lemma keeps_vars_trans c1 c2 c3 : keeps_vars c1 c2 → keeps_vars c2 c3 → keeps_vars c1 c3.
Proof. intros H1 H2 k Hk. by rewrite H2, H1. Qed.

Lemma keeps_vars_same c c' :
  ExecContext.environ c' = ExecContext.environ c → keeps_vars c c'.
Proof. intros H k _. by rewrite H. Qed.

Lemma keeps_vars_setenv k v c c' :
  k ∈ capVars → ExecContext.environ c' = dict_set k v (ExecContext.environ c) →
  keeps_vars c c'.
Proof.
  intros Hk H k' Hk'. rewrite H, dict_get_set.
  destruct (decide (k' = k)) as [->|]; [by destruct Hk'|done].
Qed.

Lemma webcam_fold_environ devices ctx :
  ExecContext.environ
    (foldl (λ ctx device,
              ExecContext.args ["--device"; path_str (path_of "/dev" // device)] ctx)
       ctx devices) = ExecContext.environ ctx.
Proof.
  revert ctx. induction devices as [|d devices IH]; intros ctx; simpl; [done|].
  by rewrite IH.
Qed.

(** Every capability but [rootCap] keeps the other variables. *)
Lemma Capabilities_keep_vars :
  Forall (λ nc, cap_frame keeps_vars nc.2) (take 1 Capabilities ++ drop 2 Capabilities).
Proof.
  unfold Capabilities, entry. cbn [take drop app].
  each_capability; try (by apply keeps_vars_same).
  - eapply keeps_vars_setenv; [|reflexivity]. by apply (bool_decide_unpack _).
  - eapply keeps_vars_setenv; [|reflexivity]. by apply (bool_decide_unpack _).
  - apply keeps_vars_same. by rewrite (om_environ _ _ (gitLines_only_mounts _ _ _ _ Hr)).
  - eapply keeps_vars_setenv; [|reflexivity]. by apply (bool_decide_unpack _).
  - eapply keeps_vars_setenv; [|reflexivity]. by apply (bool_decide_unpack _).
  - apply keeps_vars_same, webcam_fold_environ.
Qed.

(** The home directory and the runtime directory of the user of the
    container. *)
Definition user_home (env : Env) : string :=
  if Env.cap "root" env then "/root" else "/home/user".
Definition user_xdg (env : Env) : string :=
  if Env.cap "root" env then "/run/user/0" else "/run/user/1000".

Lemma applyCapabilities_identity_vars h env env' :
  applyCapabilities h env = Ok env' →
  dict_get "HOME" (ExecContext.environ (Env.ctx env')) = Some (user_home env) ∧
  dict_get "XDG_RUNTIME_DIR" (ExecContext.environ (Env.ctx env')) = Some (user_xdg env).
Proof.
  unfold applyCapabilities. rewrite (Capabilities_split 1). unfold runCaps.
  rewrite foldM_app. intros H. apply bind_Ok in H as (env1 & H1 & H).
  change (drop 1 Capabilities) with (entry "rootCap" rootCap :: drop 2 Capabilities) in H.
  cbn [foldM] in H. apply bind_Ok in H as (env2 & H2 & H3).
  pose proof (Capabilities_keep_vars) as Hk. apply Forall_app in Hk as [_ Hk2].
  pose proof (runCaps_ctx keeps_vars h _ keeps_vars_refl keeps_vars_trans Hk2 _ _ H3) as N3.
  destruct (runCaps_capabilities h _ _ _ (keep_env_take 1) H1) as [D1 C1].
  rewrite !N3 by (by apply (bool_decide_unpack _)).
  unfold entry in H2. cbn [fst snd] in H2. unfold call, rootCap in H2.
  rewrite C1 in H2. change (Env.cap _ env) with (Env.cap "root" env) in H2.
  unfold user_home, user_xdg.
  destruct (Env.cap "root" env); simpl in H2; injection H2 as <-;
    cbn [Env.ctx Env.set_ctx ExecContext.environ ExecContext.setenv ExecContext.set_environ];
    rewrite !dict_get_set; split; reflexivity.
Qed.

Lemma dict_get_reverse_None {K V} `{EqDecision K} (k : K) (d : Dict K V) :
  dict_has k d = false → dict_get k (reverse d) = None.
Proof.
  intros H. destruct (dict_get k (reverse d)) as [v|] eqn:Hr; [|done].
  assert (Hin : dict_has k (reverse d) = true) by (unfold dict_has; by rewrite Hr).
  apply dict_has_elem in Hin. unfold dict_keys in Hin. rewrite fmap_reverse in Hin.
  rewrite elem_of_reverse in Hin. apply dict_has_elem in Hin. congruence.
Qed.

Lemma dict_get_reverse_NoDup {K V} `{EqDecision K} (k : K) (d : Dict K V) :
  NoDup (dict_keys d) → dict_get k (reverse d) = dict_get k d.
Proof. intros Hnd. symmetry. apply dict_get_perm; [done|]. by rewrite reverse_Permutation. Qed.

(** The environment of the container: what the capabilities have set,
    updated with the declared variables. *)
Lemma resolveEnv_environ h env cliArgs env' cliArgs' ws args commandArgs :
  resolveEnv h env cliArgs = Ok (env', cliArgs', ws, args, commandArgs) →
  ∃ env1, applyCapabilities h env = Ok env1 ∧
    ExecContext.environ (Env.ctx env') =
      dict_update (ExecContext.environ (Env.ctx env1)) (Env.environ env).
Proof.
  intros (env1 & env2 & env3 & env4 & fileArg & H1 & H2 & H3 & _ & H4 & ->)%resolveEnv_steps.
  exists env1. split; [done|].
  rewrite (settled_environ _ _ (joinUserns_settled env4)).
  rewrite (settled_environ _ _ (validateEnv_settled _ _ _ _ H4)).
  rewrite (om_environ _ _ (fileArgument_only_mounts _ _ _ _ _ _ H3)).
  destruct (applySettings_ctx _ _ _ _ H2) as (_ & _ & _ & _ & ->).
  destruct (applyCapabilities_declared _ _ _ H1) as [D1 _].
  by rewrite (declared_environ _ _ D1).
Qed.

Lemma dict_get_elem {K V} `{EqDecision K} (k : K) (v : V) (d : Dict K V) :
  dict_get k d = Some v → (k, v) ∈ d.
Proof.
  induction d as [|[k0 v0] d IH]; simpl; [done|].
  destruct (decide (k = k0)) as [->|]; [intros [= ->]; apply list_elem_of_here|].
  intros H. apply list_elem_of_further. by apply IH.
Qed.

(** Every variable of the context is rendered as a [-e] flag. *)
Lemma getArgs_environ_flag so h c k v :
  dict_get k (ExecContext.environ c) = Some v →
  ∃ a b, (ExecContext.getArgs so h c).2 = a ++ ["-e"; k +:+ "=" +:+ v] ++ b.
Proof.
  intros Hk. pose proof (getArgs_args so h c) as Ha. cbv zeta in Ha. rewrite Ha.
  assert (Hin : (k, v) ∈ sorted (pair_compare String.compare String.compare)
                          (ExecContext.environ c)).
  { rewrite (sorted_perm (pair_compare String.compare String.compare)
               (ExecContext.environ c)).
    by apply dict_get_elem. }
  apply list_elem_of_split in Hin as (l1 & l2 & Hl).
  unfold ExecContext.environArgs. rewrite Hl, flat_map_app. cbn [flat_map].
  exists (ExecContext.securityArgs c ++ ExecContext.networkArgs c ++
          ExecContext.workdirArgs (ExecContext.getArgs so h c).1 ++
          ExecContext.mountArgs h c ++ ExecContext.capArgs so c ++
          flat_map ExecContext.environFlag l1),
         (flat_map ExecContext.environFlag l2 ++ ExecContext.execArgs c).
  unfold ExecContext.environFlag at 2. cbn [fst snd].
  rewrite <- !app_assoc. reflexivity.
Qed.

(** X9: the variables [HOME] and [XDG_RUNTIME_DIR] of the container.  Unless
    the environment declares them, they hold the home and the runtime
    directory of the user chosen by the [root] capability, and the returned
    arguments pass them with [-e]. *)
Theorem prepareEnv_home_variable so h env cliArgs r :
  prepareEnv so h env cliArgs = Ok r →
  (dict_has "HOME" (Env.environ env) = false →
   dict_get "HOME" (ExecContext.environ (Env.ctx (env_after r))) = Some (user_home env) ∧
   ∃ a b, (returned r).1.2 = a ++ ["-e"; "HOME=" +:+ user_home env] ++ b) ∧
  (dict_has "XDG_RUNTIME_DIR" (Env.environ env) = false →
   dict_get "XDG_RUNTIME_DIR" (ExecContext.environ (Env.ctx (env_after r)))
     = Some (user_xdg env) ∧
   ∃ a b, (returned r).1.2 = a ++ ["-e"; "XDG_RUNTIME_DIR=" +:+ user_xdg env] ++ b).
Proof.
  intros (env' & cliArgs' & ws & args & commandArgs & Hres & ->)%prepareEnv_resolveEnv.
  cbn [env_after returned Env.ctx Env.set_ctx fst snd].
  destruct (getArgs_keeps so h (Env.ctx env')) as (-> & _ & _).
  destruct (resolveEnv_environ _ _ _ _ _ _ _ _ Hres) as (env1 & H1 & Henv).
  destruct (applyCapabilities_identity_vars _ _ _ H1) as [Hh Hx].
  assert (Hget : ∀ k v, dict_has k (Env.environ env) = false →
            dict_get k (ExecContext.environ (Env.ctx env1)) = Some v →
            dict_get k (ExecContext.environ (Env.ctx env')) = Some v ∧
            ∃ a b, args ++ (ExecContext.getArgs so h (Env.ctx env')).2 =
                   a ++ ["-e"; k +:+ "=" +:+ v] ++ b).
  { intros k v Hno Hk.
    assert (Hk' : dict_get k (ExecContext.environ (Env.ctx env')) = Some v).
    { by rewrite Henv, dict_get_update, (dict_get_reverse_None _ _ Hno). }
    split; [exact Hk'|].
    destruct (getArgs_environ_flag so h _ _ _ Hk') as (a & b & ->).
    exists (args ++ a), b. by rewrite <- app_assoc. }
  split; intros Hno; by apply Hget.
Qed.

Lemma prepareEnv_home_variable_witness :
  ∃ r, prepareEnv remove_dups desktop_host viewer_env ["/etc/hostname"] = Ok r ∧
       dict_get "HOME" (ExecContext.environ (Env.ctx (env_after r))) = Some "/root" ∧
       ∃ a b, (returned r).1.2 = a ++ ["-e"; "HOME=/root"] ++ b.
Proof.
  destruct (prepareEnv remove_dups desktop_host viewer_env ["/etc/hostname"])
    as [r|x] eqn:Hr; [|vm_compute in Hr; discriminate Hr].
  exists r. split; [reflexivity|].
  destruct (prepareEnv_home_variable remove_dups desktop_host viewer_env
              ["/etc/hostname"] r Hr) as [H _].
  apply H. reflexivity.
Defined.

(** ** The declared settings *)

(** The container path of a declared mount: [~/] stands for the home of the
    user of the container. *)
Definition containerPath (env : Env) (p : string) : Path :=
  if Str.startswith "~/" p then path_of (user_home env) // Str.drop 2 p else path_of p.

Lemma mounts_fold_has h (l : list (string * string)) ctx cp hp :
  (cp, hp) ∈ l →
  dict_has (if Str.startswith "~/" cp then ExecContext.home ctx // Str.drop 2 cp
            else path_of cp)
    (ExecContext.mounts
       (foldl (λ ctx '(containerPath, hostPathStr),
                 let hostPath := expanduser_resolve h (path_of hostPathStr) in
                 if Str.startswith "~/" containerPath
                 then ExecContext.mount (ExecContext.home ctx // Str.drop 2 containerPath)
                        hostPath ctx
                 else ExecContext.mount (path_of containerPath) hostPath ctx)
          ctx l)) = true.
Proof.
  revert ctx. induction l as [|[cp0 hp0] l IH]; intros ctx Hin; [by apply elem_of_nil in Hin|].
  cbn [foldl]. apply elem_of_cons in Hin as [[= <- <-]|Hin].
  - match goal with
    | |- context [foldl ?f ?c ?l] =>
        destruct (mounts_fold_grows h l c) as (_ & _ & Hm & _); apply Hm
      end.
    cbv zeta. destruct (Str.startswith "~/" cp); simpl;
      rewrite dict_has_set; by rewrite bool_decide_true.
  - match goal with
    | |- context [foldl ?f ?c ?l] => specialize (IH c Hin)
    end.
    cbv zeta in IH |- *.
    by destruct (Str.startswith "~/" cp0), (Str.startswith "~/" cp).
Qed.

Lemma applyCapabilities_home h env env' :
  applyCapabilities h env = Ok env' →
  ExecContext.home (Env.ctx env') = path_of (user_home env).
Proof.
  unfold applyCapabilities. rewrite (Capabilities_split 2). unfold runCaps.
  rewrite foldM_app. intros H. apply bind_Ok in H as (env2 & H2 & H3).
  assert (Hk : Forall (λ nc, keeps_env nc.2 ∧ keeps_identity nc.2) (drop 2 Capabilities)).
  { apply Forall_and. split; [apply keep_env_drop|apply Capabilities_keep_identity]. }
  destruct (runCaps_frame h _ Hk _ _ H3) as (-> & _ & _).
  change (take 2 Capabilities) with
    [entry "manageImageCap" manageImageCap; entry "rootCap" rootCap] in H2.
  cbn [foldM] in H2. apply bind_Ok in H2 as (env1 & H1 & H2).
  apply bind_Ok in H2 as (env2' & H2 & [= <-]).
  unfold entry in H1, H2. cbn [fst snd] in H1, H2.
  unfold call, manageImageCap in H1. simpl in H1. injection H1 as <-.
  unfold call, rootCap in H2.
  change (Env.cap (camelCaseToHyphen (String.substring _ _ _)) _)
    with (Env.cap "root" env) in H2.
  unfold user_home. destruct (Env.cap "root" env); simpl in H2; by injection H2 as <-.
Qed.

(** X10: what the environment declares reaches the context.  After
    [prepareEnv] every declared system capability is among those of the
    context, every declared variable holds its declared value whatever the
    capabilities have set, and every declared container path is mounted,
    with [~/] standing for the home of the user of the container. *)
Theorem prepareEnv_declared_settings so h env cliArgs r :
  prepareEnv so h env cliArgs = Ok r →
  let c := Env.ctx (env_after r) in
  (∀ s, s ∈ Env.syscaps env → s ∈ ExecContext.syscaps c) ∧
  (∀ k v, NoDup (dict_keys (Env.environ env)) → dict_get k (Env.environ env) = Some v →
          dict_get k (ExecContext.environ c) = Some v) ∧
  (∀ p hostPath, (p, hostPath) ∈ Env.mounts env →
                 dict_has (containerPath env p) (ExecContext.mounts c) = true).
Proof.
  intros (env' & cliArgs' & ws & args & commandArgs & Hres & ->)%prepareEnv_resolveEnv.
  cbn [env_after Env.ctx Env.set_ctx]. cbv zeta.
  destruct (getArgs_keeps so h (Env.ctx env')) as (-> & _ & (_ & S5 & M5 & _)).
  destruct (resolveEnv_environ _ _ _ _ _ _ _ _ Hres) as (env1 & H1' & Henv).
  apply resolveEnv_steps in Hres as (env1' & env2 & env3 & env4 & fileArg &
                                      H1 & H2 & H3 & _ & H4 & ->).
  destruct (applyCapabilities_declared _ _ _ H1) as [D1 _].
  pose proof (grows_trans _ _ _ (fileArgument_grows _ _ _ _ _ _ H3)
                (grows_trans _ _ _ (settled_grows _ _ (validateEnv_settled _ _ _ _ H4))
                   (settled_grows _ _ (joinUserns_settled env4)))) as (_ & S3 & M3 & _).
  split; [|split].
  - intros s Hs. eapply elem_of_prefix; [|exact S5]. eapply elem_of_prefix; [|exact S3].
    destruct (applySettings_ctx _ _ _ _ H2) as (_ & _ & _ & -> & _).
    apply elem_of_app. right. by rewrite (declared_syscaps _ _ D1).
  - intros k v Hnd Hk. rewrite Henv, dict_get_update.
    by rewrite (dict_get_reverse_NoDup _ _ Hnd), Hk.
  - intros p hp Hin. apply M5, M3.
    unfold applySettings in H2. apply bind_Ok in H2 as (ports & _ & [= <- _]).
    cbn [Env.ctx Env.set_ctx]. rewrite (declared_mounts _ _ D1).
    match goal with
    | |- context [foldl ?f ?c ?l] => pose proof (mounts_fold_has h l c p hp Hin) as Hhas
    end.
    unfold containerPath. rewrite <- (applyCapabilities_home _ _ _ H1).
    by destruct (negb (Str.eqb (Env.home env1') "")).
Qed.

(** An environment that declares settings of its own. *)
Definition declared_env : Env :=
  Env.mk "dev" (Some "") "" None "" "" "" [] [] [] ["make"] [] [("HOME", "/srv")]
    ["SYS_ADMIN"] [("~/src", "/home/me/src")] [("terminal", true)] "" [] [] "" "" []
    None ExecContext.empty None None true false false
    (Some (path_of "/etc/podenv/config.yaml")).

Lemma prepareEnv_declared_settings_witness :
  ∃ r, prepareEnv remove_dups desktop_host declared_env [] = Ok r ∧
       "SYS_ADMIN" ∈ ExecContext.syscaps (Env.ctx (env_after r)) ∧
       dict_get "HOME" (ExecContext.environ (Env.ctx (env_after r))) = Some "/srv" ∧
       dict_has (path_of "/home/user/src") (ExecContext.mounts (Env.ctx (env_after r))) = true.
Proof.
  destruct (prepareEnv remove_dups desktop_host declared_env []) as [r|x] eqn:Hr;
    [|vm_compute in Hr; discriminate Hr].
  exists r. split; [reflexivity|].
  pose proof (prepareEnv_declared_settings remove_dups desktop_host declared_env [] r Hr) as H.
  cbv zeta in H. destruct H as (H1 & H2 & H3). split; [|split].
  - apply H1. by apply (bool_decide_unpack _).
  - apply H2; [|reflexivity]. by apply (bool_decide_unpack _).
  - apply (H3 "~/src" "/home/me/src"). by apply (bool_decide_unpack _).
Defined.

(** ** Image management *)

Definition keeps_image (c : Capability) : Prop :=
  ∀ h active ctx env ctx' env',
    c h active ctx env = Ok (ctx', env') →
    Env.packages env' = Env.packages env ∧ Env.manageImage env' = Env.manageImage env.

(** Every capability but [manageImageCap] and [editorCap] keeps the
    packages and the flag. *)
Lemma Capabilities_keep_image :
  Forall (λ nc, keeps_image nc.2) (take 7 (drop 1 Capabilities) ++ drop 9 Capabilities).
Proof.
  unfold Capabilities, entry. cbn [take drop app].
  repeat apply Forall_cons_2; try apply Forall_nil_2; simpl;
    intros h active ctx env ctx' env' H; unfold_caps;
    repeat case_match; inv_bind; simplify_eq; done.
Qed.

Lemma runCaps_image h caps :
  Forall (λ nc, keeps_image nc.2) caps →
  ∀ env env', runCaps h caps env = Ok env' →
    Env.packages env' = Env.packages env ∧ Env.manageImage env' = Env.manageImage env.
Proof.
  intros Hcaps. unfold runCaps.
  apply (foldM_inv (λ e e', Env.packages e' = Env.packages e ∧
                            Env.manageImage e' = Env.manageImage e)).
  - done.
  - intros ??? [-> ->] [-> ->]. done.
  - eapply Forall_impl; [exact Hcaps|].
    intros [n c] Hc s s' H. unfold call in H. inv_bind.
    by destruct (Hc _ _ _ _ _ _ Hr) as [Hp Hm].
Qed.

Lemma applyCapabilities_image h env env' :
  applyCapabilities h env = Ok env' →
  Env.packages env' = Env.packages env ++ (if Env.cap "editor" env then ["vi"] else []) ∧
  Env.manageImage env' = Env.cap "manage-image" env.
Proof.
  unfold applyCapabilities.
  assert (Hsplit : Capabilities =
            [entry "manageImageCap" manageImageCap] ++ take 7 (drop 1 Capabilities) ++
            [entry "editorCap" editorCap] ++ drop 9 Capabilities) by reflexivity.
  rewrite Hsplit. unfold runCaps.
  rewrite (foldM_app _ _ [entry "manageImageCap" manageImageCap]). intros H.
  apply bind_Ok in H as (env1 & H1 & H).
  rewrite (foldM_app _ _ (take 7 (drop 1 Capabilities))) in H.
  apply bind_Ok in H as (env2 & H2 & H).
  rewrite (foldM_app _ _ [entry "editorCap" editorCap]) in H.
  apply bind_Ok in H as (env3 & H3 & H4).
  pose proof Capabilities_keep_image as Hk. apply Forall_app in Hk as [Hk2 Hk4].
  destruct (runCaps_image h _ Hk2 _ _ H2) as [P2 M2].
  destruct (runCaps_image h _ Hk4 _ _ H4) as [P4 M4].
  assert (Hc2 : ∀ c, Env.cap c env2 = Env.cap c env).
  { intros c.
    assert (Hpre : runCaps h (take 8 Capabilities) env = Ok env2).
    { change (take 8 Capabilities) with
        ([entry "manageImageCap" manageImageCap] ++ take 7 (drop 1 Capabilities)).
      unfold runCaps. rewrite foldM_app, H1. exact H2. }
    by destruct (runCaps_capabilities h _ _ _ (keep_env_take 8) Hpre) as [_ ->]. }
  rewrite P4, M4.
  cbn [foldM] in H1, H3. apply bind_Ok in H1 as (e1 & H1 & [= <-]).
  apply bind_Ok in H3 as (e3 & H3 & [= <-]).
  unfold entry in H1, H3. cbn [fst snd] in H1, H3.
  unfold call, manageImageCap in H1. simpl in H1. injection H1 as <-.
  unfold call, editorCap in H3.
  change (Env.cap (camelCaseToHyphen (String.substring _ _ _)) _)
    with (Env.cap "editor" env2) in H3.
  rewrite Hc2 in H3.
  destruct (Env.cap "editor" env); simpl in H3; injection H3 as <-.
  - cbn [Env.packages Env.manageImage Env.set_ctx Env.set_packages].
    rewrite P2, M2. done.
  - cbn [Env.packages Env.manageImage Env.set_ctx].
    rewrite P2, M2. by rewrite app_nil_r.
Qed.

Lemma validateEnv_image h e e' ws :
  validateEnv h e = Ok (e', ws) →
  Env.packages e' = Env.packages e ∧
  Env.manageImage e' =
    Env.manageImage e
    || negb (bool_decide (Env.packages e = [])
             && bool_decide (Env.imageCustomizations e = [])
             && bool_decide (Env.imageTasks e = [])).
Proof.
  intros (a & b & c0 & d & f & w1 & w2 & w3 & w4 & w6 & w7 &
          H1 & H2 & H3 & H4 & H6 & H7 & _)%validateEnv_steps.
  destruct (checkSockets_post _ _ _ _ H1) as [_ K1].
  pose proof (checkUid_post _ _ _ _ H2) as K2.
  destruct (checkSyscaps_post _ _ _ H3) as [_ K3].
  destruct (checkLabels_post _ _ _ _ H4) as [K4 _].
  destruct (checkHome_post _ _ _ _ H6) as (K6 & _).
  destruct (checkImage_post _ _ _ _ H7) as [_ K7].
  pose proof (kept_trans _ _ _ _ _ _ _ _ _ _ _ _ _ _ _ _ _ K1 K2) as K12.
  pose proof (kept_trans _ _ _ _ _ _ _ _ _ _ _ _ _ _ _ _ _ K3 K4) as K34.
  pose proof (kept_trans _ _ _ _ _ _ _ _ _ _ _ _ _ _ _ _ _ K12 K34) as K14.
  pose proof (kept_trans _ _ _ _ _ _ _ _ _ _ _ _ _ _ _ _ _ K14 K6) as K.
  pose proof (kept_manage _ _ _ _ _ _ _ _ _ K eq_refl) as Hm.
  pose proof (kept_packages _ _ _ _ _ _ _ _ _ K) as Hp.
  pose proof (declared_imageCustomizations _ _ (kept_declared _ _ _ _ _ _ _ _ _ K)) as Hc.
  pose proof (declared_imageTasks _ _ (kept_declared _ _ _ _ _ _ _ _ _ K)) as Ht.
  split.
  { by rewrite (kept_packages _ _ _ _ _ _ _ _ _ K7), Hp. }
  rewrite checkImage_spec in H7. unfold image_quiet in H7.
  rewrite Hm, Hp, Hc, Ht in H7. injection H7 as <- _.
  destruct (Env.manageImage e) eqn:Hme; simpl; [done|].
  destruct (bool_decide (Env.packages e = []) && _ && _); simpl; [|done]. by rewrite Hm.
Qed.

(** X11: image management after [prepareEnv].  The [editor] capability
    adds the package [vi], which is the only change to the packages; the
    image is managed exactly when the [manage-image] capability is on, or
    the validator had to turn management on: for the [editor] capability,
    or for declared packages, image customizations or image tasks. *)
Theorem prepareEnv_manageImage so h env cliArgs r :
  prepareEnv so h env cliArgs = Ok r →
  Env.packages (env_after r) =
    Env.packages env ++ (if Env.cap "editor" env then ["vi"] else []) ∧
  Env.manageImage (env_after r) =
    Env.cap "manage-image" env || Env.cap "editor" env
    || negb (bool_decide (Env.packages env = [])
             && bool_decide (Env.imageCustomizations env = [])
             && bool_decide (Env.imageTasks env = [])).
Proof.
  intros (env' & cliArgs' & ws & args & commandArgs & Hres & ->)%prepareEnv_resolveEnv.
  cbn [env_after].
  apply resolveEnv_steps in Hres as (env1 & env2 & env3 & env4 & fileArg &
                                      H1 & H2 & H3 & _ & H4 & ->).
  destruct (applyCapabilities_image _ _ _ H1) as [P1 M1].
  destruct (applyCapabilities_declared _ _ _ H1) as [D1 _].
  destruct (applySettings_declared _ _ _ _ H2) as [D2 _].
  destruct (fileArgument_post _ _ _ _ _ _ H3) as (D3 & _ & _).
  assert (E2 : Env.packages env2 = Env.packages env1 ∧
               Env.manageImage env2 = Env.manageImage env1).
  { unfold applySettings in H2. apply bind_Ok in H2 as (ports & _ & [= <- _]). done. }
  assert (E3 : Env.packages env3 = Env.packages env2 ∧
               Env.manageImage env3 = Env.manageImage env2).
  { by destruct (fileArgument_set_ctx _ _ _ _ _ _ H3) as [c ->]. }
  destruct (validateEnv_image _ _ _ _ H4) as [P4 M4].
  assert (E5 : ∀ c, Env.packages (Env.set_ctx c (joinUserns env4)) = Env.packages env4 ∧
                    Env.manageImage (Env.set_ctx c (joinUserns env4)) = Env.manageImage env4).
  { intros c. unfold joinUserns. by destruct (Env.cap "uidmap" env4 && _). }
  destruct (E5 (ExecContext.getArgs so h (Env.ctx (joinUserns env4))).1) as [-> ->].
  destruct E2 as [P2 M2], E3 as [P3 M3].
  rewrite P4, M4, P3, M3, P2, M2, P1, M1.
  assert (Hd : declared env3 = declared env) by (by rewrite D3, D2, D1).
  rewrite (declared_imageCustomizations _ _ Hd), (declared_imageTasks _ _ Hd).
  split; [done|].
  destruct (Env.cap "manage-image" env); simpl; [done|].
  destruct (Env.cap "editor" env); simpl.
  - rewrite (bool_decide_false (_ ++ _ = [])); [done|].
    intros [_ ?]%app_eq_nil. done.
  - by rewrite app_nil_r.
Qed.

(** An environment that asks for an editor and nothing else. *)
Definition editor_env : Env := Env.set_capabilities [("editor", true)] fresh_env.

Lemma prepareEnv_manageImage_witness :
  ∃ r, prepareEnv remove_dups desktop_host editor_env [] = Ok r ∧
       Env.packages (env_after r) = ["vi"] ∧ Env.manageImage (env_after r) = true.
Proof.
  destruct (prepareEnv remove_dups desktop_host editor_env []) as [r|x] eqn:Hr;
    [|vm_compute in Hr; discriminate Hr].
  exists r. split; [reflexivity|].
  exact (prepareEnv_manageImage remove_dups desktop_host editor_env [] r Hr).
Defined.

(** ** Capabilities that read the environment of the host *)

Lemma prepareEnv_raise so h env cliArgs x :
  applyCapabilities h env = Raise x → prepareEnv so h env cliArgs = Raise x.
Proof. intros H. unfold prepareEnv, resolveEnv. by rewrite H. Qed.

Lemma runCaps_raise h pre n c post env :
  Forall (λ nc, keeps_env nc.2) pre →
  Env.cap n env = true →
  (∀ e, ∃ x, call c h true e = Raise x) →
  ∃ x, runCaps h (pre ++ (n, c) :: post) env = Raise x.
Proof.
  intros Hpre Hn Hc. unfold runCaps. rewrite foldM_app.
  destruct (foldM _ env pre) as [env1|x] eqn:H1; [|by exists x].
  destruct (runCaps_capabilities h _ _ _ Hpre H1) as [_ C1].
  simpl. rewrite C1, Hn. destruct (Hc env1) as [x ->]. by exists x.
Qed.

(** A capability that never fails. *)
Definition returns (c : Capability) : Prop :=
  ∀ h active ctx env, ∃ r, c h active ctx env = Ok r.

Lemma call_return c h active env :
  returns c → ∃ env1, call c h active env = Ok env1.
Proof.
  intros Hc. unfold call. destruct (Hc h active (Env.ctx env) env) as [[ctx1 e1] ->].
  cbn [mbind result_bind]. eauto.
Qed.

Lemma runCaps_return h caps :
  Forall (λ nc, returns nc.2) caps → ∀ env, ∃ env1, runCaps h caps env = Ok env1.
Proof.
  unfold runCaps. induction 1 as [|[n c] caps Hc _ IH]; intros env; cbn [foldM]; [eauto|].
  destruct (call_return c h (Env.cap n env) env Hc) as [e1 ->].
  cbn [mbind result_bind]. apply IH.
Qed.

Lemma first_capabilities_return h env :
  ∃ env1, runCaps h (take 5 Capabilities) env = Ok env1.
Proof.
  apply runCaps_return. unfold Capabilities, entry. cbn [take].
  repeat apply Forall_cons_2; try apply Forall_nil_2; cbn [snd];
    intros h' active ctx env0; unfold_caps; destruct active; eauto.
Qed.

(** The variable of the host that a capability reads with [os.environ[...]]. *)
Definition hostVariables : list (string * string) :=
  [("x11", "DISPLAY"); ("pulseaudio", "XDG_RUNTIME_DIR");
   ("ssh", "SSH_AUTH_SOCK"); ("gpg", "XDG_RUNTIME_DIR")].

(** X12: a capability that needs a variable of the host makes [prepareEnv]
    fail when the host does not set it: [x11] needs [DISPLAY], [pulseaudio]
    and [gpg] need [XDG_RUNTIME_DIR], [ssh] needs [SSH_AUTH_SOCK].  For
    [x11], the first of them in the catalogue, the exception is
    [KeyError('DISPLAY')]. *)
Theorem prepareEnv_needs_host_variable so h env cliArgs cap var :
  (cap, var) ∈ hostVariables →
  Env.cap cap env = true →
  dict_get var (os_environ h) = None →
  ∃ x, prepareEnv so h env cliArgs = Raise x ∧ (cap = "x11" → x = KeyError "DISPLAY").
Proof.
  intros Hin Hcap Hvar.
  assert (Hx : ∃ x, applyCapabilities h env = Raise x ∧ (cap = "x11" → x = KeyError "DISPLAY")).
  { unfold hostVariables in Hin. rewrite !elem_of_cons in Hin.
    destruct Hin as [[= -> ->]|[[= -> ->]|[[= -> ->]|[[= -> ->]|Hin]]]];
      [| | | |by apply elem_of_nil in Hin].
    - destruct (first_capabilities_return h env) as [env1 H1].
      destruct (runCaps_capabilities h _ _ _ (keep_env_take 5) H1) as [_ C1].
      exists (KeyError "DISPLAY"). split; [|done].
      unfold applyCapabilities. rewrite (Capabilities_split 5). unfold runCaps in *.
      rewrite foldM_app, H1.
      change (drop 5 Capabilities) with (entry "x11Cap" x11Cap :: drop 6 Capabilities).
      unfold entry at 1. cbn [foldM fst snd mbind].
      change (camelCaseToHyphen _) with "x11". simpl. rewrite C1, Hcap.
      unfold call, x11Cap, dict_index. by rewrite Hvar.
    - destruct (runCaps_raise h (take 6 Capabilities) "pulseaudio" pulseaudioCap
                  (drop 7 Capabilities) env (keep_env_take 6) Hcap) as [x Hr].
      { intros e. unfold call, pulseaudioCap, dict_index. rewrite Hvar. by eexists. }
      exists x. split; [exact Hr|done].
    - destruct (runCaps_raise h (take 9 Capabilities) "ssh" sshCap
                  (drop 10 Capabilities) env (keep_env_take 9) Hcap) as [x Hr].
      { intros e. unfold call, sshCap, dict_index. rewrite Hvar. by eexists. }
      exists x. split; [exact Hr|done].
    - destruct (runCaps_raise h (take 10 Capabilities) "gpg" gpgCap
                  (drop 11 Capabilities) env (keep_env_take 10) Hcap) as [x Hr].
      { intros e. unfold call, gpgCap, dict_index. rewrite Hvar. by eexists. }
      exists x. split; [exact Hr|done]. }
  destruct Hx as (x & Hx & Hk). exists x. split; [by apply prepareEnv_raise|exact Hk].
Qed.

(** A host without a display. *)
Definition headless_host : Host := {|
  os_environ := [("XDG_RUNTIME_DIR", "/run/user/1000")];
  expanduser_resolve := expanduser_resolve desktop_host;
  resolve_strict := resolve_strict desktop_host;
  path_exists := path_exists desktop_host;
  path_is_file := path_is_file desktop_host;
  read_text := read_text desktop_host;
  listdir_dev := listdir_dev desktop_host;
  access_R_OK := access_R_OK desktop_host;
  HAS_SELINUX := false;
  getfilecon := getfilecon desktop_host;
  str_format := str_format desktop_host
|}.

Lemma prepareEnv_needs_host_variable_witness :
  ∃ x, prepareEnv remove_dups headless_host x11_env [] = Raise x ∧
       ("x11" = "x11" → x = KeyError "DISPLAY").
Proof.
  apply (prepareEnv_needs_host_variable remove_dups headless_host x11_env [] "x11" "DISPLAY").
  - by apply (bool_decide_unpack _).
  - reflexivity.
  - reflexivity.
Defined.

(** * The command line *)

Lemma commandLine_declared e e' cliArgs fileArg :
  declared e' = declared e → commandLine e' cliArgs fileArg = commandLine e cliArgs fileArg.
Proof.
  intros H. unfold commandLine. by rewrite (declared_command _ _ H), (declared_args _ _ H).
Qed.

(** Without [$1] in the command no file is looked for. *)
Lemma resolveEnv_commandLine h env cliArgs env' cliArgs' ws args commandArgs :
  resolveEnv h env cliArgs = Ok (env', cliArgs', ws, args, commandArgs) →
  "$1" ∉ Env.command env →
  cliArgs' = cliArgs ∧ commandArgs = commandLine env cliArgs None.
Proof.
  intros (env1 & env2 & env3 & env4 & fileArg & H1 & H2 & H3 & -> & H4 & ->)%resolveEnv_steps
    Hno.
  destruct (applyCapabilities_declared _ _ _ H1) as [D1 _].
  destruct (applySettings_declared _ _ _ _ H2) as [D2 _].
  destruct (fileArgument_post _ _ _ _ _ _ H3) as (D3 & _ & _).
  assert (D : declared env2 = declared env) by (by rewrite D2, D1).
  rewrite fileArgument_spec, (declared_command _ _ D) in H3.
  rewrite bool_decide_false in H3 by done. injection H3 as <- <- <-.
  split; [done|]. by apply commandLine_declared.
Qed.

Lemma flat_map_singletons {A} (f : A → list A) (l : list A) :
  (∀ x, x ∈ l → f x = [x]) → flat_map f l = l.
Proof.
  induction l as [|x l IH]; intros H; simpl; [done|].
  rewrite H by apply list_elem_of_here. simpl. f_equal.
  apply IH. intros y Hy. apply H. by apply list_elem_of_further.
Qed.

(** The token list of a command line, before the arguments are added. *)
Definition is_shell (commandArgs : ExecArgs) : bool :=
  negb (bool_decide (commandArgs = [])) && Str.eqb (List.last commandArgs "") "/bin/bash".

Lemma commandLine_shell env cliArgs fileArg commandArgs :
  flat_map (λ command,
              if Str.eqb command "$@" && negb (bool_decide (cliArgs = [])) then cliArgs
              else match fileArg with
                   | Some f => if Str.eqb command "$1" then ["/tmp/" +:+ path_name f]
                               else [command]
                   | None => [command]
                   end) (Env.command env) = commandArgs →
  commandLine env cliArgs fileArg =
    if is_shell commandArgs then commandArgs else commandArgs ++ Env.args env ++ cliArgs.
Proof.
  intros H. unfold commandLine. cbv zeta. rewrite H. unfold is_shell.
  destruct (decide (commandArgs = [])) as [E|E].
  - by rewrite !(bool_decide_true (commandArgs = [])).
  - rewrite !(bool_decide_false (commandArgs = [])) by done.
    by destruct (Str.eqb (List.last commandArgs "") "/bin/bash").
Qed.

(** X13: the command returned by [prepareEnv] for a command without [$1]
    in which the token [$@] does not occur, or for a call with no
    arguments: the declared command followed by the declared arguments and
    the arguments of the caller, unless the command ends with [/bin/bash],
    when it is returned alone and both kinds of arguments are dropped.  The
    list of the caller is not changed. *)
Theorem prepareEnv_command so h env cliArgs r :
  prepareEnv so h env cliArgs = Ok r →
  "$1" ∉ Env.command env →
  "$@" ∉ Env.command env ∨ cliArgs = [] →
  (returned r).2 =
    (if is_shell (Env.command env) then Env.command env
     else Env.command env ++ Env.args env ++ cliArgs) ∧
  cliArgs_after r = cliArgs.
Proof.
  intros (env' & cliArgs' & ws & args & commandArgs & Hres & ->)%prepareEnv_resolveEnv
    Hno Hat.
  cbn [returned cliArgs_after snd].
  destruct (resolveEnv_commandLine _ _ _ _ _ _ _ _ Hres Hno) as [-> ->].
  split; [|done]. apply commandLine_shell.
  apply flat_map_singletons. intros c Hc. unfold Str.eqb.
  destruct Hat as [Hat| ->].
  - rewrite (bool_decide_false (c = "$@")); [done|]. by intros ->.
  - rewrite (bool_decide_true ([] = [])) by done. by rewrite andb_false_r.
Qed.

(** An environment that runs a shell. *)
Definition shell_env : Env :=
  Env.mk "shell" (Some "") "" None "" "" "" [] [] [] ["/bin/bash"] ["-l"] [] [] []
    [("terminal", true)] "" [] [] "" "" [] None ExecContext.empty None None true false false
    (Some (path_of "/etc/podenv/config.yaml")).

Lemma prepareEnv_command_witness :
  ∃ r, prepareEnv remove_dups desktop_host shell_env ["ls"] = Ok r ∧
       (returned r).2 = ["/bin/bash"] ∧ cliArgs_after r = ["ls"].
Proof.
  destruct (prepareEnv remove_dups desktop_host shell_env ["ls"]) as [r|x] eqn:Hr;
    [|vm_compute in Hr; discriminate Hr].
  exists r. split; [reflexivity|].
  apply (prepareEnv_command remove_dups desktop_host shell_env ["ls"] r Hr).
  - by apply (bool_decide_unpack _).
  - left. by apply (bool_decide_unpack _).
Defined.

(** X14: the token [$@] of a command stands for the arguments of the
    caller, and these arguments are then added a second time: for a command
    [pre ++ ["$@"] ++ post] and a call with arguments, [prepareEnv] returns
    [pre ++ cliArgs ++ post] followed by the declared arguments and by
    [cliArgs] again, unless the substituted command ends with [/bin/bash]. *)
Theorem prepareEnv_command_all_arguments so h env cliArgs r pre post :
  prepareEnv so h env cliArgs = Ok r →
  Env.command env = pre ++ "$@" :: post →
  "$1" ∉ Env.command env → "$@" ∉ pre → "$@" ∉ post →
  cliArgs ≠ [] →
  (returned r).2 =
    (if is_shell (pre ++ cliArgs ++ post) then pre ++ cliArgs ++ post
     else (pre ++ cliArgs ++ post) ++ Env.args env ++ cliArgs).
Proof.
  intros (env' & cliArgs' & ws & args & commandArgs & Hres & ->)%prepareEnv_resolveEnv
    Hcmd Hno Hpre Hpost Hcli.
  cbn [returned snd].
  destruct (resolveEnv_commandLine _ _ _ _ _ _ _ _ Hres Hno) as [-> ->].
  apply commandLine_shell. rewrite Hcmd, flat_map_app. cbn [flat_map].
  unfold Str.eqb at 2. rewrite (bool_decide_true ("$@" = "$@")) by done.
  rewrite (bool_decide_false (cliArgs = [])) by done. cbn [negb andb].
  rewrite !flat_map_singletons; [done| |].
  - intros c Hc. unfold Str.eqb. rewrite (bool_decide_false (c = "$@")); [done|]. by intros ->.
  - intros c Hc. unfold Str.eqb. rewrite (bool_decide_false (c = "$@")); [done|]. by intros ->.
Qed.

(** An environment whose command takes every argument of the caller. *)
Definition echo_env : Env :=
  Env.mk "echo" (Some "") "" None "" "" "" [] [] [] ["echo"; "$@"] [] [] [] []
    [] "" [] [] "" "" [] None ExecContext.empty None None true false false
    (Some (path_of "/etc/podenv/config.yaml")).

Lemma prepareEnv_command_all_arguments_witness :
  ∃ r, prepareEnv remove_dups desktop_host echo_env ["a"; "b"] = Ok r ∧
       (returned r).2 = ["echo"; "a"; "b"; "a"; "b"].
Proof.
  destruct (prepareEnv remove_dups desktop_host echo_env ["a"; "b"]) as [r|x] eqn:Hr;
    [|vm_compute in Hr; discriminate Hr].
  exists r. split; [reflexivity|].
  apply (prepareEnv_command_all_arguments remove_dups desktop_host echo_env ["a"; "b"] r
           ["echo"] [] Hr).
  - reflexivity.
  - by apply (bool_decide_unpack _).
  - by apply (bool_decide_unpack _).
  - apply not_elem_of_nil.
  - discriminate.
Defined.

(** * Rendering twice *)

(** X15: [getArgs] assigns [cwd] on its first call only: a second call on
    the same context changes nothing more and returns the same
    arguments. *)
Theorem getArgs_idempotent so h c :
  ExecContext.getArgs so h (ExecContext.getArgs so h c).1 = ExecContext.getArgs so h c.
Proof.
  unfold ExecContext.getArgs.
  destruct (decide (ExecContext.cwd c = path_empty)) as [Hc|Hc]; cbn [fst].
  - destruct (decide (ExecContext.cwd (ExecContext.set_cwd (ExecContext.home c) c)
                      = path_empty)) as [Hh|Hh]; [|done].
    simpl in Hh. destruct c; simpl in *. by rewrite Hh.
  - by rewrite decide_False.
Qed.

(** * The home mount point *)

Lemma applySettings_home_mounted h env env' args :
  applySettings h env = Ok (env', args) →
  Env.home env ≠ "" →
  dict_has (ExecContext.home (Env.ctx env)) (ExecContext.mounts (Env.ctx env')) = true.
Proof.
  unfold applySettings. intros H Hne. inv_bind. cbn [Env.ctx Env.set_ctx].
  match goal with
  | |- context [foldl ?f ?c ?l] =>
      destruct (mounts_fold_grows h l c) as (_ & _ & Hm & _); apply Hm
  end.
  unfold Str.eqb. rewrite bool_decide_false by done. simpl.
  rewrite dict_has_set. by rewrite bool_decide_true.
Qed.

Lemma mountRunCap_mounts h ctx env ctx' env' :
  mountRunCap h true ctx env = Ok (ctx', env') →
  ExecContext.home ctx' = ExecContext.home ctx ∧
  Env.runDir env ≠ None ∧
  dict_has (path_of "/tmp") (ExecContext.mounts ctx') = true ∧
  (Env.home env = "" → dict_has (ExecContext.home ctx) (ExecContext.mounts ctx') = true).
Proof.
  unfold mountRunCap. destruct (Env.runDir env) as [runDir|]; [|done]. cbv zeta.
  intros [= <- <-].
  set (c1 := if negb (dict_has (ExecContext.home ctx) (ExecContext.mounts ctx))
                && Str.eqb (Env.home env) ""
             then ExecContext.mount (ExecContext.home ctx) (runDir // "home") ctx
             else ctx).
  assert (H1 : ExecContext.home c1 = ExecContext.home ctx ∧
               (Env.home env = "" →
                dict_has (ExecContext.home ctx) (ExecContext.mounts c1) = true)).
  { subst c1. destruct (dict_has (ExecContext.home ctx) (ExecContext.mounts ctx)) eqn:Hh;
      simpl; [done|].
    unfold Str.eqb. destruct (decide (Env.home env = "")) as [He|He].
    - rewrite bool_decide_true by done. split; [done|]. intros _. simpl.
      rewrite dict_has_set. by rewrite bool_decide_true.
    - by rewrite bool_decide_false. }
  destruct H1 as [Hh1 Hm1].
  destruct (dict_has (path_of "/tmp") (ExecContext.mounts c1)) eqn:Ht; simpl.
  - done.
  - split; [done|]. split; [done|]. split.
    + rewrite dict_has_set. by rewrite bool_decide_true.
    + intros He. rewrite dict_has_set, (Hm1 He). apply orb_true_r.
Qed.

(** The home of the context from the settings on. *)
Lemma resolveEnv_home_steps h env1 env2 env3 env4 args cliArgs cliArgs' fileArg ws :
  applySettings h env1 = Ok (env2, args) →
  fileArgument h env2 cliArgs = Ok (env3, cliArgs', fileArg) →
  validateEnv h env3 = Ok (env4, ws) →
  ExecContext.home (Env.ctx env2) = ExecContext.home (Env.ctx env1) ∧
  ExecContext.home (Env.ctx env3) = ExecContext.home (Env.ctx env1) ∧
  ExecContext.home (Env.ctx env4) = ExecContext.home (Env.ctx env1).
Proof.
  intros H2 H3 H4.
  destruct (applySettings_ctx _ _ _ _ H2) as (_ & _ & Hh2 & _).
  pose proof (om_home _ _ (fileArgument_only_mounts _ _ _ _ _ _ H3)) as Hh3.
  destruct (validateEnv_post _ _ _ _ H4) as (_ & Hh4 & _).
  split; [done|]. split; congruence.
Qed.

(** X16: the home of the user of the container is a mount point after
    [prepareEnv] whenever the environment declares a home directory of the
    host, declares overlays, or has the [mount-run] capability. *)
Theorem prepareEnv_home_mounted so h env cliArgs r :
  prepareEnv so h env cliArgs = Ok r →
  Env.home env ≠ "" ∨ Env.overlays env ≠ [] ∨ Env.cap "mount-run" env = true →
  dict_has (path_of (user_home env)) (ExecContext.mounts (Env.ctx (env_after r))) = true.
Proof.
  intros (env' & cliArgs' & ws & args & commandArgs & Hres & ->)%prepareEnv_resolveEnv Hwhy.
  cbn [env_after Env.ctx Env.set_ctx].
  destruct (getArgs_keeps so h (Env.ctx env')) as (_ & _ & (_ & _ & M5 & _)). apply M5.
  apply resolveEnv_steps in Hres as (env1 & env2 & env3 & env4 & fileArg &
                                      H1 & H2 & H3 & _ & H4 & ->).
  destruct (settled_grows _ _ (joinUserns_settled env4)) as (_ & _ & M4 & _). apply M4.
  pose proof (applyCapabilities_home _ _ _ H1) as Hhome.
  destruct (applyCapabilities_declared _ _ _ H1) as [D1 _].
  destruct (applySettings_declared _ _ _ _ H2) as [D2 _].
  destruct (fileArgument_post _ _ _ _ _ _ H3) as (D3 & _ & _).
  destruct (resolveEnv_home_steps _ _ _ _ _ _ _ _ _ _ H2 H3 H4) as (Hh2 & Hh3 & Hh4).
  assert (D : declared env3 = declared env) by (by rewrite D3, D2, D1).
  destruct (grows_trans _ _ _ (fileArgument_grows _ _ _ _ _ _ H3)
              (settled_grows _ _ (validateEnv_settled _ _ _ _ H4))) as (_ & _ & M24 & _).
  destruct (decide (Env.home env = "")) as [Hempty|Hne].
  2: { apply M24. rewrite <- Hhome. apply (applySettings_home_mounted _ _ _ _ H2).
       by rewrite (declared_home _ _ D1). }
  destruct Hwhy as [Hne|[Hov|Hrun]]; [done| |].
  - apply validateEnv_steps in H4 as (a & b & c & d & f & w1 & w2 & w3 & w4 & w6 & w7 &
                                      V1 & V2 & V3 & V4 & V6 & V7 & _).
    destruct (checkSockets_post _ _ _ _ V1) as [_ K1].
    pose proof (checkUid_post _ _ _ _ V2) as K2.
    destruct (checkSyscaps_post _ _ _ V3) as [_ K3].
    destruct (checkLabels_post _ _ _ _ V4) as [K4 _].
    destruct (checkHome_post _ _ _ _ V6) as (K6 & Q6 & _).
    destruct (checkImage_post _ _ _ _ V7) as [_ K7].
    pose proof (kept_trans _ _ _ _ _ _ _ _ _ _ _ _ _ _ _ _ _ K1 K2) as K12.
    pose proof (kept_trans _ _ _ _ _ _ _ _ _ _ _ _ _ _ _ _ _ K3 K4) as K34.
    pose proof (kept_trans _ _ _ _ _ _ _ _ _ _ _ _ _ _ _ _ _ K12 K34) as K14.
    pose proof (kept_trans _ _ _ _ _ _ _ _ _ _ _ _ _ _ _ _ _ K14 K6) as K16.
    assert (Dd : declared d = declared env)
      by (by rewrite (kept_declared _ _ _ _ _ _ _ _ _ K14)).
    assert (Df : declared f = declared env)
      by (by rewrite (kept_declared _ _ _ _ _ _ _ _ _ K16)).
    specialize (Q6 ltac:(by rewrite (declared_home _ _ Dd))).
    unfold home_quiet in Q6. rewrite (declared_overlays _ _ Df) in Q6.
    rewrite bool_decide_false in Q6 by done. simpl in Q6.
    rewrite (kept_mounts _ _ _ _ _ _ _ _ _ K7 eq_refl).
    rewrite (kept_home _ _ _ _ _ _ _ _ _ K16), Hh3, Hhome in Q6. exact Q6.
  - apply M24. destruct (applySettings_grows _ _ _ _ H2) as (_ & _ & M12 & _). apply M12.
    rewrite <- Hhome. clear H2 H3 H4 Hh2 Hh3 Hh4 M24 M4 M5.
    unfold applyCapabilities in H1. rewrite (Capabilities_split 21) in H1.
    unfold runCaps in H1. rewrite foldM_app in H1.
    apply bind_Ok in H1 as (e1 & R1 & R).
    change (drop 21 Capabilities)
      with (entry "mountRunCap" mountRunCap :: drop 22 Capabilities) in R.
    cbn [foldM] in R. apply bind_Ok in R as (e2 & R2 & R3).
    destruct (runCaps_capabilities h _ _ _ (keep_env_take 21) R1) as [E1 C1].
    unfold entry in R2. cbn [fst snd] in R2.
    change (Env.cap (camelCaseToHyphen (String.substring _ _ _)) _)
      with (Env.cap "mount-run" e1) in R2.
    rewrite C1, Hrun in R2. unfold call in R2.
    apply bind_Ok in R2 as ([ctx2 e2'] & R2 & [= <-]).
    destruct (mountRunCap_mounts _ _ _ _ _ R2) as (Hh & _ & _ & Hm).
    specialize (Hm ltac:(by rewrite (declared_home _ _ E1))).
    assert (Hk : Forall (λ nc, keeps_env nc.2 ∧ keeps_identity nc.2) (drop 22 Capabilities)).
    { apply Forall_and. split; [apply keep_env_drop|].
      change (drop 22 Capabilities) with (drop 20 (drop 2 Capabilities)).
      apply Forall_drop, Capabilities_keep_identity. }
    destruct (runCaps_frame h _ Hk _ _ R3) as (Hh3 & _ & _).
    pose proof (runCaps_ctx grows h _ grows_refl grows_trans
                  (Forall_drop _ 22 _ Capabilities_grow) _ _ R3) as (_ & _ & M3 & _).
    apply M3. cbn [Env.ctx Env.set_ctx] in Hh3 |- *. by rewrite Hh3, Hh.
Qed.

(** An environment with overlays and a run directory. *)
Definition overlay_env : Env :=
  Env.mk "overlay" (Some "") "" None "" "" "" [] [] [] [] [] [] [] [] [] "" []
    [AStr "dotfiles"] "" "" [] None ExecContext.empty (Some (path_of "/run/podenv")) None
    true false false (Some (path_of "/etc/podenv/config.yaml")).

Lemma prepareEnv_home_mounted_witness :
  ∃ r, prepareEnv remove_dups desktop_host overlay_env [] = Ok r ∧
       dict_has (path_of "/home/user") (ExecContext.mounts (Env.ctx (env_after r))) = true.
Proof.
  destruct (prepareEnv remove_dups desktop_host overlay_env []) as [r|x] eqn:Hr;
    [|vm_compute in Hr; discriminate Hr].
  exists r. split; [reflexivity|].
  apply (prepareEnv_home_mounted remove_dups desktop_host overlay_env [] r Hr).
  right. left. discriminate.
Defined.

(** * The git configuration *)

(** [s.split(c)] has no second field exactly when [c] is not in [s]. *)
Lemma split_nonempty c s : Str.split c s ≠ [].
Proof. destruct s as [|a s]; simpl; [done|]. destruct (Ascii.eqb a c); [done|]. by destruct (Str.split c s). Qed.

Lemma split_second c s :
  Str.split c s !! 1%nat = None ↔ Str.contains (String c EmptyString) s = false.
Proof.
  induction s as [|a s IH]; simpl; [done|].
  destruct (Ascii.eqb_spec a c) as [->|Hne].
  - destruct (ascii_dec c c) as [_|Hc]; [|done]. simpl.
    pose proof (split_nonempty c s). destruct (Str.split c s); [done|].
    simpl. split; [done|]. by destruct s.
  - destruct (ascii_dec c a) as [Hc|_]; [by subst|]. simpl.
    pose proof (split_nonempty c s). by destruct (Str.split c s).
Qed.

(** The mount that an [excludesfile] line with a value adds when the value
    names a file. *)
Lemma gitLine_excludes h ctx line f ctx' :
  gitLine h ctx line = Ok ctx' →
  Str.startswith "excludesfile" (Str.strip line) = true →
  Str.split "=" (Str.strip line) !! 1%nat = Some f →
  path_is_file h (expanduser_resolve h (path_of (Str.strip f))) = true →
  ctx' = ExecContext.mount (ExecContext.home ctx // Str.replace "~/" "" (Str.strip f))
           (expanduser_resolve h (path_of (Str.strip f))) ctx.
Proof.
  unfold gitLine. cbv zeta. intros H Hs Hf Hi. rewrite Hs, Hf, Hi in H. by injection H.
Qed.

(** An [excludesfile] line without [=] has no second field. *)
Lemma gitLine_raise h ctx line :
  Str.startswith "excludesfile" (Str.strip line) = true →
  Str.contains "=" (Str.strip line) = false →
  gitLine h ctx line = Raise IndexError.
Proof.
  unfold gitLine. cbv zeta. intros -> Hc. apply split_second in Hc. by rewrite Hc.
Qed.

(** X17: what the [git] capability needs of [~/.gitconfig] to return.  When
    the file is there and [gitCap] returns, every line that starts (white
    space apart) with [excludesfile] holds an [=], since a line without one
    ends the call with [IndexError]; the environment is untouched, the
    context differs only by mounts, the configuration is mounted under the
    home directory of the container, and so is the file that each such line
    names when it is a file on the host. *)
Theorem gitCap_returns h ctx env ctx' env' :
  gitCap h true ctx env = Ok (ctx', env') →
  path_is_file h (expanduser_resolve h (path_of "~/.gitconfig")) = true →
  env' = env ∧ only_mounts ctx ctx' ∧
  dict_has (ExecContext.home ctx // ".gitconfig") (ExecContext.mounts ctx') = true ∧
  ∀ line,
    line ∈ Str.split "010" (read_text h (expanduser_resolve h (path_of "~/.gitconfig"))) →
    Str.startswith "excludesfile" (Str.strip line) = true →
    ∃ f, Str.split "=" (Str.strip line) !! 1%nat = Some f ∧
         Str.contains "=" (Str.strip line) = true ∧
         (path_is_file h (expanduser_resolve h (path_of (Str.strip f))) = true →
          dict_has (ExecContext.home ctx // Str.replace "~/" "" (Str.strip f))
            (ExecContext.mounts ctx') = true).
Proof.
  unfold gitCap. cbv zeta. intros H Hf. rewrite Hf in H.
  apply bind_Ok in H as (c1 & Hfold & [= <- <-]).
  set (cfg := expanduser_resolve h (path_of "~/.gitconfig")) in *.
  set (c0 := ExecContext.mount (ExecContext.home ctx // ".gitconfig") cfg ctx) in *.
  split; [done|]. split; [|split].
  - eapply only_mounts_trans; [apply only_mounts_mount|].
    exact (gitLines_only_mounts _ _ _ _ Hfold).
  - destruct (gitLines_grows _ _ _ _ Hfold) as (_ & _ & Hm & _). apply Hm.
    unfold c0. simpl. rewrite dict_has_set.
    by rewrite (bool_decide_true (_ = _)) by done.
  - intros line Hin Hs.
    apply list_elem_of_split in Hin as (l1 & l2 & Heq). rewrite Heq, foldM_app in Hfold.
    apply bind_Ok in Hfold as (c2 & Hl1 & Hfold). cbn [foldM] in Hfold.
    apply bind_Ok in Hfold as (c3 & Hline & Hl2).
    destruct (Str.contains "=" (Str.strip line)) eqn:Hc;
      [|by rewrite gitLine_raise in Hline].
    destruct (Str.split "=" (Str.strip line) !! 1%nat) as [f|] eqn:Hsp;
      [|apply split_second in Hsp; congruence].
    exists f. split; [done|]. split; [done|]. intros Hi.
    destruct (gitLines_grows _ _ _ _ Hl2) as (_ & _ & Hm & _). apply Hm.
    rewrite (gitLine_excludes _ _ _ _ _ Hline Hs Hsp Hi).
    destruct (gitLines_identity _ _ _ _ Hl1) as [-> _].
    simpl. rewrite dict_has_set.
    by rewrite (bool_decide_true (_ = _)) by done.
Qed.

(** A host whose git configuration names an excludes file without [=], and
    one whose configuration names it as git expects. *)
Definition git_host : Host := {|
  os_environ := os_environ desktop_host;
  expanduser_resolve := expanduser_resolve desktop_host;
  resolve_strict := resolve_strict desktop_host;
  path_exists := path_exists desktop_host;
  path_is_file := λ _, true;
  read_text := λ _, "[core]" +:+ String "010" "  excludesfile ~/.gitignore";
  listdir_dev := listdir_dev desktop_host;
  access_R_OK := access_R_OK desktop_host;
  HAS_SELINUX := false;
  getfilecon := getfilecon desktop_host;
  str_format := str_format desktop_host
|}.

Definition gitignore_host : Host := {|
  os_environ := os_environ desktop_host;
  expanduser_resolve := expanduser_resolve desktop_host;
  resolve_strict := resolve_strict desktop_host;
  path_exists := path_exists desktop_host;
  path_is_file := λ _, true;
  read_text := λ _, "[core]" +:+ String "010" "  excludesfile = ~/.gitignore";
  listdir_dev := listdir_dev desktop_host;
  access_R_OK := access_R_OK desktop_host;
  HAS_SELINUX := false;
  getfilecon := getfilecon desktop_host;
  str_format := str_format desktop_host
|}.

Example gitCap_raise_ex :
  gitCap git_host true ExecContext.empty fresh_env = Raise IndexError.
Proof. reflexivity. Qed.

Lemma gitCap_returns_witness :
  let home := ExecContext.set_home (path_of "/home/user") ExecContext.empty in
  ∃ ctx', gitCap gitignore_host true home fresh_env = Ok (ctx', fresh_env) ∧
          dict_has (path_of "/home/user/.gitconfig") (ExecContext.mounts ctx') = true ∧
          dict_has (path_of "/home/user/.gitignore") (ExecContext.mounts ctx') = true.
Proof.
  intros home.
  destruct (gitCap gitignore_host true home fresh_env) as [[ctx' env']|x] eqn:H;
    [|vm_compute in H; discriminate H].
  destruct (gitCap_returns gitignore_host home fresh_env ctx' env' H eq_refl)
    as (-> & _ & Hcfg & Hlines).
  exists ctx'. split; [done|]. split; [exact Hcfg|].
  destruct (Hlines "  excludesfile = ~/.gitignore") as (f & Hf & _ & Hm);
    [apply list_elem_of_In; vm_compute; right; by left|vm_compute; reflexivity|].
  vm_compute in Hf. injection Hf as <-. apply Hm. reflexivity.
Defined.

(** * [Env.__post_init__]: the names of the capabilities

    The loop of [__post_init__] over [self.capabilities.items()] and the
    update that follows it.  The capabilities are those given to the
    constructor, in the order of the dictionary. *)

(** The names written in camelCase that are still accepted. *)
Definition retroNames : list string := ["mountCwd"; "mountRun"; "autoUpdate"].

(** [re.sub('([CRU])', r'-\1', cap).lower()] *)
Fixpoint retroHyphen (cap : string) : string :=
  match cap with
  | EmptyString => EmptyString
  | String a cap' =>
      if bool_decide (a ∈ ["C"; "R"; "U"]%char)
      then String "-" (String (Str.lower a) (retroHyphen cap'))
      else String (Str.lower a) (retroHyphen cap')
  end.

(** The body of the loop: [retroCap] after the step, or the error. *)
Definition retroStep (name : string) (retroCap : Dict string bool)
    (item : string * bool) : result (Dict string bool) :=
  let '(cap, value) := item in
  let '(cap, retroCap) :=
    if bool_decide (cap ∈ retroNames)
    then (retroHyphen cap, dict_set (retroHyphen cap) value retroCap)
    else (cap, retroCap) in
  if bool_decide (cap ∈ ValidCap) then Ok retroCap
  else Raise (RuntimeError (name +:+ ": unknown cap " +:+ cap)).

(** [self.capabilities] after the loop and [self.capabilities.update(retroCap)]. *)
Definition retroCapabilities (name : string) (capabilities : Dict string bool)
    : result (Dict string bool) :=
  retroCap ← foldM (retroStep name) [] capabilities;
  Ok (dict_update capabilities retroCap).

Example retroHyphen_names :
  map retroHyphen retroNames = ["mount-cwd"; "mount-run"; "auto-update"].
Proof. reflexivity. Qed.

(** A name that [__post_init__] accepts. *)
Definition known_cap (cap : string) : Prop := cap ∈ ValidCap ∨ cap ∈ retroNames.

Lemma retroHyphen_valid cap : cap ∈ retroNames → retroHyphen cap ∈ ValidCap.
Proof.
  unfold retroNames. rewrite !elem_of_cons.
  intros [->|[->|[->|H]]]; [| | |by apply elem_of_nil in H];
    by apply (bool_decide_unpack _).
Qed.

Lemma retroStep_known name retroCap cap value :
  known_cap cap → ∃ retroCap', retroStep name retroCap (cap, value) = Ok retroCap'.
Proof.
  intros Hk. unfold retroStep.
  destruct (decide (cap ∈ retroNames)) as [Hr|Hr].
  - rewrite (bool_decide_true (cap ∈ retroNames)) by done.
    rewrite bool_decide_true by (by apply retroHyphen_valid). eauto.
  - rewrite (bool_decide_false (cap ∈ retroNames)) by done.
    destruct Hk as [Hv|?]; [|done]. rewrite bool_decide_true by done. eauto.
Qed.

Lemma retroStep_unknown name retroCap cap value :
  ¬ known_cap cap →
  retroStep name retroCap (cap, value) = Raise (RuntimeError (name +:+ ": unknown cap " +:+ cap)).
Proof.
  intros Hk. unfold retroStep.
  rewrite (bool_decide_false (cap ∈ retroNames)) by (intros ?; apply Hk; by right).
  by rewrite bool_decide_false by (intros ?; apply Hk; by left).
Qed.

Lemma retroFold_known name caps retroCap :
  Forall known_cap (dict_keys caps) → ∃ retroCap', foldM (retroStep name) retroCap caps = Ok retroCap'.
Proof.
  revert retroCap. induction caps as [|[cap value] caps IH]; intros retroCap Hk;
    cbn [foldM]; [eauto|].
  unfold dict_keys in Hk. rewrite fmap_cons in Hk. apply Forall_cons in Hk as [Hc Hk].
  destruct (retroStep_known name retroCap cap value Hc) as [r1 Hr].
  rewrite Hr. simpl. by apply IH.
Qed.

(** X18: which capability names [__post_init__] accepts.  The loop returns
    when every name is one of the catalogue or one of the three camelCase
    names; otherwise it raises [RuntimeError] for the first name, in the
    order of the dictionary, that is neither, with the message
    [NAME: unknown cap CAP]. *)
Theorem retroCapabilities_names name caps :
  (Forall known_cap (dict_keys caps) → ∃ caps', retroCapabilities name caps = Ok caps') ∧
  (∀ pre cap value post,
     caps = pre ++ (cap, value) :: post →
     Forall known_cap (dict_keys pre) → ¬ known_cap cap →
     retroCapabilities name caps = Raise (RuntimeError (name +:+ ": unknown cap " +:+ cap))).
Proof.
  split.
  - intros Hk. unfold retroCapabilities.
    destruct (retroFold_known name caps [] Hk) as [r ->]. simpl. eauto.
  - intros pre cap value post -> Hpre Hcap. unfold retroCapabilities.
    rewrite foldM_app. destruct (retroFold_known name pre [] Hpre) as [r ->].
    cbn [mbind result_bind foldM].
    rewrite (retroStep_unknown name r cap value Hcap). reflexivity.
Qed.

Example retroCapabilities_unknown_ex :
  retroCapabilities "shell" [("x11", true); ("mountCwd", true); ("X11", true); ("gpu", true)]
  = Raise (RuntimeError "shell: unknown cap X11").
Proof. reflexivity. Qed.

(** The entries that the loop puts in [retroCap]. *)
Definition retroItems (caps : Dict string bool) : Dict string bool :=
  flat_map (λ '(cap, value),
              if bool_decide (cap ∈ retroNames) then [(retroHyphen cap, value)] else [])
    caps.

Lemma retroFold_items name caps retroCap retroCap' :
  foldM (retroStep name) retroCap caps = Ok retroCap' →
  retroCap' = dict_update retroCap (retroItems caps).
Proof.
  revert retroCap. induction caps as [|[cap value] caps IH]; intros retroCap; simpl.
  - by intros [= <-].
  - intros H. apply bind_Ok in H as (r1 & H1 & H). apply IH in H as ->.
    unfold retroStep in H1. unfold dict_update. rewrite foldl_app.
    destruct (bool_decide (cap ∈ retroNames)); case_bool_decide; by simplify_eq.
Qed.

Lemma dict_set_keys_NoDup {K V} `{EqDecision K} (k : K) (v : V) (d : Dict K V) :
  NoDup (dict_keys d) → NoDup (dict_keys (dict_set k v d)) ∧
  ∀ k', k' ∈ dict_keys (dict_set k v d) ↔ k' = k ∨ k' ∈ dict_keys d.
Proof.
  unfold dict_keys. induction d as [|[k0 v0] d IH]; simpl; intros Hnd.
  - split; [apply NoDup_singleton|]. intros k'. rewrite list_elem_of_singleton, elem_of_nil. tauto.
  - apply NoDup_cons in Hnd as [Hk0 Hnd]. destruct (IH Hnd) as [IH1 IH2].
    destruct (decide (k = k0)) as [->|Hne]; simpl.
    + split; [by apply NoDup_cons|]. intros k'. rewrite elem_of_cons. tauto.
    + split.
      * apply NoDup_cons. split; [|done]. rewrite IH2. intros [?|?]; [by subst|done].
      * intros k'. rewrite !elem_of_cons, IH2. tauto.
Qed.

Lemma dict_update_keys_NoDup {K V} `{EqDecision K} (d other : Dict K V) :
  NoDup (dict_keys d) → NoDup (dict_keys (dict_update d other)).
Proof.
  unfold dict_update. revert d. induction other as [|[k v] other IH]; intros d Hnd; simpl;
    [done|].
  apply IH. by apply dict_set_keys_NoDup.
Qed.

Lemma retroHyphen_inj c1 c2 :
  c1 ∈ retroNames → c2 ∈ retroNames → retroHyphen c1 = retroHyphen c2 → c1 = c2.
Proof.
  unfold retroNames. rewrite !elem_of_cons.
  intros [->|[->|[->|H1]]] [->|[->|[->|H2]]]; try (by apply elem_of_nil in H1);
    try (by apply elem_of_nil in H2); by vm_compute.
Qed.

Lemma retroItems_get caps cap value :
  NoDup (dict_keys caps) → cap ∈ retroNames → dict_get cap caps = Some value →
  dict_get (retroHyphen cap) (reverse (retroItems caps)) = Some value.
Proof.
  intros Hnd Hr. unfold dict_keys in Hnd.
  induction caps as [|[c v] caps IH]; simpl; [done|].
  apply NoDup_cons in Hnd as [Hc Hnd].
  destruct (decide (cap = c)) as [->|Hne].
  - intros [= ->]. rewrite bool_decide_true by done.
    rewrite reverse_app, dict_get_app.
    destruct (dict_get (retroHyphen c) (reverse (retroItems caps))) as [v'|] eqn:Hg.
    + exfalso. apply dict_get_elem in Hg. rewrite elem_of_reverse in Hg.
      unfold retroItems in Hg. apply list_elem_of_In, in_flat_map in Hg as ([c' v''] & Hin & Hg).
      case_bool_decide as Hr'; [|done]. destruct Hg as [[= Hh ->]|[]].
      apply retroHyphen_inj in Hh; [|done..]. subst c'.
      apply Hc. apply list_elem_of_fmap. exists (c, v'). split; [done|].
      by apply list_elem_of_In.
    + simpl. by rewrite decide_True.
  - intros Hg. specialize (IH Hnd Hg).
    rewrite reverse_app, dict_get_app, IH. done.
Qed.

Lemma retroItems_get_None caps k :
  (∀ cap, cap ∈ retroNames → cap ∈ dict_keys caps → k ≠ retroHyphen cap) →
  dict_get k (reverse (retroItems caps)) = None.
Proof.
  intros Hk. apply dict_get_reverse_None.
  destruct (dict_has k (retroItems caps)) eqn:Hh; [|done]. exfalso.
  apply dict_has_elem in Hh. unfold dict_keys in Hh.
  apply list_elem_of_fmap in Hh as ([k' v] & -> & Hin).
  unfold retroItems in Hin. apply list_elem_of_In, in_flat_map in Hin as ([c v'] & Hin & Hg).
  case_bool_decide as Hr; [|done]. destruct Hg as [[= <- <-]|[]].
  apply (Hk c Hr); [|done]. apply list_elem_of_fmap. exists (c, v'). split; [done|].
  by apply list_elem_of_In.
Qed.

Lemma retroCapabilities_get name caps caps' k :
  retroCapabilities name caps = Ok caps' →
  dict_get k caps' =
    match dict_get k (reverse (retroItems caps)) with
    | Some v => Some v
    | None => dict_get k caps
    end.
Proof.
  unfold retroCapabilities. intros H. apply bind_Ok in H as (r & Hr & [= <-]).
  apply retroFold_items in Hr as ->.
  rewrite dict_get_update.
  rewrite dict_get_reverse_NoDup by (apply dict_update_keys_NoDup, NoDup_nil_2).
  rewrite dict_get_update. by destruct (dict_get k (reverse (retroItems caps))).
Qed.

(** X19: what [__post_init__] does with a camelCase name.  The value given
    under [mountCwd], [mountRun] or [autoUpdate] becomes the value of
    [mount-cwd], [mount-run] or [auto-update], also when the hyphenated name
    was given with another value; every other name keeps its value, the
    camelCase names included. *)
Theorem retroCapabilities_values name caps caps' :
  retroCapabilities name caps = Ok caps' →
  NoDup (dict_keys caps) →
  (∀ cap value, cap ∈ retroNames → dict_get cap caps = Some value →
                dict_get (retroHyphen cap) caps' = Some value) ∧
  (∀ k, (∀ cap, cap ∈ retroNames → cap ∈ dict_keys caps → k ≠ retroHyphen cap) →
        dict_get k caps' = dict_get k caps).
Proof.
  intros H Hnd. split.
  - intros cap value Hr Hg. rewrite (retroCapabilities_get _ _ _ _ H).
    by rewrite (retroItems_get _ _ _ Hnd Hr Hg).
  - intros k Hk. rewrite (retroCapabilities_get _ _ _ _ H).
    by rewrite (retroItems_get_None _ _ Hk).
Qed.

Lemma retroCapabilities_values_witness :
  ∃ caps', retroCapabilities "shell" [("mount-cwd", false); ("mountCwd", true)] = Ok caps' ∧
           dict_get "mount-cwd" caps' = Some true ∧
           dict_get "mountCwd" caps' = Some true.
Proof.
  destruct (retroCapabilities "shell" [("mount-cwd", false); ("mountCwd", true)])
    as [caps'|x] eqn:Hr; [|vm_compute in Hr; discriminate Hr].
  exists caps'. split; [reflexivity|].
  destruct (retroCapabilities_values "shell" _ caps' Hr) as [H1 H2].
  { by apply (bool_decide_unpack _). }
  split.
  - apply (H1 "mountCwd" true); [by apply (bool_decide_unpack _)|reflexivity].
  - rewrite H2; [reflexivity|].
    intros cap Hc _. unfold retroNames in Hc. rewrite !elem_of_cons in Hc.
    destruct Hc as [->|[->|[->|Hc]]]; [done..|by apply elem_of_nil in Hc].
Defined.

(** * Merging along a chain *)

Section DictUpdate.
Context {K V : Type} `{EqDecision K}.
Implicit Types d p c : Dict K V.

Lemma dict_set_set k v v0 d : dict_set k v (dict_set k v0 d) = dict_set k v d.
Proof.
  induction d as [|[k0 v1] d IH]; simpl.
  - by rewrite decide_True.
  - destruct (decide (k = k0)) as [->|Hne]; simpl.
    + by rewrite decide_True.
    + rewrite decide_False by done. by rewrite IH.
Qed.

(** Assigning to a key that is there commutes with assigning to another. *)
Lemma dict_set_comm k v k' v' d :
  k ≠ k' → k ∈ dict_keys d →
  dict_set k v (dict_set k' v' d) = dict_set k' v' (dict_set k v d).
Proof.
  intros Hne. unfold dict_keys. induction d as [|[k0 v0] d IH]; simpl.
  - by intros ?%elem_of_nil.
  - intros Hin. apply elem_of_cons in Hin as [Hin|Hin]; simpl in Hin.
    + subst k0. rewrite (decide_False (P := k' = k)) by done.
      rewrite (decide_True (P := k = k)) by done. simpl.
      rewrite (decide_True (P := k = k)) by done.
      by rewrite (decide_False (P := k' = k)) by done.
    + destruct (decide (k' = k0)) as [->|Hk']; destruct (decide (k = k0)) as [->|Hk]; simpl;
        try done.
      * rewrite (decide_False (P := k = k0)) by done.
        by rewrite (decide_True (P := k0 = k0)) by done.
      * rewrite (decide_True (P := k0 = k0)) by done.
        by rewrite (decide_False (P := k' = k0)) by done.
      * rewrite (decide_False (P := k = k0)) by done.
        rewrite (decide_False (P := k' = k0)) by done. f_equal. by apply IH.
Qed.

Lemma dict_set_key_in k v d : k ∈ dict_keys (dict_set k v d).
Proof. apply dict_has_elem. rewrite dict_has_set. by rewrite bool_decide_true. Qed.

Lemma dict_set_key_kept k v k' d : k' ∈ dict_keys d → k' ∈ dict_keys (dict_set k v d).
Proof.
  intros Hin. apply dict_has_elem. rewrite dict_has_set.
  apply dict_has_elem in Hin. rewrite Hin. apply orb_true_r.
Qed.

Lemma dict_update_set_present k v d q :
  k ∉ dict_keys q → k ∈ dict_keys d →
  dict_set k v (dict_update d q) = dict_update (dict_set k v d) q.
Proof.
  unfold dict_update. revert d. induction q as [|[k0 v0] q IH]; intros d Hq Hd; simpl; [done|].
  unfold dict_keys in Hq. rewrite fmap_cons in Hq. apply not_elem_of_cons in Hq as [Hne Hq].
  simpl in Hne. rewrite IH; [|done|by apply dict_set_key_kept].
  f_equal. by apply dict_set_comm.
Qed.

(** Updating with a dictionary in which one value was assigned. *)
Lemma dict_update_set k v d q :
  NoDup (dict_keys q) →
  dict_update d (dict_set k v q) = dict_set k v (dict_update d q).
Proof.
  revert d. induction q as [|[k0 v0] q IH]; intros d Hnd; [done|].
  unfold dict_keys in Hnd. rewrite fmap_cons in Hnd. apply NoDup_cons in Hnd as [Hk0 Hnd].
  simpl. destruct (decide (k = k0)) as [->|Hne].
  - change (dict_update d ((k0, v) :: q)) with (dict_update (dict_set k0 v d) q).
    change (dict_update d ((k0, v0) :: q)) with (dict_update (dict_set k0 v0 d) q).
    rewrite dict_update_set_present; [|done|apply dict_set_key_in].
    by rewrite dict_set_set.
  - change (dict_update d ((k0, v0) :: dict_set k v q))
      with (dict_update (dict_set k0 v0 d) (dict_set k v q)).
    by rewrite IH.
Qed.

Lemma dict_update_snoc d c k v :
  dict_update d (c ++ [(k, v)]) = dict_set k v (dict_update d c).
Proof. unfold dict_update. by rewrite foldl_app. Qed.

Lemma dict_update_assoc d p c :
  NoDup (dict_keys p) →
  dict_update d (dict_update p c) = dict_update (dict_update d p) c.
Proof.
  intros Hnd. induction c as [|[k v] c IH] using rev_ind; [done|].
  rewrite !dict_update_snoc, dict_update_set by (by apply dict_update_keys_NoDup).
  by rewrite IH.
Qed.

End DictUpdate.

Lemma inheritStr_assoc a b c :
  Env.inheritStr (Env.inheritStr a b) c = Env.inheritStr a (Env.inheritStr b c).
Proof. unfold Env.inheritStr. by repeat case_decide. Qed.

Lemma inheritOpt_assoc {A} (a b c : option A) :
  Env.inheritOpt (Env.inheritOpt a b) c = Env.inheritOpt a (Env.inheritOpt b c).
Proof. by destruct a, b. Qed.

Lemma inheritOptStr_assoc a b c :
  Env.inheritOptStr (Env.inheritOptStr a b) c = Env.inheritOptStr a (Env.inheritOptStr b c).
Proof. by destruct a as [[|]|], b as [[|]|]. Qed.

Lemma inheritCommand_assoc a b c :
  Env.inheritCommand (Env.inheritCommand a b) c = Env.inheritCommand a (Env.inheritCommand b c).
Proof. by destruct a, b. Qed.

Lemma inheritList_assoc {A} (a b c : list A) :
  Env.inheritList (Env.inheritList a b) c = Env.inheritList a (Env.inheritList b c).
Proof. by rewrite !inheritList_app, app_assoc. Qed.

Lemma inheritDict_assoc {V} (a b c : Dict string V) :
  NoDup (dict_keys b) →
  (Env.inheritDict (Env.inheritDict a b).1 c).1 = (Env.inheritDict a (Env.inheritDict b c).1).1.
Proof. intros Hnd. rewrite !inheritDict_update. simpl. by apply dict_update_assoc. Qed.

(** X20: merging is associative.  An environment merged with its parent
    and then with the grandparent is the environment merged with the
    parent that was itself merged with the grandparent first, provided the
    keys of the dictionaries of the parent are distinct, as the keys of a
    Python dictionary are: the chain of ancestors can be folded from either
    end. *)
Theorem applyParent_assoc (child parent grandparent : Env) :
  NoDup (dict_keys (Env.environ parent)) →
  NoDup (dict_keys (Env.mounts parent)) →
  NoDup (dict_keys (Env.capabilities parent)) →
  (Env.applyParent (Env.applyParent child parent).1 grandparent).1 =
  (Env.applyParent child (Env.applyParent parent grandparent).1).1.
Proof.
  intros He Hm Hc. unfold Env.applyParent. cbn [fst Env.name Env.description Env.parent
    Env.desktop Env.image Env.rootfs Env.dns Env.imageCustomizations Env.imageTasks
    Env.packages Env.command Env.args Env.environ Env.syscaps Env.mounts Env.capabilities
    Env.network Env.requires Env.overlays Env.home Env.shmsize Env.ports Env.runtime
    Env.ctx Env.runDir Env.overlaysDir Env.manageImage Env.autoUpdate Env.mountCache
    Env.configFile].
  rewrite !inheritStr_assoc, !inheritOpt_assoc, inheritOptStr_assoc, inheritCommand_assoc,
    !inheritList_assoc.
  rewrite (inheritDict_assoc (Env.environ child)) by done.
  rewrite (inheritDict_assoc (Env.mounts child)) by done.
  rewrite (inheritDict_assoc (Env.capabilities child)) by done.
  reflexivity.
Qed.

(** The environment at the end of the chain of the examples. *)
Definition grandparent_env : Env :=
  Env.mk "root" (Some "root image") "" None "debian" "/srv/rootfs" "8.8.8.8" [] [] ["less"]
    ["/bin/sh"] [] [("TERM", "vt100"); ("PAGER", "less")] [] [("~/doc", "/srv/doc")]
    [("network", false); ("terminal", false)]
    "" [] [] "" "" [] None ExecContext.empty None None true false false
    (Some (path_of "/etc/podenv/config.yaml")).

Lemma applyParent_assoc_witness :
  (Env.applyParent (Env.applyParent child_env parent_env).1 grandparent_env).1 =
  (Env.applyParent child_env (Env.applyParent parent_env grandparent_env).1).1.
Proof.
  apply (applyParent_assoc child_env parent_env grandparent_env);
    by apply (bool_decide_unpack _).
Defined.

(** * The execution context of [context.py]

    The module [podenv.context] holds a second [ExecContext], with more
    fields, whose [getArgs] reads the context and changes nothing. *)

Module Context.

(** Container user information *)
Record User := mkUser {
  user_name : string;
  user_dir : Path;       (* [home] *)
  uid : Z
}.

(** A volume information *)
Record Volume := mkVolume {
  volume_name : string;  (* [name] *)
  readOnly : bool
}.

(** Minimal execution context to be used for image building *)
Record BuildContext := mkBuildContext {
  build_mounts : option (Dict Path Path)
}.

(** [Union[Path, Volume]] *)
Inductive HostMount :=
| HostPath (p : Path)
| HostVolume (v : Volume).

Record t := mk {
  name : string;
  imageName : string;
  volumes : option (Dict Path Volume);
  desktop : option DesktopEntry;
  commandArgs : list string;
  imageBuildCtx : option BuildContext;
  containerFile : option string;
  containerUpdate : option string;
  environ : Dict string string;
  mounts : Dict Path HostMount;
  syscaps : list string;
  sysctls : list string;
  devices : list Path;
  addHosts : Dict string string;
  hostPreTasks : list string;
  hostPostTasks : list string;
  podmanArgs : list string;
  home : option Path;
  xdgDir : Path;
  cwd : option Path;
  runDir : option Path;
  detachKeys : option string;
  seLinuxLabel : option string;
  seccomp : option string;
  shmsize : option string;
  namespaces : Dict string string;
  network : option string;
  dns : option string;
  hostname : option string;
  user : option User;
  interactive : bool;
  username : option string;
  privileged : bool;
  uidmaps : bool
}.

Definition set_environ v c := mk (name c) (imageName c) (volumes c) (desktop c) (commandArgs c) (imageBuildCtx c) (containerFile c) (containerUpdate c) v (mounts c) (syscaps c) (sysctls c) (devices c) (addHosts c) (hostPreTasks c) (hostPostTasks c) (podmanArgs c) (home c) (xdgDir c) (cwd c) (runDir c) (detachKeys c) (seLinuxLabel c) (seccomp c) (shmsize c) (namespaces c) (network c) (dns c) (hostname c) (user c) (interactive c) (username c) (privileged c) (uidmaps c).
Definition set_mounts v c := mk (name c) (imageName c) (volumes c) (desktop c) (commandArgs c) (imageBuildCtx c) (containerFile c) (containerUpdate c) (environ c) v (syscaps c) (sysctls c) (devices c) (addHosts c) (hostPreTasks c) (hostPostTasks c) (podmanArgs c) (home c) (xdgDir c) (cwd c) (runDir c) (detachKeys c) (seLinuxLabel c) (seccomp c) (shmsize c) (namespaces c) (network c) (dns c) (hostname c) (user c) (interactive c) (username c) (privileged c) (uidmaps c).
Definition set_addHosts v c := mk (name c) (imageName c) (volumes c) (desktop c) (commandArgs c) (imageBuildCtx c) (containerFile c) (containerUpdate c) (environ c) (mounts c) (syscaps c) (sysctls c) (devices c) v (hostPreTasks c) (hostPostTasks c) (podmanArgs c) (home c) (xdgDir c) (cwd c) (runDir c) (detachKeys c) (seLinuxLabel c) (seccomp c) (shmsize c) (namespaces c) (network c) (dns c) (hostname c) (user c) (interactive c) (username c) (privileged c) (uidmaps c).
Definition set_dns v c := mk (name c) (imageName c) (volumes c) (desktop c) (commandArgs c) (imageBuildCtx c) (containerFile c) (containerUpdate c) (environ c) (mounts c) (syscaps c) (sysctls c) (devices c) (addHosts c) (hostPreTasks c) (hostPostTasks c) (podmanArgs c) (home c) (xdgDir c) (cwd c) (runDir c) (detachKeys c) (seLinuxLabel c) (seccomp c) (shmsize c) (namespaces c) (network c) v (hostname c) (user c) (interactive c) (username c) (privileged c) (uidmaps c).

(** [if s:] for an optional string: the string when it is not empty. *)
Definition truthy (s : option string) : option string :=
  match s with
  | Some s => if Str.eqb s "" then None else Some s
  | None => None
  end.

Definition getUidMaps (_ : t) : ExecArgs :=
  ["--uidmap"; "1000:0:1"; "--uidmap"; "0:1:1000";
   "--uidmap"; "1001:1001:" +:+ Str.of_Z (2 ^ 16 - 1001)].

Definition hasNetwork (c : t) : bool :=
  match truthy (dict_get "network" (namespaces c)) with
  | None => true
  | Some v => negb (Str.eqb v "none")
  end.

Definition hasDirectNetwork (c : t) : bool :=
  match truthy (dict_get "network" (namespaces c)) with
  | None => true
  | Some v => Str.eqb v "host"
  end.

Definition getHosts (c : t) : ExecArgs :=
  flat_map (λ '(hostName, hostIp), ["--add-host"; hostName +:+ ":" +:+ hostIp]) (addHosts c).

(** The [-v] flag of one container path; the key comes from the
    dictionary itself. *)
Definition mountFlag (h : Host) (c : t) (mount : Path) : ExecArgs :=
  match dict_get mount (mounts c) with
  | Some hostMount =>
      let hostPath :=
        match hostMount with
        | HostPath p => path_str (expanduser_resolve h p)
        | HostVolume v => volume_name v
        end in
      ["-v"; hostPath +:+ ":" +:+ path_str mount]
  | None => []
  end.

(** [getArgs]: [so] and [sop] give the order in which the sets of strings
    and the set of device paths are iterated. *)
Definition getArgs (so : SetOrder) (sop : list Path → list Path) (h : Host) (c : t)
    : ExecArgs :=
  podmanArgs c ++
  (match truthy (hostname c) with Some n => ["--hostname"; n] | None => [] end) ++
  (match truthy (seLinuxLabel c) with
   | Some l => ["--security-opt"; "label=" +:+ l] | None => [] end) ++
  (match truthy (seccomp c) with
   | Some s => ["--security-opt"; "seccomp=" +:+ s] | None => [] end) ++
  flat_map (λ '(ns, val), ["--" +:+ ns; val]) (namespaces c) ++
  (if hasDirectNetwork c then getHosts c else []) ++
  (match cwd c with Some d => ["--workdir"; path_str d] | None => [] end) ++
  (match truthy (dns c) with
   | Some d => if hasDirectNetwork c then ["--dns=" +:+ d] else []
   | None => [] end) ++
  flat_map (mountFlag h c) (sorted path_compare (dict_keys (mounts c))) ++
  flat_map (λ device, ["--device"; path_str device]) (sop (devices c)) ++
  flat_map (λ cap, ["--cap-add"; cap]) (so (syscaps c)) ++
  flat_map (λ ctl, ["--sysctl"; ctl]) (so (sysctls c)) ++
  flat_map (λ ev : string * string, ["-e"; ev.1 +:+ "=" +:+ ev.2])
    (sorted (pair_compare String.compare String.compare) (environ c)) ++
  (match truthy (username c) with Some u => ["--user"; u] | None => [] end) ++
  (if uidmaps c then getUidMaps c else []) ++
  (if privileged c then ["--privileged"] else []) ++
  (match detachKeys c with Some k => ["--detach-keys"; k] | None => [] end) ++
  (if interactive c then ["-it"] else []) ++
  (match truthy (shmsize c) with Some s => ["--shm-size=" +:+ s] | None => [] end).

(** A context with the required fields and every other field at its
    default. *)
Definition new (n image : string) (command : list string) : t :=
  mk n image None None command None None None [] [] [] [] [] [] [] [] [] None path_empty
     None None None None None None [] None None None None false None false false.

End Context.

Example Context_getArgs_ex :
  Context.getArgs remove_dups (λ l, l) desktop_host
    (Context.set_dns (Some "1.1.1.1")
       (Context.set_mounts
          [(path_of "/x", Context.HostVolume (Context.mkVolume "cache" true));
           (path_of "/a", Context.HostPath (path_of "/srv/a"))]
          (Context.set_environ [("Z", "1"); ("A", "2")]
             (Context.new "shell" "fedora" ["bash"])))) =
  ["--dns=1.1.1.1"; "-v"; "/srv/a:/a"; "-v"; "cache:/x"; "-e"; "A=2"; "-e"; "Z=1"].
Proof. reflexivity. Qed.

(** X21: in the arguments of [getArgs] of [podenv.context] the [-v] flags
    come in the order of the container paths and the [-e] flags in the
    order of the variables, so that the arguments do not depend on the
    order in which the mounts and the variables were inserted. *)
Theorem Context_getArgs_insertion_order so sop h c mounts2 environ2 :
  NoDup (dict_keys (Context.mounts c)) →
  Permutation (Context.mounts c) mounts2 →
  Permutation (Context.environ c) environ2 →
  Context.getArgs so sop h (Context.set_environ environ2 (Context.set_mounts mounts2 c)) =
  Context.getArgs so sop h c.
Proof.
  intros Hnd Hm He. unfold Context.getArgs.
  cbn [Context.set_environ Context.set_mounts Context.podmanArgs Context.hostname
       Context.seLinuxLabel Context.seccomp Context.namespaces Context.cwd Context.dns
       Context.mounts Context.devices Context.syscaps Context.sysctls Context.environ
       Context.username Context.uidmaps Context.privileged Context.detachKeys
       Context.interactive Context.shmsize].
  assert (Hk : Permutation (dict_keys (Context.mounts c)) (dict_keys mounts2)).
  { unfold dict_keys. by rewrite Hm. }
  rewrite <- (sorted_order_independent path_compare _ _ Hk).
  rewrite <- (sorted_order_independent (pair_compare String.compare String.compare) _ _ He).
  rewrite (flat_map_ext_Forall
             (Context.mountFlag h (Context.set_environ environ2 (Context.set_mounts mounts2 c)))
             (Context.mountFlag h c)).
  - reflexivity.
  - apply Forall_forall. intros k _. unfold Context.mountFlag. simpl.
    by rewrite <- (dict_get_perm k _ _ Hnd Hm).
Qed.

Lemma Context_getArgs_insertion_order_witness :
  Context.getArgs remove_dups (λ l, l) desktop_host
    (Context.set_environ [("A", "2"); ("Z", "1")]
       (Context.set_mounts
          [(path_of "/a", Context.HostPath (path_of "/srv/a"));
           (path_of "/x", Context.HostVolume (Context.mkVolume "cache" true))]
          (Context.set_mounts
             [(path_of "/x", Context.HostVolume (Context.mkVolume "cache" true));
              (path_of "/a", Context.HostPath (path_of "/srv/a"))]
             (Context.set_environ [("Z", "1"); ("A", "2")]
                (Context.new "shell" "fedora" ["bash"]))))) =
  Context.getArgs remove_dups (λ l, l) desktop_host
    (Context.set_mounts
       [(path_of "/x", Context.HostVolume (Context.mkVolume "cache" true));
        (path_of "/a", Context.HostPath (path_of "/srv/a"))]
       (Context.set_environ [("Z", "1"); ("A", "2")]
          (Context.new "shell" "fedora" ["bash"]))).
Proof.
  apply (Context_getArgs_insertion_order remove_dups (λ l, l) desktop_host
           (Context.set_mounts
              [(path_of "/x", Context.HostVolume (Context.mkVolume "cache" true));
               (path_of "/a", Context.HostPath (path_of "/srv/a"))]
              (Context.set_environ [("Z", "1"); ("A", "2")]
                 (Context.new "shell" "fedora" ["bash"])))).
  - by apply (bool_decide_unpack _).
  - apply perm_swap.
  - apply perm_swap.
Defined.

(** The fields of a context that [getArgs] reads, dns and hosts apart. *)
Definition same_but_hosts (c c' : Context.t) : Prop :=
  Context.set_dns None (Context.set_addHosts [] c') =
  Context.set_dns None (Context.set_addHosts [] c).

(** X22: a container that does not reach the network directly (its
    [network] namespace is set and is not [host]) gets neither [--add-host]
    nor [--dns]: the arguments of [getArgs] of [podenv.context] are those of
    any context that differs in the declared hosts and DNS server only. *)
Theorem Context_getArgs_no_direct_network so sop h c c' :
  Context.hasDirectNetwork c = false →
  same_but_hosts c c' →
  Context.getArgs so sop h c' = Context.getArgs so sop h c.
Proof.
  intros Hd Hs. unfold same_but_hosts in Hs.
  assert (Hd' : Context.hasDirectNetwork c' = false).
  { unfold Context.hasDirectNetwork in *.
    by rewrite (f_equal Context.namespaces Hs : Context.namespaces c' = Context.namespaces c). }
  assert (Hf : ∀ c0, Context.hasDirectNetwork c0 = false →
            Context.getArgs so sop h c0 =
            Context.getArgs so sop h (Context.set_dns None (Context.set_addHosts [] c0))).
  { intros c0 H0. unfold Context.getArgs, Context.mountFlag.
    assert (H0' : Context.hasDirectNetwork (Context.set_dns None (Context.set_addHosts [] c0))
                  = false) by exact H0.
    rewrite H0, H0'. simpl. by destruct (Context.truthy (Context.dns c0)). }
  by rewrite (Hf c Hd), (Hf c' Hd'), Hs.
Qed.

Lemma Context_getArgs_no_direct_network_witness :
  Context.getArgs remove_dups (λ l, l) desktop_host
    (Context.mk "web" "fedora" None None [] None None None [] [] [] [] []
       [("db", "10.0.0.2")] [] [] [] None path_empty None None None None None None
       [("network", "container:net-vpn")] None (Some "1.1.1.1") None None false None
       false false) =
  Context.getArgs remove_dups (λ l, l) desktop_host
    (Context.mk "web" "fedora" None None [] None None None [] [] [] [] []
       [] [] [] [] None path_empty None None None None None None
       [("network", "container:net-vpn")] None None None None false None
       false false).
Proof.
  apply Context_getArgs_no_direct_network; reflexivity.
Defined.

(** * Volumes *)

(** The same mount, with a volume made writable. *)
Definition writable (m : Context.HostMount) : Context.HostMount :=
  match m with
  | Context.HostPath p => Context.HostPath p
  | Context.HostVolume v => Context.HostVolume (Context.mkVolume (Context.volume_name v) false)
  end.

Lemma dict_get_map_values {K V W} `{EqDecision K} (f : V → W) (k : K) (d : Dict K V) :
  dict_get k (map (λ kv, (kv.1, f kv.2)) d) = f <$> dict_get k d.
Proof.
  induction d as [|[k0 v0] d IH]; simpl; [done|]. by destruct (decide (k = k0)).
Qed.

(** X23: [getArgs] of [podenv.context] never reads the [readOnly] flag of
    a volume: a read-only volume is rendered as [-v NAME:PATH], exactly as
    a writable one. *)
Theorem Context_getArgs_readOnly_ignored so sop h c :
  Context.getArgs so sop h
    (Context.set_mounts (map (λ kv, (kv.1, writable kv.2)) (Context.mounts c)) c) =
  Context.getArgs so sop h c.
Proof.
  unfold Context.getArgs.
  cbn [Context.set_mounts Context.podmanArgs Context.hostname
       Context.seLinuxLabel Context.seccomp Context.namespaces Context.cwd Context.dns
       Context.mounts Context.devices Context.syscaps Context.sysctls Context.environ
       Context.username Context.uidmaps Context.privileged Context.detachKeys
       Context.interactive Context.shmsize].
  assert (Hk : dict_keys (map (λ kv, (kv.1, writable kv.2)) (Context.mounts c)) =
               dict_keys (Context.mounts c)).
  { unfold dict_keys. rewrite <- list_fmap_compose. by apply list_fmap_ext. }
  rewrite Hk.
  rewrite (flat_map_ext_Forall
             (Context.mountFlag h (Context.set_mounts
                                     (map (λ kv, (kv.1, writable kv.2)) (Context.mounts c)) c))
             (Context.mountFlag h c)).
  - reflexivity.
  - apply Forall_forall. intros k _. unfold Context.mountFlag. simpl.
    rewrite dict_get_map_values.
    by destruct (dict_get k (Context.mounts c)) as [[p|v]|].
Qed.

(** * The validator: the forced uid map and the inspection of the mounts *)

(** The first capability, in the order of the check, that needs the files
    of the user of the host. *)
Definition uid_reason (e : Env) : option string :=
  List.find (λ cap, Env.cap cap e) ["x11"; "pulseaudio"; "ssh"; "gpg"].

Lemma checkUid_spec h e :
  checkUid h e =
    Ok (if uid_quiet e then (e, [])
        else (force_uidmap e, [WUidMap (default "" (uid_reason e))])).
Proof.
  unfold checkUid, uid_quiet, uid_reason, force_uidmap, call, uidmapCap.
  destruct (Env.cap "root" e), (Env.cap "uidmap" e); simpl; try done.
  destruct (Env.cap "x11" e); simpl; [done|].
  destruct (Env.cap "pulseaudio" e); simpl; [done|].
  destruct (Env.cap "ssh" e); simpl; [done|].
  by destruct (Env.cap "gpg" e).
Qed.

Lemma uid_reason_some e : uid_quiet e = false → ∃ cap, uid_reason e = Some cap.
Proof.
  unfold uid_quiet, uid_reason. cbn [List.find].
  destruct (Env.cap "root" e), (Env.cap "uidmap" e); simpl; try done.
  destruct (Env.cap "x11" e); [eauto|]. destruct (Env.cap "pulseaudio" e); [eauto|].
  destruct (Env.cap "ssh" e); [eauto|]. destruct (Env.cap "gpg" e); [eauto|done].
Qed.

(** X24: the uid map forced by the validator.  When neither [root] nor
    [uidmap] is on and one of [x11], [pulseaudio], [ssh] or [gpg] is, a
    successful validation appends the three [--uidmap] arguments to the
    runtime arguments and warns once, naming the first of these
    capabilities; otherwise it leaves the runtime arguments alone.  The
    [uidmap] capability itself is never switched on. *)
Theorem validateEnv_uidmap h e e' ws :
  validateEnv h e = Ok (e', ws) →
  ExecContext.execArgs (Env.ctx e') =
    ExecContext.execArgs (Env.ctx e) ++ (if uid_quiet e then [] else getUidMap e) ∧
  Env.cap "uidmap" e' = Env.cap "uidmap" e ∧
  (∀ cap, WUidMap cap ∈ ws ↔ uid_quiet e = false ∧ uid_reason e = Some cap).
Proof.
  intros (a & b & c0 & d & f & w1 & w2 & w3 & w4 & w6 & w7 &
          H1 & H2 & H3 & H4 & H6 & H7 & ->)%validateEnv_steps.
  destruct (checkSockets_post _ _ _ _ H1) as [_ K1].
  pose proof (checkUid_post _ _ _ _ H2) as K2.
  destruct (checkSyscaps_post _ _ _ H3) as [_ K3].
  destruct (checkLabels_post _ _ _ _ H4) as [K4 I4].
  destruct (checkHome_post _ _ _ _ H6) as (K6 & _).
  destruct (checkImage_post _ _ _ _ H7) as [_ K7].
  pose proof (kept_trans _ _ _ _ _ _ _ _ _ _ _ _ _ _ _ _ _ K3 K4) as K34.
  pose proof (kept_trans _ _ _ _ _ _ _ _ _ _ _ _ _ _ _ _ _ K6 K7) as K67.
  pose proof (kept_trans _ _ _ _ _ _ _ _ _ _ _ _ _ _ _ _ _ K34 K67) as K37.
  pose proof (kept_trans _ _ _ _ _ _ _ _ _ _ _ _ _ _ _ _ _ K2 K37) as K27.
  assert (Hq : uid_quiet a = uid_quiet e)
    by (apply uid_quiet_ext, (kept_others _ _ _ _ _ _ _ _ _ K1 eq_refl)).
  assert (Hr : uid_reason a = uid_reason e).
  { unfold uid_reason. cbn [List.find].
    by rewrite !(kept_others _ _ _ _ _ _ _ _ _ K1 eq_refl). }
  rewrite checkUid_spec, Hq, Hr in H2.
  split; [|split].
  - rewrite (kept_execArgs _ _ _ _ _ _ _ _ _ K37 eq_refl).
    destruct (uid_quiet e); injection H2 as <- _.
    + rewrite app_nil_r. apply (kept_execArgs _ _ _ _ _ _ _ _ _ K1 eq_refl).
    + cbn [force_uidmap Env.ctx Env.set_ctx ExecContext.execArgs ExecContext.args
             ExecContext.set_execArgs].
      by rewrite (kept_execArgs _ _ _ _ _ _ _ _ _ K1 eq_refl).
  - rewrite (kept_others _ _ _ _ _ _ _ _ _ K27 eq_refl) by done.
    apply (kept_others _ _ _ _ _ _ _ _ _ K1 eq_refl). done.
  - intros cap. rewrite !elem_of_app. split.
    + intros [Hw|[Hw|[Hw|[Hw|[Hw|[Hw|Hw]]]]]].
      * rewrite checkSockets_spec in H1. injection H1 as _ <-.
        by destruct (socket_warnings_kind _ _ Hw).
      * destruct (uid_quiet e) eqn:Hqe; injection H2 as _ <-; [by apply elem_of_nil in Hw|].
        apply list_elem_of_singleton in Hw as [= ->]. split; [done|].
        destruct (uid_reason_some e Hqe) as [cap' ->]. done.
      * rewrite checkSyscaps_spec in H3. destruct (syscaps_quiet b); injection H3 as _ <-.
        -- by apply elem_of_nil in Hw.
        -- by apply list_elem_of_singleton in Hw.
      * by destruct (inspection_elem _ _ I4 Hw).
      * by destruct (inspection_elem _ _ (checkReadable_inspection h d) Hw).
      * by pose proof (checkHome_kind _ _ _ _ _ H6 Hw).
      * by destruct (checkImage_kind _ _ _ _ _ H7 Hw).
    + intros [Hf Hc]. right. left. rewrite Hf in H2. injection H2 as _ <-.
      rewrite Hc. by apply list_elem_of_singleton.
Qed.

Lemma validateEnv_uidmap_witness :
  ∃ e' ws, validateEnv desktop_host x11_env = Ok (e', ws) ∧
           ExecContext.execArgs (Env.ctx e') = getUidMap x11_env ∧
           Env.cap "uidmap" e' = false ∧ WUidMap "x11" ∈ ws.
Proof.
  destruct (validateEnv desktop_host x11_env) as [[e' ws]|x] eqn:Hv;
    [|vm_compute in Hv; discriminate Hv].
  exists e', ws. split; [reflexivity|].
  destruct (validateEnv_uidmap desktop_host x11_env e' ws Hv) as (H1 & H2 & H3).
  split; [exact H1|]. split; [exact H2|]. apply H3. split; reflexivity.
Defined.

(** A mounted host path that exists and cannot be read. *)
Definition unreadable (h : Host) (e : Env) (p : Path) : Prop :=
  ∃ hostPath, hostPath ∈ dict_values (ExecContext.mounts (Env.ctx e)) ∧
    p = expanduser_resolve h hostPath ∧
    path_exists h p = true ∧ access_R_OK h (path_str p) = false.

(** A mounted host path that exists and whose security context has a type
    other than [container_file_t]. *)
Definition mislabelled (h : Host) (e : Env) (p : Path) : Prop :=
  ∃ hostPath type, hostPath ∈ dict_values (ExecContext.mounts (Env.ctx e)) ∧
    p = expanduser_resolve h hostPath ∧
    path_exists h p = true ∧
    Str.split ":" (getfilecon h (path_str p)) !! 2%nat = Some type ∧ type ≠ label.

Lemma labelWarning_elem h l ws0 ws' :
  foldM (labelWarning h) ws0 l = Ok ws' →
  ∀ w, w ∈ ws' ↔
       w ∈ ws0 ∨
       ∃ hostPath type, hostPath ∈ l ∧ w = WLabel (expanduser_resolve h hostPath) ∧
         path_exists h (expanduser_resolve h hostPath) = true ∧
         Str.split ":" (getfilecon h (path_str (expanduser_resolve h hostPath))) !! 2%nat
           = Some type ∧ type ≠ label.
Proof.
  revert ws0. induction l as [|p l IH]; intros ws0 H w; cbn [foldM] in H.
  - injection H as <-. split; [by left|]. intros [?|(? & ? & ?%elem_of_nil & _)]; done.
  - apply bind_Ok in H as (ws1 & H1 & H). rewrite (IH _ H w). clear IH H.
    unfold labelWarning in H1. cbv zeta in H1.
    destruct (path_exists h (expanduser_resolve h p)) eqn:Hex.
    2: { injection H1 as <-. split.
         - intros [?|(hp & ty & Hin & ?)]; [by left|]. right. exists hp, ty.
           split; [by apply list_elem_of_further|done].
         - intros [?|(hp & ty & Hin & Hw & Hex' & ?)]; [by left|]. right.
           apply elem_of_cons in Hin as [->|Hin]; [congruence|]. by exists hp, ty. }
    destruct (Str.split ":" (getfilecon h (path_str (expanduser_resolve h p))) !! 2%nat)
      as [type|] eqn:Hty; [|done].
    destruct (Str.eqb type label) eqn:Hl; simpl in H1; injection H1 as <-.
    + apply bool_decide_eq_true in Hl. split.
      * intros [?|(hp & ty & Hin & ?)]; [by left|]. right. exists hp, ty.
        split; [by apply list_elem_of_further|done].
      * intros [?|(hp & ty & Hin & Hw & Hex' & Hty' & Hne)]; [by left|]. right.
        apply elem_of_cons in Hin as [->|Hin]; [congruence|]. by exists hp, ty.
    + apply bool_decide_eq_false in Hl. rewrite elem_of_app, list_elem_of_singleton. split.
      * intros [[? | ->]|(hp & ty & Hin & ?)]; [by left| |].
        -- right. exists p, type. split; [apply list_elem_of_here|done].
        -- right. exists hp, ty. split; [by apply list_elem_of_further|done].
      * intros [?|(hp & ty & Hin & Hw & Hex' & Hty' & Hne)]; [by left; left|].
        apply elem_of_cons in Hin as [->|Hin]; [by left; right|]. right. by exists hp, ty.
Qed.

Lemma checkReadable_elem h e w :
  w ∈ checkReadable h e ↔ ∃ p, w = WUnreadable p ∧ unreadable h e p.
Proof.
  unfold checkReadable, unreadable.
  induction (dict_values (ExecContext.mounts (Env.ctx e))) as [|hp l IH]; cbn [flat_map].
  - split; [by intros ?%elem_of_nil|]. by intros (? & _ & ? & ?%elem_of_nil & _).
  - rewrite elem_of_app, IH. clear IH. cbv zeta. split.
    + intros [Hw|(p & -> & hp' & Hin & ?)].
      * destruct (path_exists h (expanduser_resolve h hp)) eqn:Hex; simpl in Hw;
          [|by apply elem_of_nil in Hw].
        destruct (access_R_OK h (path_str (expanduser_resolve h hp))) eqn:Hr; simpl in Hw;
          [by apply elem_of_nil in Hw|].
        apply list_elem_of_singleton in Hw as ->. eexists. split; [done|].
        exists hp. split; [apply list_elem_of_here|done].
      * exists p. split; [done|]. exists hp'. split; [by apply list_elem_of_further|done].
    + intros (p & -> & hp' & Hin & -> & Hex & Hr).
      apply elem_of_cons in Hin as [->|Hin].
      * left. rewrite Hex, Hr. simpl. by apply list_elem_of_singleton.
      * right. eexists. split; [done|]. by exists hp'.
Qed.

(** X25: the warnings about the mounted host paths.  A successful
    validation warns that a path is not readable exactly for the mounted
    host paths that exist and that the user cannot read; it warns about the
    label of a path exactly when the label check runs (SELinux requested,
    no capability that needs a socket, the selinux module present) for the
    mounted host paths that exist and whose security context has another
    type than [container_file_t], and such a warning comes with the label
    of the container disabled.  The paths are those mounted before the
    validation. *)
Theorem validateEnv_inspections h e e' ws :
  validateEnv h e = Ok (e', ws) →
  (∀ p, WUnreadable p ∈ ws ↔ unreadable h e p) ∧
  (∀ p, WLabel p ∈ ws ↔
        (Env.cap "selinux" e && socket_quiet e && HAS_SELINUX h = true) ∧ mislabelled h e p) ∧
  (∀ p, WLabel p ∈ ws → ExecContext.seLinuxLabel (Env.ctx e') = "disable").
Proof.
  intros (a & b & c0 & d & f & w1 & w2 & w3 & w4 & w6 & w7 &
          H1 & H2 & H3 & H4 & H6 & H7 & ->)%validateEnv_steps.
  destruct (checkSockets_post _ _ _ _ H1) as [_ K1].
  pose proof (checkUid_post _ _ _ _ H2) as K2.
  destruct (checkSyscaps_post _ _ _ H3) as [_ K3].
  destruct (checkLabels_post _ _ _ _ H4) as [K4 I4].
  destruct (checkHome_post _ _ _ _ H6) as (K6 & _).
  destruct (checkImage_post _ _ _ _ H7) as [_ K7].
  pose proof (kept_trans _ _ _ _ _ _ _ _ _ _ _ _ _ _ _ _ _ K2 K3) as K23.
  pose proof (kept_trans _ _ _ _ _ _ _ _ _ _ _ _ _ _ _ _ _ K1 K23) as K13.
  pose proof (kept_trans _ _ _ _ _ _ _ _ _ _ _ _ _ _ _ _ _ K13 K4) as K14.
  pose proof (kept_trans _ _ _ _ _ _ _ _ _ _ _ _ _ _ _ _ _ K6 K7) as K67.
  pose proof (kept_mounts _ _ _ _ _ _ _ _ _ K13 eq_refl) as Mc.
  pose proof (kept_mounts _ _ _ _ _ _ _ _ _ K14 eq_refl) as Md.
  assert (Hsel : Env.cap "selinux" c0 = Env.cap "selinux" e && socket_quiet e).
  { rewrite (kept_caps_others _ _ _ _ _ _ _ _ K23).
    rewrite checkSockets_spec in H1. injection H1 as <- _.
    destruct (socket_quiet e) eqn:Hq; [by rewrite andb_true_r|].
    by rewrite cap_selinux_socket_fix, andb_false_r. }
  (* the warnings of the other checks *)
  assert (Hother : ∀ w, inspection w →
            (w ∈ w1 ++ w2 ++ w3 ++ w4 ++ checkReadable h d ++ w6 ++ w7 ↔
             w ∈ w4 ∨ w ∈ checkReadable h d)).
  { intros w Hw. rewrite !elem_of_app. split; [|tauto].
    intros [Hi|[Hi|[Hi|[Hi|[Hi|[Hi|Hi]]]]]]; [| | |tauto|tauto| |].
    - rewrite checkSockets_spec in H1. injection H1 as _ <-.
      by destruct (socket_warnings_kind _ _ Hi) as [? ->].
    - by destruct (checkUid_kind _ _ _ _ _ H2 Hi) as [? ->].
    - rewrite checkSyscaps_spec in H3. destruct (syscaps_quiet b); injection H3 as _ <-.
      + by apply elem_of_nil in Hi.
      + by apply list_elem_of_singleton in Hi as ->.
    - by pose proof (checkHome_kind _ _ _ _ _ H6 Hi) as ->.
    - by destruct (checkImage_kind _ _ _ _ _ H7 Hi) as [-> | ->]. }
  assert (Hread : ∀ w, w ∈ checkReadable h d ↔ ∃ p, w = WUnreadable p ∧ unreadable h e p).
  { intros w. rewrite checkReadable_elem. unfold unreadable. by rewrite Md. }
  rewrite checkLabels_spec, Hsel, Mc in H4.
  assert (Hlab : ∀ w, w ∈ w4 ↔
            (Env.cap "selinux" e && socket_quiet e && HAS_SELINUX h = true) ∧
            ∃ p, w = WLabel p ∧ mislabelled h e p).
  { intros w. destruct (Env.cap "selinux" e && socket_quiet e && HAS_SELINUX h).
    - apply bind_Ok in H4 as (ws' & Hf & [= _ <-]).
      rewrite (labelWarning_elem _ _ _ _ Hf w). unfold mislabelled. split.
      + intros [?%elem_of_nil|(hp & ty & Hin & -> & ?)]; [done|]. split; [done|].
        eexists. split; [done|]. by exists hp, ty.
      + intros (_ & p & -> & hp & ty & Hin & -> & ?). right. by exists hp, ty.
    - injection H4 as _ <-. split; [by intros ?%elem_of_nil|]. by intros [? _]. }
  split; [|split].
  - intros p. rewrite (Hother (WUnreadable p) I), Hlab, Hread. split.
    + intros [(_ & ? & ? & _)|(? & [= <-] & ?)]; done.
    + intros Hu. right. by exists p.
  - intros p. rewrite (Hother (WLabel p) I), Hlab, Hread. split.
    + intros [(? & ? & [= <-] & ?)|(? & ? & _)]; done.
    + intros [Hc Hm]. left. split; [done|]. by exists p.
  - intros p. rewrite (Hother (WLabel p) I), Hlab, Hread.
    intros [(Hc & Hm)|(? & ? & _)]; [|done].
    rewrite (kept_label _ _ _ _ _ _ _ _ _ K67 eq_refl).
    assert (Hin : WLabel p ∈ w4) by (apply Hlab; split; [done|exact Hm]).
    rewrite Hc in H4. apply bind_Ok in H4 as (ws' & _ & [= <- <-]).
    by destruct ws'; [apply elem_of_nil in Hin|].
Qed.

(** A host on which nothing carries the label of container files. *)
Definition unlabelled_host : Host := {|
  os_environ := os_environ desktop_host;
  expanduser_resolve := expanduser_resolve desktop_host;
  resolve_strict := resolve_strict desktop_host;
  path_exists := path_exists desktop_host;
  path_is_file := path_is_file desktop_host;
  read_text := read_text desktop_host;
  listdir_dev := listdir_dev desktop_host;
  access_R_OK := λ _, false;
  HAS_SELINUX := true;
  getfilecon := λ _, "unconfined_u:object_r:user_home_t:s0";
  str_format := str_format desktop_host
|}.

(** An environment with SELinux and a mounted directory. *)
Definition labelled_env : Env :=
  Env.set_ctx (ExecContext.mount (path_of "/data") (path_of "/home/me/data") ExecContext.empty)
    (Env.set_capabilities [("selinux", true)] fresh_env).

Lemma validateEnv_inspections_witness :
  ∃ e' ws, validateEnv unlabelled_host labelled_env = Ok (e', ws) ∧
           WUnreadable (path_of "/home/me/data") ∈ ws ∧
           WLabel (path_of "/home/me/data") ∈ ws ∧
           ExecContext.seLinuxLabel (Env.ctx e') = "disable".
Proof.
  destruct (validateEnv unlabelled_host labelled_env) as [[e' ws]|x] eqn:Hv;
    [|vm_compute in Hv; discriminate Hv].
  exists e', ws. split; [reflexivity|].
  destruct (validateEnv_inspections unlabelled_host labelled_env e' ws Hv) as (H1 & H2 & H3).
  assert (Hl : WLabel (path_of "/home/me/data") ∈ ws).
  { apply H2. split; [reflexivity|].
    exists (path_of "/home/me/data"), "user_home_t".
    split; [by apply (bool_decide_unpack _)|]. split; [reflexivity|].
    split; [reflexivity|]. split; [reflexivity|discriminate]. }
  split; [|split; [exact Hl|exact (H3 _ Hl)]].
  apply H1. exists (path_of "/home/me/data").
  split; [by apply (bool_decide_unpack _)|]. split; [reflexivity|]. split; reflexivity.
Defined.

(** * The runtime arguments of the capabilities *)

(** The [--device] arguments of the video devices of the host. *)
Definition webcamArgs (h : Host) : ExecArgs :=
  flat_map (λ device, ["--device"; path_str (path_of "/dev" // device)])
    (filter (λ x, Str.startswith "video" x = true) (listdir_dev h)).

(** What each entry of the catalogue appends to [ctx.execArgs], by the
    name of the entry and the value of the capability. *)
Definition capabilityArgs (h : Host) (env : Env) (name : string) (active : bool) : ExecArgs :=
  default []
    (dict_get name
       [("root", if active then [] else ["--user"; "1000"]);
        ("privileged", if active then ["--privileged"] else []);
        ("terminal", if active then ["-it"; "--detach-keys"; "ctrl-e,e"] else []);
        ("ipc", if active then ["--ipc=host"] else []);
        ("webcam", if active then webcamArgs h else []);
        ("dri", if active then ["--device"; "/dev/dri"] else []);
        ("kvm", if active then ["--device"; "/dev/kvm"] else []);
        ("tun", if active then ["--device"; "/dev/net/tun"] else []);
        ("uidmap", if active then getUidMap env else [])]).

Definition appends_args (h : Host) (name : string) (c : Capability) : Prop :=
  ∀ active ctx env ctx' env',
    c h active ctx env = Ok (ctx', env') →
    ExecContext.execArgs ctx' = ExecContext.execArgs ctx ++ capabilityArgs h env name active.

Lemma webcam_fold_args devices ctx :
  ExecContext.execArgs
    (foldl (λ ctx device,
              ExecContext.args ["--device"; path_str (path_of "/dev" // device)] ctx)
       ctx devices) =
  ExecContext.execArgs ctx ++
  flat_map (λ device, ["--device"; path_str (path_of "/dev" // device)]) devices.
Proof.
  revert ctx. induction devices as [|d devices IH]; intros ctx; cbn [foldl flat_map].
  - by rewrite app_nil_r.
  - rewrite IH. cbn [ExecContext.args ExecContext.execArgs ExecContext.set_execArgs].
    by rewrite <- app_assoc.
Qed.

Lemma Capabilities_append_args h :
  Forall (λ nc, appends_args h nc.1 nc.2) Capabilities.
Proof.
  unfold Capabilities, entry.
  repeat apply Forall_cons_2; try apply Forall_nil_2; cbn [fst snd];
    intros active ctx env ctx' env' H; unfold_caps;
    repeat case_match; inv_bind; simplify_eq;
    try (by rewrite ?app_nil_r);
    try (by cbn; rewrite ?app_nil_r; rewrite <- ?app_assoc).
  - by rewrite (om_execArgs _ _ (gitLines_only_mounts _ _ _ _ Hr)), app_nil_r.
  - apply webcam_fold_args.
Qed.

Lemma runCaps_execArgs h caps env0 :
  Forall (λ nc, keeps_env nc.2 ∧ appends_args h nc.1 nc.2) caps →
  ∀ env env', (∀ c, Env.cap c env = Env.cap c env0) →
    runCaps h caps env = Ok env' →
    ExecContext.execArgs (Env.ctx env') =
      ExecContext.execArgs (Env.ctx env) ++
      flat_map (λ nc, capabilityArgs h env0 nc.1 (Env.cap nc.1 env0)) caps.
Proof.
  unfold runCaps. induction 1 as [|[n c] caps [Hk Ha] _ IH]; intros env env' Hcaps H;
    cbn [foldM flat_map] in *.
  - injection H as <-. by rewrite app_nil_r.
  - apply bind_Ok in H as (env1 & H1 & H).
    unfold call in H1. apply bind_Ok in H1 as ([ctx1 e1] & H1 & [= <-]).
    destruct (Hk _ _ _ _ _ _ H1) as (_ & Hc & _).
    assert (Hcaps1 : ∀ c', Env.cap c' (Env.set_ctx ctx1 e1) = Env.cap c' env0).
    { intros c'. rewrite <- Hcaps. unfold Env.cap. simpl. by rewrite Hc. }
    rewrite (IH _ _ Hcaps1 H).
    cbn [Env.ctx Env.set_ctx fst snd]. rewrite (Ha _ _ _ _ _ H1), Hcaps.
    by rewrite <- app_assoc.
Qed.

(** The arguments of the catalogue as a whole, in its order. *)
Definition capabilitiesArgs (h : Host) (env : Env) : ExecArgs :=
  (if Env.cap "root" env then [] else ["--user"; "1000"]) ++
  (if Env.cap "privileged" env then ["--privileged"] else []) ++
  (if Env.cap "terminal" env then ["-it"; "--detach-keys"; "ctrl-e,e"] else []) ++
  (if Env.cap "ipc" env then ["--ipc=host"] else []) ++
  (if Env.cap "webcam" env then webcamArgs h else []) ++
  (if Env.cap "dri" env then ["--device"; "/dev/dri"] else []) ++
  (if Env.cap "kvm" env then ["--device"; "/dev/kvm"] else []) ++
  (if Env.cap "tun" env then ["--device"; "/dev/net/tun"] else []) ++
  (if Env.cap "uidmap" env then getUidMap env else []).

Lemma applyCapabilities_execArgs h env env' :
  applyCapabilities h env = Ok env' →
  ExecContext.execArgs (Env.ctx env') =
    ExecContext.execArgs (Env.ctx env) ++ capabilitiesArgs h env.
Proof.
  intros H.
  rewrite (runCaps_execArgs h Capabilities env
             ltac:(apply Forall_and; split;
                   [apply Capabilities_keep_env|apply Capabilities_append_args])
             env env' (λ _, eq_refl) H).
  f_equal. unfold capabilitiesArgs, Capabilities, entry. cbn [flat_map fst snd].
  unfold capabilityArgs. simpl.
  by rewrite !app_nil_r.
Qed.

Lemma validateEnv_execArgs h e e' ws :
  validateEnv h e = Ok (e', ws) →
  ExecContext.execArgs (Env.ctx e') =
    ExecContext.execArgs (Env.ctx e) ++ (if uid_quiet e then [] else getUidMap e).
Proof.
  intros (a & b & c0 & d & f & w1 & w2 & w3 & w4 & w6 & w7 &
          H1 & H2 & H3 & H4 & H6 & H7 & _)%validateEnv_steps.
  destruct (checkSockets_post _ _ _ _ H1) as [_ K1].
  destruct (checkSyscaps_post _ _ _ H3) as [_ K3].
  destruct (checkLabels_post _ _ _ _ H4) as [K4 _].
  destruct (checkHome_post _ _ _ _ H6) as (K6 & _).
  destruct (checkImage_post _ _ _ _ H7) as [_ K7].
  pose proof (kept_trans _ _ _ _ _ _ _ _ _ _ _ _ _ _ _ _ _ K3 K4) as K34.
  pose proof (kept_trans _ _ _ _ _ _ _ _ _ _ _ _ _ _ _ _ _ K6 K7) as K67.
  pose proof (kept_trans _ _ _ _ _ _ _ _ _ _ _ _ _ _ _ _ _ K34 K67) as K37.
  assert (Hq : uid_quiet a = uid_quiet e)
    by (apply uid_quiet_ext, (kept_others _ _ _ _ _ _ _ _ _ K1 eq_refl)).
  rewrite checkUid_spec, Hq in H2.
  rewrite (kept_execArgs _ _ _ _ _ _ _ _ _ K37 eq_refl).
  destruct (uid_quiet e); injection H2 as <- _.
  - rewrite app_nil_r. apply (kept_execArgs _ _ _ _ _ _ _ _ _ K1 eq_refl).
  - cbn [force_uidmap Env.ctx Env.set_ctx ExecContext.execArgs ExecContext.args
           ExecContext.set_execArgs].
    by rewrite (kept_execArgs _ _ _ _ _ _ _ _ _ K1 eq_refl).
Qed.

Lemma uid_quiet_caps e e' :
  (∀ c, c ≠ "selinux" → Env.cap c e' = Env.cap c e) → uid_quiet e' = uid_quiet e.
Proof. apply uid_quiet_ext. Qed.

(** The capabilities other than [selinux] before the validation. *)
Lemma resolveEnv_caps_before h env env1 env2 env3 args cliArgs cliArgs' fileArg :
  applyCapabilities h env = Ok env1 →
  applySettings h env1 = Ok (env2, args) →
  fileArgument h env2 cliArgs = Ok (env3, cliArgs', fileArg) →
  ∀ c, Env.cap c env3 = Env.cap c env.
Proof.
  intros H1 H2 H3 c.
  destruct (applyCapabilities_declared _ _ _ H1) as [_ C1].
  destruct (applySettings_declared _ _ _ _ H2) as [_ C2].
  destruct (fileArgument_post _ _ _ _ _ _ H3) as (_ & C3 & _).
  unfold Env.cap. by rewrite C3, C2, C1.
Qed.

(** X26: the runtime arguments that the capabilities leave in the context.
    After [prepareEnv], [ctx.execArgs] holds what it held before, then the
    arguments of the capabilities in the order of the catalogue ([--user
    1000] unless [root]; [--privileged]; [-it] and the detach keys for
    [terminal]; [--ipc=host]; one [--device] for each video device of the
    host, for [dri], [kvm] and [tun]; the uid map of [uidmap]), then the uid
    map forced by the validator, then [--userns] when [uidmap] is on and the
    namespace is the one of another container; nothing of what the
    environment declares enters this list, and the returned arguments end
    with it. *)
Theorem prepareEnv_execArgs so h env cliArgs r :
  prepareEnv so h env cliArgs = Ok r →
  ExecContext.execArgs (Env.ctx (env_after r)) =
    ExecContext.execArgs (Env.ctx env) ++ capabilitiesArgs h env ++
    (if uid_quiet env then [] else getUidMap env) ++
    (if Env.cap "uidmap" env && Str.startswith "container:" (chosen_network env)
     then ["--userns"; chosen_network env] else []) ∧
  ExecContext.execArgs (Env.ctx (env_after r)) `suffix_of` (returned r).1.2.
Proof.
  intros (env' & cliArgs' & ws & args & commandArgs & Hres & ->)%prepareEnv_resolveEnv.
  cbn [env_after returned Env.ctx Env.set_ctx fst snd].
  destruct (getArgs_keeps so h (Env.ctx env')) as (_ & _ & _).
  pose proof (getArgs_args so h (Env.ctx env')) as Ha. cbv zeta in Ha.
  assert (Hx : ExecContext.execArgs (ExecContext.getArgs so h (Env.ctx env')).1 =
               ExecContext.execArgs (Env.ctx env')).
  { rewrite getArgs_ctx. by destruct (decide _). }
  rewrite Hx. split.
  2: { rewrite Ha, !app_assoc. by apply suffix_app_r. }
  pose proof (resolveEnv_network _ _ _ _ _ _ _ _ Hres) as Hns.
  apply resolveEnv_steps in Hres as (env1 & env2 & env3 & env4 & fileArg &
                                      H1 & H2 & H3 & _ & H4 & ->).
  pose proof (resolveEnv_caps_before _ _ _ _ _ _ _ _ _ H1 H2 H3) as C3.
  destruct (validateEnv_post _ _ _ _ H4) as (_ & _ & C4 & _).
  assert (Hn4 : ExecContext.networkNamespace (Env.ctx env4) = chosen_network env).
  { rewrite <- Hns. symmetry. apply (settled_network _ _ (joinUserns_settled env4)). }
  assert (Hx4 : ExecContext.execArgs (Env.ctx env4) =
                ExecContext.execArgs (Env.ctx env) ++ capabilitiesArgs h env ++
                (if uid_quiet env then [] else getUidMap env)).
  { rewrite (validateEnv_execArgs _ _ _ _ H4).
    rewrite (om_execArgs _ _ (fileArgument_only_mounts _ _ _ _ _ _ H3)).
    destruct (applySettings_ctx _ _ _ _ H2) as (_ & -> & _).
    rewrite (applyCapabilities_execArgs _ _ _ H1).
    rewrite (uid_quiet_caps env env3) by (intros c _; apply C3).
    by rewrite <- app_assoc. }
  unfold joinUserns. rewrite (C4 "uidmap") by done. rewrite C3, Hn4.
  destruct (Env.cap "uidmap" env && Str.startswith "container:" (chosen_network env)).
  - cbn [Env.ctx Env.set_ctx ExecContext.execArgs ExecContext.args ExecContext.set_execArgs].
    rewrite Hx4. by rewrite <- !app_assoc.
  - rewrite Hx4. by rewrite app_nil_r.
Qed.

(** An environment with a terminal and a display, run as the user. *)
Definition terminal_env : Env :=
  Env.set_capabilities [("terminal", true); ("x11", true); ("dri", true)] fresh_env.

Lemma prepareEnv_execArgs_witness :
  ∃ r, prepareEnv remove_dups desktop_host terminal_env [] = Ok r ∧
       ExecContext.execArgs (Env.ctx (env_after r)) =
         ["--user"; "1000"; "-it"; "--detach-keys"; "ctrl-e,e"; "--device"; "/dev/dri";
          "--uidmap"; "1000:0:1"; "--uidmap"; "0:1:999"; "--uidmap"; "1001:1001:64535"] ∧
       ExecContext.execArgs (Env.ctx (env_after r)) `suffix_of` (returned r).1.2.
Proof.
  destruct (prepareEnv remove_dups desktop_host terminal_env []) as [r|x] eqn:Hr;
    [|vm_compute in Hr; discriminate Hr].
  exists r. split; [reflexivity|].
  destruct (prepareEnv_execArgs remove_dups desktop_host terminal_env [] r Hr) as [H1 H2].
  split; [|exact H2]. rewrite H1. reflexivity.
Defined.

(** * System capabilities, security options and working directory *)

(** The fields of the context written by [seccompCap], [selinuxCap],
    [setuidCap], [ptraceCap] and [mountCwdCap]. *)
Definition options (c : ExecContext) : list string * string * string * Path :=
  (ExecContext.syscaps c, ExecContext.seccomp c, ExecContext.seLinuxLabel c,
   ExecContext.cwd c).

(** What each entry of the catalogue does to these fields, by the name of
    the entry and the value of the capability. *)
Definition capabilityOptions (name : string) (active : bool)
    (o : list string * string * string * Path) : list string * string * string * Path :=
  let '(syscaps, seccomp, label, cwd) := o in
  (syscaps ++
     (if String.eqb name "setuid" && active then ["SETUID"; "SETGID"]
      else if String.eqb name "ptrace" && active then ["SYS_PTRACE"]
      else []),
   if String.eqb name "seccomp" && negb active then "unconfined" else seccomp,
   if String.eqb name "selinux" && negb active then "disable" else label,
   if String.eqb name "mount-cwd" && active then path_of "/data" else cwd).

Definition sets_options (name : string) (c : Capability) : Prop :=
  ∀ h active ctx env ctx' env',
    c h active ctx env = Ok (ctx', env') →
    options ctx' = capabilityOptions name active (options ctx).

Lemma webcam_fold_options devices ctx :
  options (foldl (λ ctx device,
                    ExecContext.args ["--device"; path_str (path_of "/dev" // device)] ctx)
             ctx devices) = options ctx.
Proof.
  revert ctx. induction devices as [|d devices IH]; intros ctx; simpl; [done|].
  by rewrite IH.
Qed.

Lemma Capabilities_set_options : Forall (λ nc, sets_options nc.1 nc.2) Capabilities.
Proof.
  unfold Capabilities, entry.
  repeat apply Forall_cons_2; try apply Forall_nil_2; cbn [fst snd];
    intros h active ctx env ctx' env' H; unfold_caps;
    repeat case_match; inv_bind; simplify_eq;
    try (by unfold options; cbn; rewrite ?app_nil_r, <- ?app_assoc).
  - destruct (gitLines_only_mounts _ _ _ _ Hr) as [_ S _ _ W _ L C _].
    unfold options. cbn. by rewrite S, W, L, C, app_nil_r.
  - rewrite webcam_fold_options. unfold options. cbn. by rewrite app_nil_r.
Qed.

Lemma runCaps_options h caps env0 :
  Forall (λ nc, keeps_env nc.2 ∧ sets_options nc.1 nc.2) caps →
  ∀ env env', (∀ c, Env.cap c env = Env.cap c env0) →
    runCaps h caps env = Ok env' →
    options (Env.ctx env') =
      foldl (λ o nc, capabilityOptions nc.1 (Env.cap nc.1 env0) o) (options (Env.ctx env)) caps.
Proof.
  unfold runCaps. induction 1 as [|[n c] caps [Hk Ha] _ IH]; intros env env' Hcaps H;
    cbn [foldM foldl] in *.
  - by injection H as <-.
  - apply bind_Ok in H as (env1 & H1 & H).
    unfold call in H1. apply bind_Ok in H1 as ([ctx1 e1] & H1 & [= <-]).
    destruct (Hk _ _ _ _ _ _ H1) as (_ & Hc & _).
    assert (Hcaps1 : ∀ c', Env.cap c' (Env.set_ctx ctx1 e1) = Env.cap c' env0).
    { intros c'. rewrite <- Hcaps. unfold Env.cap. simpl. by rewrite Hc. }
    rewrite (IH _ _ Hcaps1 H).
    cbn [Env.ctx Env.set_ctx fst snd]. by rewrite (Ha _ _ _ _ _ _ H1), Hcaps.
Qed.

Lemma capabilityOptions_eq name active syscaps seccomp label cwd :
  capabilityOptions name active (syscaps, seccomp, label, cwd) =
  (syscaps ++
     (if String.eqb name "setuid" && active then ["SETUID"; "SETGID"]
      else if String.eqb name "ptrace" && active then ["SYS_PTRACE"]
      else []),
   if String.eqb name "seccomp" && negb active then "unconfined" else seccomp,
   if String.eqb name "selinux" && negb active then "disable" else label,
   if String.eqb name "mount-cwd" && active then path_of "/data" else cwd).
Proof. reflexivity. Qed.

(** The catalogue as a whole. *)
Lemma Capabilities_options (value : string → bool) syscaps seccomp label cwd :
  foldl (λ o nc, capabilityOptions nc.1 (value nc.1) o) (syscaps, seccomp, label, cwd)
    Capabilities =
  (syscaps ++ (if value "setuid" then ["SETUID"; "SETGID"] else []) ++
     (if value "ptrace" then ["SYS_PTRACE"] else []),
   if value "seccomp" then seccomp else "unconfined",
   if value "selinux" then label else "disable",
   if value "mount-cwd" then path_of "/data" else cwd).
Proof.
  unfold Capabilities, entry. cbn [foldl fst snd].
  repeat match goal with
         | |- context [camelCaseToHyphen ?s] =>
             let n := eval vm_compute in (camelCaseToHyphen s) in
             change (camelCaseToHyphen s) with n
         end.
  rewrite !capabilityOptions_eq.
  repeat match goal with
         | |- context [String.eqb ?a ?b] =>
             let v := eval vm_compute in (String.eqb a b) in
             change (String.eqb a b) with v
         end.
  cbn [andb]. rewrite !app_nil_r. rewrite <- !app_assoc.
  by destruct (value "seccomp"), (value "selinux").
Qed.

(** The four fields after the capabilities. *)
Lemma applyCapabilities_options h env env' :
  applyCapabilities h env = Ok env' →
  ExecContext.syscaps (Env.ctx env') =
    ExecContext.syscaps (Env.ctx env) ++
    (if Env.cap "setuid" env then ["SETUID"; "SETGID"] else []) ++
    (if Env.cap "ptrace" env then ["SYS_PTRACE"] else []) ∧
  ExecContext.seccomp (Env.ctx env') =
    (if Env.cap "seccomp" env then ExecContext.seccomp (Env.ctx env) else "unconfined") ∧
  ExecContext.seLinuxLabel (Env.ctx env') =
    (if Env.cap "selinux" env then ExecContext.seLinuxLabel (Env.ctx env) else "disable") ∧
  ExecContext.cwd (Env.ctx env') =
    (if Env.cap "mount-cwd" env then path_of "/data" else ExecContext.cwd (Env.ctx env)).
Proof.
  intros H.
  pose proof (runCaps_options h Capabilities env
                ltac:(apply Forall_and; split;
                      [apply Capabilities_keep_env|apply Capabilities_set_options])
                env env' (λ _, eq_refl) H) as Ho.
  pose proof (Capabilities_options (λ n, Env.cap n env)
                (ExecContext.syscaps (Env.ctx env)) (ExecContext.seccomp (Env.ctx env))
                (ExecContext.seLinuxLabel (Env.ctx env)) (ExecContext.cwd (Env.ctx env)))
    as Hf.
  cbv beta in Hf. unfold options in Ho at 2. rewrite Hf in Ho. unfold options in Ho.
  by injection Ho as -> -> -> ->.
Qed.

Lemma validateEnv_syscaps h e e' ws :
  validateEnv h e = Ok (e', ws) →
  ExecContext.syscaps (Env.ctx e') =
    ExecContext.syscaps (Env.ctx e) ++ (if syscaps_quiet e then [] else ["NET_ADMIN"]).
Proof.
  intros (a & b & c0 & d & f & w1 & w2 & w3 & w4 & w6 & w7 &
          H1 & H2 & H3 & H4 & H6 & H7 & _)%validateEnv_steps.
  destruct (checkSockets_post _ _ _ _ H1) as [_ K1].
  pose proof (checkUid_post _ _ _ _ H2) as K2.
  destruct (checkLabels_post _ _ _ _ H4) as [K4 I4].
  destruct (checkHome_post _ _ _ _ H6) as (K6 & _).
  destruct (checkImage_post _ _ _ _ H7) as [_ K7].
  pose proof (kept_trans _ _ _ _ _ _ _ _ _ _ _ _ _ _ _ _ _ K1 K2) as K12.
  pose proof (kept_trans _ _ _ _ _ _ _ _ _ _ _ _ _ _ _ _ _ K6 K7) as K67.
  pose proof (kept_trans _ _ _ _ _ _ _ _ _ _ _ _ _ _ _ _ _ K4 K67) as K47.
  assert (Hq : syscaps_quiet b = syscaps_quiet e).
  { unfold syscaps_quiet.
    rewrite (kept_others _ _ _ _ _ _ _ _ _ K12 eq_refl) by done.
    by rewrite (kept_syscaps _ _ _ _ _ _ _ _ _ K12 eq_refl). }
  rewrite checkSyscaps_spec, Hq in H3.
  rewrite (kept_syscaps _ _ _ _ _ _ _ _ _ K47 eq_refl).
  destruct (syscaps_quiet e); injection H3 as <- <-; simpl.
  - rewrite app_nil_r. apply (kept_syscaps _ _ _ _ _ _ _ _ _ K12 eq_refl).
  - f_equal. apply (kept_syscaps _ _ _ _ _ _ _ _ _ K12 eq_refl).
Qed.

Lemma validateEnv_label h e e' ws :
  validateEnv h e = Ok (e', ws) →
  ExecContext.seLinuxLabel (Env.ctx e') = ExecContext.seLinuxLabel (Env.ctx e) ∨
  ExecContext.seLinuxLabel (Env.ctx e') = "disable".
Proof.
  intros (a & b & c0 & d & f & w1 & w2 & w3 & w4 & w6 & w7 &
          H1 & H2 & H3 & H4 & H6 & H7 & _)%validateEnv_steps.
  pose proof (checkUid_post _ _ _ _ H2) as K2.
  destruct (checkSyscaps_post _ _ _ H3) as [_ K3].
  destruct (checkHome_post _ _ _ _ H6) as (K6 & _).
  destruct (checkImage_post _ _ _ _ H7) as [_ K7].
  pose proof (kept_trans _ _ _ _ _ _ _ _ _ _ _ _ _ _ _ _ _ K2 K3) as K23.
  pose proof (kept_trans _ _ _ _ _ _ _ _ _ _ _ _ _ _ _ _ _ K6 K7) as K67.
  rewrite (kept_label _ _ _ _ _ _ _ _ _ K67 eq_refl).
  rewrite checkLabels_spec in H4.
  assert (Hd : ExecContext.seLinuxLabel (Env.ctx d) = ExecContext.seLinuxLabel (Env.ctx c0) ∨
               ExecContext.seLinuxLabel (Env.ctx d) = "disable").
  { destruct (Env.cap "selinux" c0 && HAS_SELINUX h); [|injection H4 as <- _; by left].
    apply bind_Ok in H4 as (ws' & _ & [= <- _]). destruct ws'; [by left|by right]. }
  rewrite (kept_label _ _ _ _ _ _ _ _ _ K23 eq_refl) in Hd.
  rewrite checkSockets_spec in H1. injection H1 as <- _.
  destruct (socket_quiet e); [done|]. destruct Hd as [->| ->]; by right.
Qed.

(** Every system capability of the context is rendered as [--cap-add]. *)
Lemma getArgs_cap_flag so h c s :
  set_order_valid so → s ∈ ExecContext.syscaps c →
  ∃ a b, (ExecContext.getArgs so h c).2 = a ++ ["--cap-add"; s] ++ b.
Proof.
  intros Hso Hs. pose proof (getArgs_args so h c) as Ha. cbv zeta in Ha. rewrite Ha.
  destruct (Hso (ExecContext.syscaps c)) as [_ Hin]. apply Hin in Hs.
  apply list_elem_of_split in Hs as (l1 & l2 & Hl).
  unfold ExecContext.capArgs. rewrite Hl, flat_map_app. cbn [flat_map].
  exists (ExecContext.securityArgs c ++ ExecContext.networkArgs c ++
          ExecContext.workdirArgs (ExecContext.getArgs so h c).1 ++
          ExecContext.mountArgs h c ++ flat_map (λ cap, ["--cap-add"; cap]) l1),
         (flat_map (λ cap, ["--cap-add"; cap]) l2 ++
          ExecContext.environArgs c ++ ExecContext.execArgs c).
  rewrite <- !app_assoc. reflexivity.
Qed.

(** The system capabilities before the validation. *)
Definition requested_syscaps (env : Env) : list string :=
  ExecContext.syscaps (Env.ctx env) ++
  (if Env.cap "setuid" env then ["SETUID"; "SETGID"] else []) ++
  (if Env.cap "ptrace" env then ["SYS_PTRACE"] else []) ++
  Env.syscaps env.

(** X27: the system capabilities of the container.  After [prepareEnv] the
    context holds those it held before, [SETUID] and [SETGID] for the
    [setuid] capability, [SYS_PTRACE] for [ptrace], the declared ones, and
    [NET_ADMIN] last when the [tun] capability is on and it was not among
    the others; with an iteration of the set that visits every member, each
    of them is passed with [--cap-add]. *)
Theorem prepareEnv_syscaps so h env cliArgs r :
  prepareEnv so h env cliArgs = Ok r →
  ExecContext.syscaps (Env.ctx (env_after r)) =
    requested_syscaps env ++
    (if Env.cap "tun" env && negb (bool_decide ("NET_ADMIN" ∈ requested_syscaps env))
     then ["NET_ADMIN"] else []) ∧
  (set_order_valid so →
   ∀ s, s ∈ ExecContext.syscaps (Env.ctx (env_after r)) →
        ∃ a b, (returned r).1.2 = a ++ ["--cap-add"; s] ++ b).
Proof.
  intros (env' & cliArgs' & ws & args & commandArgs & Hres & ->)%prepareEnv_resolveEnv.
  cbn [env_after returned Env.ctx Env.set_ctx fst snd].
  assert (Hx : ExecContext.syscaps (ExecContext.getArgs so h (Env.ctx env')).1 =
               ExecContext.syscaps (Env.ctx env')).
  { rewrite getArgs_ctx. by destruct (decide _). }
  rewrite Hx. split.
  2: { intros Hso s Hs. destruct (getArgs_cap_flag so h _ s Hso Hs) as (a & b & ->).
       exists (args ++ a), b. by rewrite <- app_assoc. }
  apply resolveEnv_steps in Hres as (env1 & env2 & env3 & env4 & fileArg &
                                      H1 & H2 & H3 & _ & H4 & ->).
  pose proof (resolveEnv_caps_before _ _ _ _ _ _ _ _ _ H1 H2 H3) as C3.
  destruct (applyCapabilities_options _ _ _ H1) as (S1 & _).
  destruct (applySettings_ctx _ _ _ _ H2) as (_ & _ & _ & S2 & _).
  pose proof (om_syscaps _ _ (fileArgument_only_mounts _ _ _ _ _ _ H3)) as S3.
  destruct (applyCapabilities_declared _ _ _ H1) as [D1 _].
  assert (S : ExecContext.syscaps (Env.ctx env3) = requested_syscaps env).
  { rewrite S3, S2, S1, (declared_syscaps _ _ D1). unfold requested_syscaps.
    by rewrite <- !app_assoc. }
  destruct (joinUserns_post env4) as (_ & _ & ->).
  rewrite (validateEnv_syscaps _ _ _ _ H4). unfold syscaps_quiet. rewrite C3, S.
  by destruct (Env.cap "tun" env), (bool_decide ("NET_ADMIN" ∈ requested_syscaps env)).
Qed.

(** An environment with a tunnel device and a debugger. *)
Definition tun_env : Env :=
  Env.set_capabilities [("tun", true); ("ptrace", true); ("root", true)] fresh_env.

Lemma prepareEnv_syscaps_witness :
  ∃ r, prepareEnv remove_dups desktop_host tun_env [] = Ok r ∧
       ExecContext.syscaps (Env.ctx (env_after r)) = ["SYS_PTRACE"; "NET_ADMIN"] ∧
       ∃ a b, (returned r).1.2 = a ++ ["--cap-add"; "NET_ADMIN"] ++ b.
Proof.
  destruct (prepareEnv remove_dups desktop_host tun_env []) as [r|x] eqn:Hr;
    [|vm_compute in Hr; discriminate Hr].
  exists r. split; [reflexivity|].
  destruct (prepareEnv_syscaps remove_dups desktop_host tun_env [] r Hr) as [H1 H2].
  split; [rewrite H1; reflexivity|].
  apply (H2 remove_dups_valid). rewrite H1. by apply (bool_decide_unpack _).
Defined.

(** Every security option of the context is rendered. *)
Lemma getArgs_security so h c :
  ∃ b, (ExecContext.getArgs so h c).2 = ExecContext.securityArgs c ++ b.
Proof.
  pose proof (getArgs_args so h c) as Ha. cbv zeta in Ha. rewrite Ha. by eexists.
Qed.

(** X28: the security options of the container.  Without the [seccomp]
    capability the container runs with [seccomp=unconfined], and without
    the [selinux] capability with [label=disable]: both protections are off
    unless the environment asks for them.  With [seccomp] the profile of
    the context is kept; the label is never anything else than the label
    the context had or [disable]. *)
Theorem prepareEnv_security so h env cliArgs r :
  prepareEnv so h env cliArgs = Ok r →
  let c := Env.ctx (env_after r) in
  ExecContext.seccomp c =
    (if Env.cap "seccomp" env then ExecContext.seccomp (Env.ctx env) else "unconfined") ∧
  (Env.cap "selinux" env = false → ExecContext.seLinuxLabel c = "disable") ∧
  (ExecContext.seLinuxLabel c = ExecContext.seLinuxLabel (Env.ctx env) ∨
   ExecContext.seLinuxLabel c = "disable") ∧
  (Env.cap "seccomp" env = false →
   ∃ a b, (returned r).1.2 = a ++ ["--security-opt"; "seccomp=unconfined"] ++ b) ∧
  (Env.cap "selinux" env = false →
   ∃ a b, (returned r).1.2 = a ++ ["--security-opt"; "label=disable"] ++ b).
Proof.
  intros (env' & cliArgs' & ws & args & commandArgs & Hres & ->)%prepareEnv_resolveEnv.
  cbn [env_after returned Env.ctx Env.set_ctx fst snd]. cbv zeta.
  assert (Hx : ExecContext.seccomp (ExecContext.getArgs so h (Env.ctx env')).1 =
               ExecContext.seccomp (Env.ctx env') ∧
               ExecContext.seLinuxLabel (ExecContext.getArgs so h (Env.ctx env')).1 =
               ExecContext.seLinuxLabel (Env.ctx env')).
  { rewrite getArgs_ctx. by destruct (decide _). }
  destruct Hx as [-> ->].
  destruct (getArgs_security so h (Env.ctx env')) as [rest Hargs]. rewrite Hargs.
  apply resolveEnv_steps in Hres as (env1 & env2 & env3 & env4 & fileArg &
                                      H1 & H2 & H3 & _ & H4 & ->).
  destruct (applyCapabilities_options _ _ _ H1) as (_ & C1 & L1 & _).
  assert (Hc3 : ExecContext.seccomp (Env.ctx env3) = ExecContext.seccomp (Env.ctx env1) ∧
                ExecContext.seLinuxLabel (Env.ctx env3) =
                ExecContext.seLinuxLabel (Env.ctx env1)).
  { destruct (fileArgument_only_mounts _ _ _ _ _ _ H3) as [_ _ _ _ _ _ -> -> _].
    unfold applySettings in H2. apply bind_Ok in H2 as (ports & _ & [= <- _]).
    cbn [Env.ctx Env.set_ctx].
    match goal with
    | |- context [foldl ?f ?c ?l] =>
        assert (Hom : only_mounts c (foldl f c l)) by apply mounts_fold_only_mounts;
        destruct Hom as [_ _ _ _ _ _ -> -> _]
    end.
    by destruct (negb (Str.eqb (Env.home env1) "")). }
  destruct Hc3 as [C3 L3].
  assert (Hj : ExecContext.seccomp (Env.ctx (joinUserns env4)) =
               ExecContext.seccomp (Env.ctx env4) ∧
               ExecContext.seLinuxLabel (Env.ctx (joinUserns env4)) =
               ExecContext.seLinuxLabel (Env.ctx env4)).
  { unfold joinUserns. by destruct (Env.cap "uidmap" env4 && _). }
  destruct Hj as [Cj Lj].
  pose proof (settled_seccomp _ _ (validateEnv_settled _ _ _ _ H4)) as C4.
  pose proof (validateEnv_label _ _ _ _ H4) as L4.
  assert (Hsec : ExecContext.seccomp (Env.ctx (joinUserns env4)) =
                 (if Env.cap "seccomp" env then ExecContext.seccomp (Env.ctx env)
                  else "unconfined")) by (by rewrite Cj, C4, C3, C1).
  assert (Hlab : Env.cap "selinux" env = false →
                 ExecContext.seLinuxLabel (Env.ctx (joinUserns env4)) = "disable").
  { intros Hs. rewrite Lj. rewrite L3, L1, Hs in L4. by destruct L4. }
  split; [exact Hsec|]. split; [exact Hlab|]. split.
  { rewrite Lj. rewrite L3, L1 in L4.
    destruct (Env.cap "selinux" env); [exact L4|]. right. by destruct L4. }
  split.
  - intros Hs. rewrite Hs in Hsec. unfold ExecContext.securityArgs.
    rewrite Hsec. simpl.
    exists (args ++ (if Str.eqb (ExecContext.seLinuxLabel (Env.ctx (joinUserns env4))) ""
                     then []
                     else ["--security-opt";
                           "label=" +:+ ExecContext.seLinuxLabel (Env.ctx (joinUserns env4))])),
           rest.
    by rewrite <- !app_assoc.
  - intros Hs. specialize (Hlab Hs). unfold ExecContext.securityArgs.
    rewrite Hlab.
    exists args,
      ((if Str.eqb (ExecContext.seccomp (Env.ctx (joinUserns env4))) "" then []
        else ["--security-opt";
              "seccomp=" +:+ ExecContext.seccomp (Env.ctx (joinUserns env4))]) ++ rest).
    change (Str.eqb "disable" "") with false. cbv iota.
    rewrite <- app_assoc. reflexivity.
Qed.

Lemma prepareEnv_security_witness :
  ∃ r, prepareEnv remove_dups desktop_host fresh_env [] = Ok r ∧
       ExecContext.seccomp (Env.ctx (env_after r)) = "unconfined" ∧
       ExecContext.seLinuxLabel (Env.ctx (env_after r)) = "disable" ∧
       ∃ a b, (returned r).1.2 = a ++ ["--security-opt"; "seccomp=unconfined"] ++ b.
Proof.
  destruct (prepareEnv remove_dups desktop_host fresh_env []) as [r|x] eqn:Hr;
    [|vm_compute in Hr; discriminate Hr].
  exists r. split; [reflexivity|].
  pose proof (prepareEnv_security remove_dups desktop_host fresh_env [] r Hr) as H.
  cbv zeta in H. destruct H as (H1 & H2 & _ & H4 & _).
  split; [exact H1|]. split; [by apply H2|by apply H4].
Defined.

(** Every context is rendered with its working directory. *)
Lemma getArgs_workdir so h c :
  ∃ a b, (ExecContext.getArgs so h c).2 =
         a ++ ["--workdir"; path_str (ExecContext.cwd (ExecContext.getArgs so h c).1)] ++ b.
Proof.
  pose proof (getArgs_args so h c) as Ha. cbv zeta in Ha. rewrite Ha.
  exists (ExecContext.securityArgs c ++ ExecContext.networkArgs c). eexists.
  unfold ExecContext.workdirArgs. rewrite <- !app_assoc. reflexivity.
Qed.

Lemma applyCapabilities_data_mounted h env env' :
  applyCapabilities h env = Ok env' → Env.cap "mount-cwd" env = true →
  dict_has (path_of "/data") (ExecContext.mounts (Env.ctx env')) = true.
Proof.
  unfold applyCapabilities. rewrite (Capabilities_split 20). unfold runCaps.
  rewrite foldM_app. intros H Hcap. apply bind_Ok in H as (e0 & H0 & H).
  change (drop 20 Capabilities)
    with (entry "mountCwdCap" mountCwdCap :: drop 21 Capabilities) in H.
  cbn [foldM] in H. apply bind_Ok in H as (e1 & H1 & H2).
  destruct (runCaps_capabilities h _ _ _ (keep_env_take 20) H0) as [_ C0].
  pose proof (runCaps_ctx grows h _ grows_refl grows_trans
                (Forall_drop _ 21 _ Capabilities_grow) _ _ H2) as (_ & _ & M & _).
  apply M. unfold entry in H1. cbn [fst snd] in H1.
  change (camelCaseToHyphen _) with "mount-cwd" in H1.
  rewrite C0, Hcap in H1. unfold call, mountCwdCap in H1. simpl in H1. injection H1 as <-.
  cbn [Env.ctx Env.set_ctx ExecContext.mounts ExecContext.mount ExecContext.set_mounts
         ExecContext.cwd ExecContext.set_cwd].
  rewrite dict_has_set. by rewrite bool_decide_true.
Qed.

(** The working directory asked for: [/data] with the [mount-cwd]
    capability, otherwise the one of the context. *)
Definition requested_cwd (env : Env) : Path :=
  if Env.cap "mount-cwd" env then path_of "/data" else ExecContext.cwd (Env.ctx env).

(** X29: the working directory of the container.  With the [mount-cwd]
    capability it is [/data], which is then a mount point; otherwise it is
    the working directory of the context, and when that is the empty path,
    the home of the user of the container.  The returned arguments always
    hold [--workdir] with this directory. *)
Theorem prepareEnv_workdir so h env cliArgs r :
  prepareEnv so h env cliArgs = Ok r →
  let workdir :=
    if decide (requested_cwd env = path_empty) then path_of (user_home env)
    else requested_cwd env in
  ExecContext.cwd (Env.ctx (env_after r)) = workdir ∧
  (∃ a b, (returned r).1.2 = a ++ ["--workdir"; path_str workdir] ++ b) ∧
  (Env.cap "mount-cwd" env = true →
   dict_has (path_of "/data") (ExecContext.mounts (Env.ctx (env_after r))) = true).
Proof.
  intros (env' & cliArgs' & ws & args & commandArgs & Hres & ->)%prepareEnv_resolveEnv.
  cbn [env_after returned Env.ctx Env.set_ctx fst snd]. cbv zeta.
  destruct (getArgs_workdir so h (Env.ctx env')) as (a & b & Hargs).
  destruct (getArgs_keeps so h (Env.ctx env')) as (_ & _ & (_ & _ & M5 & _)).
  apply resolveEnv_steps in Hres as (env1 & env2 & env3 & env4 & fileArg &
                                      H1 & H2 & H3 & _ & H4 & ->).
  destruct (applyCapabilities_options _ _ _ H1) as (_ & _ & _ & W1).
  pose proof (applyCapabilities_home _ _ _ H1) as Hhome.
  destruct (resolveEnv_home_steps _ _ _ _ _ _ _ _ _ _ H2 H3 H4) as (_ & _ & Hh4).
  assert (W4 : ExecContext.cwd (Env.ctx (joinUserns env4)) = requested_cwd env).
  { rewrite (settled_cwd _ _ (joinUserns_settled env4)).
    rewrite (settled_cwd _ _ (validateEnv_settled _ _ _ _ H4)).
    rewrite (om_cwd _ _ (fileArgument_only_mounts _ _ _ _ _ _ H3)).
    unfold applySettings in H2. apply bind_Ok in H2 as (ports & _ & [= <- _]).
    cbn [Env.ctx Env.set_ctx].
    match goal with
    | |- context [foldl ?f ?c ?l] =>
        assert (Hom : only_mounts c (foldl f c l)) by apply mounts_fold_only_mounts;
        rewrite (om_cwd _ _ Hom)
    end.
    cbn [ExecContext.cwd ExecContext.set_environ ExecContext.set_syscaps].
    unfold requested_cwd. rewrite <- W1.
    by destruct (negb (Str.eqb (Env.home env1) "")). }
  assert (Hj : ExecContext.home (Env.ctx (joinUserns env4)) = path_of (user_home env)).
  { transitivity (ExecContext.home (Env.ctx env4)).
    - unfold joinUserns. by destruct (Env.cap "uidmap" env4 && _).
    - by rewrite Hh4. }
  assert (Hcwd : ExecContext.cwd (ExecContext.getArgs so h (Env.ctx (joinUserns env4))).1 =
                 (if decide (requested_cwd env = path_empty) then path_of (user_home env)
                  else requested_cwd env)).
  { rewrite getArgs_ctx, W4.
    destruct (decide (requested_cwd env = path_empty)); [|exact W4]. by simpl. }
  split; [exact Hcwd|]. split.
  - exists (args ++ a), b. rewrite Hargs, Hcwd. by rewrite <- app_assoc.
  - intros Hcap. apply M5.
    destruct (settled_grows _ _ (joinUserns_settled env4)) as (_ & _ & M4 & _). apply M4.
    destruct (grows_trans _ _ _ (applySettings_grows _ _ _ _ H2)
                (grows_trans _ _ _ (fileArgument_grows _ _ _ _ _ _ H3)
                   (settled_grows _ _ (validateEnv_settled _ _ _ _ H4)))) as (_ & _ & M & _).
    apply M. by apply (applyCapabilities_data_mounted h env).
Qed.

Lemma prepareEnv_workdir_witness :
  ∃ r, prepareEnv remove_dups desktop_host cwd_env [] = Ok r ∧
       ExecContext.cwd (Env.ctx (env_after r)) = path_of "/data" ∧
       (∃ a b, (returned r).1.2 = a ++ ["--workdir"; "/data"] ++ b) ∧
       dict_has (path_of "/data") (ExecContext.mounts (Env.ctx (env_after r))) = true.
Proof.
  destruct (prepareEnv remove_dups desktop_host cwd_env []) as [r|x] eqn:Hr;
    [|vm_compute in Hr; discriminate Hr].
  exists r. split; [reflexivity|].
  pose proof (prepareEnv_workdir remove_dups desktop_host cwd_env [] r Hr) as H.
  cbv zeta in H. destruct H as (H1 & H2 & H3).
  split; [exact H1|]. split; [exact H2|]. by apply H3.
Defined.

(** * The flags of the image *)

Definition keeps_flags (c : Capability) : Prop :=
  ∀ h active ctx env ctx' env',
    c h active ctx env = Ok (ctx', env') →
    Env.mountCache env' = Env.mountCache env ∧ Env.autoUpdate env' = Env.autoUpdate env.

(** Every capability but [mountCacheCap] and [autoUpdateCap] keeps the two
    flags. *)
Lemma Capabilities_keep_flags :
  Forall (λ nc, keeps_flags nc.2) (take 22 Capabilities ++ drop 24 Capabilities).
Proof.
  unfold Capabilities, entry. cbn [take drop app].
  repeat apply Forall_cons_2; try apply Forall_nil_2; simpl;
    intros h active ctx env ctx' env' H; unfold_caps;
    repeat case_match; inv_bind; simplify_eq; done.
Qed.

Lemma runCaps_flags h caps :
  Forall (λ nc, keeps_flags nc.2) caps →
  ∀ env env', runCaps h caps env = Ok env' →
    Env.mountCache env' = Env.mountCache env ∧ Env.autoUpdate env' = Env.autoUpdate env.
Proof.
  intros Hcaps. unfold runCaps.
  apply (foldM_inv (λ e e', Env.mountCache e' = Env.mountCache e ∧
                            Env.autoUpdate e' = Env.autoUpdate e)).
  - done.
  - intros ??? [-> ->] [-> ->]. done.
  - eapply Forall_impl; [exact Hcaps|].
    intros [n c] Hc s s' H. unfold call in H. inv_bind.
    by destruct (Hc _ _ _ _ _ _ Hr) as [Hp Hm].
Qed.

Lemma applyCapabilities_flags h env env' :
  applyCapabilities h env = Ok env' →
  Env.mountCache env' = Env.mountCache env || Env.cap "mount-cache" env ∧
  Env.autoUpdate env' = Env.autoUpdate env || Env.cap "auto-update" env.
Proof.
  unfold applyCapabilities. rewrite (Capabilities_split 22). unfold runCaps.
  rewrite foldM_app. intros H. apply bind_Ok in H as (e0 & H0 & H).
  change (drop 22 Capabilities)
    with (entry "mountCacheCap" mountCacheCap :: entry "autoUpdateCap" autoUpdateCap ::
          drop 24 Capabilities) in H.
  cbn [foldM] in H. apply bind_Ok in H as (e1 & H1 & H).
  apply bind_Ok in H as (e2 & H2 & H3).
  pose proof Capabilities_keep_flags as Hk. apply Forall_app in Hk as [Hk0 Hk3].
  destruct (runCaps_flags h _ Hk0 _ _ H0) as [M0 U0].
  destruct (runCaps_flags h _ Hk3 _ _ H3) as [-> ->].
  destruct (runCaps_capabilities h _ _ _ (keep_env_take 22) H0) as [_ C0].
  unfold entry in H1, H2. cbn [fst snd] in H1, H2.
  change (camelCaseToHyphen _) with "mount-cache" in H1.
  change (camelCaseToHyphen _) with "auto-update" in H2.
  rewrite C0 in H1. unfold call, mountCacheCap in H1.
  assert (C1 : Env.cap "auto-update" e1 = Env.cap "auto-update" env).
  { rewrite <- C0. by destruct (Env.cap "mount-cache" env); simpl in H1; injection H1 as <-. }
  rewrite C1 in H2. unfold call, autoUpdateCap in H2.
  destruct (Env.cap "mount-cache" env), (Env.cap "auto-update" env);
    simpl in H1, H2; injection H1 as <-; injection H2 as <-; simpl;
    rewrite ?M0, ?U0, ?orb_true_r, ?orb_false_r; done.
Qed.

Lemma validateEnv_flags h e e' ws :
  validateEnv h e = Ok (e', ws) →
  Env.mountCache e' = Env.mountCache e ∧ Env.autoUpdate e' = Env.autoUpdate e.
Proof.
  intros (a & b & c & d & f & w1 & w2 & w3 & w4 & w6 & w7 &
          H1 & H2 & H3 & H4 & H6 & H7 & _)%validateEnv_steps.
  assert (F1 : Env.mountCache a = Env.mountCache e ∧ Env.autoUpdate a = Env.autoUpdate e).
  { rewrite checkSockets_spec in H1. injection H1 as <- _. by destruct (socket_quiet e). }
  assert (F2 : Env.mountCache b = Env.mountCache a ∧ Env.autoUpdate b = Env.autoUpdate a).
  { rewrite checkUid_spec in H2. by destruct (uid_quiet a); injection H2 as <- _. }
  assert (F3 : Env.mountCache c = Env.mountCache b ∧ Env.autoUpdate c = Env.autoUpdate b).
  { rewrite checkSyscaps_spec in H3. by destruct (syscaps_quiet b); injection H3 as <- _. }
  assert (F4 : Env.mountCache d = Env.mountCache c ∧ Env.autoUpdate d = Env.autoUpdate c).
  { rewrite checkLabels_spec in H4. destruct (Env.cap "selinux" c && HAS_SELINUX h).
    - apply bind_Ok in H4 as (ws' & _ & [= <- _]). by destruct ws'.
    - by injection H4 as <- _. }
  assert (F6 : Env.mountCache f = Env.mountCache d ∧ Env.autoUpdate f = Env.autoUpdate d).
  { destruct (home_quiet d) eqn:Hq.
    - rewrite checkHome_quiet in H6 by done. by injection H6 as <- _.
    - rewrite checkHome_fires in H6 by done.
      apply bind_Ok in H6 as (f' & Hf & [= <- _]).
      unfold call, mountRunCap in Hf. destruct (Env.runDir d); [|done].
      simpl in Hf. by injection Hf as <-. }
  assert (F7 : Env.mountCache e' = Env.mountCache f ∧ Env.autoUpdate e' = Env.autoUpdate f).
  { rewrite checkImage_spec in H7. injection H7 as <- _. by destruct (image_quiet f). }
  destruct F1 as [<- <-], F2 as [<- <-], F3 as [<- <-], F4 as [<- <-], F6 as [<- <-].
  exact F7.
Qed.

(** X30: the two flags that the capabilities raise.  After [prepareEnv]
    the build cache is mounted ([env.mountCache]) when it was before or the
    [mount-cache] capability is on, and the image is updated
    ([env.autoUpdate]) when it was before or the [auto-update] capability
    is on: a capability that is off never lowers a flag, and nothing else
    in the preparation touches them. *)
Theorem prepareEnv_flags so h env cliArgs r :
  prepareEnv so h env cliArgs = Ok r →
  Env.mountCache (env_after r) = Env.mountCache env || Env.cap "mount-cache" env ∧
  Env.autoUpdate (env_after r) = Env.autoUpdate env || Env.cap "auto-update" env.
Proof.
  intros (env' & cliArgs' & ws & args & commandArgs & Hres & ->)%prepareEnv_resolveEnv.
  cbn [env_after].
  apply resolveEnv_steps in Hres as (env1 & env2 & env3 & env4 & fileArg &
                                      H1 & H2 & H3 & _ & H4 & ->).
  destruct (applyCapabilities_flags _ _ _ H1) as [M1 U1].
  assert (F2 : Env.mountCache env2 = Env.mountCache env1 ∧
               Env.autoUpdate env2 = Env.autoUpdate env1).
  { unfold applySettings in H2. by apply bind_Ok in H2 as (ports & _ & [= <- _]). }
  assert (F3 : Env.mountCache env3 = Env.mountCache env2 ∧
               Env.autoUpdate env3 = Env.autoUpdate env2).
  { by destruct (fileArgument_set_ctx _ _ _ _ _ _ H3) as [c ->]. }
  destruct (validateEnv_flags _ _ _ _ H4) as [M4 U4].
  assert (F5 : ∀ c, Env.mountCache (Env.set_ctx c (joinUserns env4)) = Env.mountCache env4 ∧
                    Env.autoUpdate (Env.set_ctx c (joinUserns env4)) = Env.autoUpdate env4).
  { intros c. unfold joinUserns. by destruct (Env.cap "uidmap" env4 && _). }
  destruct (F5 (ExecContext.getArgs so h (Env.ctx (joinUserns env4))).1) as [-> ->].
  destruct F2 as [M2 U2], F3 as [M3 U3].
  by rewrite M4, U4, M3, U3, M2, U2, M1, U1.
Qed.

(** An environment that keeps its image up to date. *)
Definition updated_env : Env := Env.set_capabilities [("auto-update", true)] fresh_env.

Lemma prepareEnv_flags_witness :
  ∃ r, prepareEnv remove_dups desktop_host updated_env [] = Ok r ∧
       Env.mountCache (env_after r) = false ∧ Env.autoUpdate (env_after r) = true.
Proof.
  destruct (prepareEnv remove_dups desktop_host updated_env []) as [r|x] eqn:Hr;
    [|vm_compute in Hr; discriminate Hr].
  exists r. split; [reflexivity|].
  exact (prepareEnv_flags remove_dups desktop_host updated_env [] r Hr).
Defined.
